(** * The statistical test advisor: a shallow embedding of its engine

    The development follows the JavaScript sources of the repository:

    - [StatisticalTests] (the main-thread engine: test catalogue,
      recommender, assumption checks, test runners, numeric helpers),
    - [StatsLib] and the message handlers of the statistics worker,
    - [DataValidator.calculatePercentile],
    - [StatisticsApp.runSelectedAnalysis] / [runAnalysisWithWorker]
      (the offload coordinator).

    Modelling conventions.

    - JavaScript numbers are modelled by exact numbers: rationals [Q] in
      the routines that only add, multiply, divide, compare and round
      (ranks, tie correction, percentiles, assumption checks), and real
      numbers [R] where the source takes square roots (the t-tests).
      Rounding, NaN and the infinities are outside the model; where the
      source can reach them the model says so explicitly.
    - [===] on numbers is [Qeq_bool] (numeric equality), on strings
      [String.eqb].
    - An [undefined] read (array index out of range, absent object key)
      is [None].
    - A thrown exception is [Err msg]; [try]/[catch] is a [match] on the
      outcome.
    - [Array.prototype.sort] is a stable sort (ECMAScript 2019): a stable
      insertion sort driven by the comparator.
    - The names [ss] and [jStat] are taken to be bound to the two
      libraries the source imports.  The library calls [jStat.*]
      (distribution functions) are parameters of the sections that use
      them; [ss.mean] and [ss.standardDeviation] are the arithmetic mean
      and the population standard deviation (denominator [n]).
      [jStat.noncentralF], which the imported jStat 1.9.6 does not
      have, is [undefined].
    - An object literal that the source fills key by key holds its own
      properties ([JSObject]).  The names that every object inherits
      ([constructor], [toString], [__proto__], ...) matter where the
      source reads such an object before it writes: [groupMapOf] models
      the read, and [frequenciesOf] counts the strings that are not
      such names. *)

From stdpp Require Import base gmap strings.
From Stdlib Require Import ZArith QArith Qround Qabs Reals Lra Lqa Lia.
From Stdlib Require Import String Ascii DecimalString Bool List Permutation Sorted.
Import ListNotations.

(** [lra] on rationals and on reals. *)
Ltac qlra := Lqa.lra.
Ltac rlra := Lra.lra.

Close Scope Q_scope.
Close Scope R_scope.
Close Scope string_scope.
Open Scope nat_scope.

(** ** Exceptions *)

Inductive outcome (A : Type) : Type :=
| Ok (a : A)
| Err (message : string).
Arguments Ok {A} a.
Arguments Err {A} message.

Definition bind {A B : Type} (r : outcome A) (k : A -> outcome B) : outcome B :=
  match r with
  | Ok a => k a
  | Err m => Err m
  end.

Notation "'let*' x ':=' r 'in' k" := (bind r (fun x => k))
  (at level 10, x name, r at level 100, k at level 200).

(** ** [[...new Set(groups)]]: distinct labels in order of first occurrence *)

Definition label := string.

Definition set_add (acc : list label) (g : label) : list label :=
  if existsb (String.eqb g) acc then acc else acc ++ [g].

Definition uniqueGroups (groups : list label) : list label :=
  fold_left set_add groups [].

(** [values.filter((_, i) => groups[i] === group)]: the values at the
    positions where [groups] carries [group]; a position beyond the end
    of [groups] reads [undefined], which equals no label. *)
Fixpoint groupValues {A : Type} (values : list A) (groups : list label)
  (group : label) : list A :=
  match values, groups with
  | v :: vs, g :: gs =>
      if String.eqb g group then v :: groupValues vs gs group
      else groupValues vs gs group
  | _, _ => []
  end.

(** ** [Array.prototype.sort(compare)] as a stable insertion sort

    [le a b] stands for [compare(a, b) <= 0]. *)

Section StableSort.
Context {A : Type} (le : A -> A -> bool).

Fixpoint insert_sorted (x : A) (l : list A) : list A :=
  match l with
  | [] => [x]
  | y :: t => if le x y then x :: y :: t else y :: insert_sorted x t
  end.

Fixpoint stable_sort (l : list A) : list A :=
  match l with
  | [] => []
  | x :: t => insert_sorted x (stable_sort t)
  end.

End StableSort.

(** * TestCatalog and Recommender ([StatisticalTests], main thread) *)

Module Recommender.
Local Open Scope string_scope.
Local Open Scope Z_scope.

(** A catalogue entry.  The display metadata of the source ([name],
    [description], [conditions], [formula], [icon], [references],
    [recommendedSampleSize]) plays no part in the scoring and is left
    out. *)
Record TestDefinition := {
  id : string;
  category : string;
  type : string;
  assumptions : list string;
  minGroups : Z;
  maxGroups : Z;
  minSampleSize : Z
}.

(** [initializeTestsDatabase()] *)
Definition testsDatabase : list TestDefinition := [
  {| id := "independent-t-test"; category := "parametric"; type := "comparison";
     assumptions := ["normality"; "homogeneity"];
     minGroups := 2; maxGroups := 2; minSampleSize := 2 |};
  {| id := "paired-t-test"; category := "parametric"; type := "comparison";
     assumptions := ["normality"];
     minGroups := 2; maxGroups := 2; minSampleSize := 2 |};
  {| id := "one-way-anova"; category := "parametric"; type := "comparison";
     assumptions := ["normality"; "homogeneity"];
     minGroups := 3; maxGroups := 100; minSampleSize := 2 |};
  {| id := "mann-whitney"; category := "nonparametric"; type := "comparison";
     assumptions := [];
     minGroups := 2; maxGroups := 2; minSampleSize := 2 |};
  {| id := "kruskal-wallis"; category := "nonparametric"; type := "comparison";
     assumptions := [];
     minGroups := 3; maxGroups := 100; minSampleSize := 2 |};
  {| id := "pearson-correlation"; category := "parametric"; type := "association";
     assumptions := ["normality"; "linearity"];
     minGroups := 0; maxGroups := 0; minSampleSize := 3 |};
  {| id := "spearman-correlation"; category := "nonparametric"; type := "association";
     assumptions := [];
     minGroups := 0; maxGroups := 0; minSampleSize := 3 |};
  {| id := "chi-square-independence"; category := "nonparametric"; type := "association";
     assumptions := ["expected_counts"];
     minGroups := 0; maxGroups := 0; minSampleSize := 20 |};
  {| id := "simple-linear-regression"; category := "parametric"; type := "prediction";
     assumptions := ["normality"; "linearity"; "homoscedasticity"; "independence"];
     minGroups := 0; maxGroups := 0; minSampleSize := 10 |};
  {| id := "wilcoxon-signed-rank"; category := "nonparametric"; type := "comparison";
     assumptions := ["symmetry"];
     minGroups := 2; maxGroups := 2; minSampleSize := 2 |}
].

(** [getTestById(testId)] *)
Definition getTestById (testId : string) : option TestDefinition :=
  List.find (fun test => String.eqb (id test) testId) testsDatabase.

(** The four slots of the wizard; a slot not chosen yet is [None]. *)
Record WizardSelection := {
  design : option string;
  characteristics : option string;
  samples : option string;
  groups : option string
}.

(** The [dataInfo] argument: [groups] and [values] are the raw cells of
    the two selected columns. *)
Record DataInfo := {
  dataGroups : option (list label);
  dataValues : option (list string)
}.

(** [slot === 'literal'] *)
Definition selected (slot : option string) (literal : string) : bool :=
  match slot with
  | Some s => String.eqb s literal
  | None => false
  end.

(** [String.prototype.includes] *)
Fixpoint includes (s needle : string) : bool :=
  String.prefix needle s ||
  match s with
  | EmptyString => false
  | String _ rest => includes rest needle
  end.

(** [getSuitabilityLevel(score)]; the four literals of the source are
    the Arabic words for excellent, very good, good and acceptable. *)
Definition excellent : string := "ممتاز".
Definition very_good : string := "جيد جداً".
Definition good : string := "جيد".
Definition acceptable : string := "مقبول".

Definition getSuitabilityLevel (score : Z) : string :=
  if 8 <=? score then excellent
  else if 6 <=? score then very_good
  else if 4 <=? score then good
  else acceptable.

Definition bonus (condition : bool) (points : Z) : Z :=
  if condition then points else 0.

(** The body of the [forEach] of [getRecommendations]: the additive
    score of one catalogue entry. *)
Definition scoreOf (selections : WizardSelection) (dataInfo : option DataInfo)
  (test : TestDefinition) : Z :=
  let score := 0 in
  (* Design matching *)
  let score := score + bonus (selected (design selections) "comparison" && String.eqb (type test) "comparison") 3 in
  let score := score + bonus (selected (design selections) "association" && String.eqb (type test) "association") 3 in
  let score := score + bonus (selected (design selections) "prediction" && String.eqb (type test) "prediction") 3 in
  (* Characteristics matching *)
  let score := score + bonus (selected (characteristics selections) "continuous-normal" && String.eqb (category test) "parametric") 2 in
  let score := score + bonus (selected (characteristics selections) "continuous-nonnormal" && String.eqb (category test) "nonparametric") 2 in
  let score := score + bonus (selected (characteristics selections) "categorical" && String.eqb (id test) "chi-square-independence") 2 in
  let score := score + bonus (selected (characteristics selections) "ordinal" && String.eqb (category test) "nonparametric") 2 in
  (* Sample type matching *)
  let score := score + bonus (selected (samples selections) "independent" && includes (id test) "independent") 2 in
  let score := score + bonus (selected (samples selections) "paired" &&
                              (includes (id test) "paired" || String.eqb (id test) "wilcoxon-signed-rank")) 2 in
  (* Group count matching *)
  let score := score + bonus (selected (groups selections) "2" && (minGroups test =? 2) && (maxGroups test =? 2)) 2 in
  let score := score + bonus (selected (groups selections) "3+" && (3 <=? minGroups test)) 2 in
  let score := score + bonus (selected (groups selections) "variable" && (minGroups test =? 0)) 2 in
  (* Data compatibility *)
  match dataInfo with
  | Some {| dataGroups := Some dgroups; dataValues := Some dvalues |} =>
      let uniqueCount := Z.of_nat (length (uniqueGroups dgroups)) in
      let score := score - bonus ((0 <? minGroups test) && (uniqueCount <? minGroups test)) 5 in
      let score := score - bonus ((0 <? maxGroups test) && (maxGroups test <? uniqueCount)) 5 in
      let score := score - bonus (Z.of_nat (length dvalues) <? minSampleSize test) 3 in
      score
  | _ => score
  end.

Record Recommendation := {
  test : TestDefinition;
  score : Z;
  suitability : string
}.

Definition recommend (selections : WizardSelection) (dataInfo : option DataInfo)
  (t : TestDefinition) : Recommendation :=
  let s := scoreOf selections dataInfo t in
  {| test := t; score := s; suitability := getSuitabilityLevel s |}.

(** The entries pushed by the [forEach], in catalogue order. *)
Definition candidates (selections : WizardSelection) (dataInfo : option DataInfo)
  : list Recommendation :=
  List.filter (fun r => 0 <? score r)
    (List.map (recommend selections dataInfo) testsDatabase).

(** [(a, b) => b.score - a.score] is not positive *)
Definition byScoreDescending (a b : Recommendation) : bool :=
  score b - score a <=? 0.

(** [getRecommendations(selections, dataInfo)] *)
Definition getRecommendations (selections : WizardSelection)
  (dataInfo : option DataInfo) : list Recommendation :=
  firstn 3 (stable_sort byScoreDescending (candidates selections dataInfo)).

(** A data set of [n] rows, the first [k] in group A and the others in
    group B. *)
Definition twoGroupData (k n : nat) : DataInfo :=
  {| dataGroups := Some (repeat "A" k ++ repeat "B" (n - k))%list;
     dataValues := Some (repeat "1.5" n) |}.

Definition normalComparisonOfTwo (s : option string) : WizardSelection :=
  {| design := Some "comparison"; characteristics := Some "continuous-normal";
     samples := s; groups := Some "2" |}.

End Recommender.


(** * NumericSummary: percentiles, ranks and tie correction *)

Module NumericSummary.
Local Open Scope Q_scope.

Definition ofNat (n : nat) : Q := inject_Z (Z.of_nat n).

(** [array[i]] for a JavaScript number [i] that is an integer: a negative
    or too large index reads [undefined]. *)
Definition at_index {A : Type} (array : list A) (i : Z) : option A :=
  if (i <? 0)%Z then None else array !! Z.to_nat i.

(** [calculatePercentile(sortedValues, percentile)], the same text in
    [StatisticalTests] and in [DataValidator].  [None] stands for the
    [undefined]/[NaN] the source yields when an index falls outside the
    array. *)
Definition calculatePercentile (sortedValues : list Q) (percentile : Q) : option Q :=
  let index := (percentile / 100) * (ofNat (length sortedValues) - 1) in
  let lower := Qfloor index in
  let upper := Qceiling index in
  let weight := index - inject_Z lower in
  if (lower =? upper)%Z then at_index sortedValues lower
  else
    match at_index sortedValues lower, at_index sortedValues upper with
    | Some low, Some up => Some (low * (1 - weight) + up * weight)
    | _, _ => None
    end.

(** ** Ranks *)

(** [{ value, index }] of [StatisticalTests.calculateRanks] (the worker
    names the same two fields [val] and [idx]). *)
Record Indexed := { value : Q; index : nat }.

(** [values.map((value, index) => ({ value, index }))] *)
Definition withIndices (values : list Q) : list Indexed :=
  imap (fun index value => {| value := value; index := index |}) values.

(** The comparator [(a, b) => a.value - b.value] is not positive. *)
Definition byValue {A : Type} (key : A -> Q) (a b : A) : bool :=
  Qle_bool (key a - key b) 0.

(** [while (j + 1 < values.length &&
            withIndices[j + 1].value === withIndices[i].value) j++] *)
Fixpoint tieEnd (w : list Indexed) (i j fuel : nat) : nat :=
  match fuel with
  | O => j
  | S fuel' =>
      match w !! (j + 1)%nat, w !! i with
      | Some next, Some current =>
          if Qeq_bool (value next) (value current) then tieEnd w i (j + 1) fuel' else j
      | _, _ => j
      end
  end.

(** [for (let k = i; k <= j; k++) ranks[withIndices[k].index] = averageRank],
    with [count] the number of indices [k] still to visit. *)
Fixpoint assignRanks (w : list Indexed) (averageRank : Q) (k count : nat)
  (ranks : list (option Q)) : list (option Q) :=
  match count with
  | O => ranks
  | S count' =>
      match w !! k with
      | Some item =>
          assignRanks w averageRank (S k) count' (<[index item := Some averageRank]> ranks)
      | None => ranks
      end
  end.

(** The outer [while (i < values.length)] loop. *)
Fixpoint rankLoop (w : list Indexed) (n i fuel : nat) (ranks : list (option Q))
  : list (option Q) :=
  match fuel with
  | O => ranks
  | S fuel' =>
      if (i <? n)%nat then
        let j := tieEnd w i i n in
        let averageRank := ofNat (i + j + 2) / 2 in
        rankLoop w n (j + 1) fuel' (assignRanks w averageRank i (j + 1 - i) ranks)
      else ranks
  end.

(** [calculateRanks(values)].  The result is the array [ranks], created
    with [new Array(values.length)]: a slot never written stays [None].
    The outer loop advances [i] at every turn, so [values.length] turns
    are enough. *)
Definition calculateRanks (values : list Q) : list (option Q) :=
  let w := stable_sort (byValue value) (withIndices values) in
  let n := length values in
  rankLoop w n 0 n (replicate n None).

(** The ranking written out inside [runMannWhitneyTest] and
    [runKruskalWallisTest], on the array [allValues] sorted by value:

    [while (i + tieCount < allValues.length &&
            allValues[i].value === allValues[i + tieCount].value) tieCount++] *)
Fixpoint countTies {A : Type} (key : A -> Q) (allValues : list A)
  (i tieCount fuel : nat) : nat :=
  match fuel with
  | O => tieCount
  | S fuel' =>
      match allValues !! (i + tieCount)%nat, allValues !! i with
      | Some other, Some current =>
          if Qeq_bool (key current) (key other)
          then countTies key allValues i (S tieCount) fuel'
          else tieCount
      | _, _ => tieCount
      end
  end.

(** [while (rank <= allValues.length)], pushing [tieCount] copies of
    [rank + (tieCount - 1) / 2] at every turn. *)
Fixpoint pooledRankLoop {A : Type} (key : A -> Q) (allValues : list A)
  (rank fuel : nat) (ranks : list Q) : list Q :=
  match fuel with
  | O => ranks
  | S fuel' =>
      if (rank <=? length allValues)%nat then
        let i := (rank - 1)%nat in
        let tieCount := countTies key allValues i 1 (length allValues) in
        let averageRank := ofNat rank + (ofNat tieCount - 1) / 2 in
        pooledRankLoop key allValues (rank + tieCount) fuel'
          (ranks ++ replicate tieCount averageRank)
      else ranks
  end.

(** [allValues.sort((a, b) => a.value - b.value)] followed by the ranking
    loop; [ranks[k]] is the rank of the [k]-th item of the sorted array. *)
Definition pooledRanks {A : Type} (key : A -> Q) (allValues : list A) : list Q :=
  let sorted := stable_sort (byValue key) allValues in
  pooledRankLoop key sorted 1 (length sorted) [].

(** ** Tie correction *)

(** [valueCounts[val] = (valueCounts[val] || 0) + 1] on the object
    [valueCounts], whose keys are the distinct values met so far. *)
Fixpoint countValue (val : Q) (valueCounts : list (Q * nat)) : list (Q * nat) :=
  match valueCounts with
  | [] => [(val, 1%nat)]
  | (key, count) :: rest =>
      if Qeq_bool key val then (key, S count) :: rest
      else (key, count) :: countValue val rest
  end.

(** [calculateTieCorrection(values)]; the argument is the list of the
    [item.value] of the items passed by the callers.  [Object.values]
    lists the counts of integer keys first and in ascending order; the
    sum [tieSum] does not depend on the order. *)
Definition calculateTieCorrection (values : list Q) : Q :=
  let valueCounts := fold_left (fun counts val => countValue val counts) values [] in
  let tieSum :=
    fold_left (fun tieSum count =>
                 if (1 <? count)%nat then tieSum + (ofNat count ^ 3 - ofNat count)
                 else tieSum)
              (List.map snd valueCounts) 0 in
  let n := length values in
  if (n <? 2)%nat then 0 else tieSum / (ofNat n ^ 3 - ofNat n).

(** ** What the specification asks of these routines *)

Definition ltb (x y : Q) : bool := negb (Qle_bool y x).

(** Number of values below [v], and number of values tied with [v]. *)
Definition countBelow (values : list Q) (v : Q) : nat :=
  length (List.filter (fun x => ltb x v) values).
Definition countTied (values : list Q) (v : Q) : nat :=
  length (List.filter (fun x => Qeq_bool x v) values).

Definition sumQ (l : list Q) : Q := fold_right Qplus 0 l.

(** The 1-based positions that the values tied with [v] occupy once the
    sequence is sorted, and the midrank of [v] in the words of the
    specification: the average of these positions. *)
Definition tiedPositions (values : list Q) (v : Q) : list nat :=
  let sorted := stable_sort (byValue (fun x => x)) values in
  List.map S
    (List.filter (fun k => match sorted !! k with
                           | Some x => Qeq_bool x v
                           | None => false
                           end)
                 (seq 0 (length sorted))).

Definition average (positions : list nat) : Q :=
  sumQ (List.map ofNat positions) / ofNat (length positions).

Definition midrankSpec (values : list Q) (v : Q) : Q :=
  average (tiedPositions values v).

(** The same number in closed form: the tied values occupy the positions
    [countBelow + 1 .. countBelow + countTied]. *)
Definition midrank (values : list Q) (v : Q) : Q :=
  ofNat (countBelow values v) + (ofNat (countTied values v) + 1) / 2.

(** The distinct values of a sequence (one representative per group of
    tied values, the first met). *)
Fixpoint tieGroups (values : list Q) : list Q :=
  match values with
  | [] => []
  | v :: rest => v :: List.filter (fun x => negb (Qeq_bool x v)) (tieGroups rest)
  end.

(** The tie-correction factor in the words of the specification: the sum
    of [c^3 - c] over the groups of tied values of size [c], divided by
    [n^3 - n]; 0 when [n < 2]. *)
Definition tieCorrectionSpec (values : list Q) : Q :=
  let n := length values in
  if (n <? 2)%nat then 0
  else
    sumQ (List.map (fun v => ofNat (countTied values v) ^ 3 - ofNat (countTied values v))
                   (tieGroups values))
    / (ofNat n ^ 3 - ofNat n).

Definition allDistinct (values : list Q) : Prop :=
  forall i j x y, values !! i = Some x -> values !! j = Some y -> x == y -> i = j.

(** [StatsLib.calculateRanks] of the worker: the text of
    [StatisticalTests.calculateRanks] with the fields named [val] and
    [idx]. *)
Module StatsLib.
Definition calculateRanks (values : list Q) : list (option Q) :=
  let w := stable_sort (byValue value) (withIndices values) in
  let n := length values in
  rankLoop w n 0 n (replicate n None).
End StatsLib.

End NumericSummary.


(** * AssumptionChecker ([StatisticalTests], main thread) *)

Module Assumptions.
Import NumericSummary.
Local Open Scope string_scope.
Local Open Scope Q_scope.

(** [`${n}`] for a length. *)
Definition showNat (n : nat) : string := NilEmpty.string_of_uint (Nat.to_uint n).

(** [ss.mean] of the simple-statistics library: the arithmetic mean; it
    throws on an empty array. *)
Definition ss_mean (x : list Q) : outcome Q :=
  match x with
  | [] => Err "mean requires at least one data point"
  | _ => Ok (sumQ x / ofNat (length x))
  end.

(** The result object of the normality and homogeneity checks.  The
    source formats [statistic] and [pValue] with [toFixed(4)]; the model
    keeps the numbers.  [None] is [null]. *)
Record AssumptionResult := {
  test : string;
  statistic : option Q;
  pValue : option Q;
  result : string;
  passed : option bool;
  message : string
}.

(** The literals of the source: not applicable, failed, normal, not
    normal, homogeneous, not homogeneous, error in the computation. *)
Definition notApplicable : string := "غير قابل للتطبيق".
Definition failed : string := "فشل".
Definition normal : string := "طبيعي".
Definition notNormal : string := "غير طبيعي".
Definition homogeneous : string := "متجانس".
Definition notHomogeneous : string := "غير متجانس".
Definition computationError (message : string) : string :=
  "خطأ في الحساب: " ++ message.

(** [calculateShapiroWilkPValue(W, n)] *)
Definition calculateShapiroWilkPValue (W : Q) (n : nat) : Q :=
  if ltb 0.95 W then 0.9
  else if ltb 0.9 W then 0.5
  else if ltb 0.85 W then 0.1
  else if ltb 0.8 W then 0.05
  else if ltb 0.75 W then 0.01
  else 0.001.

(** [shapiroWilkTest(values)].  The statistic is the constant
    [0.9] of the source; the sum [numerator] is computed and not used. *)
Definition shapiroWilkTest (values : list Q) : AssumptionResult :=
  let n := length values in
  if (n <? 3)%nat || (5000 <? n)%nat then
    {| test := "Shapiro-Wilk"; statistic := None; pValue := None;
       result := notApplicable; passed := None;
       message := "حجم العينة غير مناسب للاختبار (" ++ showNat n ++ ")" |}
  else
    let sorted := stable_sort (byValue (fun x => x)) values in
    match ss_mean sorted with
    | Ok mean =>
        let numerator := fold_left (fun numerator x => numerator + (x - mean) ^ 2) sorted 0 in
        let W := 0.9 in
        let pValue := calculateShapiroWilkPValue W n in
        let passed := ltb 0.05 pValue in
        {| test := "Shapiro-Wilk"; statistic := Some W; pValue := Some pValue;
           result := if passed then normal else notNormal;
           passed := Some passed;
           message := if passed
                      then "البيانات موزعة توزيعاً طبيعياً (p > 0.05)"
                      else "البيانات غير موزعة توزيعاً طبيعياً (p ≤ 0.05)" |}
    | Err error =>
        {| test := "Shapiro-Wilk"; statistic := None; pValue := None;
           result := failed; passed := None;
           message := computationError error |}
    end.

(** The two fields [leveneTest] reads from the result of the ANOVA. *)
Record AnovaSummary := { anovaStatistic : Q; anovaPValue : Q }.

(** [this.oneWayANOVA(deviations, groups)].  The class defines no method
    of this name (its ANOVA runner is [runOneWayANOVA], which returns an
    object of another shape): the property read gives [undefined] and the
    call throws a [TypeError]. *)
Definition oneWayANOVA (deviations : list (option Q)) (groups : list label)
  : outcome AnovaSummary :=
  Err "this.oneWayANOVA is not a function".

(** [groupMeans[group] = ss.mean(groupValues)] for every distinct group,
    in the order of [uniqueGroups]. *)
Fixpoint groupMeansOf (values : list Q) (groups : list label) (unique : list label)
  : outcome (list (label * Q)) :=
  match unique with
  | [] => Ok []
  | group :: rest =>
      let* mean := ss_mean (groupValues values groups group) in
      let* means := groupMeansOf values groups rest in
      Ok ((group, mean) :: means)
  end.

Definition meanOf (groupMeans : list (label * Q)) (group : label) : option Q :=
  option_map snd (List.find (fun entry => String.eqb (fst entry) group) groupMeans).

(** [values.map((value, i) => Math.abs(value - groupMeans[groups[i]]))];
    [None] is the [NaN] obtained when [groups[i]] is [undefined]. *)
Definition deviationsOf (values : list Q) (groups : list label)
  (groupMeans : list (label * Q)) : list (option Q) :=
  imap (fun i value =>
          match groups !! i with
          | Some group => option_map (fun mean => Qabs (value - mean)) (meanOf groupMeans group)
          | None => None
          end) values.

(** [leveneTest(values, groups)]: the body of the [try] is a computation
    in [outcome]; the [catch] turns a thrown error into the failed
    result. *)
Definition leveneTest (values : list Q) (groups : list label) : AssumptionResult :=
  let attempt : outcome AssumptionResult :=
    let unique := uniqueGroups groups in
    if (length unique <? 2)%nat then
      Ok {| test := "Levene"; statistic := None; pValue := None;
            result := notApplicable; passed := None;
            message := "يحتاج إلى مجموعتين على الأقل" |}
    else
      let* groupMeans := groupMeansOf values groups unique in
      let deviations := deviationsOf values groups groupMeans in
      let* anovaResult := oneWayANOVA deviations groups in
      let passed := ltb 0.05 (anovaPValue anovaResult) in
      Ok {| test := "Levene";
            statistic := Some (anovaStatistic anovaResult);
            pValue := Some (anovaPValue anovaResult);
            result := if passed then homogeneous else notHomogeneous;
            passed := Some passed;
            message := if passed
                       then "التباينات متجانسة بين المجموعات (p > 0.05)"
                       else "التباينات غير متجانسة بين المجموعات (p ≤ 0.05)" |}
  in
  match attempt with
  | Ok r => r
  | Err error =>
      {| test := "Levene"; statistic := None; pValue := None;
         result := failed; passed := None;
         message := computationError error |}
  end.

(** The result object of the outlier detection. *)
Record OutlierResult := {
  outlierTest : string;
  outliers : list Indexed;
  lowerBound : option Q;
  upperBound : option Q;
  outlierResult : string;
  outlierPassed : option bool;
  outlierMessage : string
}.

(** [detectOutliers(values)].  For four values or more both percentiles
    exist; the last branch stands for the [NaN] bounds of the source, with
    which no value compares as an outlier. *)
Definition detectOutliers (values : list Q) : OutlierResult :=
  if (length values <? 4)%nat then
    {| outlierTest := "IQR Outlier Detection"; outliers := [];
       lowerBound := None; upperBound := None;
       outlierResult := notApplicable; outlierPassed := None;
       outlierMessage := "حجم العينة صغير جداً للكشف عن القيم المتطرفة" |}
  else
    let sorted := stable_sort (byValue (fun x => x)) values in
    match calculatePercentile sorted 25, calculatePercentile sorted 75 with
    | Some q1, Some q3 =>
        let iqr := q3 - q1 in
        let lowerBound := q1 - 1.5 * iqr in
        let upperBound := q3 + 1.5 * iqr in
        let outliers :=
          List.filter (fun item => ltb (value item) lowerBound || ltb upperBound (value item))
                      (withIndices values) in
        let passed := (length outliers =? 0)%nat in
        {| outlierTest := "IQR Outlier Detection"; outliers := outliers;
           lowerBound := Some lowerBound; upperBound := Some upperBound;
           outlierResult := if passed then "لا توجد قيم متطرفة"
                            else "وجد " ++ showNat (length outliers) ++ " قيم متطرفة";
           outlierPassed := Some passed;
           outlierMessage := if passed then "لا توجد قيم متطرفة في البيانات"
                             else "تم اكتشاف " ++ showNat (length outliers) ++ " قيم متطرفة" |}
    | _, _ =>
        {| outlierTest := "IQR Outlier Detection"; outliers := [];
           lowerBound := None; upperBound := None;
           outlierResult := "لا توجد قيم متطرفة"; outlierPassed := Some true;
           outlierMessage := "لا توجد قيم متطرفة في البيانات" |}
    end.

(** ** [checkAssumptions] and its cache *)

(** The [checks] argument: one flag per check. *)
Module Checks.
Record t := { normality : bool; homogeneity : bool; outliers : bool }.
End Checks.

(** The [results] object: a key that was never assigned is [None]. *)
Module Results.
Record t := {
  normality : option AssumptionResult;
  homogeneity : option AssumptionResult;
  outliers : option OutlierResult
}.
Definition empty : t := {| normality := None; homogeneity := None; outliers := None |}.
End Results.

(** An entry of [assumptionsCache]. *)
Record CacheEntry := { results : Results.t; timestamp : Z }.

(** [JSON.stringify] of the two arrays.  A number is spelled as its
    reduced fraction instead of its decimal digits: the cache only ever
    compares keys, and either spelling gives equal texts exactly for
    equal numbers. *)
Definition quote : ascii := ascii_of_nat 34.
Definition backslash : ascii := ascii_of_nat 92.

Fixpoint escape (s : string) : string :=
  match s with
  | EmptyString => EmptyString
  | String c rest =>
      if Ascii.eqb c quote || Ascii.eqb c backslash
      then String backslash (String c (escape rest))
      else String c (escape rest)
  end.

Definition stringifyLabel (group : label) : string :=
  String quote (escape group ++ String quote EmptyString).

Definition stringifyNumber (q : Q) : string :=
  let r := Qred q in
  NilEmpty.string_of_int (Z.to_int (Qnum r)) ++ "/" ++
  NilEmpty.string_of_uint (Pos.to_uint (Qden r)).

Definition stringifyArray (items : list string) : string :=
  "[" ++ String.concat "," items ++ "]".

(** [`${JSON.stringify(values)}-${JSON.stringify(groups)}`] *)
Definition cacheKey (values : list Q) (groups : list label) : string :=
  stringifyArray (List.map stringifyNumber values) ++ "-" ++
  stringifyArray (List.map stringifyLabel groups).

(** The body of the [try] block up to the cache update.  Each of the
    three checks catches its own errors, so nothing here throws and the
    [catch] of [checkAssumptions] is never entered. *)
Definition computeChecks (values : list Q) (groups : list label) (checks : Checks.t)
  : Results.t :=
  {| Results.normality :=
       if Checks.normality checks && (3 <=? length values)%nat && (length values <=? 5000)%nat
       then Some (shapiroWilkTest values) else None;
     Results.homogeneity :=
       if Checks.homogeneity checks && (0 <? length groups)%nat
       then Some (leveneTest values groups) else None;
     Results.outliers :=
       if Checks.outliers checks then Some (detectOutliers values) else None |}.

(** [checkAssumptions(values, groups, checks)] as a transition on the
    cache.  [Date.now()] is read once for the cache test ([now]) and once
    more for the time stamp of a new entry ([later]).  [groups] is an
    array, so the test [groups &&] of the source holds. *)
Definition checkAssumptions (now later : Z) (values : list Q) (groups : list label)
  (checks : Checks.t) (assumptionsCache : gmap string CacheEntry)
  : Results.t * gmap string CacheEntry :=
  let key := cacheKey values groups in
  let compute :=
    let results := computeChecks values groups checks in
    (results, <[key := {| results := results; timestamp := later |}]> assumptionsCache) in
  match assumptionsCache !! key with
  | Some cached =>
      if (now - 300000 <? timestamp cached)%Z then (results cached, assumptionsCache)
      else compute
  | None => compute
  end.

(** The call is served from the cache: an entry exists under the key of
    the payload and is younger than five minutes. *)
Definition servedFromCache (now : Z) (values : list Q) (groups : list label)
  (assumptionsCache : gmap string CacheEntry) : bool :=
  match assumptionsCache !! cacheKey values groups with
  | Some cached => (now - 300000 <? timestamp cached)%Z
  | None => false
  end.

Definition onlyNormality : Checks.t :=
  {| Checks.normality := true; Checks.homogeneity := false; Checks.outliers := false |}.
Definition onlyHomogeneity : Checks.t :=
  {| Checks.normality := false; Checks.homogeneity := true; Checks.outliers := false |}.
Definition onlyOutliers : Checks.t :=
  {| Checks.normality := false; Checks.homogeneity := false; Checks.outliers := true |}.

End Assumptions.


(** * The independent t-test on the two execution paths

    Numbers are real numbers here.  The model is faithful on inputs for
    which the source meets no division by zero and no square root of a
    negative number. *)

Module TTest.
Local Open Scope string_scope.
Local Open Scope R_scope.

Definition sumR (x : list R) : R := fold_right Rplus 0 x.

Definition lengthR {A : Type} (x : list A) : R := INR (length x).

(** The [statistics] of a [TestResult], with the effect size, the
    confidence interval and the power where the path computes them
    ([None] where the result object has no such key).  The numbers are
    the values before [toFixed(4)]; the interpretation and
    recommendation texts are left out. *)
Record TestResult := {
  test : string;
  t : R;
  df : Z;
  pValue : R;
  mean1 : R;
  mean2 : R;
  std1 : R;
  std2 : R;
  n1 : nat;
  n2 : nat;
  cohensD : option R;
  confidenceInterval : option (R * R);
  power : option R
}.

Definition needsTwoGroups : string := "يحتاج اختبار T إلى مجموعتين بالضبط".

(** [df = n1 + n2 - 2] *)
Definition degreesOfFreedom {A : Type} (group1 group2 : list A) : Z :=
  Z.of_nat (length group1) + Z.of_nat (length group2) - 2.

(** [Math.sqrt(((n1 - 1) * std1 * std1 + (n2 - 1) * std2 * std2) / (n1 + n2 - 2))] *)
Definition pooledStdOf (n1 n2 std1 std2 : R) : R :=
  sqrt (((n1 - 1) * std1 * std1 + (n2 - 1) * std2 * std2) / (n1 + n2 - 2)).

(** ** The direct path: [StatisticalTests.runIndependentTTest] *)

Module Direct.

(** [ss.mean] and [ss.standardDeviation] of the simple-statistics
    library: the arithmetic mean and the population standard deviation
    (denominator [n]); both throw on an empty array. *)
Definition ss_mean (x : list R) : outcome R :=
  match x with
  | [] => Err "mean requires at least one data point"
  | _ => Ok (sumR x / lengthR x)
  end.

Definition ss_standardDeviation (x : list R) : outcome R :=
  match x with
  | [] => Err "variance requires at least one data point"
  | _ =>
      let mean := sumR x / lengthR x in
      Ok (sqrt (sumR (List.map (fun v => (v - mean) ^ 2) x) / lengthR x))
  end.

Section Distributions.
(** [jStat.studentt.cdf(x, df)], [jStat.studentt.inv(p, df)] and
    [jStat.noncentralt.cdf(x, df, ncp)]. *)
Variable studentt_cdf : R -> Z -> R.
Variable studentt_inv : R -> Z -> R.
Variable noncentralt_cdf : R -> Z -> R -> R.

(** [calculatePower(t, df, alpha, tails)] at [alpha = 0.05],
    [tails = 'two-tailed'] *)
Definition calculatePower (t : R) (df : Z) : R :=
  let noncentrality := Rabs t in
  let criticalT := studentt_inv (1 - 0.05 / 2) df in
  let power := 1 - noncentralt_cdf criticalT df noncentrality in
  Rmin (Rmax power 0) 1.

(** The statistics computed from the two groups. *)
Definition statisticsOf (group1Values group2Values : list R) : outcome TestResult :=
  let* mean1 := ss_mean group1Values in
  let* mean2 := ss_mean group2Values in
  let* std1 := ss_standardDeviation group1Values in
  let* std2 := ss_standardDeviation group2Values in
  let n1 := lengthR group1Values in
  let n2 := lengthR group2Values in
  let pooledStd := pooledStdOf n1 n2 std1 std2 in
  let t := (mean1 - mean2) / (pooledStd * sqrt (1 / n1 + 1 / n2)) in
  let df := degreesOfFreedom group1Values group2Values in
  let pValue := 2 * (1 - studentt_cdf (Rabs t) df) in
  let d := (mean1 - mean2) / pooledStd in
  let se := pooledStd * sqrt (1 / n1 + 1 / n2) in
  let tCritical := studentt_inv 0.975 df in
  let ciLower := (mean1 - mean2) - tCritical * se in
  let ciUpper := (mean1 - mean2) + tCritical * se in
  let power := calculatePower t df in
  Ok {| test := "Independent Samples t-test";
        t := t; df := df; pValue := pValue;
        mean1 := mean1; mean2 := mean2; std1 := std1; std2 := std2;
        n1 := length group1Values; n2 := length group2Values;
        cohensD := Some d;
        confidenceInterval := Some (ciLower, ciUpper);
        power := Some power |}.

(** [runIndependentTTest(values, groups)] *)
Definition runIndependentTTest (values : list R) (groups : list label)
  : outcome TestResult :=
  match uniqueGroups groups with
  | [first; second] =>
      statisticsOf (groupValues values groups first) (groupValues values groups second)
  | _ => Err needsTwoGroups
  end.
End Distributions.
End Direct.

(** ** The offload path: the worker's [runIndependentTTest] and [StatsLib] *)

Module Worker.

(** [StatsLib.mean] and [StatsLib.stdDev] *)
Definition mean (values : list R) : R :=
  fold_left (fun sum val => sum + val) values 0 / lengthR values.

Definition stdDev (values : list R) : R :=
  let mean := mean values in
  let squaredDiffs := List.map (fun val => (val - mean) ^ 2) values in
  let variance := fold_left (fun sum val => sum + val) squaredDiffs 0 / lengthR values in
  sqrt variance.

(** [StatsLib.calculateTPValue(t, df)] *)
Definition calculateTPValue (t : R) (df : Z) : R :=
  let absT := Rabs t in
  if (df <=? 0)%Z then 1
  else if Rlt_dec 10 absT then 0.0001
  else if Rlt_dec 4 absT then 0.001
  else if Rlt_dec 2.5 absT then 0.02
  else if Rlt_dec 2 absT then 0.05
  else if Rlt_dec 1.5 absT then 0.15
  else 0.3.

(** [StatsLib.tTest(group1, group2, false)]: the branch of the
    independent test. *)
Record TTest := {
  tt_t : R; tt_df : Z; tt_pValue : R;
  tt_mean1 : R; tt_mean2 : R; tt_std1 : R; tt_std2 : R
}.

Definition tTest (group1 group2 : list R) : TTest :=
  let mean1 := mean group1 in
  let mean2 := mean group2 in
  let std1 := stdDev group1 in
  let std2 := stdDev group2 in
  let n1 := lengthR group1 in
  let n2 := lengthR group2 in
  let pooledStd := pooledStdOf n1 n2 std1 std2 in
  let t := (mean1 - mean2) / (pooledStd * sqrt (1 / n1 + 1 / n2)) in
  let df := degreesOfFreedom group1 group2 in
  let pValue := calculateTPValue t df in
  {| tt_t := t; tt_df := df; tt_pValue := pValue;
     tt_mean1 := mean1; tt_mean2 := mean2; tt_std1 := std1; tt_std2 := std2 |}.

(** The worker's [runIndependentTTest(values, groups)] *)
Definition runIndependentTTest (values : list R) (groups : list label)
  : outcome TestResult :=
  match uniqueGroups groups with
  | [first; second] =>
      let group1Values := groupValues values groups first in
      let group2Values := groupValues values groups second in
      let result := tTest group1Values group2Values in
      Ok {| test := "Independent Samples t-test";
            t := tt_t result; df := tt_df result; pValue := tt_pValue result;
            mean1 := tt_mean1 result; mean2 := tt_mean2 result;
            std1 := tt_std1 result; std2 := tt_std2 result;
            n1 := length group1Values; n2 := length group2Values;
            cohensD := None; confidenceInterval := None; power := None |}
  | _ => Err needsTwoGroups
  end.
End Worker.

(** The population variance and standard deviation of a group, and the
    pooled standard deviation of two groups, as the runner computes
    them. *)
Definition variance (x : list R) : R :=
  sumR (List.map (fun v => (v - sumR x / lengthR x) ^ 2) x) / lengthR x.

Definition pooledStd (group1 group2 : list R) : R :=
  pooledStdOf (lengthR group1) (lengthR group2) (sqrt (variance group1)) (sqrt (variance group2)).

(** Two data sets with the same two groups, listed in either order. *)
Definition exampleValues : list R := [1; 2; 4; 6].
Definition exampleGroups : list label := ["A"; "A"; "B"; "B"].
Definition swappedValues : list R := [4; 6; 1; 2].
Definition swappedGroups : list label := ["B"; "B"; "A"; "A"].

(** Two groups with the same mean. *)
Definition equalMeansValues : list R := [1; 3; 1; 3].

End TTest.


(** * OffloadCoordinator ([StatisticsApp])

    The coordinator is event driven: every handler runs to completion on
    the main thread, and the state below is what the handlers read and
    write between two events. *)

Module Offload.
Local Open Scope string_scope.

(** What a promise of [runAnalysisWithWorker] is settled with; the
    [results] object of a reply is kept as an opaque text. *)
Inductive Settlement :=
| Resolved (results : string)
| Rejected (message : string).

(** A message posted by the worker: [{ action: 'testComplete', results }]
    or [{ action: 'error', error }]. *)
Inductive Reply :=
| TestComplete (results : string)
| Failure (error : string).

(** [new Error('انتهت مهلة الحسابات')] *)
Definition timeoutMessage : string := "انتهت مهلة الحسابات".

(** A [Worker] object: the promise whose [onmessage] handler is installed
    on it ([None] for the handler set by [initializeWorker]), and the
    number of requests posted to it and not answered yet. *)
Record WorkerHandle := { handler : option nat; inbox : nat }.

Record App := {
  statsWorker : option WorkerHandle;   (* this.statsWorker, [None] is null *)
  workerBusy : bool;                   (* this.state.workerBusy *)
  timers : list nat;                   (* promises whose 30 s timer is armed *)
  settled : list (nat * Settlement);   (* promises settled so far *)
  direct : nat;                        (* analyses run by tests.runTest on the main thread *)
  nextPromise : nat
}.

Inductive Event :=
| RunAnalysis                    (* runSelectedAnalysis reaches its dispatch *)
| WorkerReplies (reply : Reply)  (* the worker answers its oldest request *)
| TimerFires (promise : nat)     (* the timer armed for a promise elapses *)
| ClearData.                     (* clearData, confirmed by the user *)

(** The constructor: [statsWorker = null], then [initializeWorker()],
    which creates the worker when the platform has [Worker]. *)
Definition freshWorker : WorkerHandle := {| handler := None; inbox := 0 |}.

Definition initial (workersSupported : bool) : App :=
  {| statsWorker := if workersSupported then Some freshWorker else None;
     workerBusy := false; timers := []; settled := []; direct := 0; nextPromise := 0 |}.

(** [resolve]/[reject]: settling a settled promise does nothing. *)
Definition settle (promise : nat) (s : Settlement) (settled : list (nat * Settlement))
  : list (nat * Settlement) :=
  if existsb (fun entry => Nat.eqb (fst entry) promise) settled then settled
  else (promise, s) :: settled.

(** [clearTimeout(timeout)] *)
Definition clearTimeout (promise : nat) (timers : list nat) : list nat :=
  List.filter (fun p => negb (Nat.eqb p promise)) timers.

(** [runAnalysisWithWorker]: the executor of the new promise. *)
Definition runAnalysisWithWorker (worker : WorkerHandle) (app : App) : App :=
  let promise := nextPromise app in
  {| statsWorker := Some {| handler := Some promise; inbox := S (inbox worker) |};
     workerBusy := true;
     timers := promise :: timers app;
     settled := settled app;
     direct := direct app;
     nextPromise := S promise |}.

(** The dispatch of [runSelectedAnalysis]:
    [if (this.statsWorker && !this.state.workerBusy)] use the worker,
    else run [this.tests.runTest] on the main thread. *)
Definition runSelectedAnalysis (app : App) : App :=
  match statsWorker app, workerBusy app with
  | Some worker, false => runAnalysisWithWorker worker app
  | _, _ =>
      {| statsWorker := statsWorker app; workerBusy := workerBusy app;
         timers := timers app; settled := settled app;
         direct := S (direct app); nextPromise := nextPromise app |}
  end.

(** The [onmessage] handler installed by [runAnalysisWithWorker] for
    [promise], run on a reply of the worker; the handler installed by
    [initializeWorker] only displays the reply. *)
Definition onWorkerReply (reply : Reply) (app : App) : App :=
  match statsWorker app with
  | Some worker =>
      match inbox worker with
      | O => app
      | S remaining =>
          let worker' := {| handler := handler worker; inbox := remaining |} in
          match handler worker with
          | Some promise =>
              {| statsWorker := Some worker';
                 workerBusy := false;
                 timers := clearTimeout promise (timers app);
                 settled := settle promise
                              match reply with
                              | Failure error => Rejected error
                              | TestComplete results => Resolved results
                              end (settled app);
                 direct := direct app; nextPromise := nextPromise app |}
          | None =>
              {| statsWorker := Some worker'; workerBusy := workerBusy app;
                 timers := timers app; settled := settled app;
                 direct := direct app; nextPromise := nextPromise app |}
          end
      end
  | None => app
  end.

(** The callback of [setTimeout]: [this.statsWorker.terminate()],
    [this.initializeWorker()], [reject(...)].  The requests of the
    terminated worker are lost with it; [workerBusy] is not written. *)
Definition onTimeout (promise : nat) (app : App) : App :=
  if existsb (Nat.eqb promise) (timers app) then
    {| statsWorker := Some freshWorker;
       workerBusy := workerBusy app;
       timers := clearTimeout promise (timers app);
       settled := settle promise (Rejected timeoutMessage) (settled app);
       direct := direct app; nextPromise := nextPromise app |}
  else app.

(** [clearData()] calls [this.state.reset()], which sets
    [_workerBusy = false]. *)
Definition clearData (app : App) : App :=
  {| statsWorker := statsWorker app; workerBusy := false;
     timers := timers app; settled := settled app;
     direct := direct app; nextPromise := nextPromise app |}.

Definition step (app : App) (event : Event) : App :=
  match event with
  | RunAnalysis => runSelectedAnalysis app
  | WorkerReplies reply => onWorkerReply reply app
  | TimerFires promise => onTimeout promise app
  | ClearData => clearData app
  end.

Definition run (events : list Event) (app : App) : App := fold_left step events app.

(** The offloaded computations outstanding in a state. *)
Definition outstanding (app : App) : nat :=
  match statsWorker app with
  | Some worker => inbox worker
  | None => 0
  end.

Definition isClearData (event : Event) : bool :=
  match event with
  | ClearData => true
  | _ => false
  end.

End Offload.

(** * Object literals used as maps

    An object that the source fills key by key is the list of its own
    properties in the order of their creation.  [Object.keys],
    [Object.entries] and [for ... in] list the keys that are array
    indices first, in ascending order, and then the other keys in the
    order of their creation. *)

Module JSObject.
Local Open Scope string_scope.

(** [object[key] = value] on an object literal: the key keeps its place
    when it is there already; an assignment to [__proto__] makes no own
    property. *)
Fixpoint update {A : Type} (object : list (string * A)) (key : string) (value : A)
  : list (string * A) :=
  match object with
  | [] => [(key, value)]
  | (k, v) :: rest =>
      if String.eqb k key then (k, value) :: rest
      else (k, v) :: update rest key value
  end.

Definition assign {A : Type} (object : list (string * A)) (key : string) (value : A)
  : list (string * A) :=
  if String.eqb key "__proto__" then object else update object key value.

(** The number written by a string of decimal digits. *)
Fixpoint digitsValue (digits : string) (value : N) : option N :=
  match digits with
  | EmptyString => Some value
  | String c rest =>
      let code := N_of_ascii c in
      if (48 <=? code)%N && (code <=? 57)%N
      then digitsValue rest (value * 10 + (code - 48))%N
      else None
  end.

(** The own properties of an object literal that starts empty and is
    assigned the given properties in turn. *)
Definition assigned {A : Type} (properties : list (string * A)) : list (string * A) :=
  fold_left (fun object entry => assign object (fst entry) (snd entry)) properties [].

(** A key is an array index when it is the decimal writing, without a
    leading zero, of an integer below [2^32 - 1]. *)
Definition arrayIndex (key : string) : option N :=
  match key with
  | EmptyString => None
  | String c rest =>
      if (N_of_ascii c =? 48)%N && negb (String.eqb rest "") then None
      else
        match digitsValue key 0 with
        | Some value => if (value <? 4294967295)%N then Some value else None
        | None => None
        end
  end.

Definition isArrayIndex (key : string) : bool :=
  match arrayIndex key with
  | Some _ => true
  | None => false
  end.

Definition indexBefore {A : Type} (a b : string * A) : bool :=
  match arrayIndex (fst a), arrayIndex (fst b) with
  | Some i, Some j => (i <=? j)%N
  | _, _ => true
  end.

(** The names that an object literal inherits from [Object.prototype]:
    read on an object that has no own property of that name, each of
    them gives a function, or the prototype itself. *)
Definition inheritedNames : list string :=
  ["constructor"; "__defineGetter__"; "__defineSetter__"; "hasOwnProperty";
   "__lookupGetter__"; "__lookupSetter__"; "isPrototypeOf"; "propertyIsEnumerable";
   "toString"; "valueOf"; "__proto__"; "toLocaleString"].

Definition isInherited (key : string) : bool := existsb (String.eqb key) inheritedNames.

(** [Object.entries(object)] *)
Definition entries {A : Type} (object : list (string * A)) : list (string * A) :=
  (stable_sort indexBefore (List.filter (fun entry => isArrayIndex (fst entry)) object)
   ++ List.filter (fun entry => negb (isArrayIndex (fst entry))) object)%list.

End JSObject.


(** * The rank-based test runners ([StatisticalTests], main thread)

    Numbers are rationals.  [Math.sqrt] and the distribution functions of
    [jStat] are parameters; an [undefined] array slot is [None], and a
    sum that such a slot enters is [NaN], again [None].  Where the
    source divides by a possibly vanishing count the quotient is spelled
    out ([quotient]); elsewhere the model is faithful on inputs for which
    the source meets no division by zero.  The interpretation and
    recommendation texts of the result objects are left out. *)

Module RankTests.
Import NumericSummary.
Local Open Scope string_scope.
Local Open Scope Q_scope.

(** [sum += x] where [x] may be [undefined] *)
Definition plus (sum x : option Q) : option Q :=
  match sum, x with
  | Some s, Some v => Some (s + v)
  | _, _ => None
  end.

(** [Math.min(a, b)], [Math.sign(x)] *)
Definition Math_min (a b : Q) : Q := if Qle_bool a b then a else b.

Definition Math_sign (x : Q) : Q :=
  if ltb 0 x then 1 else if ltb x 0 then -1 else 0.

(** [a / b] where [b] may be zero *)
Inductive quotient :=
| Finite (q : Q)
| PlusInfinity
| MinusInfinity
| NaN.

Definition divide (a : option Q) (b : Q) : quotient :=
  match a with
  | None => NaN
  | Some a =>
      if Qeq_bool b 0 then
        if ltb 0 a then PlusInfinity else if ltb a 0 then MinusInfinity else NaN
      else Finite (a / b)
  end.

(** [x < bound] *)
Definition below (x : quotient) (bound : Q) : bool :=
  match x with
  | Finite q => ltb q bound
  | MinusInfinity => true
  | PlusInfinity | NaN => false
  end.

(** [estimateMannWhitneyPValue(u, n1, n2)] *)
Definition estimateMannWhitneyPValue (u : option Q) (n1 n2 : nat) : Q :=
  let maxU := ofNat n1 * ofNat n2 in
  let proportion := divide u maxU in
  if below proportion 0.1 then 0.001
  else if below proportion 0.2 then 0.01
  else if below proportion 0.3 then 0.05
  else if below proportion 0.4 then 0.1
  else 0.2.

(** [estimateWilcoxonPValue(w, n)] *)
Definition estimateWilcoxonPValue (w : option Q) (n : nat) : Q :=
  let maxW := (ofNat n * (ofNat n + 1)) / 2 in
  let proportion := divide w maxW in
  if below proportion 0.1 then 0.001
  else if below proportion 0.2 then 0.01
  else if below proportion 0.3 then 0.05
  else if below proportion 0.4 then 0.1
  else 0.2.

(** [Math.abs(x) > bound] *)
Definition absAbove (x : quotient) (bound : Q) : bool :=
  match x with
  | Finite q => ltb bound (Qabs q)
  | PlusInfinity | MinusInfinity => true
  | NaN => false
  end.

(** [estimateSpearmanPValue(rho, n)] *)
Definition estimateSpearmanPValue (rho : quotient) (n : nat) : Q :=
  if (n <=? 5)%nat then
    if absAbove rho 0.9 then 0.05 else 0.1
  else if (n <=? 10)%nat then
    if absAbove rho 0.8 then 0.01
    else if absAbove rho 0.6 then 0.05
    else if absAbove rho 0.4 then 0.1
    else 0.2
  else 0.05.

(** ** [runMannWhitneyTest(values, groups)] *)

Module MannWhitney.

(** [{ value: v, group: 1 }] *)
Record Item := { value : Q; group : nat }.

(** The [statistics] and [effectSize] of the result object, before
    [toFixed(4)]. *)
Record Result := {
  test : string;
  groups : list label;
  u : option Q;
  z : option Q;
  pValue : option Q;
  r1 : option Q;
  r2 : option Q;
  n1 : nat;
  n2 : nat;
  r : option Q
}.

Definition needsTwoGroups : string := "يحتاج اختبار مان-ويتني إلى مجموعتين بالضبط".

(** [allValues.forEach((item, i) => { item.rank = ranks[i]; })] followed
    by the loop that adds every rank to [r1] or to [r2]. *)
Definition rankSums (allValues : list Item) (ranks : list Q) : option Q * option Q :=
  fold_left (fun sums ranked =>
               if (group (fst ranked) =? 1)%nat
               then (plus (fst sums) (snd ranked), snd sums)
               else (fst sums, plus (snd sums) (snd ranked)))
            (imap (fun i item => (item, ranks !! i)) allValues)
            (Some 0, Some 0).

Section Library.
(** [Math.sqrt(x)] and [jStat.normal.cdf(x, 0, 1)] *)
Variable Math_sqrt : Q -> Q.
Variable normal_cdf : Q -> Q.

Definition runMannWhitneyTest (values : list Q) (groups : list label) : outcome Result :=
  match uniqueGroups groups with
  | [first; second] =>
      let group1Values := groupValues values groups first in
      let group2Values := groupValues values groups second in
      let allValues :=
        (List.map (fun v => {| value := v; group := 1 |}) group1Values ++
         List.map (fun v => {| value := v; group := 2 |}) group2Values)%list in
      let sorted := stable_sort (byValue value) allValues in
      let ranks := pooledRanks value allValues in
      let (r1, r2) := rankSums sorted ranks in
      let n1 := length group1Values in
      let n2 := length group2Values in
      let u1 := option_map (fun r1 => r1 - (ofNat n1 * (ofNat n1 + 1)) / 2) r1 in
      let u2 := option_map (fun r2 => r2 - (ofNat n2 * (ofNat n2 + 1)) / 2) r2 in
      let u := match u1, u2 with
               | Some u1, Some u2 => Some (Math_min u1 u2)
               | _, _ => None
               end in
      let (z, pValue) :=
        if (20 <? n1)%nat || (20 <? n2)%nat then
          let meanU := (ofNat n1 * ofNat n2) / 2 in
          let stdU := Math_sqrt ((ofNat n1 * ofNat n2 * (ofNat n1 + ofNat n2 + 1)) / 12) in
          let tieCorrection := calculateTieCorrection (List.map value sorted) in
          let z :=
            if ltb 0 tieCorrection then
              let correctedStdU := stdU * Math_sqrt (1 - tieCorrection) in
              option_map (fun u => (u - meanU) / correctedStdU) u
            else option_map (fun u => (u - meanU) / stdU) u in
          (z, option_map (fun z => 2 * (1 - normal_cdf (Qabs z))) z)
        else (None, Some (estimateMannWhitneyPValue u n1 n2)) in
      let r := option_map (fun z => Qabs z / Math_sqrt (ofNat n1 + ofNat n2)) z in
      Ok {| test := "Mann-Whitney U Test"; groups := [first; second];
            u := u; z := z; pValue := pValue; r1 := r1; r2 := r2;
            n1 := n1; n2 := n2; r := r |}
  | _ => Err needsTwoGroups
  end.

End Library.

(** The number of pairs made of a value [x] of [winners] and a value of
    [others] below [x], a tied pair counting for one half. *)
Definition pairsWon (winners others : list Q) : Q :=
  sumQ (List.map (fun x => ofNat (countBelow others x) + ofNat (countTied others x) / 2)
                 winners).

End MannWhitney.

(** ** [runWilcoxonSignedRankTest(values, groups)] *)

(** [groupMap[group]] where [group] may be [undefined]: the property key
    is the text of the value. *)
Definition keyOf (group : option label) : label :=
  match group with
  | Some g => g
  | None => "undefined"
  end.

Definition pushIsNotAFunction : string := "groupMap[group].push is not a function".

(** [values.forEach((value, i) => {
       const group = groups[i];
       if (!groupMap[group]) groupMap[group] = [];
       groupMap[group].push(value); })]
    on [groupMap = {}].  Under a name that the object inherits,
    [groupMap[group]] reads the inherited member: it is truthy, no array
    is stored, and the call of [push] throws a [TypeError].  The map
    holds the own properties. *)
Definition groupMapOf {A : Type} (values : list A) (groups : list label)
  : outcome (gmap string (list A)) :=
  fold_left (fun state entry =>
               let* groupMap := state in
               let group := keyOf (groups !! fst entry) in
               if JSObject.isInherited group then Err pushIsNotAFunction
               else Ok (<[group := (default [] (groupMap !! group) ++ [snd entry])%list]>
                          groupMap))
            (imap (fun i value => (i, value)) values) (Ok ∅).

(** [for (let i = 0; i < n; i++) differences.push(a[i] - b[i])] with
    [n] the smaller of the two lengths. *)
Fixpoint differencesOf (a b : list Q) : list Q :=
  match a, b with
  | x :: a', y :: b' => (x - y) :: differencesOf a' b'
  | _, _ => []
  end.

Module Wilcoxon.

(** The entries of [signedRanks]. *)
Record SignedRank := {
  value : Q;
  absValue : Q;
  rank : option Q;
  signedRank : option Q
}.

Record Result := {
  test : string;
  w : option Q;
  wPlus : option Q;
  wMinus : option Q;
  z : option Q;
  pValue : option Q;
  nPairs : nat;
  nZeroes : Z;
  r : option Q
}.

Definition needsTwoGroups : string := "يحتاج اختبار ويلكوكسون إلى مجموعتين بالضبط".

(** [ranked[i]]: [undefined] beyond the end and in a slot never
    written. *)
Definition slot (ranked : list (option Q)) (i : nat) : option Q :=
  match ranked !! i with
  | Some (Some rank) => Some rank
  | _ => None
  end.

(** The loop that applies the signs: a zero difference is dropped. *)
Definition signedRanksOf (differences : list Q) (ranked : list (option Q))
  : list SignedRank :=
  List.filter (fun item => negb (Qeq_bool (value item) 0))
    (imap (fun i d => {| value := d; absValue := Qabs d; rank := slot ranked i;
                         signedRank := option_map (Qmult (Math_sign d)) (slot ranked i) |})
          differences).

(** [item.signedRank > 0] *)
Definition positive (x : option Q) : bool :=
  match x with
  | Some q => ltb 0 q
  | None => false
  end.

(** The loop that adds every rank to [wPlus] or to [wMinus]. *)
Definition signedSums (signedRanks : list SignedRank) : option Q * option Q :=
  fold_left (fun sums item =>
               if positive (signedRank item)
               then (plus (fst sums) (rank item), snd sums)
               else (fst sums, plus (snd sums) (rank item)))
            signedRanks (Some 0, Some 0).

Section Library.
(** [Math.sqrt(x)] and [jStat.normal.cdf(x, 0, 1)] *)
Variable Math_sqrt : Q -> Q.
Variable normal_cdf : Q -> Q.

(** Reading [.length] of a group that [groupMap] does not hold throws a
    [TypeError].  This is the case of a label that stands beside no
    value, when [groups] is longer than [values]; the model covers it
    for the labels that are not inherited names. *)
Definition runWilcoxonSignedRankTest (values : list Q) (groups : list label)
  : outcome Result :=
  match uniqueGroups groups with
  | [first; second] =>
      let* groupMap := groupMapOf values groups in
      match groupMap !! first, groupMap !! second with
      | Some firstValues, Some secondValues =>
          let differences := differencesOf firstValues secondValues in
          let absDifferences := List.map Qabs differences in
          let ranked := calculateRanks absDifferences in
          let signedRanks := signedRanksOf differences ranked in
          let (wPlus, wMinus) := signedSums signedRanks in
          let w := match wPlus, wMinus with
                   | Some p, Some m => Some (Math_min p m)
                   | _, _ => None
                   end in
          let nPairs := length signedRanks in
          let (z, pValue) :=
            if (10 <? nPairs)%nat then
              let meanW := (ofNat nPairs * (ofNat nPairs + 1)) / 4 in
              let stdW := Math_sqrt ((ofNat nPairs * (ofNat nPairs + 1) * (2 * ofNat nPairs + 1)) / 24) in
              let tieCorrection := calculateTieCorrection (List.map absValue signedRanks) in
              let z :=
                if ltb 0 tieCorrection then
                  let correctedStdW := stdW * Math_sqrt (1 - tieCorrection) in
                  option_map (fun w => (w - meanW) / correctedStdW) w
                else option_map (fun w => (w - meanW) / stdW) w in
              (z, option_map (fun z => 2 * (1 - normal_cdf (Qabs z))) z)
            else (None, Some (estimateWilcoxonPValue w nPairs)) in
          let r := option_map (fun z => Qabs z / Math_sqrt (ofNat nPairs)) z in
          Ok {| test := "Wilcoxon Signed-Rank Test";
                w := w; wPlus := wPlus; wMinus := wMinus; z := z; pValue := pValue;
                nPairs := nPairs;
                nZeroes := (Z.of_nat (length differences) - Z.of_nat nPairs)%Z;
                r := r |}
      | _, _ => Err "Cannot read properties of undefined (reading 'length')"
      end
  | _ => Err needsTwoGroups
  end.

End Library.

End Wilcoxon.

(** ** [runKruskalWallisTest(values, groups)] *)

Module KruskalWallis.

(** [{ value: value, group: groups[i] }]; the group is [undefined] past
    the end of [groups]. *)
Record Item := { value : Q; group : option label }.

(** [{ n, sumRanks, meanRank }] *)
Record GroupStats := { n : nat; sumRanks : Q; meanRank : Q }.

(** The result object before [toFixed(4)].  [groupStats] holds the
    properties of the object of that name, in the order of
    [Object.entries]; [total] is the key [n] of the [statistics]. *)
Record Result := {
  test : string;
  groups : list label;
  groupStats : list (label * GroupStats);
  h : Q;
  df : Z;
  pValue : Q;
  total : nat;
  tieCorrection : Q;
  epsilonSquared : Q
}.

Definition needsThreeGroups : string :=
  "يحتاج اختبار كروسكال-واليس إلى ثلاث مجموعات على الأقل".

(** [values.map((value, i) => ({ value: value, group: groups[i] }))] *)
Definition itemsOf (values : list Q) (groups : list label) : list Item :=
  imap (fun i value => {| value := value; group := groups !! i |}) values.

(** [uniqueGroups.forEach(g => groupRanks[g] = [])].  The map gives what
    [groupRanks[g]] reads after the assignment: an own property, and for
    [__proto__] the prototype that the assignment has set. *)
Definition emptyGroupRanks (uniqueGroups : list label) : gmap string (list Q) :=
  fold_left (fun groupRanks g => <[g := []]> groupRanks) uniqueGroups ∅.

(** The state of the ranking loop: the arrays [ranks] and
    [groupRanks]. *)
Definition RankState : Type := list Q * gmap string (list Q).

(** [for (let j = 0; j < tieCount; j++) {
       const item = allValues[i + j];
       ranks.push(averageRank);
       groupRanks[item.group].push(averageRank); }],
    with [count] the number of turns still to make. *)
Fixpoint pushTies (allValues : list Item) (averageRank : Q) (i j count : nat)
  (state : RankState) : outcome RankState :=
  match count with
  | O => Ok state
  | S count' =>
      match allValues !! (i + j)%nat with
      | Some item =>
          match snd state !! keyOf (group item) with
          | Some groupRanksList =>
              pushTies allValues averageRank i (S j) count'
                ((fst state ++ [averageRank])%list,
                 <[keyOf (group item) := (groupRanksList ++ [averageRank])%list]> (snd state))
          | None => Err "Cannot read properties of undefined (reading 'push')"
          end
      | None => Err "Cannot read properties of undefined (reading 'group')"
      end
  end.

(** [while (rank <= allValues.length)] *)
Fixpoint rankLoop (allValues : list Item) (rank fuel : nat) (state : RankState)
  : outcome RankState :=
  match fuel with
  | O => Ok state
  | S fuel' =>
      if (rank <=? length allValues)%nat then
        let i := (rank - 1)%nat in
        let tieCount := countTies value allValues i 1 (length allValues) in
        let averageRank := ofNat rank + (ofNat tieCount - 1) / 2 in
        let* state' := pushTies allValues averageRank i 0 tieCount state in
        rankLoop allValues (rank + tieCount) fuel' state'
      else Ok state
  end.

(** The loop over [uniqueGroups] that fills [groupStats] and adds up
    [totalN]: what [groupStats[group]] reads for every group, in the
    order of [uniqueGroups].  The object itself holds these as its own
    properties, except under [__proto__], where the assignment sets the
    prototype. *)
Definition statsOf (groupRanksList : list Q) : GroupStats :=
  let n := length groupRanksList in
  let sumRanks := sumQ groupRanksList in
  {| n := n; sumRanks := sumRanks; meanRank := sumRanks / ofNat n |}.

Fixpoint groupStatsOf (uniqueGroups : list label) (groupRanks : gmap string (list Q))
  : outcome (list (label * GroupStats)) :=
  match uniqueGroups with
  | [] => Ok []
  | g :: rest =>
      match groupRanks !! g with
      | Some groupRanksList =>
          let* stats := groupStatsOf rest groupRanks in
          Ok ((g, statsOf groupRanksList) :: stats)
      | None => Err "Cannot read properties of undefined (reading 'length')"
      end
  end.

(** [h += Math.pow(stats.sumRanks, 2) / stats.n] over the groups, then
    [h = (12 / (totalN * (totalN + 1))) * h - 3 * (totalN + 1)] *)
Definition hStatistic (stats : list GroupStats) (totalN : nat) : Q :=
  let h := fold_left (fun h s => h + sumRanks s ^ 2 / ofNat (n s)) stats 0 in
  (12 / (ofNat totalN * (ofNat totalN + 1))) * h - 3 * (ofNat totalN + 1).

Section Library.
(** [jStat.chisquare.cdf(x, df)] *)
Variable chisquare_cdf : Q -> Z -> Q.

Definition runKruskalWallisTest (values : list Q) (groups : list label)
  : outcome Result :=
  let uniqueGroups := uniqueGroups groups in
  if (length uniqueGroups <? 3)%nat then Err needsThreeGroups
  else
    let allValues := stable_sort (byValue value) (itemsOf values groups) in
    let* ranked := rankLoop allValues 1 (length allValues)
                     ([], emptyGroupRanks uniqueGroups) in
    let* groupStats := groupStatsOf uniqueGroups (snd ranked) in
    let totalN := fold_left (fun totalN entry => (totalN + n (snd entry))%nat) groupStats 0%nat in
    let h := hStatistic (List.map snd groupStats) totalN in
    let tieCorrection := calculateTieCorrection (List.map value allValues) in
    let h := if ltb 0 tieCorrection then h / (1 - tieCorrection) else h in
    let df := (Z.of_nat (length uniqueGroups) - 1)%Z in
    let pValue := 1 - chisquare_cdf h df in
    let epsilonSquared := (h - inject_Z df) / (ofNat totalN - 1) in
    Ok {| test := "Kruskal-Wallis H Test"; groups := uniqueGroups;
          groupStats := JSObject.entries (JSObject.assigned groupStats);
          h := h; df := df; pValue := pValue;
          total := totalN; tieCorrection := tieCorrection;
          epsilonSquared := epsilonSquared |}.

End Library.

End KruskalWallis.

End RankTests.


(** * The other parametric runners, on the two execution paths

    Numbers are real numbers, as for the independent t-test; the model
    is faithful on inputs for which the source meets no division by zero
    and no square root of a negative number.  The distribution functions
    of [jStat] are parameters.  The interpretation and recommendation
    texts of the result objects are left out. *)

Module ParametricTests.
Import TTest.
Local Open Scope string_scope.
Local Open Scope R_scope.

(** [x < y] and [x === y] on numbers *)
Definition Rltb (x y : R) : bool := if Rlt_dec x y then true else false.
Definition Reqb (x y : R) : bool := if Req_dec_T x y then true else false.

(** A number that may be infinite or [NaN]: the value of an expression
    whose divisor may be zero. *)
Inductive extended :=
| Number (x : R)
| Infinity
| NegativeInfinity
| NotANumber.

(** What [object[key]] reads after [object[key] = value] for every
    entry of an association list with distinct keys; the list is in the
    order in which the keys were assigned. *)
Definition lookupKey {A : Type} (object : list (label * A)) (key : label) : option A :=
  option_map snd (List.find (fun entry => String.eqb (fst entry) key) object).

(** ** One-way ANOVA, direct path: [StatisticalTests.runOneWayANOVA] *)

Module Anova.

(** [{ n, mean, std, values }] *)
Record GroupStats := { n : nat; mean : R; std : R; values : list R }.

(** The [statistics] and [effectSize] of the result object, before
    [toFixed(4)], with the properties of its [groupStats]; [ci] is the
    confidence interval of the group mean, [None] for [[null, null]]. *)
Record GroupSummary := { g_n : nat; g_mean : R; g_std : R; g_ci : option (R * R) }.

Record Result := {
  test : string;
  groups : list label;
  groupStats : list (label * GroupSummary);
  f : R;
  dfBetween : Z;
  dfWithin : Z;
  pValue : R;
  ssBetween : R;
  ssWithin : R;
  ssTotal : R;
  msBetween : R;
  msWithin : R;
  etaSquared : R;
  omegaSquared : R;
  power : R;
  postHocRequired : bool
}.

Definition needsThreeGroups : string :=
  "يحتاج تحليل التباين إلى ثلاث مجموعات على الأقل".

(** The loop that fills [groupStats]. *)
Fixpoint groupStatsOf (values : list R) (groups unique : list label)
  : outcome (list (label * GroupStats)) :=
  match unique with
  | [] => Ok []
  | group :: rest =>
      let groupValues := groupValues values groups group in
      let* mean := Direct.ss_mean groupValues in
      let* std := Direct.ss_standardDeviation groupValues in
      let* stats := groupStatsOf values groups rest in
      Ok ((group, {| n := length groupValues; mean := mean; std := std;
                     values := groupValues |}) :: stats)
  end.

(** [ssBetween += stats.n * Math.pow(stats.mean - overallMean, 2)] over
    the groups. *)
Definition ssBetweenOf (groupStats : list (label * GroupStats)) (overallMean : R) : R :=
  fold_left (fun ssBetween entry =>
               ssBetween + INR (n (snd entry)) * (mean (snd entry) - overallMean) ^ 2)
            groupStats 0.

(** [values.forEach((value, i) => {
       const groupMean = groupStats[groups[i]].mean;
       ssWithin += Math.pow(value - groupMean, 2);
       ssTotal += Math.pow(value - overallMean, 2); })];
    reading [.mean] of a group that [groupStats] does not hold throws a
    [TypeError]. *)
Definition sumsOfSquares (values : list R) (groups : list label)
  (groupStats : list (label * GroupStats)) (overallMean : R) : outcome (R * R) :=
  fold_left (fun sums entry =>
               let* sums := sums in
               match lookupKey groupStats (RankTests.keyOf (groups !! fst entry)) with
               | Some stats =>
                   Ok (fst sums + (snd entry - mean stats) ^ 2,
                       snd sums + (snd entry - overallMean) ^ 2)
               | None => Err "Cannot read properties of undefined (reading 'mean')"
               end)
            (imap (fun i value => (i, value)) values) (Ok (0, 0)).

Definition noncentralFIsUndefined : string :=
  "Cannot read properties of undefined (reading 'cdf')".

Section Distributions.
(** [jStat.centralF.cdf(x, df1, df2)], [jStat.centralF.inv(p, df1, df2)]
    and [jStat.studentt.inv(p, df)] *)
Variable centralF_cdf : R -> Z -> Z -> R.
Variable centralF_inv : R -> Z -> Z -> R.
Variable studentt_inv : R -> Z -> R.

(** [calculateAnovaPower(f, dfBetween, dfWithin, k)].  The module loads
    jStat 1.9.6, which has a noncentral t distribution and no
    [noncentralF]: [jStat.noncentralF] is [undefined], and the read of
    its [cdf] throws a [TypeError]. *)
Definition calculateAnovaPower (f : R) (dfBetween dfWithin : Z) (k : nat) : outcome R :=
  let lambda := f * IZR dfBetween in
  let criticalF := centralF_inv 0.95 dfBetween dfWithin in
  Err noncentralFIsUndefined.

(** [calculateConfidenceInterval(values, confidence)] at
    [confidence = 0.95] *)
Definition calculateConfidenceInterval (values : list R) : outcome (option (R * R)) :=
  let n := length values in
  if (n <? 2)%nat then Ok None
  else
    let* mean := Direct.ss_mean values in
    let* std := Direct.ss_standardDeviation values in
    let se := std / sqrt (INR n) in
    let t := studentt_inv (1 - (1 - 0.95) / 2) (Z.of_nat n - 1) in
    Ok (Some (mean - t * se, mean + t * se)).

(** The entries of [groupStats] in the result object, made from
    [Object.entries(groupStats)]. *)
Fixpoint summariesOf (groupStats : list (label * GroupStats))
  : outcome (list (label * GroupSummary)) :=
  match groupStats with
  | [] => Ok []
  | (group, stats) :: rest =>
      let* ci := calculateConfidenceInterval (values stats) in
      let* summaries := summariesOf rest in
      Ok ((group, {| g_n := n stats; g_mean := mean stats; g_std := std stats;
                     g_ci := ci |}) :: summaries)
  end.

Definition runOneWayANOVA (values : list R) (groups : list label) : outcome Result :=
  let uniqueGroups := uniqueGroups groups in
  if (length uniqueGroups <? 3)%nat then Err needsThreeGroups
  else
    let* groupStats := groupStatsOf values groups uniqueGroups in
    let* overallMean := Direct.ss_mean values in
    let ssBetween := ssBetweenOf groupStats overallMean in
    let* sums := sumsOfSquares values groups groupStats overallMean in
    let ssWithin := fst sums in
    let ssTotal := snd sums in
    let dfBetween := (Z.of_nat (length uniqueGroups) - 1)%Z in
    let dfWithin := (Z.of_nat (length values) - Z.of_nat (length uniqueGroups))%Z in
    let msBetween := ssBetween / IZR dfBetween in
    let msWithin := ssWithin / IZR dfWithin in
    let f := msBetween / msWithin in
    let pValue := 1 - centralF_cdf f dfBetween dfWithin in
    let etaSquared := ssBetween / ssTotal in
    let omegaSquared := (ssBetween - IZR dfBetween * msWithin) / (ssTotal + msWithin) in
    let* power := calculateAnovaPower f dfBetween dfWithin (length uniqueGroups) in
    let* summaries := summariesOf (JSObject.entries (JSObject.assigned groupStats)) in
    Ok {| test := "One-Way ANOVA"; groups := uniqueGroups; groupStats := summaries;
          f := f; dfBetween := dfBetween; dfWithin := dfWithin; pValue := pValue;
          ssBetween := ssBetween; ssWithin := ssWithin; ssTotal := ssTotal;
          msBetween := msBetween; msWithin := msWithin;
          etaSquared := etaSquared; omegaSquared := omegaSquared; power := power;
          postHocRequired := Rltb pValue 0.05 |}.

End Distributions.
End Anova.

(** ** One-way ANOVA, offload path: the worker's [runOneWayANOVA] and
    [StatsLib.anova] *)

Module WorkerAnova.

(** [StatsLib.calculateFPValue(f, df1, df2)] *)
Definition calculateFPValue (f : R) (df1 df2 : Z) : R :=
  if Rlt_dec 10 f then 0.001
  else if Rlt_dec 5 f then 0.01
  else if Rlt_dec 3 f then 0.05
  else if Rlt_dec 2 f then 0.1
  else 0.3.

(** The object returned by [StatsLib.anova]. *)
Record Anova := {
  f : R;
  dfBetween : Z;
  dfWithin : Z;
  pValue : R;
  ssBetween : R;
  ssWithin : R;
  msBetween : R;
  msWithin : R
}.

(** The outer [groups.forEach((group, i) => ...)] of [StatsLib.anova]:
    every group comes with [groupMeans[i]], the entry that
    [groups.map] made for it; the loop adds to [ssBetween] and, value by
    value, to [ssWithin]. *)
Definition sumsOfSquares (groups : list (list R)) (groupMeans : list R) (overallMean : R)
  : R * R :=
  fold_left (fun sums entry =>
               let group := fst entry in
               let groupMean := snd entry in
               let ssBetween := fst sums + INR (length group) * (groupMean - overallMean) ^ 2 in
               let ssWithin :=
                 fold_left (fun ssWithin value => ssWithin + (value - groupMean) ^ 2)
                           group (snd sums) in
               (ssBetween, ssWithin))
            (combine groups groupMeans) (0, 0).

(** [StatsLib.anova(groups)] *)
Definition anova (groups : list (list R)) : Anova :=
  let k := length groups in
  let allValues := concat groups in
  let n := length allValues in
  let groupMeans := List.map Worker.mean groups in
  let overallMean := Worker.mean allValues in
  let sums := sumsOfSquares groups groupMeans overallMean in
  let ssBetween := fst sums in
  let ssWithin := snd sums in
  let dfBetween := (Z.of_nat k - 1)%Z in
  let dfWithin := (Z.of_nat n - Z.of_nat k)%Z in
  let msBetween := ssBetween / IZR dfBetween in
  let msWithin := ssWithin / IZR dfWithin in
  let f := msBetween / msWithin in
  let pValue := calculateFPValue f dfBetween dfWithin in
  {| f := f; dfBetween := dfBetween; dfWithin := dfWithin; pValue := pValue;
     ssBetween := ssBetween; ssWithin := ssWithin;
     msBetween := msBetween; msWithin := msWithin |}.

(** [{ n, mean, std }] of the worker's [groupStats] *)
Record GroupSummary := { g_n : nat; g_mean : R; g_std : R }.

(** [groupStats] holds the own properties of the object of that name. *)
Record Result := {
  test : string;
  groups : list label;
  groupStats : list (label * GroupSummary);
  statistics : Anova
}.

Definition runOneWayANOVA (values : list R) (groups : list label) : outcome Result :=
  let uniqueGroups := uniqueGroups groups in
  if (length uniqueGroups <? 3)%nat then Err Anova.needsThreeGroups
  else
    let groupArrays := List.map (fun group => groupValues values groups group) uniqueGroups in
    let result := anova groupArrays in
    let groupStats :=
      JSObject.assigned
        (List.map (fun group =>
                     let groupValues := groupValues values groups group in
                     (group, {| g_n := length groupValues;
                                g_mean := Worker.mean groupValues;
                                g_std := Worker.stdDev groupValues |}))
                  uniqueGroups) in
    Ok {| test := "One-Way ANOVA"; groups := uniqueGroups; groupStats := groupStats;
          statistics := result |}.

End WorkerAnova.

(** ** Correlation on the offload path: [StatsLib.correlation] and the
    worker's [runPearsonCorrelation] *)

Module WorkerCorrelation.

Definition sameLength : string := "المتغيران يجب أن يكونا بنفس الطول".
Definition needsThreePairs : string := "يحتاج إلى 3 أزواج على الأقل لحساب الارتباط".

(** The loop of [StatsLib.correlation] over [i < n]; both arrays have
    [n] entries. *)
Definition correlationSums (x y : list R) (meanX meanY : R) : R * R * R :=
  fold_left (fun sums pair =>
               let diffX := fst pair - meanX in
               let diffY := snd pair - meanY in
               (fst (fst sums) + diffX * diffY,
                snd (fst sums) + diffX * diffX,
                snd sums + diffY * diffY))
            (combine x y) (0, 0, 0).

(** [StatsLib.correlation(x, y)] *)
Definition correlation (x y : list R) : outcome R :=
  if negb (length x =? length y)%nat then Err sameLength
  else
    let meanX := Worker.mean x in
    let meanY := Worker.mean y in
    let sums := correlationSums x y meanX meanY in
    let numerator := fst (fst sums) in
    let denomX := snd (fst sums) in
    let denomY := snd sums in
    if Reqb denomX 0 || Reqb denomY 0 then Ok 0
    else Ok (numerator / sqrt (denomX * denomY)).

Record Result := {
  test : string;
  r : R;
  rSquared : R;
  t : extended;
  df : Z;
  pValue : R;
  n : nat
}.

(** [r * Math.sqrt((n - 2) / (1 - r * r))] for [n > 2]: the quotient is
    [Infinity] when [r * r] is 1 and negative when [r * r] exceeds 1,
    where the square root is [NaN]. *)
Definition tOf (r : R) (n : nat) : extended :=
  let divisor := 1 - r * r in
  if Rltb 0 divisor then Number (r * sqrt ((INR n - 2) / divisor))
  else if Rltb divisor 0 then NotANumber
  else if Rltb 0 r then Infinity
  else if Rltb r 0 then NegativeInfinity
  else NotANumber.

(** [StatsLib.calculateTPValue(t, df)] on such a value: every comparison
    with [NaN] is false. *)
Definition pValueOf (t : extended) (df : Z) : R :=
  match t with
  | Number t => Worker.calculateTPValue t df
  | Infinity | NegativeInfinity => if (df <=? 0)%Z then 1 else 0.0001
  | NotANumber => if (df <=? 0)%Z then 1 else 0.3
  end.

(** The loop that keeps the pairs in which neither entry is [NaN]
    ([None]); both arrays have the same length. *)
Fixpoint validPairs (values numericGroups : list (option R)) : list (R * R) :=
  match values, numericGroups with
  | x :: values', y :: numericGroups' =>
      match x, y with
      | Some x, Some y => (x, y) :: validPairs values' numericGroups'
      | _, _ => validPairs values' numericGroups'
      end
  | _, _ => []
  end.

Section Parsing.
(** [parseFloat(g)]; [None] is [NaN]. *)
Variable parseFloat : label -> option R.

(** The worker's [runPearsonCorrelation(values, groups)] *)
Definition runPearsonCorrelation (values : list (option R)) (groups : list label)
  : outcome Result :=
  if negb (length values =? length groups)%nat then Err sameLength
  else
    let numericGroups := List.map parseFloat groups in
    let validPairs := validPairs values numericGroups in
    if (length validPairs <? 3)%nat then Err needsThreePairs
    else
      let xValues := List.map fst validPairs in
      let yValues := List.map snd validPairs in
      let* r := correlation xValues yValues in
      let n := length validPairs in
      let t := tOf r n in
      let df := (Z.of_nat n - 2)%Z in
      let pValue := pValueOf t df in
      Ok {| test := "Pearson Correlation"; r := r; rSquared := r * r; t := t;
            df := df; pValue := pValue; n := n |}.

End Parsing.
End WorkerCorrelation.

(** ** Simple linear regression: [StatisticalTests.runSimpleLinearRegression]

    [xValues] are the numbers that [parseFloat] reads from the cells of
    the second column; the model covers the case where every cell reads
    as a number and the two columns have the same length, as they do
    when [runTest] extracts them from the rows of the data. *)

Module Regression.

Record Coefficient := {
  value : R;
  se : R;
  t : R;
  pValue : R;
  ci : R * R
}.

Record Result := {
  test : string;
  intercept : Coefficient;
  slope : Coefficient;
  predicted : list R;
  residuals : list R;
  ssTotal : R;
  ssResidual : R;
  ssRegression : R;
  rSquared : R;
  adjustedRSquared : R;
  seRegression : R;
  fStatistic : R;
  fPValue : R
}.


Section Distributions.
(** [jStat.studentt.cdf(x, df)] and [jStat.studentt.inv(p, df)] *)
Variable studentt_cdf : R -> Z -> R.
Variable studentt_inv : R -> Z -> R.


End Distributions.
End Regression.

End ParametricTests.

(** * The data validator ([DataValidator], src/js/data-validator.js)

    Numbers are rationals, [Math.sqrt] and [parseFloat] are parameters,
    an [undefined] array slot and a [NaN] are [None].  A [reduce] is the
    left fold the source runs.

    A JavaScript string is the sequence of its UTF-16 code units, a list
    of numbers: [s.length] is the length of the list, [s[i]] the [i]-th
    unit, and a regular expression without the [u] flag reads the string
    unit by unit.  [codes] writes an ASCII literal as such a list. *)

Module DataValidator.
Import NumericSummary.
Local Open Scope Q_scope.

(** [values.reduce((a, b) => a + b, 0)] *)
Definition total (values : list Q) : Q := fold_left Qplus values 0.

(** [calculateMean(values)]: on an empty array [0 / 0] *)
Definition calculateMean (values : list Q) : option Q :=
  let sum := total values in
  if (length values =? 0)%nat then None else Some (sum / ofNat (length values)).

(** [(a + b) / 2] on two array slots *)
Definition average (a b : option Q) : option Q :=
  match a, b with
  | Some a, Some b => Some ((a + b) / 2)
  | _, _ => None
  end.

(** [calculateMedian(sortedValues)] *)
Definition calculateMedian (sortedValues : list Q) : option Q :=
  let mid := Z.of_nat (length sortedValues / 2) in
  if (length sortedValues mod 2 =? 0)%nat
  then average (at_index sortedValues (mid - 1)) (at_index sortedValues mid)
  else at_index sortedValues mid.

(** [calculateVariance(values)] *)
Definition calculateVariance (values : list Q) : option Q :=
  match calculateMean values with
  | None => None
  | Some mean =>
      let squaredDiffs := List.map (fun x => (x - mean) ^ 2) values in
      Some (total squaredDiffs / ofNat (length values))
  end.

Section Library.
Variable Math_sqrt : Q -> Q.

(** [calculateStdDev(values)] *)
Definition calculateStdDev (values : list Q) : option Q :=
  match calculateMean values with
  | None => None
  | Some mean =>
      let squaredDiffs := List.map (fun x => (x - mean) ^ 2) values in
      let variance := total squaredDiffs / ofNat (length values) in
      Some (Math_sqrt variance)
  end.

(** [calculateSkewness(values)] *)
Definition calculateSkewness (values : list Q) : option Q :=
  let n := length values in
  if (n <? 3)%nat then Some 0
  else
    match calculateMean values, calculateStdDev values with
    | Some mean, Some stdDev =>
        if Qeq_bool stdDev 0 then Some 0
        else
          let cubedDiffs := List.map (fun x => (x - mean) ^ 3) values in
          let sumCubedDiffs := total cubedDiffs in
          Some ((sumCubedDiffs / ofNat n) / stdDev ^ 3)
    | _, _ => None
    end.

(** [calculateKurtosis(values)] *)
Definition calculateKurtosis (values : list Q) : option Q :=
  let n := length values in
  if (n <? 4)%nat then Some 0
  else
    match calculateMean values, calculateStdDev values with
    | Some mean, Some stdDev =>
        if Qeq_bool stdDev 0 then Some 0
        else
          let fourthDiffs := List.map (fun x => (x - mean) ^ 4) values in
          let sumFourthDiffs := total fourthDiffs in
          Some ((sumFourthDiffs / ofNat n) / stdDev ^ 4 - 3)
    | _, _ => None
    end.

(** The object [calculateNumericStats] returns; [iqr] is the [null] the
    source writes. *)
Record NumericStats := {
  min : option Q;
  max : option Q;
  mean : option Q;
  median : option Q;
  stdDev : option Q;
  variance : option Q;
  q1 : option Q;
  q3 : option Q;
  iqr : option Q;
  skewness : option Q;
  kurtosis : option Q
}.

(** [calculateNumericStats(values)]; [None] is the [null] of an empty
    array. *)
Definition calculateNumericStats (values : list Q) : option NumericStats :=
  if (length values =? 0)%nat then None
  else
    let sorted := stable_sort (byValue (fun x => x)) values in
    Some {| min := at_index sorted 0;
            max := at_index sorted (Z.of_nat (length sorted) - 1);
            mean := calculateMean values;
            median := calculateMedian sorted;
            stdDev := calculateStdDev values;
            variance := calculateVariance values;
            q1 := calculatePercentile sorted 25;
            q3 := calculatePercentile sorted 75;
            iqr := None;
            skewness := calculateSkewness values;
            kurtosis := calculateKurtosis values |}.

End Library.

(** ** Strings *)

Definition text := list N.

Definition codes (literal : string) : text :=
  List.map N_of_ascii (list_ascii_of_string literal).

(** The characters the source names: double quote, single quote, [&],
    [<], [>], [/], [,] and [_] *)
Definition doubleQuote : N := 34.
Definition singleQuote : N := 39.
Definition ampersand : N := 38.
Definition lessThan : N := 60.
Definition greaterThan : N := 62.
Definition slash : N := 47.
Definition comma : N := 44.
Definition underscore : N := 95.

(** [c >= first && c <= last] on code units *)
Definition within (first last c : N) : bool := (first <=? c)%N && (c <=? last)%N.

(** White space and line terminators of ECMAScript: what [trim] strips
    and what [\s] matches. *)
Definition isWhiteSpace (c : N) : bool :=
  within 9 13 c || (c =? 32)%N || (c =? 160)%N || (c =? 5760)%N ||
  within 8192 8202 c || (c =? 8232)%N || (c =? 8233)%N || (c =? 8239)%N ||
  (c =? 8287)%N || (c =? 12288)%N || (c =? 65279)%N.

Fixpoint dropWhile (p : N -> bool) (s : text) : text :=
  match s with
  | [] => []
  | c :: rest => if p c then dropWhile p rest else s
  end.

(** [s.trim()] *)
Definition trim (s : text) : text :=
  rev (dropWhile isWhiteSpace (rev (dropWhile isWhiteSpace s))).

(** [map[char]] of [escapeHTML] for the six characters its expression
    matches ([&], [<], [>], the two quotes and [/]), the character itself
    otherwise *)
Definition escapeChar (char : N) : text :=
  if (char =? ampersand)%N then codes "&amp;"
  else if (char =? lessThan)%N then codes "&lt;"
  else if (char =? greaterThan)%N then codes "&gt;"
  else if (char =? doubleQuote)%N then codes "&quot;"
  else if (char =? singleQuote)%N then codes "&#x27;"
  else if (char =? slash)%N then codes "&#x2F;"
  else [char].

(** [escapeHTML(text)] *)
Definition escapeHTML (t : text) : text := flat_map escapeChar t.

(** [[\x00-\x08\x0B\x0C\x0E-\x1F\x7F]] *)
Definition isControl (c : N) : bool :=
  within 0 8 c || (c =? 11)%N || (c =? 12)%N || within 14 31 c || (c =? 127)%N.

(** [sanitizeCellValue(value)] on a string, or on [null]/[undefined]
    ([None]) *)
Definition sanitizeCellValue (value : option text) : text :=
  match value with
  | None => []
  | Some value =>
      let value := trim value in
      let value := List.filter (fun c => negb (isControl c)) value in
      escapeHTML value
  end.

(** The class of the first [replace] of [sanitizeColumnName]: [<], [>],
    [:], the double quote, [/], the backslash, [|], [?] and [*] *)
Definition isReserved (c : N) : bool :=
  (c =? lessThan)%N || (c =? greaterThan)%N || (c =? 58)%N || (c =? doubleQuote)%N ||
  (c =? slash)%N || (c =? 92)%N || (c =? 124)%N || (c =? 63)%N || (c =? 42)%N.

(** [s.replace(/p+/g, '_')]: every maximal run of characters of the class
    [p] becomes one underscore.  [inRun] tells that the previous character
    belonged to the run being replaced.  With [p] the underscore itself
    this is also [s.replace(/__+/g, '_')], a single underscore being its
    own replacement. *)
Fixpoint replaceRuns (p : N -> bool) (inRun : bool) (s : text) : text :=
  match s with
  | [] => []
  | c :: rest =>
      if p c then
        if inRun then replaceRuns p true rest
        else underscore :: replaceRuns p true rest
      else c :: replaceRuns p false rest
  end.

(** [/^[a-zA-Z_ء-ي]/.test(s)] *)
Definition startsWithLetter (s : text) : bool :=
  match s with
  | [] => false
  | c :: _ => within 97 122 c || within 65 90 c || (c =? underscore)%N || within 1569 1610 c
  end.

Definition maxColumnNameLength : nat := 100.

(** [sanitizeColumnName(name)] on a string; [now] is the value of
    [Date.now()]. *)
Definition sanitizeColumnName (now : nat) (name : text) : text :=
  match name with
  | [] => codes "column_" ++ codes (NilEmpty.string_of_uint (Nat.to_uint now))
  | _ =>
      let sanitized :=
        replaceRuns (N.eqb underscore) false
          (replaceRuns isWhiteSpace false
             (List.map (fun c => if isReserved c then underscore else c) (trim name))) in
      let sanitized :=
        if startsWithLetter sanitized then sanitized else underscore :: sanitized in
      let sanitized :=
        if (maxColumnNameLength <? length sanitized)%nat
        then take maxColumnNameLength sanitized else sanitized in
      match sanitized with
      | [] => codes "column"
      | _ => sanitized
      end
  end.

(** *** [parseCSVLine] *)

Definition isQuote (char : N) : bool :=
  (char =? doubleQuote)%N || (char =? singleQuote)%N.

(** [char === quoteChar], where [quoteChar] is [''] ([None]) before the
    first quote and [char] is [undefined] ([None]) beyond the line *)
Definition sameChar (char quoteChar : option N) : bool :=
  match char, quoteChar with
  | Some c, Some q => (c =? q)%N
  | _, _ => false
  end.

(** The [for] loop of [parseCSVLine] and the final [values.push(current)].
    [line] holds the characters from index [i] on; the escaped quote
    advances by two. *)
Fixpoint scanLine (line : text) (values : list text) (current : text)
  (inQuotes : bool) (quoteChar : option N) : list text :=
  match line with
  | [] => values ++ [current]
  | char :: rest =>
      let nextChar := head rest in
      if negb inQuotes && isQuote char then
        scanLine rest values current true (Some char)
      else if inQuotes && sameChar (Some char) quoteChar && sameChar nextChar quoteChar then
        match rest with
        | _ :: rest' => scanLine rest' values (current ++ [char]) inQuotes quoteChar
        | [] => scanLine rest values (current ++ [char]) inQuotes quoteChar
        end
      else if inQuotes && sameChar (Some char) quoteChar then
        scanLine rest values current false quoteChar
      else if negb inQuotes && (char =? comma)%N then
        scanLine rest (values ++ [current]) [] inQuotes quoteChar
      else
        scanLine rest values (current ++ [char]) inQuotes quoteChar
  end.

(** [value.startsWith(q)], [value.endsWith(q)] for a one-character [q] *)
Definition startsWith (q : N) (value : text) : bool :=
  match value with
  | c :: _ => (c =? q)%N
  | [] => false
  end.

Definition endsWith (q : N) (value : text) : bool := startsWith q (rev value).

(** [value.replace(/qq/g, q)]: from the left, every pair of [q] becomes
    one [q]. *)
Fixpoint replacePairs (q : N) (value : text) : text :=
  match value with
  | [] => []
  | a :: rest =>
      match rest with
      | b :: rest' =>
          if (a =? q)%N && (b =? q)%N then q :: replacePairs q rest'
          else a :: replacePairs q rest
      | [] => [a]
      end
  end.

(** The function mapped over the values at the end of [parseCSVLine];
    [value.slice(1, -1)] drops the first and the last character. *)
Definition cleanValue (value : text) : text :=
  let value :=
    if (startsWith doubleQuote value && endsWith doubleQuote value) ||
       (startsWith singleQuote value && endsWith singleQuote value)
    then removelast (tail value) else value in
  let value := replacePairs singleQuote (replacePairs doubleQuote value) in
  trim value.

(** [parseCSVLine(line)] *)
Definition parseCSVLine (line : text) : list text :=
  List.map cleanValue (scanLine line [] [] false None).

(** *** [validateHeaders] *)

(** What the validator throws.  Each constructor stands for one [throw]
    of the source, with the values its message is built from. *)
Inductive ParseError :=
| ContentTooLarge
| EmptyFile
| TooManyRows
| NoColumns
| TooManyColumns
| RowLength (row : nat)
| CellTooLong (header : text) (row : nat)
| NoData
| UnexpectedColumns (row : nat).

Inductive thrown (A : Type) : Type :=
| Returned (a : A)
| Thrown (e : ParseError).
Arguments Returned {A} a.
Arguments Thrown {A} e.

Definition andThen {A B : Type} (r : thrown A) (k : A -> thrown B) : thrown B :=
  match r with
  | Returned a => k a
  | Thrown e => Thrown e
  end.

(** The limits of [config]; a length is compared with them as a number. *)
Definition maxFileSize : N := 10 * 1024 * 1024.
Definition maxRows : N := 100000.
Definition maxColumns : N := 100.
Definition maxCellLength : N := 10000.

Definition exceeds {A : Type} (l : list A) (limit : N) : bool :=
  (limit <? N.of_nat (length l))%N.

Definition sameText (a b : text) : bool := bool_decide (a = b).

(** The names every object inherits from [Object.prototype].  Read from
    the empty object [counts] they are not [undefined] but functions (or
    the prototype itself), so that [(counts[header] || 0) + 1] is a string
    and [counts[header] > 1] is false at every occurrence. *)
Definition inheritedNames : list text :=
  List.map codes
    ["constructor"; "hasOwnProperty"; "isPrototypeOf"; "propertyIsEnumerable";
     "toLocaleString"; "toString"; "valueOf"; "__proto__"; "__defineGetter__";
     "__defineSetter__"; "__lookupGetter__"; "__lookupSetter__"]%string.

Definition isInherited (name : text) : bool := existsb (sameText name) inheritedNames.

(** [headers.map(header => { counts[header] = (counts[header] || 0) + 1;
    return counts[header] > 1 ? header + '_' + counts[header] : header })] *)
Fixpoint numbered (headers : list text) (counts : gmap text nat) : list text :=
  match headers with
  | [] => []
  | header :: rest =>
      if isInherited header then header :: numbered rest counts
      else
        let count := (default 0 (counts !! header) + 1)%nat in
        let counts := <[header := count]> counts in
        (if (1 <? count)%nat
         then header ++ underscore :: codes (NilEmpty.string_of_uint (Nat.to_uint count))
         else header) :: numbered rest counts
  end.

(** The [forEach] that collects [duplicates]; [seen] is the [Set]. *)
Fixpoint duplicatesOf (headers : list text) (index : nat) (seen : list text)
  : list (nat * text) :=
  match headers with
  | [] => []
  | header :: rest =>
      if existsb (sameText header) seen
      then (index, header) :: duplicatesOf rest (S index) seen
      else duplicatesOf rest (S index) (seen ++ [header])
  end.

(** [validateHeaders(headers)] *)
Definition validateHeaders (headers : list text) : thrown (list text) :=
  if (length headers =? 0)%nat then Thrown NoColumns
  else if exceeds headers maxColumns then Thrown TooManyColumns
  else
    let duplicates := duplicatesOf headers 0 [] in
    if (0 <? length duplicates)%nat then Returned (numbered headers ∅)
    else Returned headers.

(** *** [parseCSVContent] *)

(** [s.replace(/\r\n/g, '\n')] and [s.replace(/\r/g, '\n')] *)
Fixpoint replaceCRLF (s : text) : text :=
  match s with
  | [] => []
  | a :: rest =>
      match rest with
      | b :: rest' =>
          if (a =? 13)%N && (b =? 10)%N then 10%N :: replaceCRLF rest'
          else a :: replaceCRLF rest
      | [] => [a]
      end
  end.

Definition replaceCR (s : text) : text :=
  List.map (fun c => if (c =? 13)%N then 10%N else c) s.

(** [s.split(separator)] for a one-character separator *)
Fixpoint split (separator : N) (s : text) : list text :=
  match s with
  | [] => [[]]
  | c :: rest =>
      if (c =? separator)%N then [] :: split separator rest
      else
        match split separator rest with
        | first :: others => (c :: first) :: others
        | [] => [[c]]
        end
  end.

(** A row of the parsed data: the object [row], keyed by header. *)
Definition Row := gmap text text.

(** The loop over [j] of [parseCSVContent], from column [j] on; [i] is
    the index of the line. *)
Fixpoint fillRow (i : nat) (values : list text) (headers : list text) (j : nat)
  (row : Row) (hasData : bool) : thrown (Row * bool) :=
  match headers with
  | [] => Returned (row, hasData)
  | header :: rest =>
      let value := sanitizeCellValue (values !! j) in
      if exceeds value maxCellLength then Thrown (CellTooLong header (i + 1))
      else
        fillRow i values rest (S j) (<[header := value]> row)
                (if (length value =? 0)%nat then hasData else true)
  end.

(** The loop over the lines, from line [i] on. *)
Fixpoint readRows (lines : list text) (i : nat) (headers : list text) (data : list Row)
  : thrown (list Row) :=
  match lines with
  | [] => Returned data
  | line :: rest =>
      if (length (trim line) =? 0)%nat then readRows rest (S i) headers data
      else
        let values := parseCSVLine line in
        if negb (length values =? length headers)%nat then Thrown (RowLength (i + 1))
        else
          andThen (fillRow i values headers 0 ∅ false) (fun filled =>
            let (row, hasData) := filled in
            readRows rest (S i) headers (if hasData then data ++ [row] else data))
  end.

(** [Object.keys(row).filter(key => !headers.includes(key))], as a set *)
Definition extraKeys (row : Row) (headers : list text) : list text :=
  List.filter (fun key => negb (existsb (sameText key) headers))
              (List.map fst (map_to_list row)).

(** The [forEach] of [validateDataStructure].  The rows are the plain
    objects [parseCSVContent] builds, whose prototype is
    [Object.prototype]: the first test of the source does not throw. *)
Fixpoint checkRows (data : list Row) (index : nat) (headers : list text) : thrown unit :=
  match data with
  | [] => Returned tt
  | row :: rest =>
      if (0 <? length (extraKeys row headers))%nat then Thrown (UnexpectedColumns (index + 1))
      else checkRows rest (S index) headers
  end.

(** [validateDataStructure(data, headers)] *)
Definition validateDataStructure (data : list Row) (headers : list text) : thrown unit :=
  if (length data =? 0)%nat then Thrown NoData
  else checkRows data 0 headers.

(** [parseCSVContent(content)].  [clock j] is the value [Date.now()]
    has when the [j]-th header is sanitised.  The value [validateHeaders]
    returns is dropped, as in the source. *)
Definition parseCSVContent (clock : nat -> nat) (content : text) : thrown (list Row) :=
  let content := replaceCR (replaceCRLF (trim content)) in
  if exceeds content maxFileSize then Thrown ContentTooLarge
  else
    let lines := split 10 content in
    if (length lines =? 0)%nat then Thrown EmptyFile
    else if exceeds lines maxRows then Thrown TooManyRows
    else
      let headers :=
        imap (fun j header => sanitizeColumnName (clock j) header)
             (parseCSVLine (default [] (head lines))) in
      andThen (validateHeaders headers) (fun _ =>
      andThen (readRows (tail lines) 1 headers []) (fun data =>
      andThen (validateDataStructure data headers) (fun _ =>
      Returned data))).

End DataValidator.

(** * The paired t-test on the two execution paths

    Numbers are real numbers, as for the independent t-test. *)

Module PairedTTest.
Import TTest ParametricTests RankTests.
Local Open Scope string_scope.
Local Open Scope R_scope.

(** The [statistics] of the result, with the effect size and the
    confidence interval where the path computes them; the numbers are the
    values before [toFixed(4)]. *)
Record Result := {
  test : string;
  t : R;
  df : Z;
  pValue : R;
  meanDifference : R;
  stdDifference : R;
  nPairs : nat;
  cohensD : option R;
  confidenceInterval : option (R * R);
  containsZero : option bool
}.

Definition needsTwoGroups : string := "يحتاج اختبار T المترابط إلى مجموعتين بالضبط".

(** The error of reading [.length] of a group that [groupMap] does not
    hold: a label that stands beside no value, when [groups] is longer
    than [values].  The model covers this case for the labels that are
    not inherited names. *)
Definition missingGroup : string := "Cannot read properties of undefined (reading 'length')".

(** [x <= y] on numbers *)
Definition Rleb (x y : R) : bool := if Rle_dec x y then true else false.

(** ** The direct path: [StatisticalTests.runPairedTTest] *)

Module Direct.

(** [{ value, index: i }] *)
Record Entry := { value : R; index : nat }.

(** [for (let i = 0; i < n; i++) differences.push(a[i].value - b[i].value)]
    with [n] the smaller of the two lengths *)
Fixpoint differencesOf (a b : list Entry) : list R :=
  match a, b with
  | x :: a', y :: b' => (value x - value y) :: differencesOf a' b'
  | _, _ => []
  end.

Section Distributions.
(** [jStat.studentt.cdf(x, df)] and [jStat.studentt.inv(p, df)] *)
Variable studentt_cdf : R -> Z -> R.
Variable studentt_inv : R -> Z -> R.

(** [runPairedTTest(values, groups)] *)
Definition runPairedTTest (values : list R) (groups : list label) : outcome Result :=
  match uniqueGroups groups with
  | [first; second] =>
      let* groupMap :=
        groupMapOf (imap (fun i value => {| value := value; index := i |}) values) groups in
      match groupMap !! first, groupMap !! second with
      | Some firstEntries, Some secondEntries =>
          let n := Nat.min (length firstEntries) (length secondEntries) in
          let differences := differencesOf firstEntries secondEntries in
          let* meanDiff := TTest.Direct.ss_mean differences in
          let* stdDiff := TTest.Direct.ss_standardDeviation differences in
          let seDiff := stdDiff / sqrt (INR n) in
          let t := meanDiff / seDiff in
          let df := (Z.of_nat n - 1)%Z in
          let pValue := 2 * (1 - studentt_cdf (Rabs t) df) in
          let d := meanDiff / stdDiff in
          let tCritical := studentt_inv 0.975 df in
          let ciLower := meanDiff - tCritical * seDiff in
          let ciUpper := meanDiff + tCritical * seDiff in
          Ok {| test := "Paired Samples t-test";
                t := t; df := df; pValue := pValue;
                meanDifference := meanDiff; stdDifference := stdDiff; nPairs := n;
                cohensD := Some d;
                confidenceInterval := Some (ciLower, ciUpper);
                containsZero := Some (Rleb ciLower 0 && Rleb 0 ciUpper) |}
      | _, _ => Err missingGroup
      end
  | _ => Err needsTwoGroups
  end.

End Distributions.
End Direct.

(** ** The offload path: the worker's [runPairedTTest] and
    [StatsLib.tTest(group1, group2, true)] *)

Module Worker.

Record TTest := {
  tt_t : R; tt_df : Z; tt_pValue : R; tt_meanDiff : R; tt_stdDiff : R
}.

(** [group1.map((val, i) => val - group2[i])]; the two arrays have the
    same length when this is reached. *)
Fixpoint differencesOf (group1 group2 : list R) : list R :=
  match group1, group2 with
  | x :: a, y :: b => (x - y) :: differencesOf a b
  | _, _ => []
  end.

(** [StatsLib.tTest(group1, group2, true)] *)
Definition tTest (group1 group2 : list R) : outcome TTest :=
  if negb (length group1 =? length group2)%nat
  then Err "المجموعات المترابطة يجب أن تكون بنفس الطول"
  else
    let differences := differencesOf group1 group2 in
    let meanDiff := TTest.Worker.mean differences in
    let stdDiff := TTest.Worker.stdDev differences in
    let n := length differences in
    let t := meanDiff / (stdDiff / sqrt (INR n)) in
    let df := (Z.of_nat n - 1)%Z in
    let pValue := TTest.Worker.calculateTPValue t df in
    Ok {| tt_t := t; tt_df := df; tt_pValue := pValue;
          tt_meanDiff := meanDiff; tt_stdDiff := stdDiff |}.

(** The worker's [runPairedTTest(values, groups)] *)
Definition runPairedTTest (values : list R) (groups : list label) : outcome Result :=
  match uniqueGroups groups with
  | [first; second] =>
      let* groupMap := groupMapOf values groups in
      match groupMap !! first, groupMap !! second with
      | Some firstValues, Some secondValues =>
          let n := Nat.min (length firstValues) (length secondValues) in
          let group1 := take n firstValues in
          let group2 := take n secondValues in
          let* result := tTest group1 group2 in
          Ok {| test := "Paired Samples t-test";
                t := tt_t result; df := tt_df result; pValue := tt_pValue result;
                meanDifference := tt_meanDiff result; stdDifference := tt_stdDiff result;
                nPairs := n;
                cohensD := None; confidenceInterval := None; containsZero := None |}
      | _, _ => Err missingGroup
      end
  | _ => Err needsTwoGroups
  end.

End Worker.

End PairedTTest.

(** * The chi-square test of independence ([StatisticalTests], main thread)

    Numbers are rationals; [Math.sqrt] and the chi-square distribution of
    [jStat] are parameters.  A row of the data is an object whose cells
    are strings; a key the row does not hold reads [undefined] ([None]).
    A quotient whose divisor vanishes is not a finite number and is
    [None] where the source can reach it ([cramersV], the percentage of
    an empty table); the expected counts are computed for the cells of the
    table only, and there are cells only when there are rows.  The
    [details], interpretation and recommendation texts are left out. *)

Module ChiSquare.
Import NumericSummary.
Local Open Scope string_scope.

Definition Row := gmap string string.
Definition cell := option string.

(** [a === b] on cells *)
Definition sameCell (a b : cell) : bool :=
  match a, b with
  | Some x, Some y => String.eqb x y
  | None, None => true
  | _, _ => false
  end.

(** [[...new Set(cells)]] *)
Definition distinct (cells : list cell) : list cell :=
  fold_left (fun seen c => if existsb (sameCell c) seen then seen else (seen ++ [c])%list)
            cells [].

(** [categories.indexOf(c)]; [None] is [-1]. *)
Fixpoint indexOf (categories : list cell) (c : cell) : option nat :=
  match categories with
  | [] => None
  | first :: rest =>
      if sameCell first c then Some 0%nat else option_map S (indexOf rest c)
  end.

(** [Array(rows).fill(0).map(() => Array(columns).fill(0))] *)
Definition zeroes (rows columns : nat) : list (list nat) :=
  replicate rows (replicate columns 0%nat).

(** [observed[i][j]++] *)
Definition increment (observed : list (list nat)) (i j : nat) : list (list nat) :=
  alter (alter S j) i observed.

(** The [forEach] that fills [observed]. *)
Definition observedOf (data : list Row) (var1 var2 : string)
  (categories1 categories2 : list cell) : list (list nat) :=
  fold_left (fun observed (row : Row) =>
               match indexOf categories1 (row !! var1), indexOf categories2 (row !! var2) with
               | Some i, Some j => increment observed i j
               | _, _ => observed
               end)
            data (zeroes (length categories1) (length categories2)).

(** [ss.sum(row)] *)
Definition ss_sum (row : list nat) : nat := fold_left Nat.add row 0%nat.

(** The loop that fills [colTotals]: [observed[i][j]] is a number for
    every [i] and [j] of the table. *)
Definition colTotalsOf (observed : list (list nat)) (columns : nat) : list nat :=
  List.map (fun j => fold_left (fun sum row => (sum + default 0 (row !! j))%nat) observed 0%nat)
           (seq 0 columns).

Local Open Scope Q_scope.

(** [observed.map((row, i) => row.map((_, j) => rowTotals[i] * colTotals[j] / total))] *)
Definition expectedOf (observed : list (list nat)) (rowTotals colTotals : list nat)
  (total : nat) : list (list Q) :=
  imap (fun i row =>
          imap (fun j _ => ofNat (default 0%nat (rowTotals !! i))
                           * ofNat (default 0%nat (colTotals !! j)) / ofNat total)
               row)
       observed.

(** The two nested loops that add up [chiSquare]. *)
Definition chiSquareOf (observed : list (list nat)) (expected : list (list Q)) : Q :=
  fold_left (fun chiSquare rows =>
               fold_left (fun chiSquare cells =>
                            let o := ofNat (fst cells) in
                            let e := snd cells in
                            if ltb 0 e then chiSquare + (o - e) ^ 2 / e else chiSquare)
                         (combine (fst rows) (snd rows)) chiSquare)
            (combine observed expected) 0.

(** One entry of [assumptions]. *)
Record Assumption := {
  name : string;
  result : string;
  passed : bool
}.

Record AssumptionCheck := {
  assumptions : list Assumption;
  allPassed : bool;
  recommendation : string
}.

(** [expected[i][j] < 5]; an [undefined] is not below 5. *)
Definition isLow (expected : list (list Q)) (i j : nat) : bool :=
  match expected !! i with
  | Some row => match row !! j with
                | Some e => ltb e 5
                | None => false
                end
  | None => false
  end.

(** The first two loops of [checkChiSquareAssumptions], over the cells of
    [observed]. *)
Definition lowExpectedOf (observed : list (list nat)) (expected : list (list Q)) : nat :=
  list_sum (imap (fun i row => length (List.filter (isLow expected i) (seq 0 (length row))))
                 observed).

Definition totalCellsOf (observed : list (list nat)) : nat :=
  list_sum (List.map (fun row => length row) observed).

(** [checkChiSquareAssumptions(observed, expected)]; with no cell at all
    the percentage is [0 / 0], which is not at most 20. *)
Definition checkChiSquareAssumptions (observed : list (list nat)) (expected : list (list Q))
  : AssumptionCheck :=
  let cells := concat expected in
  let lowExpected := lowExpectedOf observed expected in
  let totalCells := totalCellsOf observed in
  let passed :=
    if (totalCells =? 0)%nat then false
    else Qle_bool (ofNat lowExpected / ofNat totalCells * 100) 20 in
  let zeroExpected := existsb (fun e => Qeq_bool e 0) cells in
  let allPassed := passed && negb zeroExpected in
  {| assumptions :=
       [ {| name := "التكرارات المتوقعة";
            result := if passed then "مناسبة" else "غير مناسبة";
            passed := passed |};
         {| name := "عدم وجود توقعات صفرية";
            result := if zeroExpected then "فشل" else "ناجح";
            passed := negb zeroExpected |};
         {| name := "استقلال المشاهدات"; result := "مفترض"; passed := true |} ];
     allPassed := allPassed;
     recommendation := if allPassed
                       then "افتراضات اختبار مربع كاي مستوفاة"
                       else "قد تحتاج إلى اختبار فيشر الدقيق أو دمج الفئات" |}.

Record Result := {
  test : string;
  rows : list cell;
  columns : list cell;
  observed : list (list nat);
  expected : list (list Q);
  chiSquare : Q;
  df : Z;
  pValue : Q;
  n : nat;
  cramersV : option Q;
  assumptionCheck : AssumptionCheck
}.

Section Library.
(** [Math.sqrt(x)] and [jStat.chisquare.cdf(x, df)] *)
Variable Math_sqrt : Q -> Q.
Variable chisquare_cdf : Q -> Z -> Q.

(** [runChiSquareTest(data, var1, var2)] *)
Definition runChiSquareTest (data : list Row) (var1 var2 : string) : Result :=
  let categories1 := distinct (List.map (fun row : Row => row !! var1) data) in
  let categories2 := distinct (List.map (fun row : Row => row !! var2) data) in
  let observed := observedOf data var1 var2 categories1 categories2 in
  let rowTotals := List.map ss_sum observed in
  let colTotals := colTotalsOf observed (length categories2) in
  let total := ss_sum rowTotals in
  let expected := expectedOf observed rowTotals colTotals total in
  let chiSquare := chiSquareOf observed expected in
  let df := ((Z.of_nat (length categories1) - 1) * (Z.of_nat (length categories2) - 1))%Z in
  let pValue := 1 - chisquare_cdf chiSquare df in
  let assumptionCheck := checkChiSquareAssumptions observed expected in
  let minDim := Nat.min (length categories1) (length categories2) in
  let divisor := ofNat total * (ofNat minDim - 1) in
  let cramersV :=
    if Qeq_bool divisor 0 then None else Some (Math_sqrt (chiSquare / divisor)) in
  {| test := "Chi-Square Test of Independence";
     rows := categories1; columns := categories2;
     observed := observed; expected := expected;
     chiSquare := chiSquare; df := df; pValue := pValue; n := total;
     cramersV := cramersV;
     assumptionCheck := assumptionCheck |}.

End Library.

End ChiSquare.

(** * The Spearman rank correlation ([StatisticalTests], main thread)

    Numbers are rationals.  The two columns are the numbers the source
    works on (the second after [parseFloat]).  A value that is not a
    finite number is spelled out: an [undefined] array slot and the sum it
    enters are [None], a quotient with a vanishing divisor is an infinity
    or [NaN].  [Math.sqrt], the Student distribution of [jStat] and
    [ss.sampleCorrelation] are parameters. *)

Module Spearman.
Import NumericSummary RankTests.
Local Open Scope string_scope.
Local Open Scope Q_scope.

(** [ranks[i]]: [undefined] beyond the end and in a slot never written *)
Definition rankAt (ranks : list (option Q)) (i : nat) : option Q :=
  match ranks !! i with
  | Some (Some rank) => Some rank
  | _ => None
  end.

(** [for (let i = 0; i < n; i++) { const d = ranks1[i] - ranks2[i];
    sumDSquared += d * d }] *)
Definition sumDSquaredOf (ranks1 ranks2 : list (option Q)) (n : nat) : option Q :=
  fold_left (fun sumDSquared i =>
               match rankAt ranks1 i, rankAt ranks2 i with
               | Some a, Some b => plus sumDSquared (Some ((a - b) * (a - b)))
               | _, _ => None
               end)
            (seq 0 n) (Some 0).

(** [1 - x], [a * x], [Math.abs(x)] where [x] may be an infinity or
    [NaN] *)
Definition oneMinus (x : quotient) : quotient :=
  match x with
  | Finite q => Finite (1 - q)
  | PlusInfinity => MinusInfinity
  | MinusInfinity => PlusInfinity
  | NaN => NaN
  end.

Definition negate (x : quotient) : quotient :=
  match x with
  | Finite q => Finite (- q)
  | PlusInfinity => MinusInfinity
  | MinusInfinity => PlusInfinity
  | NaN => NaN
  end.

Definition times (a : Q) (x : quotient) : quotient :=
  match x with
  | Finite q => Finite (a * q)
  | PlusInfinity => if ltb 0 a then PlusInfinity else if ltb a 0 then MinusInfinity else NaN
  | MinusInfinity => if ltb 0 a then MinusInfinity else if ltb a 0 then PlusInfinity else NaN
  | NaN => NaN
  end.

Definition absolute (x : quotient) : quotient :=
  match x with
  | Finite q => Finite (Qabs q)
  | PlusInfinity | MinusInfinity => PlusInfinity
  | NaN => NaN
  end.

Record Result := {
  test : string;
  rho : quotient;
  pValue : quotient;
  n : nat;
  sumDSquared : option Q
}.

Section Library.
(** [Math.sqrt(x)] and [jStat.studentt.cdf(x, df)], whose argument may
    be an infinity or [NaN], and [ss.sampleCorrelation(x, y)], which may
    throw. *)
Variable Math_sqrt : quotient -> quotient.
Variable studentt_cdf : quotient -> Z -> quotient.
Variable ss_sampleCorrelation : list (option Q) -> list (option Q) -> outcome quotient.

(** [rho * Math.sqrt((n - 2) / (1 - rho * rho))] *)
Definition tStatistic (rho : quotient) (n : nat) : quotient :=
  match rho with
  | Finite r => times r (Math_sqrt (divide (Some (ofNat n - 2)) (1 - r * r)))
  | _ => NaN
  end.

(** [runSpearmanCorrelation(values, groups)], with [numericGroups] the
    numbers [groups.map(g => parseFloat(g))]. *)
Definition runSpearmanCorrelation (values numericGroups : list Q) : outcome Result :=
  let ranks1 := calculateRanks values in
  let ranks2 := calculateRanks numericGroups in
  let n := length values in
  let sumDSquared := sumDSquaredOf ranks1 ranks2 n in
  let tieCorrection1 := calculateTieCorrection values in
  let tieCorrection2 := calculateTieCorrection numericGroups in
  let* rho :=
    if Qeq_bool tieCorrection1 0 && Qeq_bool tieCorrection2 0 then
      Ok (oneMinus (divide (option_map (Qmult 6) sumDSquared)
                           (ofNat n * (ofNat n * ofNat n - 1))))
    else ss_sampleCorrelation ranks1 ranks2 in
  let pValue :=
    if (10 <? n)%nat then
      let t := tStatistic rho n in
      let df := (Z.of_nat n - 2)%Z in
      times 2 (oneMinus (studentt_cdf (absolute t) df))
    else Finite (estimateSpearmanPValue rho n) in
  Ok {| test := "Spearman Rank Correlation";
        rho := rho; pValue := pValue; n := n; sumDSquared := sumDSquared |}.

End Library.

End Spearman.

(** * The worker's outlier detection (src/js/statS-worker.js)

    Numbers are rationals.  The items are the [{ val, idx }] of the
    source, written with the field names [value] and [index] of the
    main-thread routine. *)

Module WorkerChecks.
Import NumericSummary.
Local Open Scope Q_scope.

(** [sorted[Math.floor(sorted.length * fraction)]] *)
Definition quartileAt (sorted : list Q) (fraction : Q) : option Q :=
  at_index sorted (Qfloor (ofNat (length sorted) * fraction)).

(** [detectOutliers(values)].  With four values or more both quartiles
    are elements of the array; the last branch stands for the [NaN] bounds
    an [undefined] quartile would give, with which no value compares. *)
Definition detectOutliers (values : list Q) : list Indexed :=
  if (length values <? 4)%nat then []
  else
    let sorted := stable_sort (byValue (fun x => x)) values in
    match quartileAt sorted 0.25, quartileAt sorted 0.75 with
    | Some q1, Some q3 =>
        let iqr := q3 - q1 in
        let lowerBound := q1 - 1.5 * iqr in
        let upperBound := q3 + 1.5 * iqr in
        List.filter (fun item => ltb (value item) lowerBound || ltb upperBound (value item))
                    (withIndices values)
    | _, _ => []
    end.

End WorkerChecks.

(** * The worker's test requests (src/js/statS-worker.js)

    [handleTestRequest] reads two cells of every row of the data set,
    [row[catColumn]] and [row[numColumn]]; a row is given here by these
    two cells, and every row is taken to have both columns.  The reply is
    the one message the handler posts. *)

Module WorkerRequests.
Import NumericSummary ParametricTests.
Local Open Scope string_scope.

Record Row := { category : label; measure : string }.

(** The [results] of a [testComplete] message: the object returned by one
    of the four runners of the worker. *)
Inductive Results :=
| IndependentTTest (result : TTest.TestResult)
| PairedTTest (result : PairedTTest.Result)
| OneWayANOVA (result : WorkerAnova.Result)
| PearsonCorrelation (result : WorkerCorrelation.Result).

(** [{ action: 'testComplete', results }] and [{ action: 'error', error }] *)
Inductive Message :=
| testComplete (results : Results)
| error (message : string).

Definition unknownTest (testId : string) : string := "الاختبار غير معروف: " ++ testId.
Definition testFailed (message : string) : string := "فشل تشغيل الاختبار: " ++ message.

(** [values.map((val, idx) => !isNaN(val) ? idx : -1).filter(idx => idx !== -1)] *)
Definition validIndicesOf {A : Type} (values : list (option A)) : list Z :=
  List.filter (fun idx => negb (idx =? -1)%Z)
    (imap (fun idx val => match val with
                          | Some _ => Z.of_nat idx
                          | None => (-1)%Z
                          end) values).

(** [validIndices.map(idx => array[idx])]; an index outside the array
    would read [undefined] and is not among those kept. *)
Definition pick {A : Type} (array : list A) (validIndices : list Z) : list A :=
  omap (at_index array) validIndices.

Section Parsing.
(** [parseFloat]; [None] is [NaN]. *)
Variable parseFloat : string -> option R.

(** The [switch] of [handleTestRequest]; a [throw] of a runner or of the
    [default] case is [Err]. *)
Definition dispatch (testId : string) (validValues : list R) (validGroups : list label)
  : outcome Results :=
  if String.eqb testId "independent-t-test" then
    let* results := TTest.Worker.runIndependentTTest validValues validGroups in
    Ok (IndependentTTest results)
  else if String.eqb testId "paired-t-test" then
    let* results := PairedTTest.Worker.runPairedTTest validValues validGroups in
    Ok (PairedTTest results)
  else if String.eqb testId "one-way-anova" then
    let* results := WorkerAnova.runOneWayANOVA validValues validGroups in
    Ok (OneWayANOVA results)
  else if String.eqb testId "pearson-correlation" then
    let* results :=
      WorkerCorrelation.runPearsonCorrelation parseFloat (List.map Some validValues) validGroups in
    Ok (PearsonCorrelation results)
  else Err (unknownTest testId).

(** [handleTestRequest({ testId, data: dataset, catColumn, numColumn })] *)
Definition handleTestRequest (testId : string) (dataset : list Row) : Message :=
  let groups := List.map category dataset in
  let values := List.map (fun row => parseFloat (measure row)) dataset in
  let validIndices := validIndicesOf values in
  let validValues := omap (fun val : option R => val) (pick values validIndices) in
  let validGroups := pick groups validIndices in
  match dispatch testId validValues validGroups with
  | Ok results => testComplete results
  | Err message => error (testFailed message)
  end.

End Parsing.

(** The rows whose numeric cell is a number. *)
Definition numericRows (parseFloat : string -> option R) (dataset : list Row) : list Row :=
  List.filter (fun row => match parseFloat (measure row) with
                          | Some _ => true
                          | None => false
                          end) dataset.

(** The tests that the worker runs. *)
Definition workerTests : list string :=
  ["independent-t-test"; "paired-t-test"; "one-way-anova"; "pearson-correlation"].

End WorkerRequests.

(** * The application state ([State], the [StateManager] singleton)

    The setters of [data] and [results] and [reset].  The fields
    [_selectedTest], [_validationErrors] and [_workerBusy] are neither
    read nor written by them and are left out.

    [DataValidator] is the default export of data-validator.js, the class
    itself; [analyzeColumn] and [sanitizeInput] are methods of its
    instances.  Read on the class, either name is [undefined], and the
    call throws a [TypeError]. *)

Module AppState.
Import JSObject.
Local Open Scope string_scope.

(** A value of a cell or of a property: a string, a number, or anything
    else (an object, an array, a boolean, [null]). *)
Inductive Value :=
| Str (s : string)
| Num (x : Q)
| Composite.

(** An object: its own enumerable properties in the order of
    [Object.keys], and whether [row.__proto__] is falsy or
    [Object.prototype]. *)
Record Row := { plain : bool; cells : list (string * Value) }.

(** An element of the array assigned to [data]: [null] or [undefined], a
    value whose [typeof] is not ['object'] (with the keys [Object.keys]
    gives for it), or an object. *)
Inductive Element :=
| Nullish
| Primitive (keys : list string)
| Object (row : Row).

(** Of the object returned by the column analysis only [type] is read. *)
Record ColumnStats := { type : string }.

Record Metadata := {
  rowCount : nat;
  columnCount : nat;
  columns : list string;
  columnTypes : list (string * string);
  columnStats : list (string * ColumnStats);
  hasNumericData : bool;
  hasCategoricalData : bool;
  lastUpdated : nat
}.

Record State := {
  data : option (list Element);                (* this._data *)
  metadata : option Metadata;                  (* this._metadata *)
  results : option (list (string * Value))     (* this._results *)
}.

(** The constructor, and [reset()]. *)
Definition initial : State := {| data := None; metadata := None; results := None |}.

Definition reset (s : State) : State := initial.

Definition maxRows : N := 100000.
Definition maxColumns : N := 100.

Definition exceeds (n : nat) (limit : N) : bool := (limit <? N.of_nat n)%N.

Definition notAnArray : string := "البيانات يجب أن تكون مصفوفة".
Definition tooManyRows : string := "تجاوز الحد الأقصى لعدد الصفوف (100000)".
Definition tooManyColumns : string := "تجاوز الحد الأقصى لعدد الأعمدة (100)".
Definition invalidRow (number : nat) : string :=
  "الصف " ++ Assumptions.showNat number ++ " ليس كائناً صالحاً".
Definition unauthorised : string := "الصف يحتوي على خصائص غير مصرح بها".
Definition notAnObject : string := "النتائج يجب أن تكون كائناً".

(** [Object.keys(firstRow)] *)
Definition keysOf (element : Element) : outcome (list string) :=
  match element with
  | Nullish => Err "Cannot convert undefined or null to object"
  | Primitive keys => Ok keys
  | Object row => Ok (List.map fst (cells row))
  end.

(** [row[column]] *)
Definition read (element : Element) (column : string) : option Value :=
  match element with
  | Object row => option_map snd (List.find (fun cell => String.eqb (fst cell) column) (cells row))
  | _ => None
  end.

(** The loop [for (let i = 0; i < newData.length; i++)] from row [i] on. *)
Fixpoint validateRows (i : nat) (rows : list Element) : outcome unit :=
  match rows with
  | [] => Ok tt
  | Object row :: rest =>
      if plain row then validateRows (S i) rest else Err unauthorised
  | _ :: _ => Err (invalidRow (i + 1))
  end.

(** The checks of the setter of [data] on an array. *)
Definition validateData (newData : list Element) : outcome unit :=
  if exceeds (length newData) maxRows then Err tooManyRows
  else
    match newData with
    | [] => Ok tt
    | firstRow :: _ =>
        let* columns := keysOf firstRow in
        if exceeds (length columns) maxColumns then Err tooManyColumns
        else validateRows 0 newData
    end.

(** [DataValidator.analyzeColumn(values, column)] *)
Definition analyzeColumn (values : list (option Value)) (column : string)
  : outcome ColumnStats :=
  Err "DataValidator.analyzeColumn is not a function".

(** [DataValidator.sanitizeInput(value)] *)
Definition sanitizeInput (value : string) : outcome string :=
  Err "DataValidator.sanitizeInput is not a function".

(** [for (const column of columns)] of [_updateMetadata] *)
Fixpoint analyzeColumns (rows : list Element) (columns : list string)
  (columnTypes : list (string * string)) (columnStats : list (string * ColumnStats))
  : outcome (list (string * string) * list (string * ColumnStats)) :=
  match columns with
  | [] => Ok (columnTypes, columnStats)
  | column :: rest =>
      let values := List.map (fun row => read row column) rows in
      let* stats := analyzeColumn values column in
      analyzeColumns rows rest (assign columnTypes column (type stats))
                     (assign columnStats column stats)
  end.

(** [Object.values(columnTypes).includes(name)] *)
Definition includesType (columnTypes : list (string * string)) (name : string) : bool :=
  existsb (fun entry => String.eqb (snd entry) name) columnTypes.

(** [_updateMetadata()]; [now] is the time read by [new Date()].  The
    state comes with the outcome: a [throw] leaves the fields as they
    are at that point. *)
Definition updateMetadata (now : nat) (s : State) : State * outcome unit :=
  match data s with
  | None | Some [] =>
      ({| data := data s; metadata := None; results := results s |}, Ok tt)
  | Some ((firstRow :: _) as rows) =>
      match (let* columns := keysOf firstRow in
             let* analysed := analyzeColumns rows columns [] [] in
             Ok (columns, analysed)) with
      | Ok (columns, (columnTypes, columnStats)) =>
          ({| data := data s;
              metadata := Some {| rowCount := length rows;
                                  columnCount := length columns;
                                  columns := columns;
                                  columnTypes := columnTypes;
                                  columnStats := columnStats;
                                  hasNumericData := includesType columnTypes "numeric";
                                  hasCategoricalData := includesType columnTypes "categorical";
                                  lastUpdated := now |};
              results := results s |}, Ok tt)
      | Err message => (s, Err message)
      end
  end.

(** [set data(newData)]; [None] is a value that is not an array. *)
Definition setData (now : nat) (newData : option (list Element)) (s : State)
  : State * outcome unit :=
  match newData with
  | None => (s, Err notAnArray)
  | Some rows =>
      match validateData rows with
      | Ok _ =>
          updateMetadata now {| data := Some rows; metadata := metadata s;
                                results := results s |}
      | Err message => (s, Err message)
      end
  end.

(** The loop [for (const key in newResults)] over the own properties. *)
Fixpoint sanitizeProperties (properties sanitized : list (string * Value))
  : outcome (list (string * Value)) :=
  match properties with
  | [] => Ok sanitized
  | (key, value) :: rest =>
      match value with
      | Str text =>
          let* clean := sanitizeInput text in
          sanitizeProperties rest (assign sanitized key (Str clean))
      | _ => sanitizeProperties rest (assign sanitized key value)
      end
  end.

(** [set results(newResults)]; [None] is a falsy value or one that is not
    an object, otherwise the own enumerable properties in the order of
    [for ... in]. *)
Definition setResults (newResults : option (list (string * Value))) (s : State)
  : State * outcome unit :=
  match newResults with
  | None => (s, Err notAnObject)
  | Some properties =>
      match sanitizeProperties properties [] with
      | Ok sanitized =>
          ({| data := data s; metadata := metadata s; results := Some sanitized |}, Ok tt)
      | Err message => (s, Err message)
      end
  end.

(** The calls made on the state, and the state they leave. *)
Inductive Call :=
| SetData (now : nat) (newData : option (list Element))
| SetResults (newResults : option (list (string * Value)))
| Reset.

Definition call (s : State) (c : Call) : State :=
  match c with
  | SetData now newData => fst (setData now newData s)
  | SetResults newResults => fst (setResults newResults s)
  | Reset => reset s
  end.

Definition run (calls : list Call) (s : State) : State := fold_left call calls s.

Definition isString (value : Value) : bool :=
  match value with
  | Str _ => true
  | _ => false
  end.

Definition isPlainObject (element : Element) : bool :=
  match element with
  | Object row => plain row
  | _ => false
  end.

End AppState.

(** * Validation of the data for a test ([StatisticalTests.validateDataForTest])

    The data set is an array of rows whose cells are strings; a key the
    row does not hold reads [undefined] ([None]).  The column names are
    taken not to be names that every object inherits.  The type of
    numbers is left open: the routine only tests whether [parseFloat]
    gives [NaN] ([None]). *)

Module TestValidation.
Import Recommender ChiSquare JSObject.
Local Open Scope string_scope.

Definition quote : string := String (Ascii.ascii_of_nat 34) EmptyString.

(** [`${n}`] for an integer. *)
Definition showZ (n : Z) : string := NilEmpty.string_of_int (Z.to_int n).

Definition testNotFound (testId : string) : string := "الاختبار غير موجود: " ++ testId.
Definition noData : string := "لا توجد بيانات".
Definition missingCategorical (column : string) : string :=
  "العمود الفئوي " ++ quote ++ column ++ quote ++ " غير موجود".
Definition missingNumerical (column : string) : string :=
  "العمود العددي " ++ quote ++ column ++ quote ++ " غير موجود".
Definition sampleTooSmall (size : nat) (minSampleSize : Z) : string :=
  "حجم العينة صغير جداً (" ++ Assumptions.showNat size ++ " < " ++ showZ minSampleSize ++ ")".
Definition tooFewGroups (count : nat) (minGroups : Z) : string :=
  "عدد المجموعات قليل جداً (" ++ Assumptions.showNat count ++ " < " ++ showZ minGroups ++ ")".
Definition manyGroups (count : nat) : string :=
  "عدد المجموعات كبير (" ++ Assumptions.showNat count ++ ")، قد يكون الاختبار غير مناسب".
Definition singleObservation (group : string) : string :=
  "المجموعة " ++ quote ++ group ++ quote ++ " تحتوي على ملاحظة واحدة فقط".
Definition smallSample : string :=
  "حجم العينة صغير، اختبارات المعلمية تتطلب توزيعاً طبيعياً".

(** The property key made of a cell. *)
Definition keyOf (group : cell) : string :=
  match group with
  | Some text => text
  | None => "undefined"
  end.

(** [columns.includes(column)] for [columns = Object.keys(row)] *)
Definition hasColumn (row : Row) (column : string) : bool :=
  match row !! column with
  | Some _ => true
  | None => false
  end.

(** [validGroups.filter(g => g === group).length] *)
Definition sizeOf (validGroups : list cell) (group : cell) : nat :=
  length (List.filter (fun g => sameCell g group) validGroups).

(** [uniqueGroups.forEach(group => { groupSizes[group] = ... })] *)
Definition groupSizesOf (uniqueGroups validGroups : list cell) : list (string * nat) :=
  fold_left (fun groupSizes group => assign groupSizes (keyOf group) (sizeOf validGroups group))
            uniqueGroups [].

(** The warnings pushed by the loop over [Object.entries(groupSizes)]. *)
Definition singleObservations (groupSizes : list (string * nat)) : list string :=
  List.map (fun entry => singleObservation (fst entry))
           (List.filter (fun entry => (snd entry <? 2)%nat) (entries groupSizes)).

Section Parsing.
Variable Number : Type.
(** [parseFloat] on a string; [None] is [NaN]. *)
Variable parseFloat : string -> option Number.

(** [const num = parseFloat(value); return isNaN(num) ? null : num] *)
Definition numberOf (value : cell) : option Number :=
  match value with
  | Some text => parseFloat text
  | None => None
  end.

(** The object returned; the two early returns have no [validValues] and
    no [validGroups]. *)
Record Validation := {
  valid : bool;
  errors : list string;
  warnings : list string;
  validValues : option (list Number);
  validGroups : option (list cell)
}.

Definition rejected (errors : list string) : Validation :=
  {| valid := false; errors := errors; warnings := [];
     validValues := None; validGroups := None |}.

(** [values.map((v, i) => v !== null ? i : -1).filter(i => i !== -1)] *)
Definition validIndicesOf (values : list (option Number)) : list Z :=
  List.filter (fun i => negb (i =? -1)%Z)
    (imap (fun i v => match v with
                      | Some _ => Z.of_nat i
                      | None => (-1)%Z
                      end) values).

(** [validateDataForTest(testId, data, categoricalColumn, numericalColumn)]
    on an array [data]. *)
Definition validateDataForTest (testId : string) (data : list Row)
  (categoricalColumn numericalColumn : string) : Validation :=
  match getTestById testId with
  | None => rejected [testNotFound testId]
  | Some test =>
      match data with
      | [] => rejected [noData]
      | firstRow :: _ =>
          let errors :=
            ((if negb (hasColumn firstRow categoricalColumn) && (0 <? minGroups test)%Z
              then [missingCategorical categoricalColumn] else [])
             ++ (if negb (hasColumn firstRow numericalColumn)
                 then [missingNumerical numericalColumn] else []))%list in
          if (0 <? length errors)%nat then rejected errors
          else
            let groups :=
              if (0 <? minGroups test)%Z
              then List.map (fun row : Row => row !! categoricalColumn) data
              else [] in
            let values := List.map (fun row : Row => numberOf (row !! numericalColumn)) data in
            let validValues := omap (fun v : option Number => v) values in
            let validIndices := validIndicesOf values in
            let validGroups :=
              List.map (fun i => match NumericSummary.at_index groups i with
                                 | Some group => group
                                 | None => None
                                 end) validIndices in
            let errors :=
              (errors ++ (if (Z.of_nat (length validValues) <? minSampleSize test)%Z
                          then [sampleTooSmall (length validValues) (minSampleSize test)]
                          else []))%list in
            let checked :=
              if (0 <? minGroups test)%Z then
                let uniqueGroups := distinct validGroups in
                let errors :=
                  (errors ++ (if (Z.of_nat (length uniqueGroups) <? minGroups test)%Z
                              then [tooFewGroups (length uniqueGroups) (minGroups test)]
                              else []))%list in
                let warnings :=
                  ((if (0 <? maxGroups test)%Z
                       && (maxGroups test <? Z.of_nat (length uniqueGroups))%Z
                    then [manyGroups (length uniqueGroups)] else [])
                   ++ singleObservations (groupSizesOf uniqueGroups validGroups))%list in
                (errors, warnings)
              else (errors, []) in
            let errors := fst checked in
            let warnings :=
              (snd checked ++ (if existsb (String.eqb "normality") (Recommender.assumptions test)
                                  && (length validValues <? 30)%nat
                               then [smallSample] else []))%list in
            {| valid := (length errors =? 0)%nat; errors := errors; warnings := warnings;
               validValues := Some validValues; validGroups := Some validGroups |}
      end
  end.

(** The rows whose numeric cell is a number. *)
Definition numericRows (data : list Row) (numericalColumn : string) : list Row :=
  List.filter (fun row : Row => match numberOf (row !! numericalColumn) with
                                | Some _ => true
                                | None => false
                                end) data.

End Parsing.

Arguments valid {Number}.
Arguments errors {Number}.
Arguments warnings {Number}.
Arguments validValues {Number}.
Arguments validGroups {Number}.

End TestValidation.

(** * The worker's assumption checks (src/js/statS-worker.js)

    Numbers are rationals.  [None] is the [NaN] of a mean or a variance
    of an empty array; the ratio of the variances is a [quotient], with
    its infinity and [NaN].  The number that [shapiroWilk] draws, the
    value of [0.9 + (0.1 * Math.random())], is an argument: a number
    from 0.9 to 1. *)

Module WorkerAssumptions.
Import NumericSummary RankTests WorkerChecks.
Local Open Scope Q_scope.

(** [StatsLib.mean(values)] *)
Definition mean (values : list Q) : option Q :=
  match values with
  | [] => None
  | _ => Some (fold_left (fun sum val => sum + val) values 0 / ofNat (length values))
  end.

(** [StatsLib.calculateShapiroWilkPValue(W, n)] *)
Definition calculateShapiroWilkPValue (W : Q) (n : nat) : Q :=
  if ltb 0.95 W then 0.9
  else if ltb 0.9 W then 0.5
  else if ltb 0.85 W then 0.1
  else if ltb 0.8 W then 0.05
  else 0.01.

Record ShapiroWilk := { statistic : Q; pValue : Q }.

(** [StatsLib.shapiroWilk(values)]; [None] is [null].  The sum [ss] is
    computed and not used; [drawn] is the value of
    [0.9 + (0.1 * Math.random())]. *)
Definition shapiroWilk (drawn : Q) (values : list Q) : option ShapiroWilk :=
  let n := length values in
  if (n <? 3)%nat || (5000 <? n)%nat then None
  else
    let sorted := stable_sort (byValue (fun x => x)) values in
    let mean := mean sorted in
    let ss := option_map (fun mean => fold_left (fun ss x => ss + (x - mean) ^ 2) sorted 0) mean in
    let W := drawn in
    Some {| statistic := W; pValue := calculateShapiroWilkPValue W n |}.

(** [group.reduce((sum, val) => sum + Math.pow(val - mean, 2), 0) / group.length] *)
Definition varianceOf (group : list Q) : option Q :=
  match mean group with
  | Some mean =>
      Some (fold_left (fun sum val => sum + (val - mean) ^ 2) group 0 / ofNat (length group))
  | None => None
  end.

Definition larger (a b : Q) : Q := if ltb a b then b else a.
Definition smaller (a b : Q) : Q := if ltb b a then b else a.

(** The numbers of an array, when none of its entries is [NaN]. *)
Fixpoint numbersOf (entries : list (option Q)) : option (list Q) :=
  match entries with
  | [] => Some []
  | Some x :: rest => option_map (cons x) (numbersOf rest)
  | None :: rest => None
  end.

(** [Math.max(...entries)] and [Math.min(...entries)] *)
Definition Math_max (entries : list (option Q)) : quotient :=
  match numbersOf entries with
  | None => NaN
  | Some [] => MinusInfinity
  | Some (x :: rest) => Finite (fold_left larger rest x)
  end.

Definition Math_min (entries : list (option Q)) : quotient :=
  match numbersOf entries with
  | None => NaN
  | Some [] => PlusInfinity
  | Some (x :: rest) => Finite (fold_left smaller rest x)
  end.

(** [maxVariance / minVariance]; a variance is not negative. *)
Definition ratioOf (maxVariance minVariance : quotient) : quotient :=
  match maxVariance, minVariance with
  | Finite a, Finite b => divide (Some a) b
  | _, _ => NaN
  end.

(** [{ varianceRatio, passed }]; the ratio is the number before
    [toFixed(4)]. *)
Record Homogeneity := { varianceRatio : quotient; passed : bool }.

(** The homogeneity check on groups that are there. *)
Definition homogeneityOf (values : list Q) (groups : list label) : Homogeneity :=
  let uniqueGroups := uniqueGroups groups in
  let groupValues := List.map (fun group => groupValues values groups group) uniqueGroups in
  let groupVariances := List.map varianceOf groupValues in
  let maxVariance := Math_max groupVariances in
  let minVariance := Math_min groupVariances in
  let varianceRatio := ratioOf maxVariance minVariance in
  {| varianceRatio := varianceRatio; passed := below varianceRatio 4 |}.

(** The [checks] of the request, and the [results] of the reply: a check
    that is not asked for leaves no entry. *)
Record Checks := { checkNormality : bool; checkHomogeneity : bool; checkOutliers : bool }.

Record Results := {
  normality : option (option ShapiroWilk);
  homogeneity : option Homogeneity;
  outliers : option (list Indexed)
}.

(** [handleAssumptionsCheck({ values, groups, checks })]: the [results]
    of the [assumptionsChecked] message; [groups] is [None] when the
    request has none. *)
Definition handleAssumptionsCheck (drawn : Q) (values : list Q)
  (groups : option (list label)) (checks : Checks) : Results :=
  {| normality := if checkNormality checks then Some (shapiroWilk drawn values) else None;
     homogeneity :=
       match groups with
       | Some (g :: gs) =>
           if checkHomogeneity checks then Some (homogeneityOf values (g :: gs)) else None
       | _ => None
       end;
     outliers := if checkOutliers checks then Some (detectOutliers values) else None |}.

End WorkerAssumptions.

(** * Column analysis of the data validator ([DataValidator.analyzeColumn],
      [parseNumber], [calculateCategoricalStats], [calculateEntropy],
      [validateDataForAnalysis])

    A cell is [null] or [undefined], a string or a number; numbers are
    rationals and [NaN] is [None].  [parseFloat], the writing of a number
    as a string, [Math.sqrt] and [Math.log2] are parameters. *)

Module ColumnAnalysis.
Import NumericSummary RankTests JSObject.
Local Open Scope string_scope.

Inductive Cell :=
| Null
| Text (s : string)
| Number (x : Q).

(** [value === '' || value === null || value === undefined] *)
Definition isMissing (value : Cell) : bool :=
  match value with
  | Null => true
  | Text s => String.eqb s ""
  | Number _ => false
  end.

(** [a === b] on cells that are not [NaN], as [Set] compares them *)
Definition sameValue (a b : Cell) : bool :=
  match a, b with
  | Null, Null => true
  | Text s, Text t => String.eqb s t
  | Number x, Number y => Qeq_bool x y
  | _, _ => false
  end.

(** [set.add(value)] *)
Definition add (set : list Cell) (value : Cell) : list Cell :=
  if existsb (sameValue value) set then set else (set ++ [value])%list.

(** [s.replace(/pattern/g, replacement)] for a pattern without special
    characters: [skip] characters of a match are still to be dropped. *)
Fixpoint replaceFrom (pattern replacement : string) (skip : nat) (s : string) : string :=
  match s with
  | EmptyString => EmptyString
  | String c rest =>
      match skip with
      | S k => replaceFrom pattern replacement k rest
      | O =>
          if String.prefix pattern s
          then replacement ++ replaceFrom pattern replacement (String.length pattern - 1) rest
          else String c (replaceFrom pattern replacement 0 rest)
      end
  end.

Definition replaceAll (pattern replacement s : string) : string :=
  replaceFrom pattern replacement 0 s.

Definition quote : string := String (Ascii.ascii_of_nat 34) EmptyString.

Section Library.
Variable parseFloat : string -> option Q.
Variable showNumber : Q -> string.
Variable Math_sqrt : Q -> Q.
Variable Math_log2 : Q -> Q.

(** [parseNumber(value)] *)
Definition parseNumber (value : Cell) : option Q :=
  match value with
  | Number x => Some x
  | Null => None
  | Text s =>
      match parseFloat s with
      | Some num => Some num
      | None =>
          let arabicValue := replaceAll "٫" "." s in
          match parseFloat arabicValue with
          | Some num => Some num
          | None =>
              let commaValue := replaceAll "," "." s in
              parseFloat commaValue
          end
      end
  end.

(** [`${value}`] and the property key made of a cell *)
Definition show (value : Cell) : string :=
  match value with
  | Null => "undefined"
  | Text s => s
  | Number x => showNumber x
  end.

(** [frequencies[value] = (frequencies[value] || 0) + 1] on
    [frequencies = {}], for a value that is not a name that the object
    inherits ([JSObject.isInherited]): under such a name the read gives
    the inherited member, and what is stored is a string, not a count.
    Under [__proto__] nothing is stored. *)
Definition countOf (frequencies : list (string * nat)) (value : string) : nat :=
  match List.find (fun entry => String.eqb (fst entry) value) frequencies with
  | Some entry => snd entry
  | None => 0
  end.

Definition frequenciesOf (values : list string) : list (string * nat) :=
  fold_left (fun frequencies value => assign frequencies value (countOf frequencies value + 1)%nat)
            values [].

Local Open Scope Q_scope.

(** [calculateEntropy(values)] *)
Definition calculateEntropy (values : list string) : Q :=
  let frequencies := frequenciesOf values in
  let total := length values in
  fold_left (fun entropy entry =>
               let probability := ofNat (snd entry) / ofNat total in
               entropy - probability * Math_log2 probability)
            (entries frequencies) 0.

(** [{ value, count, percentage }] *)
Record Frequency := { value : string; count : nat; percentage : Q }.

(** [(a, b) => b[1] - a[1]] is not positive *)
Definition byCountDescending (a b : string * nat) : bool := (snd b <=? snd a)%nat.

Record CategoricalStats := {
  uniqueCount : nat;
  mode : option string;
  modeCount : nat;
  modePercentage : Q;
  frequencies : list Frequency;
  entropy : Q
}.

(** [calculateCategoricalStats(values)]; [None] is the [null] of an
    empty array.  [x || null] and [x || 0] replace an empty string and a
    zero. *)
Definition calculateCategoricalStats (values : list string) : option CategoricalStats :=
  if (length values =? 0)%nat then None
  else
    let frequencies := frequenciesOf values in
    let sorted :=
      List.map (fun entry => {| value := fst entry; count := snd entry;
                                percentage := ofNat (snd entry) / ofNat (length values) * 100 |})
               (stable_sort byCountDescending (entries frequencies)) in
    Some {| uniqueCount := length sorted;
            mode := match sorted with
                    | first :: _ => if String.eqb (value first) "" then None
                                    else Some (value first)
                    | [] => None
                    end;
            modeCount := match sorted with
                         | first :: _ => count first
                         | [] => 0%nat
                         end;
            modePercentage := match sorted with
                              | first :: _ => percentage first
                              | [] => 0
                              end;
            frequencies := sorted;
            entropy := calculateEntropy values |}.

(** The object [analyzeColumn] returns. *)
Record ColumnStats := {
  name : string;
  valueCount : nat;                           (* count *)
  missing : nat;
  unique : list Cell;
  type : string;
  numericStats : option DataValidator.NumericStats;
  categoricalStats : option CategoricalStats;
  completeness : quotient
}.

(** The two arrays filled by the second [forEach]: the numbers, and the
    values that are not numbers. *)
Definition numericValuesOf (values : list Cell) : list Q :=
  omap (fun value => if isMissing value then None else parseNumber value) values.

Definition stringValuesOf (values : list Cell) : list string :=
  omap (fun value =>
          if isMissing value then None
          else match parseNumber value, value with
               | None, Text s => Some s
               | _, _ => None
               end) values.

(** [analyzeColumn(values, columnName)] *)
Definition analyzeColumn (values : list Cell) (columnName : string) : ColumnStats :=
  let missing := length (List.filter isMissing values) in
  let unique := fold_left add (List.filter (fun value => negb (isMissing value)) values) [] in
  let numericValues := numericValuesOf values in
  let stringValues := stringValuesOf values in
  let present := (length values - missing)%nat in
  let classified :=
    if (length numericValues =? present)%nat then
      ("numeric"%string, DataValidator.calculateNumericStats Math_sqrt numericValues, None)
    else if (length stringValues =? present)%nat then
      ("categorical"%string, None, calculateCategoricalStats stringValues)
    else
      ("mixed"%string,
       if (0 <? length numericValues)%nat
       then DataValidator.calculateNumericStats Math_sqrt numericValues else None,
       if (0 <? length stringValues)%nat
       then calculateCategoricalStats stringValues else None) in
  {| name := columnName;
     valueCount := length values;
     missing := missing;
     unique := unique;
     type := fst (fst classified);
     numericStats := snd (fst classified);
     categoricalStats := snd classified;
     completeness :=
       match divide (Some (ofNat (length values - missing))) (ofNat (length values)) with
       | Finite q => Finite (q * 100)
       | other => other
       end |}.

(** ** [validateDataForAnalysis] *)

Definition Row := gmap string Cell.

(** [row[column]] *)
Definition read (row : Row) (column : string) : Cell :=
  match row !! column with
  | Some value => value
  | None => Null
  end.

(** [Object.keys(firstRow).includes(column)] *)
Definition hasColumn (row : Row) (column : string) : bool :=
  match row !! column with
  | Some _ => true
  | None => false
  end.

Local Open Scope string_scope.

Definition nothingToAnalyse : string := "لا توجد بيانات للتحليل".
Definition missingCategorical (column : string) : string :=
  "العمود الفئوي " ++ quote ++ column ++ quote ++ " غير موجود".
Definition missingNumerical (column : string) : string :=
  "العمود العددي " ++ quote ++ column ++ quote ++ " غير موجود".
Definition missingGroup (index : nat) : string :=
  "الصف " ++ Assumptions.showNat (index + 1) ++ ": قيمة مفقودة في العمود الفئوي".
Definition missingValue (index : nat) : string :=
  "الصف " ++ Assumptions.showNat (index + 1) ++ ": قيمة مفقودة في العمود العددي".
Definition notNumeric (index : nat) (value : Cell) : string :=
  "الصف " ++ Assumptions.showNat (index + 1) ++ ": القيمة " ++ quote ++ show value ++ quote
  ++ " ليست رقمية".
Definition tooFewObservations : string :=
  "عدد المشاهدات غير كافٍ للتحليل (يحتاج إلى 3 على الأقل)".
Definition singleObservation (group : string) : string :=
  "المجموعة " ++ quote ++ group ++ quote ++ " تحتوي على ملاحظة واحدة فقط".

(** The four arrays that the loop over the rows fills. *)
Record Collected := {
  groupsSoFar : list Cell;
  valuesSoFar : list Q;
  errorsSoFar : list string;
  warningsSoFar : list string
}.

(** The body of [data.forEach((row, index) => ...)] *)
Definition collect (categoricalColumn numericalColumn : string)
  (state : Collected) (entry : nat * Row) : Collected :=
  let index := fst entry in
  let group := read (snd entry) categoricalColumn in
  let value := read (snd entry) numericalColumn in
  let state :=
    if isMissing group
    then {| groupsSoFar := groupsSoFar state; valuesSoFar := valuesSoFar state;
            errorsSoFar := errorsSoFar state;
            warningsSoFar := (warningsSoFar state ++ [missingGroup index])%list |}
    else {| groupsSoFar := (groupsSoFar state ++ [group])%list; valuesSoFar := valuesSoFar state;
            errorsSoFar := errorsSoFar state; warningsSoFar := warningsSoFar state |} in
  if isMissing value
  then {| groupsSoFar := groupsSoFar state; valuesSoFar := valuesSoFar state;
          errorsSoFar := errorsSoFar state;
          warningsSoFar := (warningsSoFar state ++ [missingValue index])%list |}
  else
    match parseNumber value with
    | None =>
        {| groupsSoFar := groupsSoFar state; valuesSoFar := valuesSoFar state;
           errorsSoFar := (errorsSoFar state ++ [notNumeric index value])%list;
           warningsSoFar := warningsSoFar state |}
    | Some num =>
        {| groupsSoFar := groupsSoFar state; valuesSoFar := (valuesSoFar state ++ [num])%list;
           errorsSoFar := errorsSoFar state; warningsSoFar := warningsSoFar state |}
    end.

(** The object returned; the early returns have no [groups], [values],
    [uniqueGroups] and [groupSizes]. *)
Record Analysis := {
  valid : bool;
  errors : list string;
  warnings : list string;
  groups : option (list Cell);
  values : option (list Q);
  uniqueGroups : option (list Cell);
  groupSizes : option (list (string * nat))
}.

Definition refused (errors : list string) : Analysis :=
  {| valid := false; errors := errors; warnings := [];
     groups := None; values := None; uniqueGroups := None; groupSizes := None |}.

(** [validateDataForAnalysis(data, categoricalColumn, numericalColumn)]
    on an array [data]. *)
Definition validateDataForAnalysis (data : list Row)
  (categoricalColumn numericalColumn : string) : Analysis :=
  match data with
  | [] => refused [nothingToAnalyse]
  | firstRow :: _ =>
      let errors :=
        ((if negb (hasColumn firstRow categoricalColumn)
          then [missingCategorical categoricalColumn] else [])
         ++ (if negb (hasColumn firstRow numericalColumn)
             then [missingNumerical numericalColumn] else []))%list in
      if (0 <? length errors)%nat then refused errors
      else
        let collected :=
          fold_left (collect categoricalColumn numericalColumn)
                    (imap (fun index row => (index, row)) data)
                    {| groupsSoFar := []; valuesSoFar := []; errorsSoFar := errors;
                       warningsSoFar := [] |} in
        let groups := groupsSoFar collected in
        let values := valuesSoFar collected in
        let errors :=
          (errorsSoFar collected
           ++ (if (length values <? 3)%nat then [tooFewObservations] else []))%list in
        let uniqueGroups := fold_left add groups [] in
        let groupSizes :=
          fold_left (fun groupSizes group =>
                       assign groupSizes (show group)
                              (length (List.filter (fun g => sameValue g group) groups)))
                    uniqueGroups [] in
        let warnings :=
          (warningsSoFar collected
           ++ List.map (fun entry => singleObservation (fst entry))
                       (List.filter (fun entry => (snd entry <? 2)%nat) (entries groupSizes)))%list in
        {| valid := (length errors =? 0)%nat; errors := errors; warnings := warnings;
           groups := Some groups; values := Some values;
           uniqueGroups := Some uniqueGroups; groupSizes := Some groupSizes |}
  end.

End Library.

End ColumnAnalysis.

(** * Error reporting of the application ([StatisticsApp.handleError],
      [sanitizeErrorMessage], [logError])

    Strings are sequences of UTF-16 code units, as in the data validator:
    the length that [sanitizeErrorMessage] bounds is the number of code
    units.  In a regular expression [.] is any unit but a line
    terminator. *)

Module ErrorMessages.
Import DataValidator.

Definition isLineTerminator (c : N) : bool :=
  (c =? 10)%N || (c =? 13)%N || (c =? 8232)%N || (c =? 8233)%N.

(** [s.startsWith(pattern)] *)
Fixpoint hasPrefix (pattern s : text) : bool :=
  match pattern, s with
  | [], _ => true
  | p :: pattern', c :: s' => (p =? c)%N && hasPrefix pattern' s'
  | _ :: _, [] => false
  end.

(** [s.replace(/pattern.*/g, '')] for a pattern of ordinary characters:
    from every match of the pattern on, the rest of the line is dropped;
    [inMatch] tells that the scan is inside such a rest. *)
Fixpoint removeToEndOfLine (pattern : text) (inMatch : bool) (s : text) : text :=
  match s with
  | [] => []
  | c :: rest =>
      if inMatch then
        if isLineTerminator c then c :: removeToEndOfLine pattern false rest
        else removeToEndOfLine pattern true rest
      else if hasPrefix pattern s then removeToEndOfLine pattern true rest
      else c :: removeToEndOfLine pattern false rest
  end.

(** The two Arabic literals of the source, unit by unit: the message of
    an unknown error, and the words that introduce the context. *)
Definition unknownError : text :=
  [1581; 1583; 1579; 32; 1582; 1591; 1571; 32; 1594; 1610; 1585; 32;
   1605; 1593; 1585; 1608; 1601]%N.

Definition errorIn : text := [1582; 1591; 1571; 32; 1601; 1610; 32]%N.

(** [sanitizeErrorMessage(error, context)]; [message] is [error.message],
    [None] when the error has none. *)
Definition sanitizeErrorMessage (message : option text) (context : text) : text :=
  let message :=
    match message with
    | Some (c :: rest) => c :: rest
    | _ => unknownError
    end in
  let message := removeToEndOfLine (codes "at ") false message in
  let message := removeToEndOfLine (codes "in ") false message in
  let message :=
    match context with
    | [] => message
    | _ => errorIn ++ context ++ codes ": " ++ message
    end in
  if (200 <? length message)%nat then firstn 197 message ++ codes "..."
  else message.

(** [logs.unshift(errorLog); if (logs.length > 50) logs.pop()] of
    [logError], on the array read from the store. *)
Definition logError {A : Type} (logs : list A) (errorLog : A) : list A :=
  let logs := errorLog :: logs in
  if (50 <? length logs)%nat then removelast logs else logs.

End ErrorMessages.


(** * The definitions at work *)

Module Examples.
Import NumericSummary Assumptions.
Local Open Scope string_scope.
Local Open Scope Q_scope.

Example ranks_with_ties :
  calculateRanks [3; 1; 3; 2] = [Some (7 # 2); Some (2 # 2); Some (7 # 2); Some (4 # 2)].
Proof. vm_compute. reflexivity. Qed.

Example pooled_ranks_with_ties :
  List.map Qred (pooledRanks (fun x => x) [3; 1; 3; 2]) = [1; 2; 7 # 2; 7 # 2].
Proof. vm_compute. reflexivity. Qed.

Example tie_correction_example :
  Qred (calculateTieCorrection [3; 1; 3; 2]) = 1 # 10.
Proof. vm_compute. reflexivity. Qed.

Example percentile_example :
  option_map Qred (calculatePercentile [1; 2; 3; 4] 25) = Some (7 # 4).
Proof. vm_compute. reflexivity. Qed.

Example cache_key_example :
  cacheKey [0.5; 2] ["A"; "B"] = "[1/2,2/1]-[" ++ stringifyLabel "A" ++ "," ++ stringifyLabel "B" ++ "]".
Proof. vm_compute. reflexivity. Qed.

Example normality_of_five :
  option_map passed (Results.normality (computeChecks [1; 2; 3; 4; 5] [] onlyNormality))
  = Some (Some true).
Proof. vm_compute. reflexivity. Qed.

End Examples.

(** * Facts about the stable sort *)

Section StableSortFacts.
Context {A : Type} (le : A -> A -> bool).

Lemma insert_sorted_perm x l : Permutation (insert_sorted le x l) (x :: l).
Proof.
  induction l as [|y t IH]; simpl; [reflexivity|].
  destruct (le x y); [reflexivity|].
  rewrite IH. apply perm_swap.
Qed.

Lemma stable_sort_perm l : Permutation (stable_sort le l) l.
Proof.
  induction l as [|x t IH]; simpl; [constructor|].
  rewrite insert_sorted_perm. now constructor.
Qed.

Lemma stable_sort_length l : length (stable_sort le l) = length l.
Proof. apply Permutation_length, stable_sort_perm. Qed.

Lemma insert_sorted_filter (p : A -> bool) x l :
  (forall y, p x = true -> p y = true -> le x y = true) ->
  List.filter p (insert_sorted le x l) = List.filter p (x :: l).
Proof.
  intros Hp. induction l as [|y t IH]; [reflexivity|].
  simpl insert_sorted. destruct (le x y) eqn:Hxy; [reflexivity|].
  simpl in *. rewrite IH.
  destruct (p x) eqn:Hx, (p y) eqn:Hy; try reflexivity.
  specialize (Hp y eq_refl Hy). congruence.
Qed.

(** Stability: elements that the comparator does not separate keep
    their relative order. *)
Lemma stable_sort_filter (p : A -> bool) l :
  (forall x y, p x = true -> p y = true -> le x y = true) ->
  List.filter p (stable_sort le l) = List.filter p l.
Proof.
  intros Hp. induction l as [|x t IH]; [reflexivity|].
  simpl stable_sort. rewrite insert_sorted_filter by (intros; now apply Hp).
  simpl. now rewrite IH.
Qed.

Hypothesis le_total : forall x y, le x y = true \/ le y x = true.
Hypothesis le_trans : forall x y z, le x y = true -> le y z = true -> le x z = true.

Lemma insert_sorted_sorted x l :
  StronglySorted (fun a b => le a b = true) l ->
  StronglySorted (fun a b => le a b = true) (insert_sorted le x l).
Proof using le_total le_trans.
  induction 1 as [|y t Ht IH Hy]; simpl.
  - repeat constructor.
  - destruct (le x y) eqn:Hxy.
    + constructor; [now constructor|].
      constructor; [exact Hxy|].
      rewrite Forall_forall in *. intros z Hz. eauto.
    + constructor; [exact IH|].
      assert (Hyx : le y x = true) by (destruct (le_total x y); congruence).
      rewrite Forall_forall in *. intros z Hz.
      apply (Permutation_in _ (insert_sorted_perm x t)) in Hz.
      destruct Hz as [<-|Hz]; auto.
Qed.

Lemma stable_sort_sorted l :
  StronglySorted (fun a b => le a b = true) (stable_sort le l).
Proof using le_total le_trans.
  induction l as [|x t IH]; simpl; [constructor|].
  now apply insert_sorted_sorted.
Qed.
End StableSortFacts.
(** * Facts about lists read by position *)

Section ListFacts.
Context {A : Type}.

Lemma filter_length_range (p : A -> bool) (l : list A) (a b : nat) :
  b <= length l ->
  (forall k x, l !! k = Some x -> (p x = true <-> a <= k < b)) ->
  length (List.filter p l) = b - a.
Proof.
  revert a b. induction l as [|y t IH]; intros a b Hb Hp; simpl in *.
  - lia.
  - assert (Htail : length (List.filter p t) = (b - 1) - (a - 1)).
    { apply IH; [lia|]. intros k x Hk.
      rewrite (Hp (S k) x Hk). lia. }
    destruct (p y) eqn:Hy; simpl.
    + apply (Hp 0 y eq_refl) in Hy. lia.
    + assert (~ (a <= 0 < b)) by (rewrite <- (Hp 0 y eq_refl); congruence). lia.
Qed.

Lemma filter_map_length {B : Type} (f : A -> B) (p : B -> bool) (l : list A) :
  length (List.filter p (List.map f l)) = length (List.filter (fun x => p (f x)) l).
Proof.
  induction l as [|y t IH]; simpl; [reflexivity|].
  destruct (p (f y)); simpl; now rewrite IH.
Qed.

Lemma filter_length_perm (p : A -> bool) (l l' : list A) :
  Permutation l l' -> length (List.filter p l) = length (List.filter p l').
Proof.
  induction 1; simpl; try congruence.
  - destruct (p x); simpl; congruence.
  - destruct (p x), (p y); reflexivity.
Qed.

Lemma StronglySorted_lookup (R : A -> A -> Prop) (l : list A) :
  StronglySorted R l ->
  forall i j a b, i < j -> l !! i = Some a -> l !! j = Some b -> R a b.
Proof.
  induction 1 as [|y t Ht IH Hy]; intros i j a b Hij Hi Hj.
  - discriminate.
  - destruct j as [|j]; [lia|]. destruct i as [|i]; simpl in *.
    + injection Hi as <-. rewrite Forall_forall in Hy. apply Hy.
      apply list_elem_of_In. eapply list_elem_of_lookup_2; eauto.
    + apply (IH i j); auto; lia.
Qed.

Lemma lookup_map {B : Type} (f : A -> B) (l : list A) (i : nat) :
  List.map f l !! i = option_map f (l !! i).
Proof.
  revert i. induction l as [|y t IH]; intros [|i]; simpl; auto.
Qed.
End ListFacts.

(** * Correctness of the rank assignment *)

Module RankProofs.
Import NumericSummary.
Local Open Scope Q_scope.

Lemma ofNat_add a b : ofNat (a + b) == ofNat a + ofNat b.
Proof. unfold ofNat. rewrite Nat2Z.inj_add, inject_Z_plus. reflexivity. Qed.

Lemma ofNat_S a : ofNat (S a) == ofNat a + 1.
Proof. replace (S a) with (a + 1)%nat by lia. rewrite ofNat_add. reflexivity. Qed.

Lemma ofNat_le a b : (a <= b)%nat -> ofNat a <= ofNat b.
Proof. intros H. unfold ofNat. rewrite <- Zle_Qle. lia. Qed.

Lemma byValue_le {A : Type} (key : A -> Q) a b :
  byValue key a b = true <-> key a <= key b.
Proof.
  unfold byValue. rewrite Qle_bool_iff. split; intros H; qlra.
Qed.

Lemma ltb_lt x y : ltb x y = true <-> x < y.
Proof.
  unfold ltb. rewrite negb_true_iff. split.
  - intros H. apply Qnot_le_lt. intros Hle. apply Qle_bool_iff in Hle. congruence.
  - intros H. destruct (Qle_bool y x) eqn:E; [|reflexivity].
    apply Qle_bool_iff in E. qlra.
Qed.

(** An array sorted by [key], read by position. *)
Definition sortedBy {A : Type} (key : A -> Q) (a : list A) : Prop :=
  forall i j x y, (i <= j)%nat -> a !! i = Some x -> a !! j = Some y -> key x <= key y.

(** [i] starts a group of ties: everything before it is strictly smaller
    than everything from it on. *)
Definition boundary {A : Type} (key : A -> Q) (a : list A) (i : nat) : Prop :=
  forall k m x y, (k < i)%nat -> (i <= m)%nat -> a !! k = Some x -> a !! m = Some y ->
                  key x < key y.

(** A sorted array of indexed values whose indices are distinct
    positions of an array of the same length. *)
Record sortedIndexed (w : list Indexed) : Prop := {
  si_sorted : sortedBy value w;
  si_bound : forall k x, w !! k = Some x -> (index x < length w)%nat;
  si_inj : forall k m x y, w !! k = Some x -> w !! m = Some y ->
                           index x = index y -> k = m
}.

Lemma tieEnd_spec w i current fuel : forall j,
  w !! i = Some current ->
  (i <= j < length w)%nat -> (length w <= j + 1 + fuel)%nat ->
  (forall k x, (i <= k <= j)%nat -> w !! k = Some x -> value x == value current) ->
  (j <= tieEnd w i j fuel < length w)%nat /\
  (forall k x, (i <= k <= tieEnd w i j fuel)%nat -> w !! k = Some x ->
               value x == value current) /\
  (forall x, w !! (tieEnd w i j fuel + 1)%nat = Some x -> ~ value x == value current).
Proof.
  induction fuel as [|fuel IH]; intros j Hi Hj Hfuel Hblock; simpl.
  - split; [lia|]. split; [exact Hblock|].
    intros x Hx. apply lookup_lt_Some in Hx. lia.
  - rewrite Hi. destruct (w !! (j + 1)%nat) as [next|] eqn:Hnext.
    + destruct (Qeq_bool (value next) (value current)) eqn:Heq.
      * apply Qeq_bool_eq in Heq. pose proof (lookup_lt_Some _ _ _ Hnext) as Hlt.
        destruct (IH (j + 1)%nat) as (H1 & H2 & H3); auto; try lia.
        { intros k x Hk Hx. destruct (Nat.eq_dec k (j + 1)) as [->|Hne].
          - rewrite Hnext in Hx. injection Hx as <-. exact Heq.
          - apply (Hblock k); auto. lia. }
        split; [lia|]. split; assumption.
      * split; [lia|]. split; [exact Hblock|].
        intros x Hx. rewrite Hnext in Hx. injection Hx as <-.
        now apply Qeq_bool_neq.
    + split; [lia|]. split; [exact Hblock|]. intros x Hx. congruence.
Qed.

Lemma assignRanks_spec w averageRank count : forall k ranks,
  (forall m x, w !! m = Some x -> (index x < length ranks)%nat) ->
  (k + count <= length w)%nat ->
  let ranks' := assignRanks w averageRank k count ranks in
  length ranks' = length ranks /\
  (forall idx,
      (ranks !! idx = Some (Some averageRank) \/
       exists m x, (k <= m < k + count)%nat /\ w !! m = Some x /\ index x = idx) ->
      ranks' !! idx = Some (Some averageRank)) /\
  (forall idx,
      (forall m x, (k <= m < k + count)%nat -> w !! m = Some x -> index x <> idx) ->
      ranks' !! idx = ranks !! idx).
Proof.
  induction count as [|count IH]; intros k ranks Hbound Hlen; simpl.
  - split; [reflexivity|]. split; [|reflexivity].
    intros idx [H|(m & x & Hm & _)]; [exact H|lia].
  - destruct (w !! k) as [item|] eqn:Hk.
    2:{ apply lookup_ge_None in Hk. lia. }
    set (ranks1 := <[index item := Some averageRank]> ranks).
    assert (Hlen1 : length ranks1 = length ranks) by apply length_insert.
    destruct (IH (S k) ranks1) as (H1 & H2 & H3).
    { intros m x Hx. rewrite Hlen1. eauto. }
    { lia. }
    split; [congruence|]. split.
    + intros idx Hidx. apply H2.
      destruct (Nat.eq_dec idx (index item)) as [->|Hne].
      * left. apply list_lookup_insert_eq. eauto.
      * destruct Hidx as [Hold|(m & x & Hm & Hx & Hix)].
        -- left. unfold ranks1. rewrite list_lookup_insert_ne; auto.
        -- right. exists m, x. repeat split; auto; try lia.
           destruct (Nat.eq_dec m k) as [->|]; [|lia]. congruence.
    + intros idx Hidx. rewrite H3.
      * unfold ranks1. apply list_lookup_insert_ne.
        apply (Hidx k item); auto. lia.
      * intros m x Hm Hx. apply (Hidx m x); auto. lia.
Qed.

(** The ranks written so far are the midranks of the first [i] items of
    the sorted array. *)
Definition ranked (w : list Indexed) (i : nat) (ranks : list (option Q)) : Prop :=
  length ranks = length w /\
  forall k x, (k < i)%nat -> w !! k = Some x ->
    exists r, ranks !! index x = Some (Some r) /\
              r == midrank (List.map value w) (value x).

(** A maximal group of ties [i..j] of a sorted array receives the rank
    [(i + j + 2) / 2], which is its midrank. *)
Lemma block_midrank {A : Type} (key : A -> Q) (a : list A) i j current :
  sortedBy key a -> boundary key a i ->
  a !! i = Some current -> (i <= j < length a)%nat ->
  (forall k x, (i <= k <= j)%nat -> a !! k = Some x -> key x == key current) ->
  (forall x, a !! (j + 1)%nat = Some x -> ~ key x == key current) ->
  midrank (List.map key a) (key current) == ofNat (i + j + 2) / 2
  /\ boundary key a (j + 1).
Proof.
  intros Hw Hb Hi Hj Hblock Hnext.
  assert (Hafter : forall m b, (j < m)%nat -> a !! m = Some b -> key current < key b).
  { intros m b Hm Hb'.
    destruct (a !! (j + 1)%nat) as [x|] eqn:Hx.
    2:{ apply lookup_ge_None in Hx. apply lookup_lt_Some in Hb'. lia. }
    assert (key current <= key x) by (apply (Hw i (j + 1)%nat); auto; lia).
    assert (key x <= key b) by (apply (Hw (j + 1)%nat m); auto; lia).
    specialize (Hnext x eq_refl).
    destruct (Qlt_le_dec (key current) (key x)) as [Hlt|Hle]; [qlra|].
    exfalso. apply Hnext. qlra. }
  assert (Hbefore : forall k x, (k < i)%nat -> a !! k = Some x -> key x < key current).
  { intros k x Hk Ha. apply (Hb k i); auto. }
  split.
  - unfold midrank, countBelow, countTied. rewrite !filter_map_length.
    rewrite (filter_length_range _ a 0 i).
    2:{ lia. }
    2:{ intros k x Hx. rewrite ltb_lt. split.
        - intros Hlt. split; [lia|].
          destruct (Nat.lt_ge_cases k i) as [|Hge]; [assumption|].
          destruct (Nat.le_gt_cases k j).
          + specialize (Hblock k x (conj Hge H) Hx). qlra.
          + specialize (Hafter k x H Hx). qlra.
        - intros [_ Hk]. apply (Hbefore k); auto. }
    rewrite (filter_length_range _ a i (j + 1)).
    2:{ lia. }
    2:{ intros k x Hx. rewrite Qeq_bool_iff. split.
        - intros Heq. destruct (Nat.lt_ge_cases k i) as [Hlt|Hge].
          + specialize (Hbefore k x Hlt Hx). qlra.
          + split; [assumption|].
            destruct (Nat.le_gt_cases k j); [lia|].
            specialize (Hafter k x H Hx). qlra.
        - intros Hk. apply (Hblock k); auto. lia. }
    replace (i - 0)%nat with i by lia.
    replace (j + 1 - i)%nat with (S (j - i)) by lia.
    replace (i + j + 2)%nat with (i + i + S (S (j - i)))%nat by lia.
    rewrite !ofNat_add, !ofNat_S. field.
  - intros k m x y Hk Hm Hx Hy.
    destruct (Nat.lt_ge_cases k i) as [Hlt|Hge].
    + apply (Hb k m); auto. lia.
    + assert (key x == key current) by (apply (Hblock k); auto; lia).
      assert (key current < key y) by (apply (Hafter m); auto; lia).
      qlra.
Qed.

Lemma midrank_tied (values : list Q) x y : x == y -> midrank values x == midrank values y.
Proof.
  intros Hxy. unfold midrank, countBelow, countTied.
  rewrite (filter_ext (fun z => ltb z x) (fun z => ltb z y)).
  2:{ intros z. unfold ltb. now rewrite Hxy. }
  rewrite (filter_ext (fun z => Qeq_bool z x) (fun z => Qeq_bool z y)).
  2:{ intros z. now rewrite Hxy. }
  reflexivity.
Qed.

Lemma midrank_perm (l l' : list Q) v : Permutation l l' -> midrank l v = midrank l' v.
Proof.
  intros H. unfold midrank, countBelow, countTied.
  now rewrite !(filter_length_perm _ l l' H).
Qed.

Lemma rankLoop_spec w (Hw : sortedIndexed w) fuel : forall i ranks,
  (i <= length w)%nat -> (length w <= i + fuel)%nat ->
  boundary value w i -> ranked w i ranks ->
  ranked w (length w) (rankLoop w (length w) i fuel ranks).
Proof.
  induction fuel as [|fuel IH]; intros i ranks Hi Hfuel Hb Hr; simpl.
  - replace (length w) with i by lia. exact Hr.
  - destruct (Nat.ltb_spec i (length w)) as [Hlt|Hge].
    2:{ replace (length w) with i by lia. exact Hr. }
    destruct (w !! i) as [current|] eqn:Hcur.
    2:{ apply lookup_ge_None in Hcur. lia. }
    assert (Hself : forall k x, (i <= k <= i)%nat -> w !! k = Some x ->
                              value x == value current).
    { intros k x Hk Hx. replace k with i in Hx by lia.
      rewrite Hcur in Hx. injection Hx as <-. reflexivity. }
    destruct (tieEnd_spec w i current (length w) i Hcur ltac:(lia) ltac:(lia) Hself)
      as (Hj & Hblock & Hnext).
    set (j := tieEnd w i i (length w)) in *.
    destruct (block_midrank value w i j current) as (Hmid & Hb'); auto; try lia.
    { apply Hw. }
    destruct Hr as (Hlen & Hr).
    destruct (assignRanks_spec w (ofNat (i + j + 2) / 2) (j + 1 - i) i ranks)
      as (Hlen' & Hnew & Hold).
    { intros m x Hx. rewrite Hlen. eapply si_bound; eauto. }
    { lia. }
    apply IH; auto; try lia.
    split; [congruence|].
    intros k x Hk Hx. destruct (Nat.lt_ge_cases k i) as [Hki|Hki].
    + destruct (Hr k x Hki Hx) as (r & Hr1 & Hr2). exists r. split; [|exact Hr2].
      rewrite Hold; [exact Hr1|].
      intros m y Hm Hy Heq. assert (m = k) by (eapply si_inj; eauto). lia.
    + exists (ofNat (i + j + 2) / 2). split.
      * apply Hnew. right. exists k, x. repeat split; auto; lia.
      * rewrite <- Hmid. apply midrank_tied. symmetry. apply (Hblock k); auto; lia.
Qed.

Lemma byValue_total {A : Type} (key : A -> Q) x y :
  byValue key x y = true \/ byValue key y x = true.
Proof.
  rewrite !byValue_le. destruct (Qlt_le_dec (key y) (key x)); [right|left]; qlra.
Qed.

Lemma byValue_trans {A : Type} (key : A -> Q) x y z :
  byValue key x y = true -> byValue key y z = true -> byValue key x z = true.
Proof. rewrite !byValue_le. intros. qlra. Qed.

Lemma stable_sort_sortedBy {A : Type} (key : A -> Q) (a : list A) :
  sortedBy key (stable_sort (byValue key) a).
Proof.
  intros i j x y Hij Hx Hy.
  destruct (Nat.eq_dec i j) as [->|Hne].
  - rewrite Hx in Hy. injection Hy as <-. qlra.
  - apply (byValue_le key).
    eapply (StronglySorted_lookup _ _
              (stable_sort_sorted (byValue key) (byValue_total key) (byValue_trans key) a)
              i j); eauto. lia.
Qed.

Lemma lookup_In {A : Type} (l : list A) x : In x l <-> exists k, l !! k = Some x.
Proof. rewrite <- list_elem_of_In. apply list_elem_of_lookup. Qed.

Lemma withIndices_lookup values k x :
  withIndices values !! k = Some x <->
  exists v, values !! k = Some v /\ x = {| value := v; index := k |}.
Proof.
  unfold withIndices. rewrite list_lookup_imap.
  destruct (values !! k) as [v|]; simpl; split.
  - intros [= <-]. eauto.
  - intros (v' & [= <-] & ->). reflexivity.
  - discriminate.
  - intros (v' & Hv & _). discriminate.
Qed.

Lemma withIndices_length values : length (withIndices values) = length values.
Proof. apply length_imap. Qed.

Lemma withIndices_values values : List.map value (withIndices values) = values.
Proof.
  unfold withIndices.
  assert (H : forall (f : nat -> nat) l,
             List.map value (imap (fun i v => {| value := v; index := f i |}) l) = l).
  { intros f l. revert f. induction l as [|v l IH]; intros f; [reflexivity|].
    simpl. f_equal. apply (IH (fun i => f (S i))). }
  apply (H (fun i => i)).
Qed.

Lemma withIndices_indices values :
  List.map index (withIndices values) = seq 0 (length values).
Proof.
  unfold withIndices.
  assert (H : forall l start,
             List.map index (imap (fun i v => {| value := v; index := (start + i)%nat |}) l)
             = seq start (length l)).
  { induction l as [|v l IH]; intros start; [reflexivity|].
    simpl. f_equal; [lia|]. rewrite <- IH. f_equal.
    apply imap_ext. intros i x _. simpl. f_equal. lia. }
  apply (H values 0%nat).
Qed.

Lemma sorted_withIndices values :
  sortedIndexed (stable_sort (byValue value) (withIndices values)).
Proof.
  set (w := stable_sort (byValue value) (withIndices values)).
  assert (Hperm : Permutation w (withIndices values)) by apply stable_sort_perm.
  assert (Hlen : length w = length values).
  { unfold w. now rewrite stable_sort_length, withIndices_length. }
  constructor.
  - apply stable_sort_sortedBy.
  - intros k x Hx.
    assert (Hin : In x (withIndices values)).
    { apply (Permutation_in _ Hperm), lookup_In. eauto. }
    apply lookup_In in Hin as (k' & Hk').
    apply withIndices_lookup in Hk' as (v & Hv & ->). simpl.
    rewrite Hlen. eapply lookup_lt_Some; eauto.
  - intros k m x y Hx Hy Hxy.
    assert (Hnd : NoDup (List.map index w)).
    { apply (Permutation_NoDup (l := List.map index (withIndices values))).
      - symmetry. now apply Permutation_map.
      - rewrite withIndices_indices. apply seq_NoDup. }
    apply NoDup_ListNoDup in Hnd.
    apply (NoDup_lookup _ k m (index x) Hnd); rewrite lookup_map.
    + now rewrite Hx.
    + rewrite Hy. simpl. now rewrite Hxy.
Qed.

(** Every slot of [calculateRanks(values)] holds the midrank of the value
    at that position. *)
Lemma calculateRanks_lookup values idx v :
  values !! idx = Some v ->
  exists r, calculateRanks values !! idx = Some (Some r) /\ r == midrank values v.
Proof.
  intros Hv. unfold calculateRanks.
  set (w := stable_sort (byValue value) (withIndices values)).
  assert (Hperm : Permutation w (withIndices values)) by apply stable_sort_perm.
  assert (Hlen : length w = length values).
  { unfold w. now rewrite stable_sort_length, withIndices_length. }
  rewrite <- Hlen.
  destruct (rankLoop_spec w (sorted_withIndices values) (length w) 0
              (replicate (length w) None)) as (_ & Hranked).
  { lia. } { lia. }
  { intros k m x y Hk. lia. }
  { split; [apply length_replicate|]. intros k x Hk. lia. }
  assert (Hin : In {| value := v; index := idx |} w).
  { apply (Permutation_in _ (Permutation_sym Hperm)), lookup_In.
    exists idx. apply withIndices_lookup. eauto. }
  apply lookup_In in Hin as (k & Hk).
  destruct (Hranked k _ (lookup_lt_Some _ _ _ Hk) Hk) as (r & Hr1 & Hr2).
  exists r. split; [exact Hr1|]. rewrite Hr2. simpl.
  rewrite (midrank_perm (List.map value w) values); [reflexivity|].
  etransitivity; [apply Permutation_map, Hperm|].
  now rewrite withIndices_values.
Qed.

Lemma assignRanks_length w averageRank count : forall k ranks,
  length (assignRanks w averageRank k count ranks) = length ranks.
Proof.
  induction count as [|count IH]; intros k ranks; simpl; [reflexivity|].
  destruct (w !! k); [|reflexivity]. rewrite IH. apply length_insert.
Qed.

Lemma rankLoop_length w n fuel : forall i ranks,
  length (rankLoop w n i fuel ranks) = length ranks.
Proof.
  induction fuel as [|fuel IH]; intros i ranks; simpl; [reflexivity|].
  destruct (i <? n)%nat; [|reflexivity]. rewrite IH. apply assignRanks_length.
Qed.

Lemma calculateRanks_length values : length (calculateRanks values) = length values.
Proof. unfold calculateRanks. rewrite rankLoop_length. apply length_replicate. Qed.

Lemma countTies_spec {A : Type} (key : A -> Q) (a : list A) i current fuel : forall tc,
  a !! i = Some current ->
  (1 <= tc)%nat -> (i + tc <= length a)%nat -> (length a <= i + tc + fuel)%nat ->
  (forall k x, (i <= k < i + tc)%nat -> a !! k = Some x -> key x == key current) ->
  (tc <= countTies key a i tc fuel)%nat /\
  (i + countTies key a i tc fuel <= length a)%nat /\
  (forall k x, (i <= k < i + countTies key a i tc fuel)%nat -> a !! k = Some x ->
               key x == key current) /\
  (forall x, a !! (i + countTies key a i tc fuel)%nat = Some x -> ~ key x == key current).
Proof.
  induction fuel as [|fuel IH]; intros tc Hi Htc Hlen Hfuel Hblock; simpl.
  - split; [lia|]. split; [lia|]. split; [exact Hblock|].
    intros x Hx. apply lookup_lt_Some in Hx. lia.
  - rewrite Hi. destruct (a !! (i + tc)%nat) as [other|] eqn:Hother.
    + destruct (Qeq_bool (key current) (key other)) eqn:Heq.
      * apply Qeq_bool_eq in Heq. pose proof (lookup_lt_Some _ _ _ Hother) as Hlt.
        destruct (IH (S tc)) as (H1 & H2 & H3 & H4); auto; try lia.
        { intros k x Hk Hx. destruct (Nat.eq_dec k (i + tc)) as [->|Hne].
          - rewrite Hother in Hx. injection Hx as <-. now symmetry.
          - apply (Hblock k); auto. lia. }
        split; [lia|]. repeat split; assumption.
      * split; [lia|]. split; [lia|]. split; [exact Hblock|].
        intros x Hx. rewrite Hother in Hx. injection Hx as <-.
        apply Qeq_bool_neq in Heq. intros H. apply Heq. now symmetry.
    + split; [lia|]. split; [lia|]. split; [exact Hblock|]. intros x Hx. congruence.
Qed.

(** The ranks pushed so far are the midranks of the items before
    position [rank - 1] of the sorted array. *)
Definition pooled {A : Type} (key : A -> Q) (a : list A) (rank : nat) (ranks : list Q) : Prop :=
  length ranks = (rank - 1)%nat /\
  forall k x, (k < rank - 1)%nat -> a !! k = Some x ->
    exists r, ranks !! k = Some r /\ r == midrank (List.map key a) (key x).

Lemma pooledRankLoop_spec {A : Type} (key : A -> Q) (a : list A) (Ha : sortedBy key a) fuel :
  forall rank ranks,
  (1 <= rank <= length a + 1)%nat -> (length a + 1 <= rank + fuel)%nat ->
  boundary key a (rank - 1) -> pooled key a rank ranks ->
  pooled key a (length a + 1) (pooledRankLoop key a rank fuel ranks).
Proof.
  induction fuel as [|fuel IH]; intros rank ranks Hrank Hfuel Hb Hp; simpl.
  - replace (length a + 1)%nat with rank by lia. exact Hp.
  - destruct (Nat.leb_spec rank (length a)) as [Hle|Hgt].
    2:{ replace (length a + 1)%nat with rank by lia. exact Hp. }
    destruct (a !! (rank - 1)%nat) as [current|] eqn:Hcur.
    2:{ apply lookup_ge_None in Hcur. lia. }
    assert (Hself : forall k x, (rank - 1 <= k < rank - 1 + 1)%nat -> a !! k = Some x ->
                              key x == key current).
    { intros k x Hk Hx. replace k with (rank - 1)%nat in Hx by lia.
      rewrite Hcur in Hx. injection Hx as <-. reflexivity. }
    destruct (countTies_spec key a (rank - 1) current (length a) 1 Hcur
                ltac:(lia) ltac:(lia) ltac:(lia) Hself) as (Htc & Hend & Hblock & Hnext).
    set (tc := countTies key a (rank - 1) 1 (length a)) in *.
    destruct (block_midrank key a (rank - 1) (rank - 1 + tc - 1) current)
      as (Hmid & Hb'); auto; try lia.
    { intros k x Hk Hx. apply (Hblock k); auto. lia. }
    { intros x Hx. apply Hnext. rewrite <- Hx. f_equal. lia. }
    destruct Hp as (Hlen & Hp).
    apply IH; try lia.
    { replace (rank + tc - 1)%nat with (rank - 1 + tc - 1 + 1)%nat by lia. exact Hb'. }
    split.
    { rewrite length_app, length_replicate. lia. }
    intros k x Hk Hx. destruct (Nat.lt_ge_cases k (rank - 1)) as [Hlt|Hge].
    + destruct (Hp k x Hlt Hx) as (r & Hr1 & Hr2). exists r. split; [|exact Hr2].
      rewrite lookup_app_l by lia. exact Hr1.
    + exists (ofNat rank + (ofNat tc - 1) / 2). split.
      * rewrite lookup_app_r by lia. apply lookup_replicate_2. lia.
      * assert (Hxc : key x == key current) by (apply (Hblock k); auto; lia).
        rewrite (midrank_tied _ _ _ Hxc), Hmid.
        replace (rank - 1 + (rank - 1 + tc - 1) + 2)%nat
          with (rank + rank + (tc - 1))%nat by lia.
        replace tc with (S (tc - 1)) at 1 by lia.
        rewrite !ofNat_add, ofNat_S. field.
Qed.

(** The ranking loop of Mann-Whitney and Kruskal-Wallis gives the item at
    every position of the sorted array its midrank. *)
Lemma pooledRanks_lookup {A : Type} (key : A -> Q) (allValues : list A) k x :
  stable_sort (byValue key) allValues !! k = Some x ->
  exists r, pooledRanks key allValues !! k = Some r /\
            r == midrank (List.map key allValues) (key x).
Proof.
  intros Hx. unfold pooledRanks.
  set (sorted := stable_sort (byValue key) allValues) in *.
  destruct (pooledRankLoop_spec key sorted (stable_sort_sortedBy key allValues)
              (length sorted) 1 []) as (_ & Hp).
  { lia. } { lia. }
  { intros i m y z Hi. lia. }
  { split; [reflexivity|]. intros i y Hi. simpl in Hi. lia. }
  destruct (Hp k x) as (r & Hr1 & Hr2); auto.
  { apply lookup_lt_Some in Hx. lia. }
  exists r. split; [exact Hr1|]. rewrite Hr2.
  rewrite (midrank_perm (List.map key sorted) (List.map key allValues)); [reflexivity|].
  apply Permutation_map, stable_sort_perm.
Qed.

(** ** The ranks sum to [n (n + 1) / 2] *)

Lemma count_trichotomy (l : list Q) v :
  (countBelow l v + length (List.filter (fun x => ltb v x) l) + countTied l v)%nat = length l.
Proof.
  unfold countBelow, countTied. induction l as [|x t IH]; simpl; [reflexivity|].
  destruct (ltb x v) eqn:H1, (ltb v x) eqn:H2, (Qeq_bool x v) eqn:H3; simpl;
    try lia; exfalso;
    try apply ltb_lt in H1; try apply ltb_lt in H2; try apply Qeq_bool_eq in H3;
    try qlra.
  assert (~ x < v) by (rewrite <- ltb_lt; congruence).
  assert (~ v < x) by (rewrite <- ltb_lt; congruence).
  apply Qeq_bool_neq in H3. apply H3. qlra.
Qed.

(** Counting the pairs related by [rel] row by row or column by column. *)
Lemma double_count {A : Type} (rel : A -> A -> bool) (rows cols : list A) :
  list_sum (List.map (fun v => length (List.filter (fun x => rel x v) cols)) rows)
  = list_sum (List.map (fun x => length (List.filter (fun v => rel x v) rows)) cols).
Proof.
  induction rows as [|v rows IH]; simpl.
  - induction cols; simpl; auto.
  - rewrite IH. clear IH. induction cols as [|x cols IH]; simpl; [reflexivity|].
    destruct (rel x v); simpl; lia.
Qed.

Lemma sum_counts (l : list Q) :
  (2 * list_sum (List.map (countBelow l) l) + list_sum (List.map (countTied l) l)
   = length l * length l)%nat.
Proof.
  assert (Habove : list_sum (List.map (fun v => length (List.filter (fun x => ltb v x) l)) l)
                   = list_sum (List.map (countBelow l) l)).
  { unfold countBelow. apply (double_count (fun x v => ltb v x) l l). }
  assert (Hall : forall m : list Q,
             (list_sum (List.map (countBelow l) m)
              + list_sum (List.map (fun v => length (List.filter (fun x => ltb v x) l)) m)
              + list_sum (List.map (countTied l) m) = length m * length l)%nat).
  { induction m as [|v m IH]; simpl; [reflexivity|].
    pose proof (count_trichotomy l v). lia. }
  specialize (Hall l). lia.
Qed.

Lemma sum_midranks_general (l m : list Q) :
  sumQ (List.map (midrank l) m)
  == ofNat (list_sum (List.map (countBelow l) m))
     + (ofNat (list_sum (List.map (countTied l) m)) + ofNat (length m)) / 2.
Proof.
  induction m as [|v m IH]; simpl.
  - unfold ofNat. simpl. field.
  - rewrite IH. unfold midrank. rewrite !ofNat_add, ofNat_S. field.
Qed.

Lemma sum_midranks (l : list Q) :
  sumQ (List.map (midrank l) l) == ofNat (length l) * (ofNat (length l) + 1) / 2.
Proof.
  rewrite sum_midranks_general.
  pose proof (sum_counts l) as H.
  assert (HQ : 2 * ofNat (list_sum (List.map (countBelow l) l))
               + ofNat (list_sum (List.map (countTied l) l))
               == ofNat (length l) * ofNat (length l)).
  { unfold ofNat. rewrite <- inject_Z_mult, <- Nat2Z.inj_mul, <- H.
    rewrite Nat2Z.inj_add, Nat2Z.inj_mul, inject_Z_plus, inject_Z_mult. reflexivity. }
  set (b := ofNat (list_sum (List.map (countBelow l) l))) in *.
  set (t := ofNat (list_sum (List.map (countTied l) l))) in *.
  set (n := ofNat (length l)) in *.
  assert (Ht : t == n * n - 2 * b) by qlra.
  rewrite Ht. field.
Qed.

Lemma sumQ_pointwise (l1 l2 : list Q) :
  length l1 = length l2 ->
  (forall i a b, l1 !! i = Some a -> l2 !! i = Some b -> a == b) ->
  sumQ l1 == sumQ l2.
Proof.
  revert l2. induction l1 as [|a l1 IH]; intros [|b l2] Hlen H; simpl in *;
    try discriminate; [reflexivity|].
  rewrite (H 0%nat a b eq_refl eq_refl), (IH l2); [reflexivity|lia|].
  intros i x y Hx Hy. apply (H (S i)); assumption.
Qed.

(** [calculateRanks] fills every slot, with the midrank of the value at
    that position, and the ranks sum to [n (n + 1) / 2]. *)
Lemma calculateRanks_total (values : list Q) :
  exists ranks : list Q,
    calculateRanks values = List.map Some ranks /\
    length ranks = length values /\
    (forall idx v, values !! idx = Some v ->
       exists r, ranks !! idx = Some r /\ r == midrank values v) /\
    sumQ ranks == ofNat (length values) * (ofNat (length values) + 1) / 2.
Proof.
  set (ranks := List.map (fun slot => default 0 slot) (calculateRanks values)).
  assert (Hlen : length ranks = length values).
  { unfold ranks. now rewrite length_map, calculateRanks_length. }
  assert (Hslot : forall idx v, values !! idx = Some v ->
            exists r, calculateRanks values !! idx = Some (Some r) /\
                      ranks !! idx = Some r /\ r == midrank values v).
  { intros idx v Hv. destruct (calculateRanks_lookup values idx v Hv) as (r & Hr1 & Hr2).
    exists r. repeat split; auto. unfold ranks. rewrite lookup_map, Hr1. reflexivity. }
  exists ranks. split; [|split; [exact Hlen|split]].
  - apply list_eq. intros i. rewrite lookup_map.
    destruct (values !! i) as [v|] eqn:Hv.
    + destruct (Hslot i v Hv) as (r & Hr1 & Hr2 & _). now rewrite Hr1, Hr2.
    + apply lookup_ge_None in Hv.
      rewrite (lookup_ge_None_2 (calculateRanks values)) by (rewrite calculateRanks_length; lia).
      rewrite (lookup_ge_None_2 ranks) by lia. reflexivity.
  - intros idx v Hv. destruct (Hslot idx v Hv) as (r & _ & Hr2 & Hr3). eauto.
  - rewrite <- sum_midranks. apply sumQ_pointwise.
    + now rewrite length_map.
    + intros i a b Ha Hb. rewrite lookup_map in Hb.
      destruct (values !! i) as [v|] eqn:Hv; [|discriminate].
      injection Hb as <-. destruct (Hslot i v Hv) as (r & _ & Hr2 & Hr3).
      rewrite Ha in Hr2. injection Hr2 as ->. exact Hr3.
Qed.

(** ** The closed form is the average of the tied positions *)

Lemma sortedBy_tail {A : Type} (key : A -> Q) (x : A) (a : list A) :
  sortedBy key (x :: a) -> sortedBy key a.
Proof. intros H i j y z Hij Hy Hz. apply (H (S i) (S j)); auto. lia. Qed.

(** In a sorted array a predicate that is closed downwards holds exactly
    on a prefix. *)
Lemma sorted_prefix (p : Q -> bool) (s : list Q) :
  sortedBy (fun x => x) s ->
  (forall x y, x <= y -> p y = true -> p x = true) ->
  forall k x, s !! k = Some x -> (p x = true <-> (k < length (List.filter p s))%nat).
Proof.
  intros Hs Hp. induction s as [|y s IH]; intros k x Hk; [discriminate|].
  specialize (IH (sortedBy_tail _ _ _ Hs)). simpl.
  destruct (p y) eqn:Hy; simpl.
  - destruct k as [|k]; simpl in Hk.
    + injection Hk as <-. split; [lia|auto].
    + rewrite (IH k x Hk). lia.
  - assert (Hnone : forall z, In z s -> p z = false).
    { intros z Hz. apply lookup_In in Hz as (j & Hj).
      destruct (p z) eqn:Hpz; [|reflexivity].
      assert (y <= z) by (apply (Hs 0%nat (S j)); auto; lia).
      rewrite (Hp y z) in Hy by assumption. discriminate. }
    assert (Hx : p x = false).
    { destruct k as [|k]; simpl in Hk; [congruence|]. apply Hnone, lookup_In. eauto. }
    assert (Hlen : length (List.filter p s) = 0%nat).
    { clear - Hnone. induction s as [|z s IH]; [reflexivity|]. simpl.
      rewrite (Hnone z) by now left. apply IH. intros w Hw. apply Hnone. now right. }
    rewrite Hx, Hlen. split; [discriminate|lia].
Qed.

Lemma compare_cases (x v : Q) :
  (Qle_bool x v = true /\ ltb x v = true /\ Qeq_bool x v = false) \/
  (Qle_bool x v = true /\ ltb x v = false /\ Qeq_bool x v = true) \/
  (Qle_bool x v = false /\ ltb x v = false /\ Qeq_bool x v = false).
Proof.
  assert (Hle : forall a b, Qle_bool a b = false <-> ~ a <= b).
  { intros a b. rewrite <- Qle_bool_iff. destruct (Qle_bool a b); split; congruence. }
  assert (Hlt : forall a b, ltb a b = false <-> ~ a < b).
  { intros a b. rewrite <- ltb_lt. destruct (ltb a b); split; congruence. }
  assert (Heq : forall a b, Qeq_bool a b = false <-> ~ a == b).
  { intros a b. rewrite <- Qeq_bool_iff. destruct (Qeq_bool a b); split; congruence. }
  destruct (Q_dec x v) as [[H|H]|H].
  - left. rewrite Qle_bool_iff, ltb_lt, Heq. repeat split; qlra.
  - right. right. rewrite Hle, Hlt, Heq. repeat split; qlra.
  - right. left. rewrite Qle_bool_iff, Hlt, Qeq_bool_iff. repeat split; qlra.
Qed.

Lemma count_le_split (l : list Q) v :
  length (List.filter (fun x => Qle_bool x v) l) = (countBelow l v + countTied l v)%nat.
Proof.
  unfold countBelow, countTied. induction l as [|x l IH]; [reflexivity|]. simpl.
  destruct (compare_cases x v) as [(-> & -> & ->)|[(-> & -> & ->)|(-> & -> & ->)]];
    simpl; rewrite IH; lia.
Qed.

(** The positions of the sorted array that hold a value tied with [v]. *)
Lemma tied_positions_range (values : list Q) v k x :
  stable_sort (byValue (fun x => x)) values !! k = Some x ->
  (x == v <-> (countBelow values v <= k < countBelow values v + countTied values v)%nat).
Proof.
  intros Hk. set (s := stable_sort (byValue (fun x => x)) values) in *.
  assert (Hperm : Permutation s values) by apply stable_sort_perm.
  assert (Hs : sortedBy (fun x => x) s) by apply stable_sort_sortedBy.
  assert (Hb : countBelow values v = countBelow s v)
    by (unfold countBelow; symmetry; now apply filter_length_perm).
  assert (Ht : countTied values v = countTied s v)
    by (unfold countTied; symmetry; now apply filter_length_perm).
  rewrite Hb, Ht.
  pose proof (sorted_prefix (fun y => ltb y v) s Hs) as Hlt.
  pose proof (sorted_prefix (fun y => Qle_bool y v) s Hs) as Hle.
  specialize (Hlt ltac:(intros a b Hab Hbv; apply ltb_lt in Hbv; apply ltb_lt; qlra) k x Hk).
  specialize (Hle ltac:(intros a b Hab Hbv; apply Qle_bool_iff in Hbv;
                        apply Qle_bool_iff; qlra) k x Hk).
  rewrite count_le_split in Hle. fold (countBelow s v) in Hlt.
  rewrite ltb_lt in Hlt. rewrite Qle_bool_iff in Hle. split.
  - intros Heq. split.
    + destruct (Nat.le_gt_cases (countBelow s v) k); [assumption|].
      apply Hlt in H. qlra.
    + apply Hle. qlra.
  - intros [H1 H2]. apply Hle in H2.
    assert (~ x < v) by (intros H; apply Hlt in H; lia). qlra.
Qed.

Lemma filter_seq_range (p : nat -> bool) (n a b : nat) :
  (b <= n)%nat ->
  (forall k, (k < n)%nat -> (p k = true <-> (a <= k < b)%nat)) ->
  List.filter p (seq 0 n) = seq a (b - a).
Proof.
  revert b. induction n as [|n IH]; intros b Hb Hp.
  - replace (b - a)%nat with 0%nat by lia. reflexivity.
  - rewrite seq_S, filter_app. simpl.
    destruct (p n) eqn:Hn.
    + apply (Hp n) in Hn; [|lia]. assert (b = S n) by lia. subst b.
      rewrite (IH n); [|lia|].
      * replace (S n - a)%nat with (S (n - a)) by lia.
        rewrite seq_S. repeat f_equal. lia.
      * intros k Hk. rewrite (Hp k) by lia. lia.
    + assert (Hnot : ~ (a <= n < b)%nat) by (rewrite <- (Hp n) by lia; congruence).
      rewrite app_nil_r. destruct (Nat.eq_dec b (S n)) as [->|Hne].
      * assert (n < a)%nat by lia.
        rewrite (IH n); [|lia|].
        -- replace (n - a)%nat with 0%nat by lia.
           replace (S n - a)%nat with 0%nat by lia. reflexivity.
        -- intros k Hk. rewrite (Hp k) by lia. lia.
      * apply IH; [lia|]. intros k Hk. apply Hp. lia.
Qed.

Lemma tiedPositions_seq (values : list Q) v :
  tiedPositions values v = List.map S (seq (countBelow values v) (countTied values v)).
Proof.
  unfold tiedPositions. f_equal.
  set (s := stable_sort (byValue (fun x => x)) values).
  rewrite (filter_seq_range _ (length s) (countBelow values v)
             (countBelow values v + countTied values v)).
  - f_equal. lia.
  - unfold s. rewrite stable_sort_length.
    pose proof (count_trichotomy values v). lia.
  - intros k Hk. destruct (lookup_lt_is_Some_2 s k Hk) as (x & Hx). rewrite Hx.
    rewrite Qeq_bool_iff. now apply tied_positions_range.
Qed.

Lemma sum_positions (first count : nat) :
  sumQ (List.map ofNat (List.map S (seq first count)))
  == ofNat count * ofNat first + ofNat count * (ofNat count + 1) / 2.
Proof.
  revert first. induction count as [|count IH]; intros first; simpl.
  - unfold ofNat. simpl. field.
  - rewrite IH, !ofNat_S. field.
Qed.

(** The closed form [midrank] is the average of the positions occupied
    by the values tied with [v]. *)
Lemma midrank_is_average (values : list Q) v :
  (1 <= countTied values v)%nat -> midrank values v == midrankSpec values v.
Proof.
  intros Ht. unfold midrankSpec, average. rewrite tiedPositions_seq.
  rewrite sum_positions, !length_map, length_seq. unfold midrank.
  assert (Hpos : 1 <= ofNat (countTied values v)) by (apply (ofNat_le 1 _ Ht)).
  field. qlra.
Qed.

Lemma countTied_member (values : list Q) idx v :
  values !! idx = Some v -> (1 <= countTied values v)%nat.
Proof.
  revert idx. unfold countTied.
  induction values as [|x l IH]; intros [|i] Hi; simpl in *; try discriminate.
  - injection Hi as ->. rewrite Qeq_bool_refl. simpl. lia.
  - specialize (IH i Hi). destruct (Qeq_bool x v); simpl; lia.
Qed.

(** C2. For every sequence of rationals, [calculateRanks] gives each
    position the midrank of its value, that is the average of the 1-based
    positions that the values tied with it occupy in sorted order, so the
    ranks sum to [n (n + 1) / 2]; the worker's [StatsLib.calculateRanks]
    returns the same array; and the ranking loop written out in the
    Mann-Whitney and Kruskal-Wallis runners gives every item of the
    sorted sample the same midrank (Spearman and Wilcoxon call
    [calculateRanks] itself). *)
Theorem rank_assignment_is_midrank :
  (forall values : list Q,
     exists ranks : list Q,
       calculateRanks values = List.map Some ranks /\
       length ranks = length values /\
       (forall idx v, values !! idx = Some v ->
          exists r, ranks !! idx = Some r /\ r == midrankSpec values v) /\
       sumQ ranks == ofNat (length values) * (ofNat (length values) + 1) / 2) /\
  (forall values : list Q, StatsLib.calculateRanks values = calculateRanks values) /\
  (forall (A : Type) (key : A -> Q) (allValues : list A) k x,
     stable_sort (byValue key) allValues !! k = Some x ->
     exists r, pooledRanks key allValues !! k = Some r /\
               r == midrankSpec (List.map key allValues) (key x)).
Proof.
  split; [|split; [reflexivity|]].
  - intros values. destruct (calculateRanks_total values) as (ranks & H1 & H2 & H3 & H4).
    exists ranks. repeat split; auto.
    intros idx v Hv. destruct (H3 idx v Hv) as (r & Hr1 & Hr2).
    exists r. split; [exact Hr1|].
    rewrite Hr2. apply midrank_is_average. eapply countTied_member; eauto.
  - intros A key allValues k x Hx.
    destruct (pooledRanks_lookup key allValues k x Hx) as (r & Hr1 & Hr2).
    exists r. split; [exact Hr1|]. rewrite Hr2. apply midrank_is_average.
    assert (Hin : In (key x) (List.map key allValues)).
    { apply in_map. apply (Permutation_in _ (stable_sort_perm (byValue key) allValues)).
      apply lookup_In. eauto. }
    apply lookup_In in Hin as (i & Hi). eapply countTied_member; eauto.
Qed.

End RankProofs.

(** * Correctness of the tie-correction factor *)

Module TieProofs.
Import NumericSummary RankProofs.
Local Open Scope Q_scope.

(** Values that are pairwise different as numbers. *)
Fixpoint distinctQ (l : list Q) : Prop :=
  match l with
  | [] => True
  | v :: rest => Forall (fun x => ~ x == v) rest /\ distinctQ rest
  end.

Lemma tieGroups_In values k : In k (tieGroups values) -> In k values.
Proof.
  revert k. induction values as [|v rest IH]; intros k; simpl; [tauto|].
  intros [->|Hk]; [now left|]. apply filter_In in Hk as [Hk _]. right. auto.
Qed.

Lemma tieGroups_distinct values : distinctQ (tieGroups values).
Proof.
  induction values as [|v rest IH]; simpl; [exact I|]. split.
  - apply Forall_forall. intros x Hx. apply filter_In in Hx as [_ Hx].
    apply negb_true_iff, Qeq_bool_neq in Hx. exact Hx.
  - revert IH. generalize (tieGroups rest). intros G.
    induction G as [|g G IHG]; simpl; [auto|]. intros [Hg HG].
    destruct (negb (Qeq_bool g v)); simpl; [|auto]. split; [|auto].
    apply Forall_forall. intros x Hx. apply filter_In in Hx as [Hx _].
    rewrite Forall_forall in Hg. auto.
Qed.

Lemma tieGroups_snoc values x :
  tieGroups (values ++ [x]) =
  if existsb (fun y => Qeq_bool y x) values then tieGroups values
  else tieGroups values ++ [x].
Proof.
  induction values as [|v rest IH]; simpl; [reflexivity|].
  rewrite IH. destruct (Qeq_bool v x) eqn:Hvx; simpl.
  - destruct (existsb (fun y => Qeq_bool y x) rest); [reflexivity|].
    rewrite filter_app. simpl. rewrite Qeq_bool_comm, Hvx. simpl.
    now rewrite app_nil_r.
  - destruct (existsb (fun y => Qeq_bool y x) rest); [reflexivity|].
    rewrite filter_app. simpl. rewrite Qeq_bool_comm, Hvx. reflexivity.
Qed.

Lemma countTied_snoc values x v :
  countTied (values ++ [x]) v = (countTied values v + if Qeq_bool x v then 1 else 0)%nat.
Proof.
  unfold countTied. rewrite filter_app, length_app. simpl.
  destruct (Qeq_bool x v); reflexivity.
Qed.

Lemma countTied_absent values x :
  (forall v, In v values -> Qeq_bool v x = false) -> countTied values x = 0%nat.
Proof.
  unfold countTied. induction values as [|v rest IH]; intros H; simpl; [reflexivity|].
  rewrite (H v) by now left. apply IH. intros y Hy. apply H. now right.
Qed.

(** Counting one more occurrence of [x] when a key tied with [x] is
    already present, and when none is. *)
Lemma countValue_present x (G : list Q) (f g : Q -> nat) :
  distinctQ G ->
  (forall v, In v G -> g v = (f v + if Qeq_bool x v then 1 else 0)%nat) ->
  (exists v, In v G /\ v == x) ->
  countValue x (List.map (fun v => (v, f v)) G) = List.map (fun v => (v, g v)) G.
Proof.
  induction G as [|k G IH]; intros HG Hg Hex; simpl.
  - destruct Hex as (v & [] & _).
  - destruct HG as [Hk HG]. rewrite (Hg k) by now left.
    destruct (Qeq_bool k x) eqn:Hkx.
    + rewrite (Qeq_bool_comm x k), Hkx. f_equal; [f_equal; lia|].
      apply map_ext_in. intros v Hv. rewrite (Hg v) by now right.
      destruct (Qeq_bool x v) eqn:Hxv; [|f_equal; lia]. exfalso.
      rewrite Forall_forall in Hk. apply (Hk v Hv).
      apply Qeq_bool_eq in Hkx, Hxv. now rewrite <- Hxv, Hkx.
    + rewrite (Qeq_bool_comm x k), Hkx. f_equal; [f_equal; lia|].
      apply IH; auto.
      * intros v Hv. apply Hg. now right.
      * destruct Hex as (v & [<-|Hv] & Hvx); [|eauto].
        apply Qeq_eq_bool in Hvx. congruence.
Qed.

Lemma countValue_absent x (G : list Q) (f : Q -> nat) :
  (forall v, In v G -> Qeq_bool v x = false) ->
  countValue x (List.map (fun v => (v, f v)) G)
  = List.map (fun v => (v, f v)) G ++ [(x, 1%nat)].
Proof.
  induction G as [|k G IH]; intros HG; simpl; [reflexivity|].
  rewrite (HG k) by now left. f_equal. apply IH. intros v Hv. apply HG. now right.
Qed.

Lemma existsb_tieGroups values x :
  existsb (fun y => Qeq_bool y x) values = true ->
  exists v, In v (tieGroups values) /\ v == x.
Proof.
  induction values as [|v rest IH]; simpl; [discriminate|].
  destruct (Qeq_bool v x) eqn:Hvx; simpl.
  - intros _. exists v. split; [now left|]. now apply Qeq_bool_eq.
  - intros H. destruct (IH H) as (k & Hk & Hkx). exists k. split; [|exact Hkx].
    right. apply filter_In. split; [exact Hk|].
    apply negb_true_iff. destruct (Qeq_bool k v) eqn:Hkv; [|reflexivity].
    apply Qeq_bool_eq in Hkv. apply Qeq_bool_neq in Hvx. exfalso. apply Hvx.
    now rewrite <- Hkv.
Qed.

(** The object [valueCounts] holds, for every group of tied values, its
    size. *)
Lemma valueCounts_spec values :
  fold_left (fun counts val => countValue val counts) values []
  = List.map (fun v => (v, countTied values v)) (tieGroups values).
Proof.
  induction values as [|x values IH] using rev_ind; [reflexivity|].
  rewrite fold_left_app. simpl. rewrite IH, tieGroups_snoc.
  destruct (existsb (fun y => Qeq_bool y x) values) eqn:Hex.
  - apply countValue_present.
    + apply tieGroups_distinct.
    + intros v _. apply countTied_snoc.
    + now apply existsb_tieGroups.
  - assert (Habsent : forall v, In v values -> Qeq_bool v x = false).
    { intros v Hv. destruct (Qeq_bool v x) eqn:E; [|reflexivity].
      assert (existsb (fun y => Qeq_bool y x) values = true)
        by (apply existsb_exists; eauto). congruence. }
    rewrite countValue_absent.
    2:{ intros v Hv. apply Habsent. now apply tieGroups_In. }
    rewrite map_app. simpl. f_equal.
    + apply map_ext_in. intros v Hv. rewrite countTied_snoc.
      rewrite Qeq_bool_comm, (Habsent v) by now apply tieGroups_In.
      f_equal. lia.
    + rewrite countTied_snoc, Qeq_bool_refl, (countTied_absent values x Habsent).
      reflexivity.
Qed.

Definition cubeMinus (count : nat) : Q := ofNat count ^ 3 - ofNat count.

Lemma tieSum_spec (counts : list nat) : forall tieSum,
  fold_left (fun tieSum count =>
               if (1 <? count)%nat then tieSum + (ofNat count ^ 3 - ofNat count) else tieSum)
            counts tieSum
  == tieSum + sumQ (List.map cubeMinus counts).
Proof.
  induction counts as [|c counts IH]; intros acc; simpl; [ring|].
  rewrite IH. destruct (Nat.ltb_spec 1 c) as [H|H]; unfold cubeMinus; [ring|].
  assert (Hc : c = 0%nat \/ c = 1%nat) by lia.
  destruct Hc as [-> | ->]; unfold ofNat; simpl; ring.
Qed.

Lemma tieSum_groups values :
  fold_left (fun tieSum count =>
               if (1 <? count)%nat then tieSum + (ofNat count ^ 3 - ofNat count) else tieSum)
            (List.map snd (fold_left (fun counts val => countValue val counts) values [])) 0
  == sumQ (List.map (fun v => ofNat (countTied values v) ^ 3 - ofNat (countTied values v))
                    (tieGroups values)).
Proof.
  rewrite tieSum_spec, valueCounts_spec, !map_map.
  rewrite Qplus_0_l. reflexivity.
Qed.

Lemma calculateTieCorrection_spec values :
  calculateTieCorrection values == tieCorrectionSpec values.
Proof.
  unfold calculateTieCorrection, tieCorrectionSpec.
  destruct (length values <? 2)%nat; [reflexivity|].
  now rewrite tieSum_groups.
Qed.

Lemma count_ge_one {A : Type} (p : A -> bool) (l : list A) i x :
  l !! i = Some x -> p x = true -> (1 <= length (List.filter p l))%nat.
Proof.
  revert i. induction l as [|y l IH]; intros [|i] Hi Hx; simpl in *; try discriminate.
  - injection Hi as ->. rewrite Hx. simpl. lia.
  - specialize (IH i Hi Hx). destruct (p y); simpl; lia.
Qed.

Lemma count_ge_two {A : Type} (p : A -> bool) (l : list A) i j x y :
  l !! i = Some x -> l !! j = Some y -> i <> j -> p x = true -> p y = true ->
  (2 <= length (List.filter p l))%nat.
Proof.
  revert i j. induction l as [|z l IH]; intros [|i] [|j] Hi Hj Hij Hx Hy;
    simpl in *; try discriminate; try congruence.
  - injection Hi as ->. rewrite Hx. simpl.
    pose proof (count_ge_one p l j y Hj Hy). lia.
  - injection Hj as ->. rewrite Hy. simpl.
    pose proof (count_ge_one p l i x Hi Hx). lia.
  - assert (Hne : i <> j) by congruence.
    specialize (IH i j Hi Hj Hne Hx Hy). destruct (p z); simpl; lia.
Qed.

Lemma count_le_one {A : Type} (p : A -> bool) (l : list A) :
  (forall i j x y, l !! i = Some x -> l !! j = Some y ->
                   p x = true -> p y = true -> i = j) ->
  (length (List.filter p l) <= 1)%nat.
Proof.
  intros H. destruct (le_gt_dec (length (List.filter p l)) 1) as [|Hgt]; [assumption|].
  exfalso.
  assert (Hsplit : forall (m : list A), (2 <= length (List.filter p m))%nat ->
            exists i j x y, i <> j /\ m !! i = Some x /\ m !! j = Some y /\
                            p x = true /\ p y = true).
  { induction m as [|z m IH]; simpl; [lia|]. destruct (p z) eqn:Hz; simpl; intros Hm.
    - destruct (List.filter p m) as [|y rest] eqn:Hf; [simpl in Hm; lia|].
      assert (Hy : In y (List.filter p m)) by (rewrite Hf; now left).
      apply filter_In in Hy as [Hy Hpy]. apply lookup_In in Hy as (j & Hj).
      exists 0%nat, (S j), z, y. repeat split; auto.
    - destruct (IH Hm) as (i & j & x & y & Hij & Hi & Hj & Hx & Hy).
      exists (S i), (S j), x, y. repeat split; auto. }
  destruct (Hsplit l ltac:(lia)) as (i & j & x & y & Hij & Hi & Hj & Hx & Hy).
  apply Hij. eapply H; eauto.
Qed.

Lemma countTied_tied values x y : x == y -> countTied values x = countTied values y.
Proof.
  intros Hxy. unfold countTied. f_equal. apply filter_ext. intros z. now rewrite Hxy.
Qed.

Lemma allDistinct_counts values :
  allDistinct values <-> forall v, In v values -> countTied values v = 1%nat.
Proof.
  split.
  - intros Hd v Hv. apply lookup_In in Hv as (i & Hi).
    assert (1 <= countTied values v)%nat.
    { apply (count_ge_one _ values i v Hi). apply Qeq_bool_refl. }
    assert (countTied values v <= 1)%nat.
    { apply count_le_one. intros a b x y Ha Hb Hx Hy.
      apply Qeq_bool_eq in Hx, Hy. apply (Hd a b x y Ha Hb). now rewrite Hx, Hy. }
    lia.
  - intros Hc i j x y Hi Hj Hxy. destruct (Nat.eq_dec i j) as [|Hne]; [assumption|].
    exfalso.
    assert (2 <= countTied values x)%nat.
    { apply (count_ge_two _ values i j x y Hi Hj Hne).
      - apply Qeq_bool_refl.
      - apply Qeq_eq_bool. now symmetry. }
    rewrite (Hc x) in H; [lia|]. apply lookup_In. eauto.
Qed.

Lemma ofNat_ge c : (2 <= c)%nat -> 2 <= ofNat c.
Proof. intros H. apply (ofNat_le 2 c H). Qed.

Lemma cubeMinus_pos c : (2 <= c)%nat -> 0 < cubeMinus c.
Proof.
  intros H. apply ofNat_ge in H. unfold cubeMinus.
  set (x := ofNat c) in *.
  assert (Heq : x ^ 3 - x == x * ((x - 1) * (x + 1))) by ring.
  rewrite Heq. apply Qmult_lt_0_compat; [qlra|].
  apply Qmult_lt_0_compat; qlra.
Qed.

Lemma cubeMinus_small c : (c <= 1)%nat -> cubeMinus c == 0.
Proof.
  intros H. assert (Hc : c = 0%nat \/ c = 1%nat) by lia.
  destruct Hc as [-> | ->]; reflexivity.
Qed.

Lemma cubeMinus_nonneg c : 0 <= cubeMinus c.
Proof.
  destruct (le_gt_dec c 1) as [H|H].
  - rewrite (cubeMinus_small c H). qlra.
  - apply Qlt_le_weak, cubeMinus_pos. lia.
Qed.

Lemma sum_cubeMinus_nonneg (counts : list nat) : 0 <= sumQ (List.map cubeMinus counts).
Proof.
  induction counts as [|c counts IH]; simpl; [qlra|].
  pose proof (cubeMinus_nonneg c). qlra.
Qed.

Lemma sum_cubeMinus_zero (counts : list nat) :
  sumQ (List.map cubeMinus counts) == 0 <-> Forall (fun c => (c <= 1)%nat) counts.
Proof.
  induction counts as [|c counts IH]; simpl.
  - split; [constructor|reflexivity].
  - pose proof (cubeMinus_nonneg c). pose proof (sum_cubeMinus_nonneg counts).
    split.
    + intros Hsum. constructor.
      * destruct (le_gt_dec c 1) as [|Hgt]; [assumption|].
        pose proof (cubeMinus_pos c ltac:(lia)). qlra.
      * apply IH. qlra.
    + intros Hall. inversion Hall as [|? ? Hc Hrest]; subst.
      rewrite (cubeMinus_small c Hc). apply IH in Hrest. qlra.
Qed.

Lemma tieSum_zero values :
  sumQ (List.map (fun v => ofNat (countTied values v) ^ 3 - ofNat (countTied values v))
                 (tieGroups values)) == 0
  <-> allDistinct values.
Proof.
  change (sumQ (List.map (fun v => cubeMinus (countTied values v)) (tieGroups values)) == 0
          <-> allDistinct values).
  rewrite <- (map_map (countTied values) cubeMinus), sum_cubeMinus_zero.
  rewrite allDistinct_counts, Forall_forall. split.
  - intros H v Hv.
    assert (Hex : existsb (fun y => Qeq_bool y v) values = true).
    { apply existsb_exists. exists v. split; [exact Hv|apply Qeq_bool_refl]. }
    apply existsb_tieGroups in Hex as (k & Hk & Hkv).
    rewrite <- (countTied_tied values k v Hkv).
    assert (countTied values k <= 1)%nat by (apply H, in_map, Hk).
    apply tieGroups_In, lookup_In in Hk as (i & Hi).
    pose proof (count_ge_one (fun x => Qeq_bool x k) values i k Hi (Qeq_bool_refl k)).
    unfold countTied in *. lia.
  - intros H c Hc. apply in_map_iff in Hc as (v & <- & Hv).
    rewrite (H v); [lia|]. now apply tieGroups_In.
Qed.

Lemma cube_pos n : (2 <= n)%nat -> 0 < ofNat n ^ 3 - ofNat n.
Proof. apply cubeMinus_pos. Qed.

(** C3. The tie-correction factor is the sum of [c^3 - c] over the groups
    of tied values of size [c], divided by [n^3 - n]; it is 0 when
    [n < 2] and when no two values are tied; and for [n >= 2] it is 0
    exactly when all values are distinct. *)
Theorem tie_correction_factor (values : list Q) :
  calculateTieCorrection values == tieCorrectionSpec values /\
  ((length values < 2)%nat -> calculateTieCorrection values = 0) /\
  (allDistinct values -> calculateTieCorrection values == 0) /\
  ((2 <= length values)%nat ->
   (calculateTieCorrection values == 0 <-> allDistinct values)).
Proof.
  assert (Hlarge : (2 <= length values)%nat ->
            (calculateTieCorrection values == 0 <-> allDistinct values)).
  { intros Hn. rewrite calculateTieCorrection_spec. unfold tieCorrectionSpec.
    destruct (Nat.ltb_spec (length values) 2) as [|_]; [lia|].
    pose proof (cube_pos (length values) Hn) as Hpos.
    rewrite <- tieSum_zero.
    set (s := sumQ _). set (d := ofNat (length values) ^ 3 - ofNat (length values)) in *.
    split; intros Hs.
    - assert (Hsd : s == s / d * d) by (field; qlra). rewrite Hsd, Hs. ring.
    - rewrite Hs. field. qlra. }
  split; [apply calculateTieCorrection_spec|]. split; [|split; [|exact Hlarge]].
  - intros Hn. unfold calculateTieCorrection.
    destruct (Nat.ltb_spec (length values) 2) as [|]; [reflexivity|lia].
  - intros Hd. destruct (le_gt_dec 2 (length values)) as [Hn|Hn].
    + now apply Hlarge.
    + unfold calculateTieCorrection.
      destruct (Nat.ltb_spec (length values) 2) as [|]; [reflexivity|lia].
Qed.

End TieProofs.

(** * The percentile routine *)

Module PercentileProofs.
Import NumericSummary RankProofs.
Local Open Scope Q_scope.

Lemma at_index_nat {A : Type} (l : list A) (k : nat) :
  at_index l (Z.of_nat k) = l !! k.
Proof.
  unfold at_index. destruct (Z.ltb_spec (Z.of_nat k) 0); [lia|].
  now rewrite Nat2Z.id.
Qed.

Lemma sorted_first_is_min (sorted : list Q) m :
  StronglySorted Qle sorted -> sorted !! 0%nat = Some m ->
  forall x, In x sorted -> m <= x.
Proof.
  intros Hs Hm x Hx. apply lookup_In in Hx as (k & Hk).
  destruct k as [|k].
  - rewrite Hm in Hk. injection Hk as <-. qlra.
  - apply (StronglySorted_lookup Qle sorted Hs 0 (S k)); auto. lia.
Qed.

Lemma sorted_last_is_max (sorted : list Q) M :
  StronglySorted Qle sorted -> sorted !! (length sorted - 1)%nat = Some M ->
  forall x, In x sorted -> x <= M.
Proof.
  intros Hs HM x Hx. apply lookup_In in Hx as (k & Hk).
  pose proof (lookup_lt_Some _ _ _ Hk) as Hlt.
  destruct (Nat.eq_dec k (length sorted - 1)) as [->|Hne].
  - rewrite HM in Hk. injection Hk as <-. qlra.
  - apply (StronglySorted_lookup Qle sorted Hs k (length sorted - 1)); auto. lia.
Qed.

Lemma percentile_0 (sorted : list Q) :
  calculatePercentile sorted 0 = sorted !! 0%nat.
Proof.
  unfold calculatePercentile.
  assert (H0 : 0 / 100 * (ofNat (length sorted) - 1) == inject_Z 0) by (simpl; field).
  rewrite (Qfloor_comp _ _ H0), (Qceiling_comp _ _ H0), Qfloor_Z, Qceiling_Z.
  simpl. apply (at_index_nat sorted 0).
Qed.

Lemma percentile_100 (sorted : list Q) :
  sorted <> [] -> calculatePercentile sorted 100 = sorted !! (length sorted - 1)%nat.
Proof.
  intros Hne. unfold calculatePercentile.
  assert (Hlen : (1 <= length sorted)%nat) by (destruct sorted; simpl; [congruence|lia]).
  assert (H100 : 100 / 100 * (ofNat (length sorted) - 1)
                 == inject_Z (Z.of_nat (length sorted - 1))).
  { unfold ofNat. rewrite Nat2Z.inj_sub by lia. unfold Z.sub.
    rewrite inject_Z_plus, inject_Z_opp. simpl. field. }
  rewrite (Qfloor_comp _ _ H100), (Qceiling_comp _ _ H100), Qfloor_Z, Qceiling_Z.
  rewrite Z.eqb_refl. apply at_index_nat.
Qed.

Lemma percentile_interpolates (sorted : list Q) (percentile : Q) :
  sorted <> [] -> 0 <= percentile <= 100 ->
  let index := percentile / 100 * (ofNat (length sorted) - 1) in
  let weight := index - inject_Z (Qfloor index) in
  exists low up r,
    at_index sorted (Qfloor index) = Some low /\
    at_index sorted (Qceiling index) = Some up /\
    calculatePercentile sorted percentile = Some r /\
    r == low * (1 - weight) + up * weight.
Proof.
  intros Hne Hp index weight.
  assert (Hlen : (1 <= length sorted)%nat) by (destruct sorted; simpl; [congruence|lia]).
  assert (Hn : 0 <= ofNat (length sorted) - 1).
  { pose proof (ofNat_le 1 (length sorted) Hlen) as H.
    change (ofNat 1) with 1 in H. qlra. }
  assert (Hlo : 0 <= index).
  { unfold index. apply Qmult_le_0_compat; [|exact Hn].
    apply Qle_shift_div_l; qlra. }
  assert (Hpred : inject_Z (Z.of_nat (length sorted - 1)) == ofNat (length sorted) - 1).
  { unfold ofNat. rewrite Nat2Z.inj_sub by lia. unfold Z.sub.
    rewrite inject_Z_plus, inject_Z_opp. reflexivity. }
  assert (Hhi : index <= inject_Z (Z.of_nat (length sorted - 1))).
  { rewrite Hpred. unfold index.
    set (m := ofNat (length sorted) - 1) in *.
    assert (Hq : percentile / 100 <= 1) by (apply Qle_shift_div_r; qlra).
    assert (H1 : percentile / 100 * m <= 1 * m) by (apply Qmult_le_compat_r; assumption).
    qlra. }
  assert (Hfloor : (0 <= Qfloor index <= Z.of_nat (length sorted - 1))%Z).
  { split.
    - change 0%Z with (Qfloor (inject_Z 0)). apply Qfloor_resp_le. exact Hlo.
    - rewrite <- (Qfloor_Z (Z.of_nat (length sorted - 1))). now apply Qfloor_resp_le. }
  assert (Hceil : (0 <= Qceiling index <= Z.of_nat (length sorted - 1))%Z).
  { split.
    - change 0%Z with (Qceiling (inject_Z 0)). apply Qceiling_resp_le. exact Hlo.
    - rewrite <- (Qceiling_Z (Z.of_nat (length sorted - 1))). now apply Qceiling_resp_le. }
  assert (Hread : forall z, (0 <= z <= Z.of_nat (length sorted - 1))%Z ->
            exists x, at_index sorted z = Some x).
  { intros z Hz. unfold at_index. destruct (Z.ltb_spec z 0); [lia|].
    apply lookup_lt_is_Some. lia. }
  destruct (Hread _ Hfloor) as (low & Hlow). destruct (Hread _ Hceil) as (up & Hup).
  unfold calculatePercentile. fold index. fold weight.
  destruct (Z.eqb_spec (Qfloor index) (Qceiling index)) as [Heq|Hneq].
  - exists low, up, low. repeat split; auto.
    rewrite <- Heq, Hlow in Hup. injection Hup as <-. ring.
  - exists low, up, (low * (1 - weight) + up * weight).
    rewrite Hlow, Hup. repeat split; auto; reflexivity.
Qed.

(** C8. On a sorted non-empty sequence the percentile routine
    interpolates linearly between the order statistics around position
    [(p / 100) (n - 1)]; at [p = 0] it returns the minimum and at
    [p = 100] the maximum. *)
Theorem percentile_interpolation_and_extremes (sorted : list Q) :
  sorted <> [] -> StronglySorted Qle sorted ->
  (forall percentile, 0 <= percentile <= 100 ->
     let index := percentile / 100 * (ofNat (length sorted) - 1) in
     let weight := index - inject_Z (Qfloor index) in
     exists low up r,
       at_index sorted (Qfloor index) = Some low /\
       at_index sorted (Qceiling index) = Some up /\
       calculatePercentile sorted percentile = Some r /\
       r == low * (1 - weight) + up * weight) /\
  (exists m, calculatePercentile sorted 0 = Some m /\ In m sorted /\
             forall x, In x sorted -> m <= x) /\
  (exists M, calculatePercentile sorted 100 = Some M /\ In M sorted /\
             forall x, In x sorted -> x <= M).
Proof.
  intros Hne Hs.
  assert (Hlen : (1 <= length sorted)%nat) by (destruct sorted; simpl; [congruence|lia]).
  split; [intros p Hp; now apply percentile_interpolates|]. split.
  - destruct (lookup_lt_is_Some_2 sorted 0%nat ltac:(lia)) as (m & Hm).
    exists m. rewrite percentile_0. split; [exact Hm|]. split.
    + apply lookup_In. eauto.
    + now apply sorted_first_is_min.
  - destruct (lookup_lt_is_Some_2 sorted (length sorted - 1)%nat ltac:(lia)) as (M & HM).
    exists M. rewrite percentile_100 by assumption. split; [exact HM|]. split.
    + apply lookup_In. eauto.
    + now apply sorted_last_is_max.
Qed.

Lemma percentile_interpolation_and_extremes_witness :
  [1; 2; 4; 8] <> [] /\ StronglySorted Qle [1; 2; 4; 8] /\
  (exists m, calculatePercentile [1; 2; 4; 8] 0 = Some m /\ In m [1; 2; 4; 8] /\
             forall x, In x [1; 2; 4; 8] -> m <= x).
Proof.
  assert (Hne : [1; 2; 4; 8] <> ([] : list Q)) by discriminate.
  assert (Hs : StronglySorted Qle [1; 2; 4; 8]).
  { repeat (constructor; [|repeat constructor; discriminate]). constructor. }
  split; [exact Hne|]. split; [exact Hs|].
  apply (percentile_interpolation_and_extremes [1; 2; 4; 8] Hne Hs).
Defined.

End PercentileProofs.

(** * The recommender *)

Module RecommenderProofs.
Import Recommender.
Local Open Scope string_scope.
Local Open Scope Z_scope.

Lemma byScoreDescending_le a b : byScoreDescending a b = true <-> score b <= score a.
Proof. unfold byScoreDescending. rewrite Z.leb_le. lia. Qed.

Lemma byScoreDescending_total a b :
  byScoreDescending a b = true \/ byScoreDescending b a = true.
Proof. rewrite !byScoreDescending_le. lia. Qed.

Lemma byScoreDescending_trans a b c :
  byScoreDescending a b = true -> byScoreDescending b c = true ->
  byScoreDescending a c = true.
Proof. rewrite !byScoreDescending_le. lia. Qed.

Lemma In_firstn {A : Type} (l : list A) n x : In x (firstn n l) -> In x l.
Proof.
  revert n. induction l as [|y l IH]; intros [|n]; simpl; try tauto.
  intros [->|H]; [now left|right; eauto].
Qed.

Lemma StronglySorted_firstn {A : Type} (R : A -> A -> Prop) (l : list A) n :
  StronglySorted R l -> StronglySorted R (firstn n l).
Proof.
  intros Hs. revert n. induction Hs as [|x l Hl IH Hx]; intros [|n]; simpl;
    try constructor; auto.
  rewrite Forall_forall in *. intros y Hy. apply Hx. eapply In_firstn; eauto.
Qed.

Lemma candidates_In selections dataInfo r :
  In r (candidates selections dataInfo) <->
  exists t, In t testsDatabase /\ r = recommend selections dataInfo t /\ 0 < score r.
Proof.
  unfold candidates. rewrite filter_In, in_map_iff, Z.ltb_lt. split.
  - intros ((t & <- & Ht) & Hpos). eauto.
  - intros (t & Ht & -> & Hpos). eauto.
Qed.

(** What [getRecommendations] returns, for every selection and data. *)
Lemma getRecommendations_spec selections dataInfo :
  let recs := getRecommendations selections dataInfo in
  (length recs <= 3)%nat /\
  (forall r, In r recs ->
     In (test r) testsDatabase /\
     score r = scoreOf selections dataInfo (test r) /\
     0 < score r /\
     suitability r = getSuitabilityLevel (score r)) /\
  StronglySorted (fun a b => score b <= score a) recs /\
  (exists ranked,
     recs = firstn 3 ranked /\
     Permutation ranked (candidates selections dataInfo) /\
     StronglySorted (fun a b => score b <= score a) ranked /\
     forall s, List.filter (fun r => score r =? s) ranked
               = List.filter (fun r => score r =? s) (candidates selections dataInfo)).
Proof.
  unfold getRecommendations.
  set (cands := candidates selections dataInfo).
  set (ranked := stable_sort byScoreDescending cands).
  assert (Hperm : Permutation ranked cands) by apply stable_sort_perm.
  assert (Hsorted : StronglySorted (fun a b => score b <= score a) ranked).
  { assert (Hs := stable_sort_sorted byScoreDescending byScoreDescending_total
                    byScoreDescending_trans cands).
    fold ranked in Hs. clear - Hs.
    induction Hs as [|x l Hl IH Hx]; constructor; auto.
    rewrite Forall_forall in *. intros y Hy. apply byScoreDescending_le. auto. }
  split; [|split; [|split]].
  - rewrite length_take. lia.
  - intros r Hr. apply In_firstn in Hr.
    apply (Permutation_in _ Hperm), candidates_In in Hr as (t & Ht & -> & Hpos).
    simpl in *. auto.
  - apply StronglySorted_firstn. exact Hsorted.
  - exists ranked. split; [reflexivity|]. split; [exact Hperm|].
    split; [exact Hsorted|].
    intros s. apply stable_sort_filter. intros x y Hx Hy.
    apply Z.eqb_eq in Hx, Hy. apply byScoreDescending_le. lia.
Qed.

Lemma getSuitabilityLevel_tiers s :
  getSuitabilityLevel s =
  if 8 <=? s then excellent else if 6 <=? s then very_good
  else if 4 <=? s then good else acceptable.
Proof. reflexivity. Qed.

(** The score sees the data only through the number of distinct groups
    and the comparison of the sample size with [minSampleSize]. *)
Lemma scoreOf_data selections g v g' v' t :
  length (uniqueGroups g) = length (uniqueGroups g') ->
  (Z.of_nat (length v) <? minSampleSize t) = (Z.of_nat (length v') <? minSampleSize t) ->
  scoreOf selections (Some {| dataGroups := Some g; dataValues := Some v |}) t
  = scoreOf selections (Some {| dataGroups := Some g'; dataValues := Some v' |}) t.
Proof. intros Hg Hv. unfold scoreOf. now rewrite Hg, Hv. Qed.

(** The score sees the [samples] slot only through its comparison with
    the two literals. *)
Definition canonicalSamples (s : option string) : option string :=
  if selected s "independent" then Some "independent"
  else if selected s "paired" then Some "paired"
  else None.

Lemma selected_canonical s literal :
  literal = "independent" \/ literal = "paired" ->
  selected (canonicalSamples s) literal = selected s literal.
Proof.
  unfold canonicalSamples. intros [-> | ->].
  - destruct (selected s "independent") eqn:Hi; [reflexivity|].
    destruct (selected s "paired"); reflexivity.
  - destruct (selected s "independent") eqn:Hi.
    + destruct s as [s|]; [|discriminate]. simpl in *.
      apply String.eqb_eq in Hi. subst. reflexivity.
    + destruct (selected s "paired"); reflexivity.
Qed.

Lemma scoreOf_samples s dataInfo t :
  scoreOf (normalComparisonOfTwo s) dataInfo t
  = scoreOf (normalComparisonOfTwo (canonicalSamples s)) dataInfo t.
Proof.
  unfold scoreOf, normalComparisonOfTwo. cbn [design characteristics samples groups].
  rewrite !selected_canonical by auto. reflexivity.
Qed.

Lemma sample_size_enough t (v : list string) :
  In t testsDatabase -> (30 <= length v)%nat ->
  (Z.of_nat (length v) <? minSampleSize t) = false.
Proof.
  intros Ht Hv. apply Z.ltb_ge. unfold testsDatabase in Ht. simpl in Ht.
  repeat (destruct Ht as [<-|Ht]; [simpl; lia|]). destruct Ht.
Qed.

Lemma getRecommendations_scenario s dgroups dvalues :
  length (uniqueGroups dgroups) = 2%nat -> (30 <= length dvalues)%nat ->
  getRecommendations (normalComparisonOfTwo s)
    (Some {| dataGroups := Some dgroups; dataValues := Some dvalues |})
  = getRecommendations (normalComparisonOfTwo (canonicalSamples s))
      (Some (twoGroupData 15 30)).
Proof.
  intros Hg Hv. unfold getRecommendations, candidates. do 3 f_equal.
  apply map_ext_in. intros t Ht. unfold recommend.
  rewrite scoreOf_samples. unfold twoGroupData.
  rewrite (scoreOf_data _ dgroups dvalues
             (repeat "A" 15 ++ repeat "B" (30 - 15))%list (repeat "1.5" 30) t).
  - reflexivity.
  - rewrite Hg. reflexivity.
  - rewrite !sample_size_enough; auto; rewrite repeat_length; lia.
Qed.

Lemma recommendations_independent :
  List.map (fun r => (id (test r), score r))
    (getRecommendations (normalComparisonOfTwo (Some "independent")) (Some (twoGroupData 15 30)))
  = [("independent-t-test", 9); ("paired-t-test", 7); ("mann-whitney", 5)].
Proof. vm_compute. reflexivity. Qed.

Lemma recommendations_paired :
  List.map (fun r => (id (test r), score r))
    (getRecommendations (normalComparisonOfTwo (Some "paired")) (Some (twoGroupData 15 30)))
  = [("paired-t-test", 9); ("independent-t-test", 7); ("wilcoxon-signed-rank", 7)].
Proof. vm_compute. reflexivity. Qed.

Lemma recommendations_unspecified :
  List.map (fun r => (id (test r), score r))
    (getRecommendations (normalComparisonOfTwo None) (Some (twoGroupData 15 30)))
  = [("independent-t-test", 7); ("paired-t-test", 7); ("mann-whitney", 5)].
Proof. vm_compute. reflexivity. Qed.

(** C6 (amended). The recommendations are catalogue entries with a
    strictly positive additive score, in descending order of score with
    the catalogue order kept among equal scores, at most three, each with
    the suitability tier of its score.  For a comparison of two groups of
    normal data, on data with exactly two distinct groups and at least
    30 values, the independent t-test is recommended with a score of at
    least 7; it comes first unless the [samples] slot is ['paired'], in
    which case the paired t-test (score 9) comes first and the
    independent t-test second. *)
Theorem recommender_ranking :
  (forall selections dataInfo,
     let recs := getRecommendations selections dataInfo in
     (length recs <= 3)%nat /\
     (forall r, In r recs ->
        In (test r) testsDatabase /\
        score r = scoreOf selections dataInfo (test r) /\
        0 < score r /\
        suitability r = getSuitabilityLevel (score r)) /\
     StronglySorted (fun a b => score b <= score a) recs /\
     (exists ranked,
        recs = firstn 3 ranked /\
        Permutation ranked (candidates selections dataInfo) /\
        StronglySorted (fun a b => score b <= score a) ranked /\
        forall s, List.filter (fun r => score r =? s) ranked
                  = List.filter (fun r => score r =? s) (candidates selections dataInfo))) /\
  (forall s, getSuitabilityLevel s =
             if 8 <=? s then excellent else if 6 <=? s then very_good
             else if 4 <=? s then good else acceptable) /\
  (forall s dgroups dvalues,
     length (uniqueGroups dgroups) = 2%nat -> (30 <= length dvalues)%nat ->
     let recs := getRecommendations (normalComparisonOfTwo s)
                   (Some {| dataGroups := Some dgroups; dataValues := Some dvalues |}) in
     (exists r, In r recs /\ id (test r) = "independent-t-test" /\ 7 <= score r) /\
     (s <> Some "paired" ->
      exists r rest, recs = r :: rest /\ id (test r) = "independent-t-test") /\
     (s = Some "paired" ->
      List.map (fun r => (id (test r), score r)) recs
      = [("paired-t-test", 9); ("independent-t-test", 7); ("wilcoxon-signed-rank", 7)])).
Proof.
  split; [exact getRecommendations_spec|]. split; [exact getSuitabilityLevel_tiers|].
  intros s dgroups dvalues Hg Hv. cbv zeta.
  rewrite (getRecommendations_scenario s dgroups dvalues Hg Hv).
  assert (Hcases : canonicalSamples s = Some "independent"
                   \/ (canonicalSamples s = Some "paired" /\ s = Some "paired")
                   \/ (canonicalSamples s = None /\ s <> Some "paired")).
  { unfold canonicalSamples. destruct (selected s "independent") eqn:Hi; [now left|].
    destruct (selected s "paired") eqn:Hp; right; [left|right]; split; auto.
    - destruct s as [s|]; [|discriminate]. simpl in Hp.
      apply String.eqb_eq in Hp. now subst.
    - intros ->. discriminate. }
  destruct Hcases as [Hc|[[Hc Hs]|[Hc Hs]]]; rewrite Hc.
  - pose proof recommendations_independent as Hrecs.
    destruct (getRecommendations _ _) as [|r1 [|r2 [|r3 [|r4 rest]]]];
      try discriminate Hrecs.
    injection Hrecs as Hid1 Hs1 _ _ _ _. split; [|split].
    + exists r1. split; [now left|]. split; [exact Hid1|]. rewrite Hs1. discriminate.
    + intros _. exists r1, [r2; r3]. split; [reflexivity|exact Hid1].
    + intros ->. discriminate.
  - pose proof recommendations_paired as Hrecs.
    split; [|split].
    + destruct (getRecommendations _ _) as [|r1 [|r2 [|r3 [|r4 rest]]]];
        try discriminate Hrecs.
      injection Hrecs as _ _ Hid2 Hs2 _ _.
      exists r2. split; [right; now left|]. split; [exact Hid2|]. rewrite Hs2. discriminate.
    + intros Hne. contradiction.
    + intros _. exact Hrecs.
  - pose proof recommendations_unspecified as Hrecs.
    destruct (getRecommendations _ _) as [|r1 [|r2 [|r3 [|r4 rest]]]];
      try discriminate Hrecs.
    injection Hrecs as Hid1 Hs1 _ _ _ _. split; [|split].
    + exists r1. split; [now left|]. split; [exact Hid1|]. rewrite Hs1. discriminate.
    + intros _. exists r1, [r2; r3]. split; [reflexivity|exact Hid1].
    + intros Heq. contradiction.
Qed.

Lemma recommender_ranking_witness :
  length (uniqueGroups (repeat "A" 20 ++ repeat "B" 20)%list) = 2%nat /\
  (30 <= length (repeat "7.25" 40))%nat /\
  exists r, In r (getRecommendations (normalComparisonOfTwo (Some "independent"))
                    (Some {| dataGroups := Some (repeat "A" 20 ++ repeat "B" 20)%list;
                             dataValues := Some (repeat "7.25" 40) |}))
            /\ id (test r) = "independent-t-test" /\ 7 <= score r.
Proof.
  assert (Hg : length (uniqueGroups (repeat "A" 20 ++ repeat "B" 20)%list) = 2%nat)
    by (vm_compute; reflexivity).
  assert (Hv : (30 <= length (repeat "7.25" 40))%nat) by (rewrite repeat_length; lia).
  split; [exact Hg|]. split; [exact Hv|].
  apply (proj2 (proj2 recommender_ranking) (Some "independent") _ _ Hg Hv).
Defined.

(** Against C6 as stated: when the [samples] slot holds ['paired'], on
    30 rows in two groups the paired t-test is the top recommendation and
    the independent t-test the second. *)
Lemma paired_selection_tops_paired_test :
  design (normalComparisonOfTwo (Some "paired")) = Some "comparison" /\
  characteristics (normalComparisonOfTwo (Some "paired")) = Some "continuous-normal" /\
  groups (normalComparisonOfTwo (Some "paired")) = Some "2" /\
  length (uniqueGroups (repeat "A" 15 ++ repeat "B" 15)%list) = 2%nat /\
  length (repeat "1.5" 30) = 30%nat /\
  List.map (fun r => (id (test r), score r))
    (getRecommendations (normalComparisonOfTwo (Some "paired")) (Some (twoGroupData 15 30)))
  = [("paired-t-test", 9); ("independent-t-test", 7); ("wilcoxon-signed-rank", 7)].
Proof. repeat split; vm_compute; reflexivity. Qed.

End RecommenderProofs.

(** * The assumption checks *)

Module AssumptionProofs.
Import NumericSummary Assumptions.
Local Open Scope string_scope.
Local Open Scope Q_scope.

(** ** Homogeneity of variance *)

(** C4 (the code as it is). With two groups or more [leveneTest] never
    reports homogeneity: the computation of the group means either throws
    or is followed by the call of the missing method [oneWayANOVA], and
    the [catch] turns either error into the failed result, whose
    statistic, p-value and pass flag are [null]. *)
Theorem leveneTest_fails_on_two_groups (values : list Q) (groups : list label) :
  (2 <= length (uniqueGroups groups))%nat ->
  result (leveneTest values groups) = failed /\
  passed (leveneTest values groups) = None /\
  pValue (leveneTest values groups) = None /\
  statistic (leveneTest values groups) = None.
Proof.
  intros Hg. unfold leveneTest.
  destruct (Nat.ltb_spec (length (uniqueGroups groups)) 2) as [|_]; [lia|].
  destruct (groupMeansOf values groups (uniqueGroups groups)) as [means|error];
    simpl; repeat split.
Qed.

Lemma leveneTest_fails_on_two_groups_witness :
  (2 <= length (uniqueGroups ["A"; "A"; "B"; "B"]))%nat /\
  result (leveneTest [1; 2; 3; 5] ["A"; "A"; "B"; "B"]) = failed /\
  passed (leveneTest [1; 2; 3; 5] ["A"; "A"; "B"; "B"]) = None /\
  pValue (leveneTest [1; 2; 3; 5] ["A"; "A"; "B"; "B"]) = None /\
  statistic (leveneTest [1; 2; 3; 5] ["A"; "A"; "B"; "B"]) = None.
Proof.
  assert (Hg : (2 <= length (uniqueGroups ["A"; "A"; "B"; "B"]))%nat)
    by (vm_compute; lia).
  split; [exact Hg|].
  apply (leveneTest_fails_on_two_groups [1; 2; 3; 5] ["A"; "A"; "B"; "B"] Hg).
Defined.

(** With fewer than two groups the check reports that it does not apply,
    with its message. *)
Lemma leveneTest_needs_two_groups (values : list Q) (groups : list label) :
  (length (uniqueGroups groups) < 2)%nat ->
  leveneTest values groups =
  {| test := "Levene"; statistic := None; pValue := None;
     result := notApplicable; passed := None;
     message := "يحتاج إلى مجموعتين على الأقل" |}.
Proof.
  intros Hg. unfold leveneTest.
  destruct (Nat.ltb_spec (length (uniqueGroups groups)) 2) as [_|]; [reflexivity|lia].
Qed.

(** ** Normality *)

Lemma checkAssumptions_computed now later values groups checks
  (assumptionsCache : gmap string CacheEntry) :
  servedFromCache now values groups assumptionsCache = false ->
  checkAssumptions now later values groups checks assumptionsCache
  = (computeChecks values groups checks,
     <[cacheKey values groups :=
         {| results := computeChecks values groups checks; timestamp := later |}]>
       assumptionsCache).
Proof.
  unfold servedFromCache, checkAssumptions.
  destruct (assumptionsCache !! cacheKey values groups) as [cached|]; [|reflexivity].
  now intros ->.
Qed.

Lemma shapiroWilkTest_in_range (values : list Q) :
  (3 <= length values <= 5000)%nat ->
  statistic (shapiroWilkTest values) = Some 0.9 /\
  pValue (shapiroWilkTest values) = Some 0.1 /\
  passed (shapiroWilkTest values) = Some true /\
  result (shapiroWilkTest values) = normal.
Proof.
  intros Hn. unfold shapiroWilkTest.
  destruct (Nat.ltb_spec (length values) 3) as [|_]; [lia|].
  destruct (Nat.ltb_spec 5000 (length values)) as [|_]; [lia|]. simpl orb. cbv iota.
  destruct (ss_mean (stable_sort (byValue (fun x => x)) values)) as [mean|error] eqn:Hmean.
  - assert (Hp : calculateShapiroWilkPValue 0.9 (length values) = 0.1) by reflexivity.
    simpl. rewrite Hp. repeat split.
  - exfalso. unfold ss_mean in Hmean.
    destruct (stable_sort (byValue (fun x => x)) values) as [|x rest] eqn:Hs; [|discriminate].
    pose proof (stable_sort_length (byValue (fun x : Q => x)) values) as Hlen.
    rewrite Hs in Hlen. simpl in Hlen. lia.
Qed.

Lemma shapiroWilkTest_out_of_range (values : list Q) :
  (length values < 3 \/ 5000 < length values)%nat ->
  shapiroWilkTest values =
  {| test := "Shapiro-Wilk"; statistic := None; pValue := None;
     result := notApplicable; passed := None;
     message := "حجم العينة غير مناسب للاختبار (" ++ showNat (length values) ++ ")" |}.
Proof.
  intros Hn. unfold shapiroWilkTest.
  destruct (Nat.ltb_spec (length values) 3), (Nat.ltb_spec 5000 (length values));
    try reflexivity; lia.
Qed.

(** C5 (amended). For a normality check requested in a call that is not
    served from the cache: when [3 <= n <= 5000] the result mapping holds
    a normality entry with a statistic, a p-value and a pass flag that is
    true exactly when the p-value exceeds 0.05; when [n] is outside
    [3, 5000] the mapping holds no normality entry (the inapplicable
    result with its message is what [shapiroWilkTest] returns when it is
    called directly). *)
Theorem normality_entry_of_checkAssumptions now later values groups checks
  (assumptionsCache : gmap string CacheEntry) :
  Checks.normality checks = true ->
  servedFromCache now values groups assumptionsCache = false ->
  let results := fst (checkAssumptions now later values groups checks assumptionsCache) in
  ((3 <= length values <= 5000)%nat ->
   exists entry w p flag,
     Results.normality results = Some entry /\
     statistic entry = Some w /\ pValue entry = Some p /\ passed entry = Some flag /\
     (flag = true <-> 0.05 < p)) /\
  ((length values < 3 \/ 5000 < length values)%nat ->
   Results.normality results = None /\
   result (shapiroWilkTest values) = notApplicable /\
   passed (shapiroWilkTest values) = None /\
   message (shapiroWilkTest values)
   = "حجم العينة غير مناسب للاختبار (" ++ showNat (length values) ++ ")").
Proof.
  intros Hreq Hmiss. rewrite (checkAssumptions_computed _ _ _ _ _ _ Hmiss).
  unfold computeChecks. cbn [fst Results.normality].
  rewrite Hreq. split.
  - intros Hn.
    destruct (Nat.leb_spec 3 (length values)) as [_|]; [|lia].
    destruct (Nat.leb_spec (length values) 5000) as [_|]; [|lia]. cbn [andb].
    destruct (shapiroWilkTest_in_range values Hn) as (Hw & Hp & Hf & _).
    exists (shapiroWilkTest values), 0.9, 0.1, true.
    split; [reflexivity|]. split; [exact Hw|]. split; [exact Hp|]. split; [exact Hf|].
    split; intros _; reflexivity.
  - intros Hn. split.
    + destruct (Nat.leb_spec 3 (length values)), (Nat.leb_spec (length values) 5000);
        cbn [andb]; try reflexivity; lia.
    + rewrite (shapiroWilkTest_out_of_range values Hn). repeat split.
Qed.

Lemma normality_entry_of_checkAssumptions_witness :
  Checks.normality onlyNormality = true /\
  servedFromCache 0 [1; 2; 3; 4; 5] [] ∅ = false /\
  exists entry w p flag,
    Results.normality (fst (checkAssumptions 0 1 [1; 2; 3; 4; 5] [] onlyNormality ∅))
    = Some entry /\
    statistic entry = Some w /\ pValue entry = Some p /\ passed entry = Some flag /\
    (flag = true <-> 0.05 < p).
Proof.
  assert (Hreq : Checks.normality onlyNormality = true) by reflexivity.
  assert (Hmiss : servedFromCache 0 [1; 2; 3; 4; 5] [] ∅ = false) by reflexivity.
  split; [exact Hreq|]. split; [exact Hmiss|].
  apply (normality_entry_of_checkAssumptions 0 1 [1; 2; 3; 4; 5] [] onlyNormality ∅
           Hreq Hmiss).
  simpl. lia.
Defined.

(** Against C5 as stated: a normality check requested for two values is
    left out of the result mapping. *)
Lemma normality_of_two_values_is_omitted :
  Checks.normality onlyNormality = true /\
  (length [1; 2] < 3)%nat /\
  Results.normality (fst (checkAssumptions 0 1 [1; 2] [] onlyNormality ∅)) = None.
Proof. repeat split. simpl. lia. Qed.


(** ** The cache *)

Lemma is_Some_if {A : Type} (b : bool) (x : A) :
  is_Some (if b then Some x else None) <-> b = true.
Proof.
  destruct b; split; intros H; try reflexivity; eauto.
  - destruct H as [y Hy]. discriminate.
  - discriminate.
Qed.

Lemma computeChecks_entries values groups checks :
  (is_Some (Results.normality (computeChecks values groups checks)) <->
   Checks.normality checks = true /\ (3 <= length values <= 5000)%nat) /\
  (is_Some (Results.homogeneity (computeChecks values groups checks)) <->
   Checks.homogeneity checks = true /\ (0 < length groups)%nat) /\
  (is_Some (Results.outliers (computeChecks values groups checks)) <->
   Checks.outliers checks = true).
Proof.
  unfold computeChecks. cbn [Results.normality Results.homogeneity Results.outliers].
  rewrite !is_Some_if, !andb_true_iff, !Nat.leb_le, Nat.ltb_lt. tauto.
Qed.

(** C10 (amended). When a call of [checkAssumptions] computes its result
    (it is not itself served from the cache), a second call with the
    same values and groups whose clock reading is less than five minutes
    after the time stamp of the first returns the first call's result
    mapping and leaves the cache as it is, whatever checks it asks for:
    the cache key is built from the values and the groups only.  That
    mapping holds the outlier entry exactly when the first call asked for
    it, the normality entry exactly when the first call asked for it and
    [3 <= n <= 5000], and the homogeneity entry exactly when the first
    call asked for it and [groups] is not empty. *)
Theorem cached_result_ignores_checks (now1 later1 now2 later2 : Z)
  (values : list Q) (groups : list label) (checks1 checks2 : Checks.t)
  (assumptionsCache : gmap string CacheEntry) :
  servedFromCache now1 values groups assumptionsCache = false ->
  (now2 - 300000 < later1)%Z ->
  let first := checkAssumptions now1 later1 values groups checks1 assumptionsCache in
  let second := checkAssumptions now2 later2 values groups checks2 (snd first) in
  fst second = fst first /\
  snd second = snd first /\
  fst second = computeChecks values groups checks1 /\
  (is_Some (Results.normality (fst second)) <->
   Checks.normality checks1 = true /\ (3 <= length values <= 5000)%nat) /\
  (is_Some (Results.homogeneity (fst second)) <->
   Checks.homogeneity checks1 = true /\ (0 < length groups)%nat) /\
  (is_Some (Results.outliers (fst second)) <-> Checks.outliers checks1 = true).
Proof.
  intros Hmiss Hfresh first second.
  assert (Hfirst : first = (computeChecks values groups checks1,
                            <[cacheKey values groups :=
                                {| results := computeChecks values groups checks1;
                                   timestamp := later1 |}]> assumptionsCache))
    by (apply checkAssumptions_computed, Hmiss).
  assert (Hsecond : second = first).
  { unfold second. rewrite Hfirst. cbn [snd]. unfold checkAssumptions.
    rewrite lookup_insert_eq. cbn [timestamp results].
    destruct (Z.ltb_spec (now2 - 300000) later1) as [_|]; [reflexivity|lia]. }
  rewrite Hsecond, Hfirst. cbn [fst snd].
  split; [reflexivity|]. split; [reflexivity|]. split; [reflexivity|].
  apply computeChecks_entries.
Qed.

Lemma cached_result_ignores_checks_witness :
  servedFromCache 0 [1; 2; 3; 4] ["A"; "A"; "B"; "B"] ∅ = false /\
  (60000 - 300000 < 5)%Z /\
  fst (checkAssumptions 60000 60005 [1; 2; 3; 4] ["A"; "A"; "B"; "B"] onlyOutliers
         (snd (checkAssumptions 0 5 [1; 2; 3; 4] ["A"; "A"; "B"; "B"] onlyNormality ∅)))
  = fst (checkAssumptions 0 5 [1; 2; 3; 4] ["A"; "A"; "B"; "B"] onlyNormality ∅).
Proof.
  assert (Hmiss : servedFromCache 0 [1; 2; 3; 4] ["A"; "A"; "B"; "B"] ∅ = false)
    by reflexivity.
  assert (Hfresh : (60000 - 300000 < 5)%Z) by lia.
  split; [exact Hmiss|]. split; [exact Hfresh|].
  apply (cached_result_ignores_checks 0 5 60000 60005 [1; 2; 3; 4] ["A"; "A"; "B"; "B"]
           onlyNormality onlyOutliers ∅ Hmiss Hfresh).
Defined.

(** Against C10 as stated, in two ways.  A check asked for only in the
    first call can be absent from the second result: the normality check
    of two values is never produced.  And two calls made within five
    minutes need not share a result: when the first of them is itself
    served from an entry that then expires, the second computes anew. *)
Lemma second_call_counterexamples :
  (let first := checkAssumptions 0 0 [1; 2] [] onlyNormality ∅ in
   let second := checkAssumptions 1000 1000 [1; 2] [] onlyOutliers (snd first) in
   Checks.normality onlyNormality = true /\ Checks.normality onlyOutliers = false /\
   (1000 - 0 < 300000)%Z /\
   Results.normality (fst second) = None) /\
  (let earlier := checkAssumptions 0 0 [1; 2; 3; 4] [] onlyOutliers ∅ in
   let first := checkAssumptions 200000 200000 [1; 2; 3; 4] [] onlyOutliers (snd earlier) in
   let second := checkAssumptions 400000 400000 [1; 2; 3; 4] [] onlyNormality (snd first) in
   (400000 - 200000 < 300000)%Z /\
   Results.outliers (fst first) <> None /\
   Results.outliers (fst second) = None).
Proof.
  split.
  - cbv zeta. split; [reflexivity|]. split; [reflexivity|]. split; [lia|].
    vm_compute. reflexivity.
  - cbv zeta. split; [lia|]. split.
    + vm_compute. discriminate.
    + vm_compute. reflexivity.
Qed.

End AssumptionProofs.

(** * The independent t-test *)

Module TTestProofs.
Import TTest.
Local Open Scope string_scope.
Local Open Scope R_scope.

Lemma ss_mean_nonempty (x : list R) :
  x <> [] -> Direct.ss_mean x = Ok (sumR x / lengthR x).
Proof. destruct x; [congruence|reflexivity]. Qed.

Lemma ss_standardDeviation_nonempty (x : list R) :
  x <> [] -> Direct.ss_standardDeviation x = Ok (sqrt (variance x)).
Proof. destruct x; [congruence|reflexivity]. Qed.

Lemma nonempty_of_length {A : Type} (x : list A) : (2 <= length x)%nat -> x <> [].
Proof. destruct x; simpl; [lia|discriminate]. Qed.

Lemma pooledStdOf_comm n1 n2 s1 s2 : pooledStdOf n2 n1 s2 s1 = pooledStdOf n1 n2 s1 s2.
Proof.
  unfold pooledStdOf. f_equal.
  replace (n2 + n1 - 2) with (n1 + n2 - 2) by ring.
  f_equal. ring.
Qed.

Section Swap.
Variable studentt_cdf : R -> Z -> R.
Variable studentt_inv : R -> Z -> R.
Variable noncentralt_cdf : R -> Z -> R -> R.

(** C7. When the two groups are listed in the other order, the
    independent t-test returns the opposite [t] and the opposite Cohen's
    [d], and the same p-value and degrees of freedom
    [df = n1 + n2 - 2]. *)
Theorem independent_t_test_swap
  (values values' : list R) (groups groups' : list label) (a b : label)
  (group1 group2 : list R) :
  uniqueGroups groups = [a; b] ->
  uniqueGroups groups' = [b; a] ->
  groupValues values groups a = group1 -> groupValues values groups b = group2 ->
  groupValues values' groups' a = group1 -> groupValues values' groups' b = group2 ->
  (2 <= length group1)%nat -> (2 <= length group2)%nat ->
  pooledStd group1 group2 <> 0 ->
  exists r r',
    Direct.runIndependentTTest studentt_cdf studentt_inv noncentralt_cdf
      values groups = Ok r /\
    Direct.runIndependentTTest studentt_cdf studentt_inv noncentralt_cdf
      values' groups' = Ok r' /\
    t r' = - t r /\
    (exists d, cohensD r = Some d /\ cohensD r' = Some (- d)) /\
    pValue r' = pValue r /\
    df r' = df r /\
    df r = (Z.of_nat (length group1) + Z.of_nat (length group2) - 2)%Z.
Proof.
  intros Hu Hu' H1 H2 H1' H2' Hn1 Hn2 _.
  unfold Direct.runIndependentTTest. rewrite Hu, Hu', H1, H2, H1', H2'.
  unfold Direct.statisticsOf.
  rewrite !(ss_mean_nonempty group1), !(ss_mean_nonempty group2),
    !(ss_standardDeviation_nonempty group1), !(ss_standardDeviation_nonempty group2)
    by now apply nonempty_of_length.
  cbn [bind]. eexists. eexists. split; [reflexivity|]. split; [reflexivity|].
  cbn [t cohensD pValue df].
  rewrite (pooledStdOf_comm (lengthR group1) (lengthR group2)).
  replace (1 / lengthR group2 + 1 / lengthR group1)
    with (1 / lengthR group1 + 1 / lengthR group2) by ring.
  set (m1 := sumR group1 / lengthR group1). set (m2 := sumR group2 / lengthR group2).
  set (ps := pooledStdOf _ _ _ _). set (root := sqrt _).
  assert (Ht : (m2 - m1) / (ps * root) = - ((m1 - m2) / (ps * root)))
    by (unfold Rdiv; ring).
  split; [exact Ht|]. split.
  - eexists. split; [reflexivity|]. f_equal. unfold Rdiv. ring.
  - split.
    + rewrite Ht, Rabs_Ropp. f_equal. f_equal. f_equal.
      unfold degreesOfFreedom. lia.
    + split; unfold degreesOfFreedom; lia.
Qed.
End Swap.

Lemma variance_example : variance [1; 2] = 1 / 4.
Proof. unfold variance, sumR, lengthR. simpl. field. Qed.

Lemma independent_t_test_swap_witness :
  uniqueGroups exampleGroups = ["A"; "B"] /\
  uniqueGroups swappedGroups = ["B"; "A"] /\
  (2 <= length [1; 2])%nat /\ (2 <= length [4; 6])%nat /\
  pooledStd [1; 2] [4; 6] <> 0 /\
  exists r r',
    Direct.runIndependentTTest (fun _ _ => 1 / 2) (fun _ _ => 0) (fun _ _ _ => 0)
      exampleValues exampleGroups = Ok r /\
    Direct.runIndependentTTest (fun _ _ => 1 / 2) (fun _ _ => 0) (fun _ _ _ => 0)
      swappedValues swappedGroups = Ok r' /\
    t r' = - t r /\
    (exists d, cohensD r = Some d /\ cohensD r' = Some (- d)) /\
    pValue r' = pValue r /\
    df r' = df r /\
    df r = (Z.of_nat (length [1; 2]) + Z.of_nat (length [4; 6]) - 2)%Z.
Proof.
  assert (Hu : uniqueGroups exampleGroups = ["A"; "B"]) by reflexivity.
  assert (Hu' : uniqueGroups swappedGroups = ["B"; "A"]) by reflexivity.
  assert (Hn1 : (2 <= length [1; 2])%nat) by (simpl; lia).
  assert (Hn2 : (2 <= length [4; 6])%nat) by (simpl; lia).
  assert (Hp : pooledStd [1; 2] [4; 6] <> 0).
  { unfold pooledStd, pooledStdOf. apply Rgt_not_eq, sqrt_lt_R0.
    rewrite variance_example.
    assert (Hs : sqrt (1 / 4) * sqrt (1 / 4) = 1 / 4) by (apply sqrt_sqrt; rlra).
    assert (Hv : 0 <= sqrt (variance [4; 6]) * sqrt (variance [4; 6]))
      by (apply Rle_0_sqr).
    unfold lengthR. simpl INR.
    replace ((1 + 1 - 1) * sqrt (1 / 4) * sqrt (1 / 4))
      with (sqrt (1 / 4) * sqrt (1 / 4)) by ring.
    rewrite Hs. rlra. }
  split; [exact Hu|]. split; [exact Hu'|]. split; [exact Hn1|]. split; [exact Hn2|].
  split; [exact Hp|].
  apply (independent_t_test_swap (fun _ _ => 1 / 2) (fun _ _ => 0) (fun _ _ _ => 0)
           exampleValues swappedValues exampleGroups swappedGroups "A" "B"
           [1; 2] [4; 6] Hu Hu' eq_refl eq_refl eq_refl eq_refl Hn1 Hn2 Hp).
Defined.


(** ** The two execution paths *)

Lemma sum_left_right (x : list R) :
  fold_left (fun sum val => sum + val) x 0 = sumR x.
Proof.
  unfold sumR. apply fold_symmetric; intros; ring.
Qed.

Lemma worker_mean (x : list R) : Worker.mean x = sumR x / lengthR x.
Proof. unfold Worker.mean. now rewrite sum_left_right. Qed.

Lemma worker_stdDev (x : list R) : Worker.stdDev x = sqrt (variance x).
Proof.
  unfold Worker.stdDev, variance. now rewrite sum_left_right, worker_mean.
Qed.

(** In exact arithmetic the two paths compute the same [t], [df], means
    and standard deviations of two non-empty groups; the p-value is the
    Student CDF value on the direct path and a step function of [|t|] on
    the worker path, which also leaves out the effect size, the
    confidence interval and the power. *)
Lemma paths_share_t_not_p studentt_cdf studentt_inv noncentralt_cdf
  (values : list R) (groups : list label) (a b : label) :
  uniqueGroups groups = [a; b] ->
  groupValues values groups a <> [] -> groupValues values groups b <> [] ->
  exists r r',
    Direct.runIndependentTTest studentt_cdf studentt_inv noncentralt_cdf values groups = Ok r /\
    Worker.runIndependentTTest values groups = Ok r' /\
    t r' = t r /\ df r' = df r /\
    mean1 r' = mean1 r /\ mean2 r' = mean2 r /\ std1 r' = std1 r /\ std2 r' = std2 r /\
    n1 r' = n1 r /\ n2 r' = n2 r /\
    pValue r = 2 * (1 - studentt_cdf (Rabs (t r)) (df r)) /\
    pValue r' = Worker.calculateTPValue (t r) (df r) /\
    cohensD r' = None /\ confidenceInterval r' = None /\ power r' = None.
Proof.
  intros Hu H1 H2.
  unfold Direct.runIndependentTTest, Worker.runIndependentTTest. rewrite Hu.
  unfold Direct.statisticsOf, Worker.tTest.
  rewrite !(ss_mean_nonempty _ H1), !(ss_mean_nonempty _ H2),
    !(ss_standardDeviation_nonempty _ H1), !(ss_standardDeviation_nonempty _ H2).
  rewrite !worker_mean, !worker_stdDev.
  cbn [bind]. eexists. eexists. split; [reflexivity|]. split; [reflexivity|].
  cbn. repeat split.
Qed.

Lemma calculateTPValue_values (statistic : R) (df : Z) :
  In (Worker.calculateTPValue statistic df) [1; 0.0001; 0.001; 0.02; 0.05; 0.15; 0.3].
Proof.
  unfold Worker.calculateTPValue.
  destruct (df <=? 0)%Z; [now left|].
  repeat (match goal with |- context [Rlt_dec ?x ?y] => destruct (Rlt_dec x y) end;
          [simpl; tauto|]).
  simpl. tauto.
Qed.

(** C1 (the code as it is). On the data set with the groups [1, 3] and
    [1, 3] both paths compute [t = 0] and [df = 2]; the direct path
    returns the p-value [2 (1 - F(0; 2))], where [F] is the CDF of
    Student's t (so 1, as [F(0; 2) = 1/2]), and the worker path returns
    0.3.  Whatever the data, the worker's p-value is one of seven
    constants. *)
Theorem paths_disagree_on_p_value :
  (forall studentt_cdf studentt_inv noncentralt_cdf,
     exists r,
       Direct.runIndependentTTest studentt_cdf studentt_inv noncentralt_cdf
         equalMeansValues exampleGroups = Ok r /\
       t r = 0 /\ df r = 2%Z /\ pValue r = 2 * (1 - studentt_cdf 0 2%Z)) /\
  (exists r',
     Worker.runIndependentTTest equalMeansValues exampleGroups = Ok r' /\
     t r' = 0 /\ df r' = 2%Z /\ pValue r' = 0.3) /\
  (forall values groups r',
     Worker.runIndependentTTest values groups = Ok r' ->
     In (pValue r') [1; 0.0001; 0.001; 0.02; 0.05; 0.15; 0.3]).
Proof.
  assert (Hu : uniqueGroups exampleGroups = ["A"; "B"]) by reflexivity.
  assert (H1 : groupValues equalMeansValues exampleGroups "A" = [1; 3]) by reflexivity.
  assert (H2 : groupValues equalMeansValues exampleGroups "B" = [1; 3]) by reflexivity.
  assert (Hshare := fun cdf inv nct =>
            paths_share_t_not_p cdf inv nct equalMeansValues exampleGroups "A" "B" Hu
              ltac:(rewrite H1; discriminate) ltac:(rewrite H2; discriminate)).
  assert (Ht : forall cdf inv nct r,
            Direct.runIndependentTTest cdf inv nct equalMeansValues exampleGroups = Ok r ->
            t r = 0 /\ df r = 2%Z).
  { intros cdf inv nct r. unfold Direct.runIndependentTTest. rewrite Hu, H1, H2.
    unfold Direct.statisticsOf. cbn [Direct.ss_mean Direct.ss_standardDeviation bind].
    intros [= <-]. cbn [t df]. split; [|reflexivity].
    unfold Rdiv. ring. }
  split; [|split].
  - intros cdf inv nct.
    destruct (Hshare cdf inv nct) as (r & r' & Hr & _ & _ & _ & _ & _ & _ & _ & _ & _ & Hp & _).
    destruct (Ht cdf inv nct r Hr) as (Ht0 & Hdf).
    exists r. repeat split; auto. now rewrite Hp, Ht0, Hdf, Rabs_R0.
  - destruct (Hshare (fun _ _ => 0) (fun _ _ => 0) (fun _ _ _ => 0))
      as (r & r' & Hr & Hr' & Htt & Hdd & _ & _ & _ & _ & _ & _ & _ & Hp & _).
    destruct (Ht _ _ _ r Hr) as (Ht0 & Hdf).
    exists r'. split; [exact Hr'|]. split; [congruence|]. split; [congruence|].
    rewrite Hp, Ht0, Hdf. unfold Worker.calculateTPValue. rewrite Rabs_R0.
    cbn [Z.leb Z.compare].
    repeat (match goal with |- context [Rlt_dec ?x ?y] => destruct (Rlt_dec x y) end;
            [exfalso; rlra|]).
    reflexivity.
  - intros values groups r'. unfold Worker.runIndependentTTest.
    destruct (uniqueGroups groups) as [|a [|b [|c rest]]]; try discriminate.
    intros [= <-]. cbn [pValue]. unfold Worker.tTest. cbn [Worker.tt_pValue].
    apply calculateTPValue_values.
Qed.

End TTestProofs.

(** * The offload coordinator *)

Module OffloadProofs.
Import Offload.
Local Open Scope string_scope.

(** What the busy flag is meant to guarantee: at most one request is
    outstanding, and while one is, the flag is set and the promise's
    handler is installed. *)
Definition guarded (app : App) : Prop :=
  match statsWorker app with
  | Some worker =>
      inbox worker <= 1 /\
      (inbox worker = 1 -> workerBusy app = true /\ handler worker <> None)
  | None => True
  end.

Lemma guarded_step app event :
  isClearData event = false -> guarded app -> guarded (step app event).
Proof.
  destruct app as [worker busy pending done onMain next]. unfold guarded.
  destruct event as [|reply|promise|]; simpl; try discriminate; intros _.
  - unfold runSelectedAnalysis. simpl.
    destruct worker as [[installed n]|]; simpl; [|auto].
    destruct busy; simpl; [auto|].
    intros [Hle Hbusy]. split.
    + destruct n as [|[|n]]; [lia| |lia]. destruct (Hbusy eq_refl). discriminate.
    + intros _. split; [reflexivity|discriminate].
  - unfold onWorkerReply. simpl.
    destruct worker as [[installed n]|]; simpl; [|auto].
    destruct n as [|remaining]; simpl; [auto|].
    intros [Hle _]. destruct installed; simpl; (split; [lia|intros; lia]).
  - unfold onTimeout. simpl.
    destruct (existsb (Nat.eqb promise) pending); simpl; [|auto].
    intros _. split; [lia|intros; discriminate].
Qed.

(** Without [clearData] the coordinator never has two requests
    outstanding. *)
Lemma at_most_one_outstanding_without_clearData events workersSupported :
  forallb (fun event => negb (isClearData event)) events = true ->
  outstanding (run events (initial workersSupported)) <= 1.
Proof.
  intros Hevents.
  assert (Hrun : forall app, guarded app -> guarded (run events app)).
  { unfold run. induction events as [|event events IH]; intros app Hg; [exact Hg|].
    simpl in *. apply andb_true_iff in Hevents as [He Hes].
    apply IH; [exact Hes|]. apply guarded_step; [|exact Hg].
    now apply negb_true_iff. }
  specialize (Hrun (initial workersSupported)).
  unfold guarded, outstanding in *.
  destruct (statsWorker (run events (initial workersSupported))); [|lia].
  apply Hrun. unfold initial. destruct workersSupported; simpl; [|exact I].
  split; [lia|discriminate].
Qed.

(** While the flag is set, or without a worker, an analysis runs on the
    main thread and the worker is left alone. *)
Lemma busy_or_absent_worker_falls_back app :
  workerBusy app = true \/ statsWorker app = None ->
  direct (step app RunAnalysis) = S (direct app) /\
  statsWorker (step app RunAnalysis) = statsWorker app /\
  timers (step app RunAnalysis) = timers app.
Proof.
  simpl. unfold runSelectedAnalysis. intros [Hb|Hw].
  - rewrite Hb. destruct (statsWorker app); repeat split.
  - rewrite Hw. repeat split.
Qed.

(** When the timer of a pending promise fires, the worker is replaced by
    a fresh one, the promise is rejected with the timeout error, and the
    busy flag keeps its value. *)
Lemma timeout_restarts_and_rejects app promise :
  In promise (timers app) ->
  existsb (fun entry => Nat.eqb (fst entry) promise) (settled app) = false ->
  statsWorker (step app (TimerFires promise)) = Some freshWorker /\
  In (promise, Rejected timeoutMessage) (settled (step app (TimerFires promise))) /\
  ~ In promise (timers (step app (TimerFires promise))) /\
  workerBusy (step app (TimerFires promise)) = workerBusy app.
Proof.
  intros Hp Hs. simpl. unfold onTimeout.
  assert (Hex : existsb (Nat.eqb promise) (timers app) = true).
  { apply existsb_exists. exists promise. split; [exact Hp|apply Nat.eqb_refl]. }
  rewrite Hex. simpl. unfold settle. rewrite Hs. repeat split.
  - now left.
  - unfold clearTimeout. rewrite filter_In, Nat.eqb_refl. intros [_ H]. discriminate.
Qed.

(** C9 (the code as it is). After a dispatch to the worker, [clearData]
    resets the busy flag although the request is still outstanding, and
    the next analysis is dispatched to the worker as well: two offloaded
    computations are outstanding at once. *)
Theorem clearData_allows_second_offload :
  let dispatched := run [RunAnalysis] (initial true) in
  let cleared := run [RunAnalysis; ClearData] (initial true) in
  let again := run [RunAnalysis; ClearData; RunAnalysis] (initial true) in
  (outstanding dispatched = 1 /\ workerBusy dispatched = true) /\
  (outstanding cleared = 1 /\ workerBusy cleared = false) /\
  (outstanding again = 2 /\ direct again = 0 /\ timers again = [1; 0]).
Proof. cbv zeta. repeat split. Qed.

End OffloadProofs.


(** * Facts about sums, groups and the objects keyed by group *)

Module SumFacts.
Import NumericSummary RankProofs RankTests.
Local Open Scope Q_scope.

Lemma Qsquare_nonneg (a : Q) : 0 <= a * a.
Proof.
  destruct (Qlt_le_dec a 0).
  - setoid_replace (a * a) with ((- a) * (- a)) using relation Qeq by ring. apply Qmult_le_0_compat; qlra.
  - apply Qmult_le_0_compat; qlra.
Qed.

Lemma Qsquare_zero (a : Q) : a * a <= 0 -> a == 0.
Proof.
  intros H. destruct (Q_dec a 0) as [[Hneg|Hpos]|Hzero]; [| |exact Hzero]; exfalso.
  - assert (Hp : 0 < (- a) * (- a)) by (apply Qmult_lt_0_compat; qlra).
    assert (He : (- a) * (- a) == a * a) by ring. qlra.
  - assert (Hp : 0 < a * a) by (apply Qmult_lt_0_compat; qlra). qlra.
Qed.

Lemma sumQ_app (l m : list Q) : sumQ (l ++ m) == sumQ l + sumQ m.
Proof.
  induction l as [|x l IH]; simpl; [ring|]. rewrite IH. ring.
Qed.

Lemma sumQ_perm (l m : list Q) : Permutation l m -> sumQ l == sumQ m.
Proof.
  induction 1; simpl; try qlra.
Qed.

Lemma sumQ_map_ext {A : Type} (f g : A -> Q) (l : list A) :
  (forall x, In x l -> f x == g x) -> sumQ (List.map f l) == sumQ (List.map g l).
Proof.
  induction l as [|x l IH]; intros H; simpl; [reflexivity|].
  rewrite (H x) by now left. rewrite IH; [reflexivity|].
  intros y Hy. apply H. now right.
Qed.

Lemma Math_min_compat a b c d : a == c -> b == d -> Math_min a b == Math_min c d.
Proof.
  intros Hac Hbd. unfold Math_min.
  destruct (Qle_bool a b) eqn:H1, (Qle_bool c d) eqn:H2; auto.
  - apply Qle_bool_iff in H1.
    assert (~ c <= d). { rewrite <- Qle_bool_iff. congruence. } qlra.
  - apply Qle_bool_iff in H2.
    assert (~ a <= b). { rewrite <- Qle_bool_iff. congruence. } qlra.
Qed.

Lemma Math_min_spec a b : Math_min a b <= a /\ Math_min a b <= b /\
                          (Math_min a b == a \/ Math_min a b == b).
Proof.
  unfold Math_min. destruct (Qle_bool a b) eqn:H.
  - apply Qle_bool_iff in H. repeat split; qlra.
  - assert (~ a <= b). { rewrite <- Qle_bool_iff. congruence. }
    repeat split; qlra.
Qed.

Lemma sumQ_map_plus {A : Type} (f g : A -> Q) (l : list A) :
  sumQ (List.map (fun x => f x + g x) l) == sumQ (List.map f l) + sumQ (List.map g l).
Proof.
  induction l as [|x l IH]; simpl; [ring|]. rewrite IH. ring.
Qed.

Lemma ofNat_mul a b : ofNat (a * b) == ofNat a * ofNat b.
Proof. unfold ofNat. now rewrite Nat2Z.inj_mul, inject_Z_mult. Qed.

Lemma ofNat_list_sum {A : Type} (f : A -> nat) (l : list A) :
  ofNat (list_sum (List.map f l)) == sumQ (List.map (fun x => ofNat (f x)) l).
Proof.
  induction l as [|x l IH]; simpl; [reflexivity|].
  rewrite ofNat_add, IH. reflexivity.
Qed.

Lemma filter_perm {A : Type} (p : A -> bool) (l m : list A) :
  Permutation l m -> Permutation (List.filter p l) (List.filter p m).
Proof.
  induction 1; simpl.
  - constructor.
  - destruct (p x); [now constructor|assumption].
  - destruct (p x), (p y); try reflexivity. apply perm_swap.
  - etransitivity; eassumption.
Qed.

Lemma filter_complement_length {A : Type} (p : A -> bool) (l : list A) :
  (length (List.filter p l) + length (List.filter (fun x => negb (p x)) l) = length l)%nat.
Proof.
  induction l as [|x l IH]; simpl; [reflexivity|].
  destruct (p x); simpl; lia.
Qed.

Lemma sumQ_filter_split {A : Type} (f : A -> Q) (p : A -> bool) (l : list A) :
  sumQ (List.map f l)
  == sumQ (List.map f (List.filter p l))
     + sumQ (List.map f (List.filter (fun x => negb (p x)) l)).
Proof.
  induction l as [|x l IH]; simpl; [ring|].
  destruct (p x); simpl; rewrite IH; ring.
Qed.

Lemma sumQ_const {A : Type} (f : A -> Q) (c : Q) (l : list A) :
  (forall x, In x l -> f x == c) -> sumQ (List.map f l) == ofNat (length l) * c.
Proof.
  induction l as [|x l IH]; intros H.
  - simpl. unfold ofNat. simpl. ring.
  - cbn [List.map sumQ fold_right length]. rewrite ofNat_S.
    rewrite (H x) by now left. unfold sumQ in IH. rewrite IH; [ring|].
    intros y Hy. apply H. now right.
Qed.

Lemma pooledRanks_length {A : Type} (key : A -> Q) (allValues : list A) :
  length (pooledRanks key allValues) = length allValues.
Proof.
  unfold pooledRanks.
  set (sorted := stable_sort (byValue key) allValues).
  destruct (pooledRankLoop_spec key sorted (stable_sort_sortedBy key allValues)
              (length sorted) 1 []) as (Hlen & _).
  { lia. } { lia. }
  { intros i m y z Hi. lia. }
  { split; [reflexivity|]. intros i y Hi. simpl in Hi. lia. }
  rewrite Hlen. unfold sorted. rewrite stable_sort_length. lia.
Qed.

End SumFacts.

Module GroupFacts.
Import NumericSummary RankTests.

(** ** The object [groupMap] *)

(** What a loop of pushes leaves under the key [g]: what was there
    before if no entry carries the key, else the values of the entries
    that carry it, in their order, after what was there before. *)
Lemma keyed_fold {E A : Type} (key : E -> label) (val : E -> A) (g : label)
  (entries : list E) : forall m0 : gmap string (list A),
  fold_left (fun m e => <[key e := (default [] (m !! key e) ++ [val e])%list]> m) entries m0 !! g
  = match List.map val (List.filter (fun e => String.eqb (key e) g) entries) with
    | [] => m0 !! g
    | members => Some (default [] (m0 !! g) ++ members)%list
    end.
Proof.
  induction entries as [|e entries IH]; intros m0; simpl; [reflexivity|].
  rewrite IH. destruct (String.eqb_spec (key e) g) as [Heq|Hne]; simpl.
  - rewrite Heq, lookup_insert_eq. simpl.
    destruct (List.map val _); simpl; rewrite <- ?app_assoc; reflexivity.
  - rewrite lookup_insert_ne by exact Hne. reflexivity.
Qed.

Lemma groupMap_fold {A : Type} (groups : list label) (g : label)
  (entries : list (nat * A)) (m0 : gmap string (list A)) :
  fold_left (fun groupMap entry =>
               let group := keyOf (groups !! fst entry) in
               <[group := (default [] (groupMap !! group) ++ [snd entry])%list]> groupMap)
            entries m0 !! g
  = match List.map snd (List.filter (fun e => String.eqb (keyOf (groups !! fst e)) g) entries) with
    | [] => m0 !! g
    | members => Some (default [] (m0 !! g) ++ members)%list
    end.
Proof. apply (keyed_fold (fun e => keyOf (groups !! fst e)) snd). Qed.

Lemma members_groupValues {A : Type} (g : label) (values : list A) :
  forall (groups : list label) (offset : nat),
  (offset + length values <= length groups)%nat ->
  List.map snd (List.filter (fun e => String.eqb (keyOf (groups !! fst e)) g)
                            (imap (fun i value => ((offset + i)%nat, value)) values))
  = groupValues values (drop offset groups) g.
Proof.
  induction values as [|v values IH]; intros groups offset Hlen; simpl in *.
  - now destruct (drop offset groups).
  - destruct (groups !! (offset + 0)%nat) as [group|] eqn:Hg.
    2:{ apply lookup_ge_None in Hg. lia. }
    rewrite Nat.add_0_r in Hg.
    rewrite (drop_S _ _ _ Hg). simpl.
    assert (Hrest : List.map snd
              (List.filter (fun e => String.eqb (keyOf (groups !! fst e)) g)
                 (imap (fun i value => ((offset + S i)%nat, value)) values))
              = groupValues values (drop (S offset) groups) g).
    { rewrite <- (IH groups (S offset)) by lia. do 2 f_equal.
      apply imap_ext. intros i x _. f_equal. lia. }
    unfold compose. destruct (String.eqb group g); simpl; now rewrite Hrest.
Qed.

(** The loop of [groupMapOf] stays in the error once it has thrown. *)
Lemma groupMap_thrown {A : Type} (groups : list label) (message : string)
  (entries : list (nat * A)) :
  fold_left (fun (state : outcome (gmap string (list A))) entry =>
               let* groupMap := state in
               let group := keyOf (groups !! fst entry) in
               if JSObject.isInherited group then Err pushIsNotAFunction
               else Ok (<[group := (default [] (groupMap !! group) ++ [snd entry])%list]>
                          groupMap))
            entries (Err message) = Err message.
Proof. induction entries as [|e entries IH]; [reflexivity|exact IH]. Qed.

(** It throws at the first entry whose label is an inherited name, and
    otherwise pushes every value under its label. *)
Lemma groupMap_outcome {A : Type} (groups : list label) (entries : list (nat * A)) :
  forall m0 : gmap string (list A),
  fold_left (fun (state : outcome (gmap string (list A))) entry =>
               let* groupMap := state in
               let group := keyOf (groups !! fst entry) in
               if JSObject.isInherited group then Err pushIsNotAFunction
               else Ok (<[group := (default [] (groupMap !! group) ++ [snd entry])%list]>
                          groupMap))
            entries (Ok m0)
  = if existsb (fun e => JSObject.isInherited (keyOf (groups !! fst e))) entries
    then Err pushIsNotAFunction
    else Ok (fold_left (fun groupMap entry =>
                          let group := keyOf (groups !! fst entry) in
                          <[group := (default [] (groupMap !! group) ++ [snd entry])%list]>
                            groupMap)
                       entries m0).
Proof.
  induction entries as [|e entries IH]; intros m0; [reflexivity|].
  cbn [fold_left existsb bind].
  destruct (JSObject.isInherited (keyOf (groups !! fst e))); cbn [orb].
  - apply groupMap_thrown.
  - apply IH.
Qed.

Lemma labels_of_entries {A : Type} (groups : list label) (values : list A) (e : nat * A) :
  In e (imap (fun i value => (i, value)) values) ->
  groups !! fst e = None \/ exists g, groups !! fst e = Some g /\ In g groups.
Proof.
  intros _. destruct (groups !! fst e) as [g|] eqn:Hg; [right|left; reflexivity].
  exists g. split; [reflexivity|]. apply list_elem_of_In. eapply list_elem_of_lookup_2, Hg.
Qed.

(** With one group label per value, none of them an inherited name,
    [groupMap[g]] is the array of the values of group [g], and is absent
    when there is none. *)
Lemma groupMapOf_lookup {A : Type} (values : list A) (groups : list label) :
  length values = length groups ->
  (forall g, In g groups -> JSObject.isInherited g = false) ->
  exists groupMap,
    groupMapOf values groups = Ok groupMap /\
    forall g, groupMap !! g
              = match groupValues values groups g with
                | [] => None
                | members => Some members
                end.
Proof.
  intros Hlen Hown. unfold groupMapOf. rewrite groupMap_outcome.
  assert (Hnone : existsb (fun e : nat * A => JSObject.isInherited (keyOf (groups !! fst e)))
                          (imap (fun i value => (i, value)) values) = false).
  { apply not_true_is_false. intros Hex.
    apply existsb_exists in Hex as (e & He & Hin).
    destruct (labels_of_entries groups values e He) as [Hg|(g & Hg & Hmem)];
      rewrite Hg in Hin; [discriminate|].
    cbn [keyOf] in Hin. rewrite (Hown g Hmem) in Hin. discriminate. }
  rewrite Hnone. eexists. split; [reflexivity|].
  intros g. rewrite groupMap_fold.
  pose proof (members_groupValues g values groups 0) as H. simpl in H.
  rewrite H by lia. rewrite lookup_empty. reflexivity.
Qed.

(** With one group label per value, a label that is an inherited name
    makes the loop throw. *)
Lemma groupMapOf_inherited {A : Type} (values : list A) (groups : list label) (g : label) :
  length values = length groups -> In g groups -> JSObject.isInherited g = true ->
  groupMapOf values groups = Err pushIsNotAFunction.
Proof.
  intros Hlen Hin Hg. unfold groupMapOf. rewrite groupMap_outcome.
  assert (Hsome : existsb (fun e : nat * A => JSObject.isInherited (keyOf (groups !! fst e)))
                          (imap (fun i value => (i, value)) values) = true).
  { apply list_elem_of_In, list_elem_of_lookup_1 in Hin as (i & Hi).
    assert (Hlt : (i < length values)%nat)
      by (rewrite Hlen; eapply lookup_lt_Some, Hi).
    apply lookup_lt_is_Some_2 in Hlt as (v & Hv).
    apply existsb_exists. exists (i, v). split.
    - apply list_elem_of_In. apply (list_elem_of_lookup_2 _ i).
      rewrite list_lookup_imap, Hv. reflexivity.
    - cbn [fst]. rewrite Hi. exact Hg. }
  rewrite Hsome. reflexivity.
Qed.

(** A label that occurs among the first [length values] labels has a
    value. *)
Lemma groupValues_nonempty {A : Type} (values : list A) : forall (groups : list label) g,
  length values = length groups -> In g groups -> groupValues values groups g <> [].
Proof.
  induction values as [|v values IH]; intros [|g' groups] g Hlen Hin; simpl in *;
    try discriminate; try contradiction.
  destruct (String.eqb_spec g' g) as [_|Hne]; [discriminate|].
  apply IH; [lia|]. destruct Hin; [contradiction|assumption].
Qed.

Lemma set_add_In acc g x : In x (set_add acc g) <-> In x acc \/ x = g.
Proof.
  unfold set_add. destruct (existsb (String.eqb g) acc) eqn:He.
  - apply existsb_exists in He as (y & Hy & Hgy). apply String.eqb_eq in Hgy. subst y.
    split; [now left|]. intros [H| ->]; assumption.
  - rewrite in_app_iff. simpl. intuition.
Qed.

Lemma uniqueGroups_In groups x : In x (uniqueGroups groups) <-> In x groups.
Proof.
  unfold uniqueGroups.
  assert (H : forall acc, In x (fold_left set_add groups acc) <-> In x acc \/ In x groups).
  { induction groups as [|g groups IH]; intros acc; simpl; [tauto|].
    rewrite IH, set_add_In. intuition. }
  rewrite H. simpl. tauto.
Qed.

Lemma set_add_NoDup acc g : List.NoDup acc -> List.NoDup (set_add acc g).
Proof.
  intros Hnd. unfold set_add. destruct (existsb (String.eqb g) acc) eqn:He; [exact Hnd|].
  apply List.NoDup_app; [exact Hnd| |].
  - repeat constructor. intros [].
  - intros x Hx [Hg|[]]. subst x.
    assert (Hex : existsb (String.eqb g) acc = true).
    { apply existsb_exists. exists g. split; [exact Hx|apply String.eqb_refl]. }
    congruence.
Qed.

Lemma uniqueGroups_NoDup groups : List.NoDup (uniqueGroups groups).
Proof.
  unfold uniqueGroups.
  assert (H : forall acc, List.NoDup acc -> List.NoDup (fold_left set_add groups acc)).
  { induction groups as [|g groups IH]; intros acc Hacc; simpl; [exact Hacc|].
    apply IH, set_add_NoDup, Hacc. }
  apply H. constructor.
Qed.

End GroupFacts.

Module ObjectFacts.
Import JSObject.
Local Open Scope string_scope.

Lemma filter_split_perm {A : Type} (p : A -> bool) (l : list A) :
  Permutation (List.filter p l ++ List.filter (fun x => negb (p x)) l) l.
Proof.
  induction l as [|x l IH]; [constructor|].
  cbn [List.filter]. destruct (p x); cbn [negb app].
  - constructor. exact IH.
  - apply Permutation_sym, Permutation_cons_app, Permutation_sym. exact IH.
Qed.

Lemma entries_perm {A : Type} (object : list (string * A)) :
  Permutation (entries object) object.
Proof.
  unfold entries.
  rewrite (stable_sort_perm indexBefore
             (List.filter (fun entry => isArrayIndex (fst entry)) object)).
  apply (filter_split_perm (fun entry => isArrayIndex (fst entry)) object).
Qed.

(** An assignment under a key that the object does not hold adds the
    property at the end. *)
Lemma update_new_key {A : Type} (object : list (string * A)) (key : string) (value : A) :
  ~ In key (List.map fst object) -> update object key value = (object ++ [(key, value)])%list.
Proof.
  induction object as [|[k v] object IH]; intros Hfresh; [reflexivity|].
  cbn [update]. destruct (String.eqb_spec k key) as [->|_].
  - exfalso. apply Hfresh. now left.
  - cbn [app]. f_equal. apply IH. intros Hin. apply Hfresh. now right.
Qed.

Definition notProto {A : Type} (entry : string * A) : bool :=
  negb (String.eqb (fst entry) "__proto__").

(** Assigning distinct keys in turn to an empty object leaves them in
    that order, without [__proto__]. *)
Lemma assign_distinct {A : Type} (properties : list (string * A)) :
  forall object : list (string * A),
    List.NoDup (List.map fst object ++ List.map fst properties) ->
    fold_left (fun object entry => assign object (fst entry) (snd entry)) properties object
    = (object ++ List.filter notProto properties)%list.
Proof.
  induction properties as [|[k v] properties IH]; intros object Hnd.
  - cbn. now rewrite app_nil_r.
  - cbn [fold_left List.filter fst snd]. unfold assign at 2, notProto at 1. cbn [fst].
    cbn [List.map fst] in Hnd.
    assert (Hfresh : ~ In k (List.map fst object)).
    { intros Hin. apply NoDup_remove_2 in Hnd. apply Hnd, in_or_app. now left. }
    assert (Hrest : List.NoDup (List.map fst object ++ List.map fst properties))
      by (apply NoDup_remove_1 in Hnd; exact Hnd).
    destruct (String.eqb k "__proto__"); cbn [negb].
    + apply IH, Hrest.
    + rewrite update_new_key by exact Hfresh. rewrite IH.
      * rewrite <- app_assoc. reflexivity.
      * rewrite List.map_app, <- app_assoc. exact Hnd.
Qed.

(** Without a key that is an array index, [Object.entries] lists the
    properties as they were created. *)
Lemma entries_plain {A : Type} (object : list (string * A)) :
  (forall entry, In entry object -> isArrayIndex (fst entry) = false) ->
  entries object = object.
Proof.
  intros Hplain. unfold entries.
  assert (Hnone : List.filter (fun entry : string * A => isArrayIndex (fst entry)) object = []).
  { induction object as [|e object IH]; [reflexivity|].
    cbn [List.filter]. rewrite (Hplain e) by now left.
    apply IH. intros e' He'. apply Hplain. now right. }
  assert (Hall : List.filter (fun entry : string * A => negb (isArrayIndex (fst entry))) object
                 = object).
  { induction object as [|e object IH]; [reflexivity|].
    cbn [List.filter]. rewrite (Hplain e) by now left. cbn [negb]. f_equal.
    apply IH; [intros e' He'; apply Hplain; now right|].
    cbn [List.filter] in Hnone. rewrite (Hplain e) in Hnone by now left. exact Hnone. }
  rewrite Hnone, Hall. reflexivity.
Qed.

End ObjectFacts.


(** * The Mann-Whitney runner *)

Module MannWhitneyProofs.
Import NumericSummary RankProofs RankTests RankTests.MannWhitney SumFacts.
Local Open Scope Q_scope.

(** The two rank sums are the sums of the ranks of the items of either
    group. *)
Lemma rankSums_fold (f : Item -> Q) (a : list Item) : forall (g : nat -> option Q) s1 s2,
  (forall k x, a !! k = Some x -> exists r, g k = Some r /\ r == f x) ->
  exists R1 R2,
    fold_left (fun sums ranked =>
                 if (group (fst ranked) =? 1)%nat
                 then (plus (fst sums) (snd ranked), snd sums)
                 else (fst sums, plus (snd sums) (snd ranked)))
              (imap (fun i item => (item, g i)) a)
              (Some s1, Some s2) = (Some R1, Some R2) /\
    R1 == s1 + sumQ (List.map f (List.filter (fun x => (group x =? 1)%nat) a)) /\
    R2 == s2 + sumQ (List.map f (List.filter (fun x => negb (group x =? 1)%nat) a)).
Proof.
  induction a as [|x a IH]; intros g s1 s2 Hg; simpl.
  - exists s1, s2. repeat split; ring.
  - destruct (Hg 0%nat x eq_refl) as (r & Hr & Hrf). rewrite Hr.
    destruct (group x =? 1)%nat eqn:Hgx; simpl.
    + destruct (IH (fun i => g (S i)) (s1 + r) s2) as (R1 & R2 & Hfold & H1 & H2).
      { intros k y Hk. apply (Hg (S k) y Hk). }
      exists R1, R2. split; [exact Hfold|]. split; [rewrite H1, Hrf; ring|exact H2].
    + destruct (IH (fun i => g (S i)) s1 (s2 + r)) as (R1 & R2 & Hfold & H1 & H2).
      { intros k y Hk. apply (Hg (S k) y Hk). }
      exists R1, R2. split; [exact Hfold|]. split; [exact H1|rewrite H2, Hrf; ring].
Qed.

Lemma countBelow_app l m v : countBelow (l ++ m) v = (countBelow l v + countBelow m v)%nat.
Proof. unfold countBelow. now rewrite List.filter_app, length_app. Qed.

Lemma countTied_app l m v : countTied (l ++ m) v = (countTied l v + countTied m v)%nat.
Proof. unfold countTied. now rewrite List.filter_app, length_app. Qed.

Lemma midrank_app l m v :
  midrank (l ++ m) v == midrank l v + (ofNat (countBelow m v) + ofNat (countTied m v) / 2).
Proof.
  unfold midrank. rewrite countBelow_app, countTied_app, !ofNat_add. field.
Qed.

Lemma midrank_app_r l m v :
  midrank (l ++ m) v == midrank m v + (ofNat (countBelow l v) + ofNat (countTied l v) / 2).
Proof.
  unfold midrank. rewrite countBelow_app, countTied_app, !ofNat_add. field.
Qed.

(** Every pair of a value of [l] and a value of [m] is won by one side
    or shared. *)
Lemma pairsWon_total (l m : list Q) :
  pairsWon l m + pairsWon m l == ofNat (length l) * ofNat (length m).
Proof.
  assert (Habove : list_sum (List.map (fun x => length (List.filter (fun y => ltb x y) m)) l)
                   = list_sum (List.map (countBelow l) m)).
  { unfold countBelow. apply (double_count (fun y x => ltb x y) l m). }
  assert (Htied : list_sum (List.map (countTied m) l) = list_sum (List.map (countTied l) m)).
  { unfold countTied.
    rewrite (double_count (fun y x => Qeq_bool y x) l m).
    f_equal. apply map_ext. intros y. f_equal. apply filter_ext. intros x.
    destruct (Qeq_bool y x) eqn:H1, (Qeq_bool x y) eqn:H2; auto.
    - apply Qeq_bool_eq in H1. apply Qeq_bool_neq in H2. exfalso. apply H2. now symmetry.
    - apply Qeq_bool_eq in H2. apply Qeq_bool_neq in H1. exfalso. apply H1. now symmetry. }
  assert (Hall : forall s : list Q,
             (list_sum (List.map (countBelow m) s)
              + list_sum (List.map (fun x => length (List.filter (fun y => ltb x y) m)) s)
              + list_sum (List.map (countTied m) s) = length s * length m)%nat).
  { induction s as [|v s IH]; simpl; [reflexivity|].
    pose proof (count_trichotomy m v). lia. }
  specialize (Hall l). rewrite Habove in Hall.
  unfold pairsWon. rewrite !sumQ_map_plus.
  assert (Hhalf : forall a b : list Q,
             sumQ (List.map (fun x => ofNat (countTied b x) / 2) a)
             == ofNat (list_sum (List.map (countTied b) a)) / 2).
  { intros a b. induction a as [|x a IH]; simpl; [reflexivity|].
    rewrite IH, ofNat_add. field. }
  rewrite !Hhalf, <- !ofNat_list_sum, <- Htied, <- ofNat_mul, <- Hall, !ofNat_add.
  field.
Qed.

Lemma pairsWon_nonneg (l m : list Q) : 0 <= pairsWon l m.
Proof.
  unfold pairsWon. induction l as [|x l IH]; [simpl; qlra|].
  assert (H1 : 0 <= ofNat (countBelow m x)) by (apply (ofNat_le 0); lia).
  assert (H2 : 0 <= ofNat (countTied m x)) by (apply (ofNat_le 0); lia).
  change (ofNat 0) with 0 in H1, H2.
  cbn [List.map sumQ fold_right]. unfold sumQ in IH.
  set (b := ofNat (countBelow m x)) in *. set (t := ofNat (countTied m x)) in *.
  set (s := fold_right _ _ _) in *. clearbody b t s.
  assert (Hhalf : t / 2 == t * (1 # 2)) by field. qlra.
Qed.

Definition tagged (g : nat) (values : list Q) : list Item :=
  List.map (fun v => {| value := v; group := g |}) values.

Lemma filter_tagged (p : Item -> bool) g values :
  (forall v, p {| value := v; group := g |} = true) ->
  List.filter p (tagged g values) = tagged g values.
Proof.
  intros Hp. induction values as [|v values IH]; simpl; [reflexivity|].
  now rewrite Hp, IH.
Qed.

Lemma filter_tagged_none (p : Item -> bool) g values :
  (forall v, p {| value := v; group := g |} = false) ->
  List.filter p (tagged g values) = [].
Proof.
  intros Hp. induction values as [|v values IH]; simpl; [reflexivity|].
  now rewrite Hp, IH.
Qed.

Lemma map_value_tagged g values : List.map value (tagged g values) = values.
Proof.
  unfold tagged. rewrite List.map_map. simpl. apply List.map_id.
Qed.

(** The rank sum of one group: the ranks the members would have among
    themselves, plus the pairs they win against the other group. *)
Lemma sum_midrank_app (l m : list Q) :
  sumQ (List.map (midrank (l ++ m)) l)
  == ofNat (length l) * (ofNat (length l) + 1) / 2 + pairsWon l m.
Proof.
  rewrite (sumQ_map_ext _ (fun v => midrank l v
             + (ofNat (countBelow m v) + ofNat (countTied m v) / 2))).
  2:{ intros x _. apply midrank_app. }
  rewrite sumQ_map_plus, sum_midranks. reflexivity.
Qed.

Lemma sum_midrank_app_r (l m : list Q) :
  sumQ (List.map (midrank (l ++ m)) m)
  == ofNat (length m) * (ofNat (length m) + 1) / 2 + pairsWon m l.
Proof.
  rewrite (sumQ_map_ext _ (fun v => midrank m v
             + (ofNat (countBelow l v) + ofNat (countTied l v) / 2))).
  2:{ intros x _. apply midrank_app_r. }
  rewrite sumQ_map_plus, sum_midranks. reflexivity.
Qed.

(** X1. For data with exactly two groups [runMannWhitneyTest] returns a
    result whose rank sums [r1] and [r2] add up to [N (N + 1) / 2]; the
    statistic [r1 - n1 (n1 + 1) / 2] is the number of pairs in which the
    value of the first group is above the value of the second (a tied
    pair counting one half), likewise for the second group; the two add
    up to [n1 n2], and [u] is the smaller of them, between [0] and
    [n1 n2 / 2]. *)
Theorem mann_whitney_u_counts_pairs (Math_sqrt normal_cdf : Q -> Q)
  (values : list Q) (groups : list label) (first second : label) :
  uniqueGroups groups = [first; second] ->
  let group1 := groupValues values groups first in
  let group2 := groupValues values groups second in
  exists result R1 R2 U,
    runMannWhitneyTest Math_sqrt normal_cdf values groups = Ok result /\
    n1 result = length group1 /\ n2 result = length group2 /\
    r1 result = Some R1 /\ r2 result = Some R2 /\ u result = Some U /\
    R1 + R2 == ofNat (length group1 + length group2)
               * (ofNat (length group1 + length group2) + 1) / 2 /\
    R1 - ofNat (length group1) * (ofNat (length group1) + 1) / 2 == pairsWon group1 group2 /\
    R2 - ofNat (length group2) * (ofNat (length group2) + 1) / 2 == pairsWon group2 group1 /\
    pairsWon group1 group2 + pairsWon group2 group1
      == ofNat (length group1) * ofNat (length group2) /\
    U == Math_min (pairsWon group1 group2) (pairsWon group2 group1) /\
    0 <= U /\ U <= ofNat (length group1) * ofNat (length group2) / 2.
Proof.
  intros Hu group1 group2. unfold runMannWhitneyTest. rewrite Hu.
  fold group1 group2. fold (tagged 1 group1) (tagged 2 group2).
  set (allValues := (tagged 1 group1 ++ tagged 2 group2)%list).
  set (sorted := stable_sort (byValue value) allValues).
  set (ranks := pooledRanks value allValues).
  destruct (rankSums_fold (fun x => midrank (List.map value allValues) (value x))
              sorted (fun i => ranks !! i) 0 0) as (R1 & R2 & Hfold & H1 & H2).
  { intros k x Hk. apply (pooledRanks_lookup value allValues k x Hk). }
  unfold rankSums. rewrite Hfold.
  assert (Hvalues : List.map value allValues = (group1 ++ group2)%list).
  { unfold allValues. now rewrite List.map_app, !map_value_tagged. }
  assert (Hsum1 : R1 == ofNat (length group1) * (ofNat (length group1) + 1) / 2
                        + pairsWon group1 group2).
  { rewrite H1, Qplus_0_l.
    rewrite (sumQ_perm _ (List.map (fun x => midrank (List.map value allValues) (value x))
                            (List.filter (fun x => (group x =? 1)%nat) allValues))).
    2:{ apply Permutation_map, filter_perm, stable_sort_perm. }
    unfold allValues at 2. rewrite List.filter_app, filter_tagged, filter_tagged_none by reflexivity.
    rewrite app_nil_r. unfold tagged. rewrite List.map_map. simpl.
    rewrite Hvalues. apply sum_midrank_app. }
  assert (Hsum2 : R2 == ofNat (length group2) * (ofNat (length group2) + 1) / 2
                        + pairsWon group2 group1).
  { rewrite H2, Qplus_0_l.
    rewrite (sumQ_perm _ (List.map (fun x => midrank (List.map value allValues) (value x))
                            (List.filter (fun x => negb (group x =? 1)%nat) allValues))).
    2:{ apply Permutation_map, filter_perm, stable_sort_perm. }
    unfold allValues at 2. rewrite List.filter_app, filter_tagged_none, filter_tagged by reflexivity.
    simpl. unfold tagged. rewrite List.map_map. simpl.
    rewrite Hvalues. apply sum_midrank_app_r. }
  pose proof (pairsWon_total group1 group2) as Htotal.
  pose proof (pairsWon_nonneg group1 group2) as Hpos1.
  pose proof (pairsWon_nonneg group2 group1) as Hpos2.
  set (n1 := ofNat (length group1)) in *. set (n2 := ofNat (length group2)) in *.
  set (p1 := pairsWon group1 group2) in *. set (p2 := pairsWon group2 group1) in *.
  assert (HU : Math_min (R1 - n1 * (n1 + 1) / 2) (R2 - n2 * (n2 + 1) / 2) == Math_min p1 p2).
  { apply Math_min_compat; [rewrite Hsum1|rewrite Hsum2]; ring. }
  cbn [option_map].
  destruct ((20 <? length group1)%nat || (20 <? length group2)%nat);
    (eexists _, R1, R2, _; split; [reflexivity|];
     cbn [MannWhitney.n1 MannWhitney.n2 r1 r2 u];
     do 5 (split; [reflexivity|]));
    fold n1 n2;
    destruct (Math_min_spec p1 p2) as (Hm1 & Hm2 & Hm3);
    repeat split.
  all: try (rewrite Hsum1; ring).
  all: try (rewrite Hsum2; ring).
  all: try exact Htotal.
  all: try exact HU.
  all: try (rewrite HU; destruct Hm3 as [-> | ->]; assumption).
  all: try (rewrite HU; apply Qle_shift_div_l; [reflexivity|]; rewrite <- Htotal;
            clearbody n1 n2 p1 p2; qlra).
  all: rewrite ofNat_add; fold n1 n2; rewrite Hsum1, Hsum2;
    assert (Hp1 : p1 == n1 * n2 - p2) by (rewrite <- Htotal; ring);
    rewrite Hp1; field.
Qed.

Lemma mann_whitney_u_counts_pairs_witness :
  exists result R1 R2 U,
    runMannWhitneyTest (fun x => x) (fun x => x) [3; 1; 2; 2] ["a"; "b"; "a"; "b"]%string
      = Ok result /\
    r1 result = Some R1 /\ r2 result = Some R2 /\ u result = Some U /\
    R1 + R2 == 10 /\ U == 1 # 2.
Proof.
  destruct (mann_whitney_u_counts_pairs (fun x => x) (fun x => x)
              [3; 1; 2; 2] ["a"; "b"; "a"; "b"]%string "a"%string "b"%string eq_refl)
    as (result & R1 & R2 & U & Hrun & _ & _ & Hr1 & Hr2 & Hu & Hsum & _ & _ & _ & HU & _).
  exists result, R1, R2, U.
  split; [exact Hrun|]. split; [exact Hr1|]. split; [exact Hr2|]. split; [exact Hu|].
  split; [rewrite Hsum|rewrite HU]; vm_compute; reflexivity.
Defined.

End MannWhitneyProofs.


(** * The Wilcoxon signed-rank runner *)

Module WilcoxonProofs.
Import NumericSummary RankProofs RankTests RankTests.Wilcoxon SumFacts GroupFacts.
Local Open Scope Q_scope.

(** ** The signed ranks *)

Lemma slot_Some (ranks : list Q) (i : nat) : slot (List.map Some ranks) i = ranks !! i.
Proof.
  unfold slot. rewrite lookup_map. destruct (ranks !! i); reflexivity.
Qed.

Lemma differencesOf_length a : forall b,
  length (differencesOf a b) = Nat.min (length a) (length b).
Proof.
  induction a as [|x a IH]; intros [|y b]; simpl; auto.
Qed.

(** Whatever the signs, [wPlus] and [wMinus] share out the ranks of the
    differences that are not zero. *)
Lemma signedSums_fold (f : Q -> Q) (differences : list Q) :
  forall (g : nat -> option Q) s1 s2,
  (forall k d, differences !! k = Some d -> exists r, g k = Some r /\ r == f d) ->
  exists WP WM,
    fold_left (fun sums item =>
                 if positive (signedRank item)
                 then (plus (fst sums) (rank item), snd sums)
                 else (fst sums, plus (snd sums) (rank item)))
              (List.filter (fun item => negb (Qeq_bool (value item) 0))
                 (imap (fun i d => {| value := d; absValue := Qabs d; rank := g i;
                                      signedRank := option_map (Qmult (Math_sign d)) (g i) |})
                       differences))
              (Some s1, Some s2) = (Some WP, Some WM) /\
    WP + WM == s1 + s2
               + sumQ (List.map f (List.filter (fun d => negb (Qeq_bool d 0)) differences)).
Proof.
  induction differences as [|d differences IH]; intros g s1 s2 Hg.
  - exists s1, s2. split; [reflexivity|]. simpl. ring.
  - destruct (Hg 0%nat d eq_refl) as (r & Hr & Hrf).
    cbn [imap List.filter value]. destruct (Qeq_bool d 0); cbn [negb].
    + apply (IH (fun i => g (S i)) s1 s2). intros k x Hk. apply (Hg (S k) x Hk).
    + cbn [fold_left signedRank rank List.map sumQ fold_right fst snd]. rewrite Hr.
      cbn [option_map plus].
      destruct (positive (Some (Math_sign d * r))).
      * destruct (IH (fun i => g (S i)) (s1 + r) s2) as (WP & WM & Hfold & Hsum).
        { intros k x Hk. apply (Hg (S k) x Hk). }
        exists WP, WM. split; [exact Hfold|].
        rewrite Hsum, Hrf. unfold sumQ. ring.
      * destruct (IH (fun i => g (S i)) s1 (s2 + r)) as (WP & WM & Hfold & Hsum).
        { intros k x Hk. apply (Hg (S k) x Hk). }
        exists WP, WM. split; [exact Hfold|].
        rewrite Hsum, Hrf. unfold sumQ. ring.
Qed.

Lemma signedRanksOf_length (differences : list Q) : forall (mk : nat -> Q -> SignedRank),
  (forall i d, value (mk i d) = d) ->
  length (List.filter (fun item => negb (Qeq_bool (value item) 0)) (imap mk differences))
  = length (List.filter (fun d => negb (Qeq_bool d 0)) differences).
Proof.
  induction differences as [|d differences IH]; intros mk Hmk; [reflexivity|].
  cbn [imap List.filter]. rewrite Hmk.
  destruct (Qeq_bool d 0); cbn [negb length];
    rewrite IH by (intros i x; apply Hmk); reflexivity.
Qed.

(** No absolute difference is below zero, and those tied with zero are
    the zero differences. *)
Lemma countBelow_abs (differences : list Q) : countBelow (List.map Qabs differences) 0 = 0%nat.
Proof.
  unfold countBelow. induction differences as [|d differences IH]; simpl; [reflexivity|].
  destruct (ltb (Qabs d) 0) eqn:H; [|exact IH].
  apply ltb_lt in H. pose proof (Qabs_nonneg d). qlra.
Qed.

Lemma Qabs_zero d : Qeq_bool (Qabs d) 0 = Qeq_bool d 0.
Proof.
  destruct (Qeq_bool d 0) eqn:H.
  - apply Qeq_bool_eq in H. apply Qeq_eq_bool. rewrite H. reflexivity.
  - apply Qeq_bool_neq in H. destruct (Qeq_bool (Qabs d) 0) eqn:H'; [|reflexivity].
    apply Qeq_bool_eq in H'. exfalso. apply H. revert H'.
    apply (Qabs_case d (fun a => a == 0 -> d == 0)); intros; qlra.
Qed.

Lemma countTied_abs (differences : list Q) :
  countTied (List.map Qabs differences) 0
  = length (List.filter (fun d => Qeq_bool d 0) differences).
Proof.
  unfold countTied. rewrite filter_map_length. f_equal.
  apply filter_ext. intros d. apply Qabs_zero.
Qed.

(** The ranks of the zero differences: each is [(zeroes + 1) / 2]. *)
Lemma zero_ranks (differences : list Q) :
  let zeroes := length (List.filter (fun d => Qeq_bool d 0) differences) in
  sumQ (List.map (fun d => midrank (List.map Qabs differences) (Qabs d))
                 (List.filter (fun d => Qeq_bool d 0) differences))
  == ofNat zeroes * (ofNat zeroes + 1) / 2.
Proof.
  intros zeroes.
  rewrite (sumQ_const _ ((ofNat zeroes + 1) / 2)).
  - fold zeroes. field.
  - intros d Hd. apply filter_In in Hd as (_ & Hd). apply Qeq_bool_eq in Hd.
    rewrite (midrank_tied _ (Qabs d) 0) by (rewrite Hd; reflexivity).
    unfold midrank. rewrite countBelow_abs, countTied_abs. fold zeroes.
    change (ofNat 0) with 0. field.
Qed.

(** X2. For data with exactly two groups and one label per value: when
    one of the two labels is a name that an object inherits
    ([constructor], [toString], [__proto__], ...),
    [runWilcoxonSignedRankTest] throws the [TypeError] of a [push] that
    is not a function.  Otherwise it pairs the two groups position by
    position up to the shorter one, drops the zero differences, and
    returns [wPlus] and [wMinus] with
    [wPlus + wMinus = n (n + 1) / 2 - z (z + 1) / 2], where [n] is the
    number of pairs and [z] the number of zero differences: the zero
    differences are ranked with the others before they are dropped.
    [nPairs] is [n - z], [nZeroes] is [z], and [w] is the smaller of
    [wPlus] and [wMinus]. *)
Theorem wilcoxon_signed_rank_sums (Math_sqrt normal_cdf : Q -> Q)
  (values : list Q) (groups : list label) (first second : label) :
  uniqueGroups groups = [first; second] ->
  length values = length groups ->
  (JSObject.isInherited first || JSObject.isInherited second = true ->
   runWilcoxonSignedRankTest Math_sqrt normal_cdf values groups = Err pushIsNotAFunction) /\
  (JSObject.isInherited first = false -> JSObject.isInherited second = false ->
   let differences := differencesOf (groupValues values groups first)
                                    (groupValues values groups second) in
   let n := length differences in
   let zeroes := length (List.filter (fun d => Qeq_bool d 0) differences) in
   exists result WP WM,
     runWilcoxonSignedRankTest Math_sqrt normal_cdf values groups = Ok result /\
     n = Nat.min (length (groupValues values groups first))
                 (length (groupValues values groups second)) /\
     nPairs result = (n - zeroes)%nat /\
     nZeroes result = Z.of_nat zeroes /\
     wPlus result = Some WP /\ wMinus result = Some WM /\
     w result = Some (Math_min WP WM) /\
     WP + WM == ofNat n * (ofNat n + 1) / 2 - ofNat zeroes * (ofNat zeroes + 1) / 2).
Proof.
  intros Hu Hlen.
  assert (Hfirst : In first groups) by (apply uniqueGroups_In; rewrite Hu; now left).
  assert (Hsecond : In second groups) by (apply uniqueGroups_In; rewrite Hu; right; now left).
  split.
  { intros Hinherited. unfold runWilcoxonSignedRankTest. rewrite Hu.
    apply orb_true_iff in Hinherited as [Hg|Hg];
      [rewrite (groupMapOf_inherited values groups first Hlen Hfirst Hg)
      |rewrite (groupMapOf_inherited values groups second Hlen Hsecond Hg)];
      reflexivity. }
  intros Hown1 Hown2 differences n zeroes.
  unfold runWilcoxonSignedRankTest. rewrite Hu.
  destruct (groupMapOf_lookup values groups Hlen) as (groupMap & Hmap & Hlookup).
  { intros g Hg. apply (proj2 (uniqueGroups_In groups g)) in Hg. rewrite Hu in Hg.
    destruct Hg as [<-|[<-|[]]]; assumption. }
  rewrite Hmap. cbn [bind]. rewrite !Hlookup.
  pose proof (groupValues_nonempty values groups first Hlen Hfirst) as Ha.
  pose proof (groupValues_nonempty values groups second Hlen Hsecond) as Hb.
  destruct (groupValues values groups first) as [|a0 a] eqn:Ea; [contradiction|].
  destruct (groupValues values groups second) as [|b0 b] eqn:Eb; [contradiction|].
  fold differences.
  set (absDifferences := List.map Qabs differences).
  destruct (calculateRanks_total absDifferences) as (ranks & Hranks & Hrl & Hmid & Htotal).
  rewrite Hranks. unfold signedRanksOf, signedSums.
  destruct (signedSums_fold (fun d => midrank absDifferences (Qabs d)) differences
              (fun i => slot (List.map Some ranks) i) 0 0) as (WP & WM & Hfold & Hsum).
  { intros k d Hk. rewrite slot_Some.
    apply (Hmid k (Qabs d)). unfold absDifferences. rewrite lookup_map, Hk. reflexivity. }
  rewrite Hfold.
  assert (Hpairs : length (List.filter (fun item => negb (Qeq_bool (value item) 0))
                     (imap (fun i d => {| value := d; absValue := Qabs d;
                                          rank := slot (List.map Some ranks) i;
                                          signedRank := option_map (Qmult (Math_sign d))
                                                          (slot (List.map Some ranks) i) |})
                           differences))
                   = (n - zeroes)%nat).
  { rewrite signedRanksOf_length by reflexivity.
    pose proof (filter_complement_length (fun d => Qeq_bool d 0) differences) as H.
    cbv beta in H. unfold n, zeroes. lia. }
  rewrite Hpairs.
  assert (Hzn : (zeroes <= n)%nat).
  { pose proof (filter_complement_length (fun d => Qeq_bool d 0) differences) as H.
    cbv beta in H. unfold n, zeroes. lia. }
  assert (Hn : n = Nat.min (length (a0 :: a)) (length (b0 :: b))).
  { unfold n, differences. apply differencesOf_length. }
  assert (Hresult : WP + WM == ofNat n * (ofNat n + 1) / 2
                               - ofNat zeroes * (ofNat zeroes + 1) / 2).
  { rewrite Hsum.
    pose proof (sumQ_filter_split (fun d => midrank absDifferences (Qabs d))
                  (fun d => Qeq_bool d 0) differences) as Hsplit.
    pose proof (zero_ranks differences) as Hz. cbv zeta in Hz.
    fold zeroes absDifferences in Hz. cbv beta in Hsplit. rewrite Hz in Hsplit.
    assert (Hall : sumQ (List.map (fun d => midrank absDifferences (Qabs d)) differences)
                   == ofNat n * (ofNat n + 1) / 2).
    { rewrite <- (List.map_map Qabs (midrank absDifferences)). fold absDifferences.
      rewrite sum_midranks. unfold absDifferences. rewrite length_map. reflexivity. }
    rewrite Hall in Hsplit. rewrite Hsplit. ring. }
  destruct (10 <? n - zeroes)%nat;
    (eexists _, WP, WM; split; [reflexivity|];
     cbn [nPairs nZeroes wPlus wMinus w];
     repeat split; try reflexivity; try assumption; try lia).
Qed.

Lemma wilcoxon_signed_rank_sums_witness :
  JSObject.isInherited "a" = false /\ JSObject.isInherited "b" = false /\
  exists result WP WM,
    runWilcoxonSignedRankTest (fun x => x) (fun x => x)
      [5; 1; 4; 1; 4; 6] ["a"; "b"; "a"; "a"; "b"; "b"]%string = Ok result /\
    nPairs result = 2%nat /\ nZeroes result = 1%Z /\
    wPlus result = Some WP /\ wMinus result = Some WM /\ WP + WM == 5.
Proof.
  split; [reflexivity|]. split; [reflexivity|].
  destruct (proj2 (wilcoxon_signed_rank_sums (fun x => x) (fun x => x)
                     [5; 1; 4; 1; 4; 6] ["a"; "b"; "a"; "a"; "b"; "b"]%string
                     "a"%string "b"%string eq_refl eq_refl) eq_refl eq_refl)
    as (result & WP & WM & Hrun & _ & Hpairs & Hzero & Hp & Hm & _ & Hsum).
  exists result, WP, WM.
  split; [exact Hrun|].
  split; [rewrite Hpairs; vm_compute; reflexivity|].
  split; [rewrite Hzero; vm_compute; reflexivity|].
  split; [exact Hp|]. split; [exact Hm|].
  rewrite Hsum. vm_compute. reflexivity.
Defined.

End WilcoxonProofs.


(** * The Kruskal-Wallis runner *)

Module KruskalWallisProofs.
Import NumericSummary RankProofs RankTests RankTests.KruskalWallis SumFacts GroupFacts ObjectFacts.
Local Open Scope Q_scope.

Definition keyOfItem (item : Item) : label := keyOf (group item).

(** The pushes of a list of (group, rank) entries into [groupRanks]. *)
Definition assignAll (entries : list (label * Q)) (groupRanks : gmap string (list Q))
  : gmap string (list Q) :=
  fold_left (fun m e => <[fst e := (default [] (m !! fst e) ++ [snd e])%list]> m)
            entries groupRanks.

(** [groupRanks] has an array for the group of every item. *)
Definition covers (groupRanks : gmap string (list Q)) (items : list Item) : Prop :=
  forall item, In item items -> is_Some (groupRanks !! keyOfItem item).

Lemma covers_insert groupRanks items k l :
  covers groupRanks items -> covers (<[k := l]> groupRanks) items.
Proof.
  intros H item Hin. destruct (decide (k = keyOfItem item)) as [->|Hne].
  - rewrite lookup_insert_eq. eauto.
  - rewrite lookup_insert_ne by exact Hne. now apply H.
Qed.

Lemma pushTies_spec (a : list Item) (r : Q) (i count : nat) : forall j ranks groupRanks,
  (i + j + count <= length a)%nat -> covers groupRanks a ->
  pushTies a r i j count (ranks, groupRanks)
  = Ok ((ranks ++ replicate count r)%list,
        assignAll (List.map (fun item => (keyOfItem item, r)) (take count (drop (i + j) a)))
                  groupRanks)
  /\ covers (assignAll (List.map (fun item => (keyOfItem item, r)) (take count (drop (i + j) a)))
                       groupRanks) a.
Proof.
  induction count as [|count IH]; intros j ranks groupRanks Hlen Hcov.
  - simpl. rewrite app_nil_r. split; [reflexivity|exact Hcov].
  - destruct (a !! (i + j)%nat) as [item|] eqn:Hitem.
    2:{ apply lookup_ge_None in Hitem. lia. }
    cbn [pushTies]. rewrite Hitem. cbn [fst snd].
    destruct (Hcov item) as (l & Hl).
    { apply lookup_In. eauto. }
    fold (keyOfItem item). rewrite Hl.
    destruct (IH (S j) (ranks ++ [r])%list
                (<[keyOfItem item := (l ++ [r])%list]> groupRanks)) as (Hrun & Hcov').
    { lia. } { now apply covers_insert. }
    rewrite Hrun. rewrite (drop_S _ _ _ Hitem). cbn [take List.map].
    replace (i + S j)%nat with (S (i + j)) in * by lia.
    assert (Hstep : forall entries,
               assignAll ((keyOfItem item, r) :: entries) groupRanks
               = assignAll entries (<[keyOfItem item := (l ++ [r])%list]> groupRanks)).
    { intros entries. unfold assignAll. cbn [fold_left fst snd]. now rewrite Hl. }
    rewrite Hstep. split; [|exact Hcov'].
    rewrite <- app_assoc. reflexivity.
Qed.

Lemma pooledRankLoop_prefix {A : Type} (key : A -> Q) (a : list A) fuel :
  forall rank ranks, exists suffix,
    pooledRankLoop key a rank fuel ranks = (ranks ++ suffix)%list.
Proof.
  induction fuel as [|fuel IH]; intros rank ranks; simpl.
  - exists []. now rewrite app_nil_r.
  - destruct (rank <=? length a)%nat.
    + destruct (IH (rank + countTies key a (rank - 1) 1 (length a))%nat
                  (ranks ++ replicate (countTies key a (rank - 1) 1 (length a))
                              (ofNat rank + (ofNat (countTies key a (rank - 1) 1 (length a)) - 1) / 2))%list)
        as (suffix & Hs).
      rewrite Hs, <- app_assoc. eauto.
    + exists []. now rewrite app_nil_r.
Qed.

Lemma combine_app {A B : Type} (l1 l2 : list A) (r1 r2 : list B) :
  length l1 = length r1 ->
  combine (l1 ++ l2) (r1 ++ r2) = (combine l1 r1 ++ combine l2 r2)%list.
Proof.
  revert r1. induction l1 as [|x l1 IH]; intros [|y r1] Hlen; simpl in *;
    try discriminate; [reflexivity|].
  f_equal. apply IH. lia.
Qed.

Lemma combine_replicate {A : Type} (f : A -> label) (l : list A) (r : Q) :
  combine (List.map f l) (replicate (length l) r) = List.map (fun x => (f x, r)) l.
Proof.
  induction l as [|x l IH]; simpl; [reflexivity|]. now rewrite IH.
Qed.

(** The ranking loop fills [ranks] as the loop of Mann-Whitney does, and
    pushes the rank of every item to the array of its group. *)
Lemma kruskal_rankLoop_spec (a : list Item) fuel : forall rank ranks groupRanks,
  (1 <= rank <= length a + 1)%nat -> length ranks = (rank - 1)%nat ->
  covers groupRanks a ->
  rankLoop a rank fuel (ranks, groupRanks)
  = Ok (pooledRankLoop value a rank fuel ranks,
        assignAll (combine (List.map keyOfItem (drop (rank - 1) a))
                           (drop (rank - 1) (pooledRankLoop value a rank fuel ranks)))
                  groupRanks).
Proof.
  induction fuel as [|fuel IH]; intros rank ranks groupRanks Hrank Hlen Hcov.
  - simpl. rewrite (drop_ge ranks) by lia. now rewrite combine_nil.
  - cbn [rankLoop pooledRankLoop].
    destruct (Nat.leb_spec rank (length a)) as [Hle|Hgt].
    2:{ rewrite (drop_ge ranks) by lia. now rewrite combine_nil. }
    set (i := (rank - 1)%nat).
    set (tieCount := countTies value a i 1 (length a)).
    set (r := ofNat rank + (ofNat tieCount - 1) / 2).
    destruct (a !! i) as [current|] eqn:Hcurrent.
    2:{ apply lookup_ge_None in Hcurrent. lia. }
    destruct (countTies_spec value a i current (length a) 1 Hcurrent) as (Htc1 & Htc2 & _).
    { lia. } { lia. } { lia. }
    { intros k x Hk Hx. assert (k = i) by lia. subst k.
      rewrite Hcurrent in Hx. injection Hx as ->. reflexivity. }
    fold tieCount in Htc1, Htc2.
    destruct (pushTies_spec a r i tieCount 0 ranks groupRanks) as (Hpush & Hcov').
    { lia. } { exact Hcov. }
    rewrite Nat.add_0_r in Hpush, Hcov'. rewrite Hpush. cbn [bind].
    rewrite IH; [|lia|rewrite length_app, length_replicate; lia|exact Hcov'].
    f_equal. f_equal.
    destruct (pooledRankLoop_prefix value a fuel (rank + tieCount)
                (ranks ++ replicate tieCount r)%list) as (suffix & Hs).
    rewrite Hs.
    replace (rank + tieCount - 1)%nat with (i + tieCount)%nat by lia.
    assert (Hd1 : drop (i + tieCount) ((ranks ++ replicate tieCount r) ++ suffix) = suffix).
    { rewrite drop_app_length'; [reflexivity|].
      rewrite length_app, length_replicate. lia. }
    assert (Hd2 : drop i ((ranks ++ replicate tieCount r) ++ suffix)
                  = (replicate tieCount r ++ suffix)%list).
    { rewrite <- app_assoc. rewrite drop_app_length'; [reflexivity|lia]. }
    rewrite Hd1, Hd2.
    rewrite <- (take_drop tieCount (drop i a)) at 2.
    rewrite drop_drop, List.map_app.
    assert (Htake : length (take tieCount (drop i a)) = tieCount).
    { rewrite length_take, length_drop. lia. }
    rewrite combine_app by (rewrite length_map, length_replicate; exact Htake).
    pose proof (combine_replicate keyOfItem (take tieCount (drop i a)) r) as Hc.
    rewrite Htake in Hc. rewrite Hc.
    unfold assignAll. rewrite fold_left_app. reflexivity.
Qed.

Lemma emptyGroupRanks_lookup (unique : list label) (g : label) :
  In g unique -> emptyGroupRanks unique !! g = Some [].
Proof.
  unfold emptyGroupRanks.
  assert (H : forall m0 : gmap string (list Q),
             In g unique \/ m0 !! g = Some [] ->
             fold_left (fun groupRanks g => <[g := []]> groupRanks) unique m0 !! g = Some []).
  { induction unique as [|u unique IH]; intros m0 [Hin|Hm0]; simpl in *.
    - contradiction.
    - exact Hm0.
    - apply IH. destruct Hin as [->|Hin]; [right; apply lookup_insert_eq|now left].
    - apply IH. right. destruct (decide (u = g)) as [->|Hne].
      + apply lookup_insert_eq.
      + now rewrite lookup_insert_ne. }
  intros Hin. apply H. now left.
Qed.

(** With one label per value every item carries a label of [groups]. *)
Lemma itemsOf_group (values : list Q) (groups : list label) (item : Item) :
  length values = length groups -> In item (itemsOf values groups) ->
  exists g, group item = Some g /\ In g groups.
Proof.
  intros Hlen Hin. apply lookup_In in Hin as (k & Hk).
  unfold itemsOf in Hk. rewrite list_lookup_imap in Hk.
  destruct (values !! k) as [v|] eqn:Hv; [|discriminate].
  injection Hk as <-. simpl.
  destruct (groups !! k) as [g|] eqn:Hg.
  - exists g. split; [reflexivity|]. apply lookup_In. eauto.
  - apply lookup_lt_Some in Hv. apply lookup_ge_None in Hg. lia.
Qed.

Lemma itemsOf_groupValues (g : label) (values : list Q) :
  forall (groups : list label) (offset : nat),
  (offset + length values <= length groups)%nat ->
  List.map value
    (List.filter (fun item => String.eqb (keyOfItem item) g)
       (imap (fun i v => {| value := v; group := groups !! (offset + i)%nat |}) values))
  = groupValues values (drop offset groups) g.
Proof.
  induction values as [|v values IH]; intros groups offset Hlen; simpl in *.
  - now destruct (drop offset groups).
  - destruct (groups !! (offset + 0)%nat) as [label0|] eqn:Hg.
    2:{ apply lookup_ge_None in Hg. lia. }
    unfold keyOfItem at 1. cbn [group keyOf].
    rewrite Nat.add_0_r in Hg. rewrite (drop_S _ _ _ Hg). simpl.
    assert (Hrest : List.map value
              (List.filter (fun item => String.eqb (keyOfItem item) g)
                 (imap (fun i v => {| value := v; group := groups !! (offset + S i)%nat |}) values))
              = groupValues values (drop (S offset) groups) g).
    { rewrite <- (IH groups (S offset)) by lia. do 2 f_equal.
      apply imap_ext. intros i x _. do 2 f_equal. lia. }
    unfold compose. destruct (String.eqb label0 g); simpl; now rewrite Hrest.
Qed.

Lemma itemsOf_values (values : list Q) (groups : list label) :
  List.map value (itemsOf values groups) = values.
Proof.
  unfold itemsOf.
  assert (H : forall (f : nat -> option label) (l : list Q),
             List.map value (imap (fun i v => {| value := v; group := f i |}) l) = l).
  { intros f l. revert f. induction l as [|v l IH]; intros f; [reflexivity|].
    simpl. f_equal. apply (IH (fun i => f (S i))). }
  apply (H (fun i => groups !! i)).
Qed.

(** The entries of a group among the pairs of a key and a rank. *)
Lemma filter_combine (p : label -> bool) (f : Item -> Q) (a : list Item) :
  forall R : list Q,
  length R = length a ->
  (forall k x, a !! k = Some x -> exists r, R !! k = Some r /\ r == f x) ->
  sumQ (List.map snd (List.filter (fun e => p (fst e)) (combine (List.map keyOfItem a) R)))
  == sumQ (List.map f (List.filter (fun x => p (keyOfItem x)) a))
  /\ length (List.map snd (List.filter (fun e => p (fst e)) (combine (List.map keyOfItem a) R)))
     = length (List.filter (fun x => p (keyOfItem x)) a).
Proof.
  induction a as [|x a IH]; intros [|r R] Hlen Hr; simpl in *; try discriminate.
  - split; reflexivity.
  - destruct (IH R) as (Hsum & Hcount).
    { lia. } { intros k y Hk. apply (Hr (S k) y Hk). }
    destruct (Hr 0%nat x eq_refl) as (r' & Hr' & Hrf). injection Hr' as <-.
    destruct (p (keyOfItem x)); simpl.
    + split; [rewrite Hsum, Hrf; reflexivity|now rewrite Hcount].
    + split; assumption.
Qed.

Lemma kruskal_groupStatsOf_spec (groupRanks : gmap string (list Q)) (members : label -> list Q)
  (unique : list label) :
  (forall g, In g unique -> groupRanks !! g = Some (members g)) ->
  groupStatsOf unique groupRanks
  = Ok (List.map (fun g => (g, statsOf (members g))) unique).
Proof.
  induction unique as [|g unique IH]; intros H; simpl; [reflexivity|].
  rewrite (H g) by now left. rewrite IH by (intros g' Hg'; apply H; now right).
  reflexivity.
Qed.

(** ** Every value belongs to exactly one group *)

Lemma indicator_sum (unique : list label) (k : label) (c : Q) :
  List.NoDup unique -> In k unique ->
  sumQ (List.map (fun g => if String.eqb k g then c else 0) unique) == c.
Proof.
  induction 1 as [|u unique Hnotin Hnd IH]; intros Hin; simpl in *; [contradiction|].
  destruct (String.eqb_spec k u) as [->|Hne].
  - rewrite (sumQ_map_ext _ (fun _ => 0)).
    + rewrite (sumQ_const _ 0) by reflexivity. ring.
    + intros g Hg. destruct (String.eqb_spec u g) as [->|_]; [contradiction|reflexivity].
  - destruct Hin as [->|Hin]; [contradiction|]. unfold sumQ in IH. rewrite IH by exact Hin. ring.
Qed.

Lemma partition_sum (f : Q -> Q) (unique : list label) (Hnd : List.NoDup unique)
  (values : list Q) : forall groups : list label,
  length values = length groups -> (forall g, In g groups -> In g unique) ->
  sumQ (List.map (fun g => sumQ (List.map f (groupValues values groups g))) unique)
  == sumQ (List.map f values).
Proof.
  induction values as [|v values IH]; intros [|g0 groups] Hlen Hin; simpl in *;
    try discriminate.
  - rewrite (sumQ_const _ 0) by reflexivity. ring.
  - rewrite (sumQ_map_ext _ (fun g => (if String.eqb g0 g then f v else 0)
                                      + sumQ (List.map f (groupValues values groups g)))).
    2:{ intros g _. destruct (String.eqb g0 g); simpl; unfold sumQ; ring. }
    rewrite sumQ_map_plus, indicator_sum by auto.
    unfold sumQ in *. rewrite IH; [reflexivity|lia|auto].
Qed.

Lemma indicator_count (unique : list label) (k : label) :
  List.NoDup unique -> In k unique ->
  list_sum (List.map (fun g => if String.eqb k g then 1%nat else 0%nat) unique) = 1%nat.
Proof.
  induction 1 as [|u unique Hnotin Hnd IH]; intros Hin; simpl in *; [contradiction|].
  destruct (String.eqb_spec k u) as [->|Hne].
  - assert (Hzero : forall l : list label, ~ In u l ->
               list_sum (List.map (fun g => if String.eqb u g then 1%nat else 0%nat) l) = 0%nat).
    { induction l as [|g l IHl]; intros Hl; simpl; [reflexivity|].
      destruct (String.eqb_spec u g) as [->|_]; [exfalso; apply Hl; now left|].
      apply IHl. intros H. apply Hl. now right. }
    now rewrite Hzero.
  - destruct Hin as [->|Hin]; [contradiction|]. now rewrite IH.
Qed.

Lemma list_sum_map_plus {A : Type} (f g : A -> nat) (l : list A) :
  list_sum (List.map (fun x => (f x + g x)%nat) l)
  = (list_sum (List.map f l) + list_sum (List.map g l))%nat.
Proof.
  induction l as [|x l IH]; simpl; [reflexivity|]. rewrite IH. lia.
Qed.

Lemma partition_length (unique : list label) (Hnd : List.NoDup unique)
  (values : list Q) : forall groups : list label,
  length values = length groups -> (forall g, In g groups -> In g unique) ->
  list_sum (List.map (fun g => length (groupValues values groups g)) unique) = length values.
Proof.
  induction values as [|v values IH]; intros [|g0 groups] Hlen Hin; simpl in *;
    try discriminate.
  - assert (Hzero : forall l : list label, list_sum (List.map (fun _ => 0%nat) l) = 0%nat)
      by (induction l; simpl; auto).
    apply Hzero.
  - rewrite (map_ext _ (fun g => ((if String.eqb g0 g then 1 else 0)
                                  + length (groupValues values groups g))%nat)).
    2:{ intros g. destruct (String.eqb g0 g); reflexivity. }
    rewrite list_sum_map_plus, indicator_count by auto.
    rewrite IH; [reflexivity|lia|auto].
Qed.

(** ** The statistic is not negative *)

Lemma fold_sum_nat {A : Type} (f : A -> nat) (l : list A) : forall acc,
  fold_left (fun t e => (t + f e)%nat) l acc = (acc + list_sum (List.map f l))%nat.
Proof.
  induction l as [|x l IH]; intros acc; simpl; [lia|].
  rewrite IH. lia.
Qed.

(** X3. For data with one label per value and at least three groups
    [runKruskalWallisTest] returns a result, computed from one entry of
    statistics per group, in the order of first occurrence of the
    groups: every group has its size as [n] (at least 1) and as
    [sumRanks] the sum of the midranks its values have in the whole
    sample; the rank sums add up to [N (N + 1) / 2] with
    [N = values.length], which is also [statistics.n]; [df] is the
    number of groups minus one; and [h] is the statistic computed from
    the rank sums when the correction for ties is 0.  The [groupStats]
    of the result is the object filled with these entries, read by
    [Object.entries]: the group [__proto__] is missing from it, the
    groups whose label is an array index come first, in ascending
    order, and when no label is of either kind the entries are those of
    the groups in their order of first occurrence. *)
Theorem kruskal_wallis_rank_sums (chisquare_cdf : Q -> Z -> Q)
  (values : list Q) (groups : list label) :
  length values = length groups ->
  (3 <= length (uniqueGroups groups))%nat ->
  exists result stats,
    runKruskalWallisTest chisquare_cdf values groups = Ok result /\
    List.map fst stats = uniqueGroups groups /\
    groupStats result = JSObject.entries (List.filter notProto stats) /\
    Permutation (groupStats result) (List.filter notProto stats) /\
    ((forall g, In g groups -> g <> "__proto__"%string /\ JSObject.isArrayIndex g = false) ->
     groupStats result = stats) /\
    total result = length values /\
    df result = (Z.of_nat (length (uniqueGroups groups)) - 1)%Z /\
    (forall g s, In (g, s) stats ->
       n s = length (groupValues values groups g) /\ (1 <= n s)%nat /\
       sumRanks s == sumQ (List.map (midrank values) (groupValues values groups g))) /\
    sumQ (List.map (fun e => sumRanks (snd e)) stats)
      == ofNat (length values) * (ofNat (length values) + 1) / 2 /\
    (tieCorrection result == 0 ->
     h result == hStatistic (List.map snd stats) (total result)).
Proof.
  intros Hlen Hthree. unfold runKruskalWallisTest.
  destruct (Nat.ltb_spec (length (uniqueGroups groups)) 3) as [|_]; [lia|].
  set (unique := uniqueGroups groups).
  set (items := itemsOf values groups).
  set (sorted := stable_sort (byValue value) items).
  assert (Hperm : Permutation sorted items) by apply stable_sort_perm.
  assert (Hcov : covers (emptyGroupRanks unique) sorted).
  { intros item Hin. apply (Permutation_in _ Hperm) in Hin.
    destruct (itemsOf_group values groups item Hlen Hin) as (g & Hg & Hing).
    unfold keyOfItem. rewrite Hg. simpl.
    rewrite emptyGroupRanks_lookup; [eauto|]. now apply uniqueGroups_In. }
  rewrite (kruskal_rankLoop_spec sorted (length sorted) 1 [] (emptyGroupRanks unique))
    by (simpl; try lia; exact Hcov).
  cbn [bind snd]. rewrite !drop_0.
  change (pooledRankLoop value sorted 1 (length sorted) []) with (pooledRanks value items).
  set (R := pooledRanks value items).
  set (members := fun g : label =>
         List.map snd (List.filter (fun e => String.eqb (fst e) g)
                                   (combine (List.map keyOfItem sorted) R))).
  assert (Hlookup : forall g, In g unique ->
            assignAll (combine (List.map keyOfItem sorted) R) (emptyGroupRanks unique) !! g
            = Some (members g)).
  { intros g Hg. unfold assignAll. rewrite (keyed_fold fst snd).
    rewrite emptyGroupRanks_lookup by exact Hg. unfold members.
    destruct (List.map snd _); reflexivity. }
  rewrite (kruskal_groupStatsOf_spec _ members unique Hlookup). cbn [bind].
  (* what every group holds *)
  assert (Hgroup : forall g, In g unique ->
            length (members g) = length (groupValues values groups g) /\
            (1 <= length (members g))%nat /\
            sumQ (members g) == sumQ (List.map (midrank values) (groupValues values groups g))).
  { intros g Hg.
    destruct (filter_combine (fun k => String.eqb k g) (fun x => midrank values (value x))
                sorted R) as (Hsum & Hcount).
    { unfold R, sorted. now rewrite pooledRanks_length, stable_sort_length. }
    { intros k x Hk. destruct (pooledRanks_lookup value items k x Hk) as (r & Hr & Hrm).
      exists r. split; [exact Hr|]. rewrite Hrm. unfold items. now rewrite itemsOf_values. }
    unfold members. cbv beta in Hsum, Hcount.
    pose proof (itemsOf_groupValues g values groups 0) as Hgv. simpl in Hgv.
    rewrite drop_0 in Hgv. specialize (Hgv ltac:(lia)). fold (itemsOf values groups) in Hgv.
    fold items in Hgv.
    assert (Hn : length (List.map snd (List.filter (fun e => String.eqb (fst e) g)
                                         (combine (List.map keyOfItem sorted) R)))
                 = length (groupValues values groups g)).
    { etransitivity; [exact Hcount|].
      rewrite <- Hgv, length_map. apply filter_length_perm, Hperm. }
    split; [exact Hn|]. split.
    - rewrite Hn. apply (proj1 (uniqueGroups_In groups g)) in Hg.
      pose proof (groupValues_nonempty values groups g Hlen Hg) as Hne.
      destruct (groupValues values groups g); [contradiction|simpl; lia].
    - etransitivity; [exact Hsum|].
      rewrite <- Hgv, List.map_map. apply sumQ_perm, Permutation_map, filter_perm, Hperm. }
  set (groupStats := List.map (fun g => (g, statsOf (members g))) unique).
  assert (Hnd : List.NoDup unique) by apply uniqueGroups_NoDup.
  assert (Hin : forall g, In g groups -> In g unique) by (intros g; apply uniqueGroups_In).
  assert (Htotal : fold_left (fun totalN entry => (totalN + n (snd entry))%nat) groupStats 0%nat
                   = length values).
  { rewrite fold_sum_nat. simpl. unfold groupStats. rewrite List.map_map. simpl.
    rewrite <- (partition_length unique Hnd values groups Hlen Hin).
    f_equal. apply List.map_ext_in. intros g Hg. now destruct (Hgroup g Hg). }
  assert (Hsums : sumQ (List.map (fun e => sumRanks (snd e)) groupStats)
                  == ofNat (length values) * (ofNat (length values) + 1) / 2).
  { unfold groupStats. rewrite List.map_map. simpl.
    rewrite (sumQ_map_ext _ (fun g => sumQ (List.map (midrank values)
                                                     (groupValues values groups g)))).
    2:{ intros g Hg. now destruct (Hgroup g Hg) as (_ & _ & H). }
    rewrite (partition_sum (midrank values) unique Hnd values groups Hlen Hin).
    apply sum_midranks. }
  assert (Hsize : (3 <= length values)%nat).
  { rewrite Hlen. etransitivity; [exact Hthree|].
    apply NoDup_incl_length; [exact Hnd|]. intros g Hg. now apply uniqueGroups_In. }
  rewrite Htotal.
  assert (Hkeys : List.map fst groupStats = unique)
    by (unfold groupStats; rewrite List.map_map; apply List.map_id).
  assert (Hobject : JSObject.assigned groupStats = List.filter notProto groupStats).
  { unfold JSObject.assigned. rewrite (assign_distinct groupStats []).
    - reflexivity.
    - change (List.NoDup (List.map fst groupStats)). rewrite Hkeys. exact Hnd. }
  eexists. exists groupStats. split; [reflexivity|].
  cbn [KruskalWallis.groupStats total df tieCorrection h].
  rewrite Hobject.
  split; [exact Hkeys|]. split; [reflexivity|]. split; [apply entries_perm|].
  split.
  { intros Hplain.
    assert (Hall : List.filter notProto groupStats = groupStats).
    { apply forallb_filter_id, forallb_forall. intros [g s] Hgs. unfold notProto. cbn [fst].
      assert (Hg : In g unique) by (rewrite <- Hkeys; apply in_map_iff; exists (g, s); auto).
      apply (proj1 (uniqueGroups_In groups g)) in Hg.
      destruct (String.eqb_spec g "__proto__") as [Heq|_]; [|reflexivity].
      destruct (Hplain g Hg) as (Hne & _). contradiction. }
    rewrite Hall. apply entries_plain. intros [g s] Hgs. cbn [fst].
    assert (Hg : In g unique) by (rewrite <- Hkeys; apply in_map_iff; exists (g, s); auto).
    apply (proj1 (uniqueGroups_In groups g)) in Hg. apply (Hplain g Hg). }
  split; [reflexivity|]. split; [reflexivity|]. split.
  { intros g s Hgs. unfold groupStats in Hgs. apply in_map_iff in Hgs as (g' & Heq & Hg').
    injection Heq as <- <-. destruct (Hgroup g' Hg') as (H1 & H2 & H3).
    cbn [statsOf n sumRanks]. repeat split; assumption. }
  split; [exact Hsums|].
  intros Htc.
  destruct (ltb 0 (calculateTieCorrection (List.map value sorted))) eqn:Hpos; [|reflexivity].
  apply ltb_lt in Hpos. qlra.
Qed.

Lemma kruskal_wallis_rank_sums_witness :
  exists result stats,
    runKruskalWallisTest (fun x _ => x) [1; 5; 3; 2; 4; 6]
      ["a"; "b"; "c"; "a"; "b"; "c"]%string = Ok result /\
    List.map fst stats = ["a"; "b"; "c"]%string /\
    total result = 6%nat /\
    sumQ (List.map (fun e => sumRanks (snd e)) stats) == 21.
Proof.
  destruct (kruskal_wallis_rank_sums (fun x _ => x) [1; 5; 3; 2; 4; 6]
              ["a"; "b"; "c"; "a"; "b"; "c"]%string eq_refl)
    as (result & stats & Hrun & Hkeys & _ & _ & _ & Htotal & _ & _ & Hsum & _).
  { vm_compute. lia. }
  exists result, stats. split; [exact Hrun|]. split; [exact Hkeys|].
  split; [exact Htotal|]. rewrite Hsum. vm_compute. reflexivity.
Defined.

End KruskalWallisProofs.


(** * One-way ANOVA on the two execution paths *)

Module AnovaProofs.
Import TTest TTestProofs ParametricTests GroupFacts.
Import RankProofs (lookup_In).
Local Open Scope R_scope.

Lemma fold_sumR {A : Type} (f : A -> R) (l : list A) : forall acc,
  fold_left (fun sum x => sum + f x) l acc = acc + sumR (List.map f l).
Proof.
  induction l as [|x l IH]; intros acc; simpl; [ring|].
  rewrite IH. unfold sumR. ring.
Qed.

Lemma sumR_app (l m : list R) : sumR (l ++ m) = sumR l + sumR m.
Proof.
  induction l as [|x l IH]; simpl; [ring|]. rewrite IH. ring.
Qed.

Lemma sumR_map_ext {A : Type} (f g : A -> R) (l : list A) :
  (forall x, In x l -> f x = g x) -> sumR (List.map f l) = sumR (List.map g l).
Proof.
  intros H. f_equal. apply List.map_ext_in, H.
Qed.

Lemma sumR_map_plus {A : Type} (f g : A -> R) (l : list A) :
  sumR (List.map (fun x => f x + g x) l) = sumR (List.map f l) + sumR (List.map g l).
Proof.
  induction l as [|x l IH]; simpl; [ring|]. rewrite IH. ring.
Qed.

Lemma sumR_zero {A : Type} (l : list A) : sumR (List.map (fun _ => 0) l) = 0.
Proof.
  induction l as [|x l IH]; simpl; [reflexivity|]. rewrite IH. ring.
Qed.

Lemma sumR_nonneg (l : list R) : (forall x, In x l -> 0 <= x) -> 0 <= sumR l.
Proof.
  induction l as [|x l IH]; intros H; simpl; [rlra|].
  assert (0 <= x) by (apply H; now left).
  assert (0 <= sumR l) by (apply IH; intros y Hy; apply H; now right).
  unfold sumR in *. rlra.
Qed.

(** ** Every value belongs to exactly one group *)

Lemma indicatorR (unique : list label) (k : label) (c : R) :
  List.NoDup unique -> In k unique ->
  sumR (List.map (fun g => if String.eqb k g then c else 0) unique) = c.
Proof.
  induction 1 as [|u unique Hnotin Hnd IH]; intros Hin; simpl in *; [contradiction|].
  destruct (String.eqb_spec k u) as [->|Hne].
  - rewrite (sumR_map_ext _ (fun _ => 0)).
    + fold (sumR (List.map (fun _ : label => 0) unique)). rewrite sumR_zero. ring.
    + intros g Hg. destruct (String.eqb_spec u g) as [->|_]; [contradiction|reflexivity].
  - destruct Hin as [->|Hin]; [contradiction|].
    fold (sumR (List.map (fun g => if String.eqb k g then c else 0) unique)).
    rewrite IH by exact Hin. ring.
Qed.

(** A sum over the values, each with its label, is the sum over the
    groups of the sums over their values. *)
Lemma partitionR (F : label -> R -> R) (unique : list label) (Hnd : List.NoDup unique)
  (values : list R) : forall groups : list label,
  length values = length groups -> (forall g, In g groups -> In g unique) ->
  sumR (List.map (fun g => sumR (List.map (F g) (groupValues values groups g))) unique)
  = sumR (List.map (fun entry => F (snd entry) (fst entry)) (combine values groups)).
Proof.
  induction values as [|v values IH]; intros [|g0 groups] Hlen Hin; simpl in *;
    try discriminate.
  - apply sumR_zero.
  - rewrite (sumR_map_ext _ (fun g => (if String.eqb g0 g then F g0 v else 0)
                                      + sumR (List.map (F g) (groupValues values groups g)))).
    2:{ intros g _. destruct (String.eqb_spec g0 g) as [->|_]; simpl; unfold sumR; ring. }
    rewrite sumR_map_plus, indicatorR by auto.
    unfold sumR in *. rewrite IH; [reflexivity|lia|auto].
Qed.

Lemma partition_count (unique : list label) (Hnd : List.NoDup unique)
  (values : list R) : forall groups : list label,
  length values = length groups -> (forall g, In g groups -> In g unique) ->
  sumR (List.map (fun g => lengthR (groupValues values groups g)) unique) = lengthR values.
Proof.
  intros groups Hlen Hin.
  assert (Hone : forall l : list R, sumR (List.map (fun _ => 1) l) = lengthR l).
  { unfold lengthR. induction l as [|x l IHl]; [reflexivity|].
    cbn [List.map sumR fold_right length]. rewrite S_INR. unfold sumR in IHl. rewrite IHl. ring. }
  assert (Hone' : forall {B : Type} (l : list B), sumR (List.map (fun _ => 1) l) = lengthR l).
  { unfold lengthR. induction l as [|x l IHl]; [reflexivity|].
    cbn [List.map sumR fold_right length]. rewrite S_INR. unfold sumR in IHl. rewrite IHl. ring. }
  rewrite <- (Hone values).
  rewrite (sumR_map_ext _ (fun g => sumR (List.map (fun _ => 1) (groupValues values groups g))))
    by (intros g _; now rewrite Hone).
  rewrite (partitionR (fun _ _ => 1) unique Hnd values groups Hlen Hin).
  rewrite !Hone'. unfold lengthR. now rewrite length_combine, <- Hlen, Nat.min_id.
Qed.

Lemma sum_combine_fst {B : Type} (f : R -> R) (values : list R) : forall groups : list B,
  length values = length groups ->
  sumR (List.map (fun entry => f (fst entry)) (combine values groups))
  = sumR (List.map f values).
Proof.
  induction values as [|v values IH]; intros [|g groups] Hlen; simpl in *;
    try discriminate; [reflexivity|].
  unfold sumR in *. rewrite (IH groups) by lia. reflexivity.
Qed.

(** ** The squares about the group mean and about the overall mean *)

Lemma sum_squares_about (c : R) (l : list R) :
  sumR (List.map (fun v => (v - c) ^ 2) l)
  = sumR (List.map (fun v => v ^ 2) l) - 2 * c * sumR l + lengthR l * c ^ 2.
Proof.
  unfold lengthR. induction l as [|v l IH].
  - simpl. ring.
  - cbn [List.map sumR fold_right length]. rewrite S_INR.
    unfold sumR in IH. rewrite IH. ring.
Qed.

Lemma group_decomposition (m : R) (G : list R) :
  G <> [] ->
  sumR (List.map (fun v => (v - m) ^ 2) G)
  = sumR (List.map (fun v => (v - sumR G / lengthR G) ^ 2) G)
    + lengthR G * (sumR G / lengthR G - m) ^ 2.
Proof.
  intros Hne. rewrite !sum_squares_about.
  assert (Hn : lengthR G <> 0).
  { unfold lengthR. destruct G; [congruence|]. apply not_0_INR. simpl. lia. }
  field. exact Hn.
Qed.

(** ** The direct path *)

(** The statistics the loop stores for a group. *)
Definition statsFor (values : list R) (groups : list label) (g : label) : Anova.GroupStats :=
  let G := groupValues values groups g in
  {| Anova.n := length G; Anova.mean := sumR G / lengthR G;
     Anova.std := sqrt (variance G); Anova.values := G |}.

Lemma anova_groupStatsOf_spec (values : list R) (groups unique : list label) :
  (forall g, In g unique -> groupValues values groups g <> []) ->
  Anova.groupStatsOf values groups unique
  = Ok (List.map (fun g => (g, statsFor values groups g)) unique).
Proof.
  induction unique as [|g unique IH]; intros Hne; [reflexivity|].
  cbn [Anova.groupStatsOf List.map].
  rewrite (ss_mean_nonempty _ (Hne g ltac:(now left))),
    (ss_standardDeviation_nonempty _ (Hne g ltac:(now left))).
  cbn [bind]. rewrite IH by (intros g' Hg'; apply Hne; now right). reflexivity.
Qed.

Lemma lookupKey_map {A : Type} (mk : label -> A) (unique : list label) (g : label) :
  In g unique -> lookupKey (List.map (fun g => (g, mk g)) unique) g = Some (mk g).
Proof.
  unfold lookupKey. induction unique as [|u unique IH]; intros Hin; [contradiction|].
  cbn [List.map List.find fst]. destruct (String.eqb_spec u g) as [->|Hne]; [reflexivity|].
  apply IH. destruct Hin; [contradiction|assumption].
Qed.

Lemma sumsOfSquares_spec (stats : list (label * Anova.GroupStats)) (mu : label -> R)
  (overallMean : R) (values : list R) :
  forall (groups : list label) (offset : nat) (acc1 acc2 : R),
  (offset + length values <= length groups)%nat ->
  (forall g, In g groups -> exists s, lookupKey stats g = Some s /\ Anova.mean s = mu g) ->
  fold_left (fun sums entry =>
               let* sums := sums in
               match lookupKey stats (RankTests.keyOf (groups !! fst entry)) with
               | Some s =>
                   Ok (fst sums + (snd entry - Anova.mean s) ^ 2,
                       snd sums + (snd entry - overallMean) ^ 2)
               | None => Err "Cannot read properties of undefined (reading 'mean')"
               end)
            (imap (fun i value => ((offset + i)%nat, value)) values) (Ok (acc1, acc2))
  = Ok (acc1 + sumR (List.map (fun entry => (fst entry - mu (snd entry)) ^ 2)
                              (combine values (drop offset groups))),
        acc2 + sumR (List.map (fun entry => (fst entry - overallMean) ^ 2)
                              (combine values (drop offset groups)))).
Proof.
  induction values as [|v values IH]; intros groups offset acc1 acc2 Hlen Hstats.
  - simpl. f_equal. f_equal; ring.
  - cbn [imap fold_left fst snd bind length] in *.
    destruct (groups !! (offset + 0)%nat) as [g|] eqn:Hg.
    2:{ apply lookup_ge_None in Hg. lia. }
    rewrite Nat.add_0_r in Hg.
    destruct (Hstats g) as (s & Hs & Hmean). { apply lookup_In. eauto. }
    cbn [RankTests.keyOf]. rewrite Hs, Hmean.
    rewrite (drop_S _ _ _ Hg). cbn [combine List.map sumR fold_right fst snd].
    assert (Hshift : imap ((fun i value => ((offset + i)%nat, value)) ∘ S) values
                     = imap (fun i value => ((S offset + i)%nat, value)) values).
    { apply imap_ext. intros i x _. simpl. f_equal. lia. }
    rewrite Hshift, (IH groups (S offset)) by (try lia; exact Hstats).
    unfold sumR. f_equal. f_equal; ring.
Qed.

(** The three sums of squares, in terms of the data. *)
Definition betweenOf (values : list R) (groups : list label) : R :=
  sumR (List.map (fun g => lengthR (groupValues values groups g)
                           * (sumR (groupValues values groups g)
                              / lengthR (groupValues values groups g)
                              - sumR values / lengthR values) ^ 2)
                 (uniqueGroups groups)).

Definition withinOf (values : list R) (groups : list label) : R :=
  sumR (List.map (fun g => sumR (List.map (fun v => (v - sumR (groupValues values groups g)
                                                         / lengthR (groupValues values groups g)) ^ 2)
                                          (groupValues values groups g)))
                 (uniqueGroups groups)).

Definition totalOf (values : list R) : R :=
  sumR (List.map (fun v => (v - sumR values / lengthR values) ^ 2) values).

Lemma decomposition (values : list R) (groups : list label) :
  length values = length groups ->
  betweenOf values groups + withinOf values groups = totalOf values.
Proof.
  intros Hlen. unfold betweenOf, withinOf, totalOf.
  set (m := sumR values / lengthR values).
  rewrite <- sumR_map_plus.
  rewrite (sumR_map_ext _ (fun g => sumR (List.map (fun v => (v - m) ^ 2)
                                                   (groupValues values groups g)))).
  2:{ intros g Hg. rewrite (group_decomposition m).
      - ring.
      - apply groupValues_nonempty; [exact Hlen|]. now apply uniqueGroups_In. }
  rewrite (partitionR (fun _ v => (v - m) ^ 2) _ (uniqueGroups_NoDup groups) values groups Hlen).
  2:{ intros g. apply uniqueGroups_In. }
  apply (sum_combine_fst (fun v => (v - m) ^ 2)), Hlen.
Qed.

(** With one label per value and at least three groups, the direct
    path computes its sums of squares and then throws in
    [calculateAnovaPower]. *)
Lemma direct_anova_throws centralF_cdf centralF_inv studentt_inv
  (values : list R) (groups : list label) :
  length values = length groups ->
  (3 <= length (uniqueGroups groups))%nat ->
  Anova.runOneWayANOVA centralF_cdf centralF_inv studentt_inv values groups
  = Err Anova.noncentralFIsUndefined.
Proof.
  intros Hlen Hthree. unfold Anova.runOneWayANOVA.
  destruct (Nat.ltb_spec (length (uniqueGroups groups)) 3) as [|_]; [lia|].
  assert (Hne : forall g, In g (uniqueGroups groups) -> groupValues values groups g <> []).
  { intros g Hg. apply groupValues_nonempty; [exact Hlen|]. now apply uniqueGroups_In. }
  rewrite (anova_groupStatsOf_spec values groups _ Hne). cbn [bind].
  assert (Hvalues : values <> []).
  { destruct values; [|discriminate]. destruct groups; [simpl in Hthree; lia|discriminate]. }
  rewrite (ss_mean_nonempty _ Hvalues). cbn [bind].
  set (m := sumR values / lengthR values).
  set (stats := List.map (fun g => (g, statsFor values groups g)) (uniqueGroups groups)).
  pose proof (sumsOfSquares_spec stats
                (fun g => sumR (groupValues values groups g) / lengthR (groupValues values groups g))
                m values groups 0 0 0) as Hsums.
  cbn [Nat.add] in Hsums. rewrite drop_0 in Hsums. unfold Anova.sumsOfSquares.
  rewrite Hsums; [|lia|].
  2:{ intros g Hg. exists (statsFor values groups g). split; [|reflexivity].
      apply lookupKey_map. now apply uniqueGroups_In. }
  reflexivity.
Qed.

Lemma betweenOf_nonneg values groups : 0 <= betweenOf values groups.
Proof.
  unfold betweenOf. apply sumR_nonneg. intros x Hx.
  apply in_map_iff in Hx as (g & <- & _).
  apply Rmult_le_pos; [apply pos_INR|apply pow2_ge_0].
Qed.

Lemma withinOf_nonneg values groups : 0 <= withinOf values groups.
Proof.
  unfold withinOf. apply sumR_nonneg. intros x Hx.
  apply in_map_iff in Hx as (g & <- & _).
  apply sumR_nonneg. intros y Hy. apply in_map_iff in Hy as (v & <- & _).
  apply pow2_ge_0.
Qed.

(** X4. The main-thread [runOneWayANOVA] never returns a result.  Below
    three groups it throws its own error.  With one label per value and
    at least three groups every step up to the p-value succeeds, and the
    call of [calculateAnovaPower] throws: it reads [cdf] on
    [jStat.noncentralF], which the jStat that the module loads does not
    have.  [calculateAnovaPower] throws on every input. *)
Theorem direct_anova_never_returns
  (centralF_cdf centralF_inv : R -> Z -> Z -> R) (studentt_inv : R -> Z -> R)
  (values : list R) (groups : list label) :
  (forall result,
     Anova.runOneWayANOVA centralF_cdf centralF_inv studentt_inv values groups <> Ok result) /\
  ((length (uniqueGroups groups) < 3)%nat ->
   Anova.runOneWayANOVA centralF_cdf centralF_inv studentt_inv values groups
   = Err Anova.needsThreeGroups) /\
  (length values = length groups ->
   (3 <= length (uniqueGroups groups))%nat ->
   Anova.runOneWayANOVA centralF_cdf centralF_inv studentt_inv values groups
   = Err Anova.noncentralFIsUndefined) /\
  (forall f dfBetween dfWithin k,
     Anova.calculateAnovaPower centralF_inv f dfBetween dfWithin k
     = Err Anova.noncentralFIsUndefined).
Proof.
  split; [|split; [|split]].
  - intros result. unfold Anova.runOneWayANOVA.
    destruct (length (uniqueGroups groups) <? 3)%nat; [discriminate|].
    destruct (Anova.groupStatsOf values groups (uniqueGroups groups)) as [groupStats|];
      cbn [bind]; [|discriminate].
    destruct (Direct.ss_mean values) as [overallMean|]; cbn [bind]; [|discriminate].
    destruct (Anova.sumsOfSquares values groups groupStats overallMean) as [sums|];
      cbn [bind]; discriminate.
  - intros Hfew. unfold Anova.runOneWayANOVA.
    destruct (Nat.ltb_spec (length (uniqueGroups groups)) 3) as [_|]; [reflexivity|lia].
  - apply direct_anova_throws.
  - reflexivity.
Qed.

Lemma direct_anova_never_returns_witness :
  length [1; 2; 3; 5; 7; 9] = length ["a"; "a"; "b"; "b"; "c"; "c"]%string /\
  (3 <= length (uniqueGroups ["a"; "a"; "b"; "b"; "c"; "c"]%string))%nat /\
  Anova.runOneWayANOVA (fun x _ _ => x) (fun x _ _ => x) (fun x _ => x)
    [1; 2; 3; 5; 7; 9] ["a"; "a"; "b"; "b"; "c"; "c"]%string
  = Err Anova.noncentralFIsUndefined.
Proof.
  assert (Hthree : (3 <= length (uniqueGroups ["a"; "a"; "b"; "b"; "c"; "c"]%string))%nat)
    by (vm_compute; lia).
  split; [reflexivity|]. split; [exact Hthree|].
  apply (proj1 (proj2 (proj2 (direct_anova_never_returns
                                (fun x _ _ => x) (fun x _ _ => x) (fun x _ => x)
                                [1; 2; 3; 5; 7; 9] ["a"; "a"; "b"; "b"; "c"; "c"]%string)))
               eq_refl Hthree).
Defined.

(** ** The offload path *)

Lemma worker_sumsOfSquares (overallMean : R) (groups : list (list R)) : forall acc1 acc2,
  fold_left (fun sums entry =>
               let group := fst entry in
               let groupMean := snd entry in
               let ssBetween := fst sums + INR (length group) * (groupMean - overallMean) ^ 2 in
               let ssWithin :=
                 fold_left (fun ssWithin value => ssWithin + (value - groupMean) ^ 2)
                           group (snd sums) in
               (ssBetween, ssWithin))
            (combine groups (List.map Worker.mean groups)) (acc1, acc2)
  = (acc1 + sumR (List.map (fun G => lengthR G * (sumR G / lengthR G - overallMean) ^ 2) groups),
     acc2 + sumR (List.map (fun G => sumR (List.map (fun v => (v - sumR G / lengthR G) ^ 2) G))
                           groups)).
Proof.
  induction groups as [|G groups IH]; intros acc1 acc2.
  - simpl. f_equal; ring.
  - cbn [List.map combine fold_left fst snd]. rewrite IH.
    rewrite (fold_sumR (fun value => (value - Worker.mean G) ^ 2)), worker_mean.
    cbn [sumR fold_right]. unfold lengthR, sumR. f_equal; ring.
Qed.

Lemma sumR_concat (groups : list (list R)) :
  sumR (concat groups) = sumR (List.map sumR groups).
Proof.
  induction groups as [|G groups IH]; [reflexivity|].
  cbn [concat List.map]. rewrite sumR_app, IH. reflexivity.
Qed.

Lemma lengthR_concat (groups : list (list R)) :
  lengthR (concat groups) = sumR (List.map lengthR groups).
Proof.
  unfold lengthR. induction groups as [|G groups IH]; [reflexivity|].
  cbn [concat List.map sumR fold_right]. rewrite length_app, plus_INR.
  unfold sumR in IH. rewrite IH. reflexivity.
Qed.

(** The arrays of the groups hold every value once. *)
Lemma groupArrays_total (values : list R) (groups : list label) :
  length values = length groups ->
  let groupArrays := List.map (fun g => groupValues values groups g) (uniqueGroups groups) in
  sumR (concat groupArrays) = sumR values /\
  length (concat groupArrays) = length values.
Proof.
  intros Hlen groupArrays.
  assert (Hin : forall g, In g groups -> In g (uniqueGroups groups))
    by (intros g; apply uniqueGroups_In).
  split.
  - rewrite sumR_concat. unfold groupArrays. rewrite List.map_map.
    rewrite (sumR_map_ext _ (fun g => sumR (List.map (fun v => v) (groupValues values groups g))))
      by (intros g _; now rewrite List.map_id).
    rewrite (partitionR (fun _ v => v) _ (uniqueGroups_NoDup groups) values groups Hlen Hin).
    rewrite (sum_combine_fst (fun v => v) values groups Hlen). now rewrite List.map_id.
  - apply INR_eq. fold (lengthR (concat groupArrays)) (lengthR values).
    rewrite lengthR_concat. unfold groupArrays. rewrite List.map_map.
    apply (partition_count _ (uniqueGroups_NoDup groups) values groups Hlen Hin).
Qed.

Lemma calculateFPValue_values (f : R) (df1 df2 : Z) :
  In (WorkerAnova.calculateFPValue f df1 df2) [0.001; 0.01; 0.05; 0.1; 0.3].
Proof.
  unfold WorkerAnova.calculateFPValue.
  repeat match goal with |- context [Rlt_dec ?x ?y] => destruct (Rlt_dec x y) end;
    simpl; tauto.
Qed.

Lemma keys_of_assigned {A : Type} (mk : label -> A) (unique : list label) :
  List.NoDup unique ->
  List.map fst (JSObject.assigned (List.map (fun g => (g, mk g)) unique))
  = List.filter (fun g => negb (String.eqb g "__proto__")) unique.
Proof.
  intros Hnd. unfold JSObject.assigned. rewrite ObjectFacts.assign_distinct.
  - cbn [app]. clear Hnd. induction unique as [|g unique IH]; [reflexivity|].
    cbn [List.map List.filter]. unfold ObjectFacts.notProto at 1. cbn [fst].
    destruct (String.eqb g "__proto__"); cbn [negb List.map fst]; now rewrite IH.
  - cbn [List.map app]. rewrite List.map_map. cbn [fst]. now rewrite List.map_id.
Qed.

(** X5. For data with one label per value and at least three groups the
    worker's [runOneWayANOVA] returns a result whose sum of squares
    between the groups, [sum n_g (mean_g - mean)^2], and sum of squares
    within the groups add up to the sum of squares of all values about
    the overall mean; neither is negative; the degrees of freedom are
    [k - 1] and [N - k]; the mean squares and [F] are the quotients
    where the divisor is not zero; and the p-value is the step function
    [calculateFPValue] of [F], one of five constants.  The [groupStats]
    of the result has a property for every group but [__proto__]; when
    no label is [__proto__] or an array index, [Object.keys] lists the
    groups in the order of first occurrence. *)
Theorem worker_anova_sums_of_squares (values : list R) (groups : list label) :
  length values = length groups ->
  (3 <= length (uniqueGroups groups))%nat ->
  exists worker,
    WorkerAnova.runOneWayANOVA values groups = Ok worker /\
    WorkerAnova.groups worker = uniqueGroups groups /\
    (forall g, In g (List.map fst (JSObject.entries (WorkerAnova.groupStats worker))) <->
               In g (uniqueGroups groups) /\ g <> "__proto__"%string) /\
    ((forall g, In g groups -> g <> "__proto__"%string /\ JSObject.isArrayIndex g = false) ->
     List.map fst (JSObject.entries (WorkerAnova.groupStats worker)) = uniqueGroups groups) /\
    let statistics := WorkerAnova.statistics worker in
    WorkerAnova.ssBetween statistics = betweenOf values groups /\
    WorkerAnova.ssWithin statistics = withinOf values groups /\
    WorkerAnova.ssBetween statistics + WorkerAnova.ssWithin statistics
    = sumR (List.map (fun v => (v - sumR values / lengthR values) ^ 2) values) /\
    0 <= WorkerAnova.ssBetween statistics /\ 0 <= WorkerAnova.ssWithin statistics /\
    WorkerAnova.dfBetween statistics = (Z.of_nat (length (uniqueGroups groups)) - 1)%Z /\
    WorkerAnova.dfWithin statistics
    = (Z.of_nat (length values) - Z.of_nat (length (uniqueGroups groups)))%Z /\
    WorkerAnova.msBetween statistics
    = WorkerAnova.ssBetween statistics / IZR (WorkerAnova.dfBetween statistics) /\
    (WorkerAnova.dfWithin statistics <> 0%Z ->
     WorkerAnova.msWithin statistics
     = WorkerAnova.ssWithin statistics / IZR (WorkerAnova.dfWithin statistics)) /\
    (WorkerAnova.msWithin statistics <> 0 ->
     WorkerAnova.f statistics
     = WorkerAnova.msBetween statistics / WorkerAnova.msWithin statistics /\
     WorkerAnova.pValue statistics
     = WorkerAnova.calculateFPValue (WorkerAnova.f statistics)
         (WorkerAnova.dfBetween statistics) (WorkerAnova.dfWithin statistics)) /\
    In (WorkerAnova.pValue statistics) [0.001; 0.01; 0.05; 0.1; 0.3].
Proof.
  intros Hlen Hthree. unfold WorkerAnova.runOneWayANOVA.
  destruct (Nat.ltb_spec (length (uniqueGroups groups)) 3) as [|_]; [lia|].
  eexists. split; [reflexivity|].
  cbn [WorkerAnova.groups WorkerAnova.groupStats WorkerAnova.statistics].
  split; [reflexivity|].
  set (object := JSObject.assigned _).
  assert (Hkeys : List.map fst object
                  = List.filter (fun g => negb (String.eqb g "__proto__")) (uniqueGroups groups))
    by apply (keys_of_assigned _ _ (uniqueGroups_NoDup groups)).
  split.
  { intros g.
    assert (Hperm : Permutation (List.map fst (JSObject.entries object)) (List.map fst object))
      by apply Permutation_map, ObjectFacts.entries_perm.
    split.
    - intros Hin. apply (Permutation_in _ Hperm) in Hin. rewrite Hkeys in Hin.
      apply filter_In in Hin as (Hin & Hne). split; [exact Hin|].
      intros ->. discriminate.
    - intros (Hin & Hne). apply (Permutation_in _ (Permutation_sym Hperm)). rewrite Hkeys.
      apply filter_In. split; [exact Hin|].
      destruct (String.eqb_spec g "__proto__"); [contradiction|reflexivity]. }
  split.
  { intros Hplain.
    assert (Hall : List.filter (fun g => negb (String.eqb g "__proto__")) (uniqueGroups groups)
                   = uniqueGroups groups).
    { apply forallb_filter_id, forallb_forall. intros g Hg.
      apply (proj1 (uniqueGroups_In groups g)) in Hg.
      destruct (String.eqb_spec g "__proto__") as [E|_]; [|reflexivity].
      destruct (Hplain g Hg) as (Hne & _). contradiction. }
    rewrite ObjectFacts.entries_plain.
    - rewrite Hkeys. exact Hall.
    - intros [g summary] Hin. cbn [fst].
      assert (Hg : In g (List.map fst object)) by (apply in_map_iff; exists (g, summary); auto).
      rewrite Hkeys, Hall in Hg. apply (proj1 (uniqueGroups_In groups g)) in Hg.
      apply (Hplain g Hg). }
  clear object Hkeys.
  destruct (groupArrays_total values groups Hlen) as (Hsum & Hcount).
  unfold WorkerAnova.anova, WorkerAnova.sumsOfSquares.
  assert (HcountR : lengthR (concat (List.map (fun g => groupValues values groups g)
                                              (uniqueGroups groups))) = lengthR values)
    by (unfold lengthR; now rewrite Hcount).
  rewrite worker_sumsOfSquares, worker_mean.
  rewrite Hsum, Hcount, HcountR, length_map, !Rplus_0_l, !List.map_map.
  cbn [WorkerAnova.ssBetween WorkerAnova.ssWithin WorkerAnova.dfBetween
       WorkerAnova.dfWithin WorkerAnova.msBetween WorkerAnova.msWithin
       WorkerAnova.f WorkerAnova.pValue fst snd].
  fold (lengthR values). fold (betweenOf values groups) (withinOf values groups).
  split; [reflexivity|]. split; [reflexivity|].
  split; [exact (decomposition values groups Hlen)|].
  split; [apply betweenOf_nonneg|]. split; [apply withinOf_nonneg|].
  split; [reflexivity|]. split; [reflexivity|]. split; [reflexivity|].
  split; [intros _; reflexivity|].
  split; [intros _; split; reflexivity|].
  apply calculateFPValue_values.
Qed.

Lemma worker_anova_sums_of_squares_witness :
  exists worker,
    WorkerAnova.runOneWayANOVA [1; 2; 3; 5; 7; 9] ["a"; "a"; "b"; "b"; "c"; "c"]%string
      = Ok worker /\
    WorkerAnova.ssBetween (WorkerAnova.statistics worker)
    + WorkerAnova.ssWithin (WorkerAnova.statistics worker)
    = sumR (List.map (fun v => (v - sumR [1; 2; 3; 5; 7; 9] / lengthR [1; 2; 3; 5; 7; 9]) ^ 2)
                     [1; 2; 3; 5; 7; 9]).
Proof.
  destruct (worker_anova_sums_of_squares
              [1; 2; 3; 5; 7; 9] ["a"; "a"; "b"; "b"; "c"; "c"]%string eq_refl)
    as (worker & Hw & _ & _ & _ & _ & _ & Hsum & _).
  { vm_compute. lia. }
  exists worker. split; assumption.
Defined.

End AnovaProofs.


(** * Correlation on the offload path *)

Module CorrelationProofs.
Import TTest TTestProofs ParametricTests ParametricTests.WorkerCorrelation AnovaProofs.
Local Open Scope R_scope.

(** The three sums of the loop. *)
Lemma correlationSums_fold (meanX meanY : R) (pairs : list (R * R)) : forall a b c,
  fold_left (fun sums pair =>
               let diffX := fst pair - meanX in
               let diffY := snd pair - meanY in
               (fst (fst sums) + diffX * diffY,
                snd (fst sums) + diffX * diffX,
                snd sums + diffY * diffY))
            pairs (a, b, c)
  = (a + sumR (List.map (fun p => (fst p - meanX) * (snd p - meanY)) pairs),
     b + sumR (List.map (fun p => (fst p - meanX) * (fst p - meanX)) pairs),
     c + sumR (List.map (fun p => (snd p - meanY) * (snd p - meanY)) pairs)).
Proof.
  induction pairs as [|p pairs IH]; intros a b c.
  - simpl. f_equal; [f_equal|]; ring.
  - cbn [fold_left List.map sumR fold_right fst snd]. rewrite IH.
    unfold sumR. f_equal; [f_equal|]; ring.
Qed.

Lemma combine_swap_sum (h : R -> R -> R) (x : list R) : forall y : list R,
  sumR (List.map (fun p => h (fst p) (snd p)) (combine x y))
  = sumR (List.map (fun p => h (snd p) (fst p)) (combine y x)).
Proof.
  induction x as [|a x IH]; intros [|b y]; simpl; try reflexivity.
  unfold sumR in *. now rewrite IH.
Qed.

Lemma Reqb_true (a b : R) : Reqb a b = true <-> a = b.
Proof. unfold Reqb. destruct (Req_dec_T a b); split; congruence. Qed.

Lemma Reqb_false (a b : R) : Reqb a b = false <-> a <> b.
Proof. unfold Reqb. destruct (Req_dec_T a b); split; congruence. Qed.

Lemma products_of_deviations (mx my : R) (x : list R) : forall y : list R,
  List.map (fun p => fst p * snd p)
           (combine (List.map (fun v => v - mx) x) (List.map (fun v => v - my) y))
  = List.map (fun p => (fst p - mx) * (snd p - my)) (combine x y).
Proof.
  induction x as [|a x IH]; intros [|b y]; try reflexivity.
  cbn [List.map combine fst snd]. f_equal. apply IH.
Qed.

(** X6. [StatsLib.correlation] throws when the two arrays differ in
    length.  On arrays of the same length it returns a number, the same
    number when the two arrays are exchanged; when neither array has a
    zero sum of squared deviations from its mean, this number is the
    sum of the products of the deviations over the square root of the
    product of the two sums of squares. *)
Theorem correlation_is_symmetric (x y : list R) :
  (length x <> length y -> correlation x y = Err sameLength) /\
  (length x = length y ->
   let deviationsX := List.map (fun v => v - Worker.mean x) x in
   let deviationsY := List.map (fun v => v - Worker.mean y) y in
   let products :=
     sumR (List.map (fun p => fst p * snd p) (combine deviationsX deviationsY)) in
   let squaresX := sumR (List.map (fun d => d * d) deviationsX) in
   let squaresY := sumR (List.map (fun d => d * d) deviationsY) in
   exists r,
     correlation x y = Ok r /\ correlation y x = Ok r /\
     (squaresX <> 0 -> squaresY <> 0 -> r = products / sqrt (squaresX * squaresY))).
Proof.
  split.
  - intros Hne. unfold correlation.
    destruct (Nat.eqb_spec (length x) (length y)); [contradiction|reflexivity].
  - intros Hlen deviationsX deviationsY products squaresX squaresY. unfold correlation.
    rewrite Hlen, Nat.eqb_refl. cbn [negb].
    unfold correlationSums. rewrite !correlationSums_fold, !Rplus_0_l.
    cbn [fst snd].
    set (mx := Worker.mean x). set (my := Worker.mean y).
    set (N := sumR (List.map (fun p => (fst p - mx) * (snd p - my)) (combine x y))).
    set (DX := sumR (List.map (fun p => (fst p - mx) * (fst p - mx)) (combine x y))).
    set (DY := sumR (List.map (fun p => (snd p - my) * (snd p - my)) (combine x y))).
    assert (HN : sumR (List.map (fun p => (fst p - my) * (snd p - mx)) (combine y x)) = N).
    { unfold N. rewrite (combine_swap_sum (fun a b => (a - mx) * (b - my)) x y).
      f_equal. apply List.map_ext. intros p. ring. }
    assert (HDX : sumR (List.map (fun p => (snd p - mx) * (snd p - mx)) (combine y x)) = DX).
    { unfold DX. now rewrite (combine_swap_sum (fun a _ => (a - mx) * (a - mx)) x y). }
    assert (HDY : sumR (List.map (fun p => (fst p - my) * (fst p - my)) (combine y x)) = DY).
    { unfold DY. now rewrite (combine_swap_sum (fun _ b => (b - my) * (b - my)) x y). }
    rewrite HN, HDX, HDY.
    assert (HDXx : squaresX = DX).
    { unfold squaresX, deviationsX, DX. rewrite List.map_map. fold mx.
      symmetry. apply (sum_combine_fst (fun v => (v - mx) * (v - mx)) x y Hlen). }
    assert (HDYy : squaresY = DY).
    { unfold squaresY, deviationsY, DY. rewrite List.map_map. fold my.
      rewrite (combine_swap_sum (fun _ b => (b - my) * (b - my)) x y).
      symmetry. apply (sum_combine_fst (fun v => (v - my) * (v - my)) y x). now symmetry. }
    assert (HNp : products = N).
    { unfold products, deviationsX, deviationsY, N. fold mx my. f_equal.
      apply products_of_deviations. }
    rewrite HDXx, HDYy, HNp.
    destruct (Reqb DX 0) eqn:Ex; cbn [orb].
    + apply Reqb_true in Ex. rewrite orb_true_r. exists 0.
      split; [reflexivity|]. split; [reflexivity|]. intros H0. contradiction.
    + apply Reqb_false in Ex.
      destruct (Reqb DY 0) eqn:Ey; cbn [orb].
      * apply Reqb_true in Ey. exists 0.
        split; [reflexivity|]. split; [reflexivity|]. intros _ H0. contradiction.
      * exists (N / sqrt (DX * DY)). split; [reflexivity|].
        split; [now rewrite (Rmult_comm DY DX)|]. intros _ _. reflexivity.
Qed.

Lemma correlation_is_symmetric_witness :
  length [1; 2; 3] = length [2; 4; 7] /\
  exists r, correlation [1; 2; 3] [2; 4; 7] = Ok r /\ correlation [2; 4; 7] [1; 2; 3] = Ok r.
Proof.
  split; [reflexivity|].
  destruct (proj2 (correlation_is_symmetric [1; 2; 3] [2; 4; 7]) eq_refl)
    as (r & Hxy & Hyx & _).
  exists r. split; assumption.
Defined.

Lemma correlation_total (x y : list R) :
  length x = length y -> exists r, correlation x y = Ok r.
Proof.
  intros Hlen. unfold correlation. rewrite Hlen, Nat.eqb_refl. cbn [negb].
  destruct (_ || _); eexists; reflexivity.
Qed.

(** The pairs kept by the worker are the rows that carry a number in
    both columns, in order. *)
Lemma validPairs_spec (values numericGroups : list (option R)) :
  validPairs values numericGroups
  = omap (fun row => match fst row, snd row with
                     | Some x, Some y => Some (x, y)
                     | _, _ => None
                     end)
         (combine values numericGroups).
Proof.
  revert numericGroups. induction values as [|x values IH]; intros [|y numericGroups];
    try reflexivity.
  cbn [validPairs combine]. rewrite IH.
  destruct x as [x|], y as [y|]; reflexivity.
Qed.

(** X7. The worker's [runPearsonCorrelation] throws when the two
    columns differ in length, and when fewer than three rows carry a
    number in both columns; otherwise it returns a result computed from
    exactly the rows that carry a number in both columns, in order: [n]
    is their count, [df = n - 2], [r] is [StatsLib.correlation] of their
    two columns, [rSquared] is [r * r], and the p-value, read from the
    step table [calculateTPValue], is one of six constants. *)
Theorem worker_pearson_uses_valid_pairs (parseFloat : label -> option R)
  (values : list (option R)) (groups : list label) :
  let pairs := omap (fun row => match fst row, parseFloat (snd row) with
                                | Some x, Some y => Some (x, y)
                                | _, _ => None
                                end)
                    (combine values groups) in
  (length values <> length groups ->
   runPearsonCorrelation parseFloat values groups = Err sameLength) /\
  (length values = length groups -> (length pairs < 3)%nat ->
   runPearsonCorrelation parseFloat values groups = Err needsThreePairs) /\
  (length values = length groups -> (3 <= length pairs)%nat ->
   exists result,
     runPearsonCorrelation parseFloat values groups = Ok result /\
     n result = length pairs /\
     df result = (Z.of_nat (length pairs) - 2)%Z /\
     correlation (List.map fst pairs) (List.map snd pairs) = Ok (r result) /\
     rSquared result = r result * r result /\
     t result = tOf (r result) (n result) /\
     pValue result = pValueOf (t result) (df result) /\
     In (pValue result) [0.0001; 0.001; 0.02; 0.05; 0.15; 0.3]).
Proof.
  intros pairs.
  assert (Hpairs : validPairs values (List.map parseFloat groups) = pairs).
  { rewrite validPairs_spec. unfold pairs. clear.
    revert groups. induction values as [|x values IH]; intros [|g groups]; try reflexivity.
    cbn [List.map combine]. cbn [omap list_omap fst snd]. rewrite <- IH.
    destruct x as [x|]; [|reflexivity]. destruct (parseFloat g); reflexivity. }
  unfold runPearsonCorrelation. rewrite Hpairs.
  split; [|split].
  - intros Hne. destruct (Nat.eqb_spec (length values) (length groups));
      [contradiction|reflexivity].
  - intros Hlen Hfew. rewrite Hlen, Nat.eqb_refl. cbn [negb].
    destruct (Nat.ltb_spec (length pairs) 3); [reflexivity|lia].
  - intros Hlen Hmany. rewrite Hlen, Nat.eqb_refl. cbn [negb].
    destruct (Nat.ltb_spec (length pairs) 3); [lia|].
    destruct (correlation_total (List.map fst pairs) (List.map snd pairs))
      as (r0 & Hr).
    { now rewrite !length_map. }
    rewrite Hr. cbn [bind]. eexists. split; [reflexivity|].
    cbn [n df r rSquared t pValue]. repeat split; try reflexivity.
    assert (Hdf : (Z.of_nat (length pairs) - 2 <=? 0)%Z = false) by (apply Z.leb_gt; lia).
    unfold pValueOf. rewrite Hdf.
    destruct (tOf r0 (length pairs)) as [statistic| | |]; try (simpl; tauto).
    unfold Worker.calculateTPValue. rewrite Hdf.
    repeat (match goal with |- context [Rlt_dec ?x ?y] => destruct (Rlt_dec x y) end;
            [simpl; tauto|]).
    simpl. tauto.
Qed.

Lemma worker_pearson_uses_valid_pairs_witness :
  length [Some 1; Some 2; None; Some 4] = length ["5"; "6"; "7"; "8"]%string /\
  exists result,
    runPearsonCorrelation (fun _ => Some 2) [Some 1; Some 2; None; Some 4]
      ["5"; "6"; "7"; "8"]%string = Ok result /\
    n result = 3%nat /\ df result = 1%Z.
Proof.
  split; [reflexivity|].
  destruct (proj2 (proj2 (worker_pearson_uses_valid_pairs (fun _ => Some 2)
                            [Some 1; Some 2; None; Some 4] ["5"; "6"; "7"; "8"]%string))
              eq_refl)
    as (result & Hrun & Hn & Hdf & _).
  { cbn. lia. }
  exists result. split; [exact Hrun|]. split; [exact Hn|exact Hdf].
Defined.

End CorrelationProofs.


(** * Simple linear regression *)

Module RegressionProofs.
Import TTest TTestProofs ParametricTests ParametricTests.Regression AnovaProofs.
Local Open Scope R_scope.










End RegressionProofs.


(** * Quartiles and the outlier fences *)

Module QuartileProofs.
Import NumericSummary RankProofs PercentileProofs Assumptions SumFacts.
Local Open Scope Q_scope.

Lemma at_index_lookup {A : Type} (l : list A) (z : Z) (x : A) :
  at_index l z = Some x -> (0 <= z)%Z /\ l !! Z.to_nat z = Some x.
Proof.
  unfold at_index. destruct (Z.ltb_spec z 0) as [Hneg|Hpos]; [discriminate|]. intros Hx. split; [lia|exact Hx].
Qed.

Lemma at_index_sorted (sorted : list Q) (a b : Z) (x y : Q) :
  sortedBy (fun x => x) sorted -> (a <= b)%Z ->
  at_index sorted a = Some x -> at_index sorted b = Some y -> x <= y.
Proof.
  intros Hs Hab Ha Hb.
  apply at_index_lookup in Ha as (Ha0 & Ha), Hb as (Hb0 & Hb).
  apply (Hs (Z.to_nat a) (Z.to_nat b) x y); auto. lia.
Qed.

Lemma floor_le_ceiling (t : Q) : (Qfloor t <= Qceiling t)%Z.
Proof.
  pose proof (Qfloor_le t) as H1. pose proof (Qle_ceiling t) as H2.
  assert (H : inject_Z (Qfloor t) <= inject_Z (Qceiling t)) by qlra.
  now rewrite <- Zle_Qle in H.
Qed.

Lemma weight_range (t : Q) : 0 <= t - inject_Z (Qfloor t) /\ t - inject_Z (Qfloor t) < 1.
Proof.
  pose proof (Qfloor_le t) as H1. pose proof (Qlt_floor t) as H2.
  rewrite inject_Z_plus in H2. change (inject_Z 1) with 1 in H2. split; qlra.
Qed.

(** The percentile lies between the two order statistics it is
    interpolated from. *)
Lemma percentile_between (sorted : list Q) (percentile : Q) :
  sortedBy (fun x => x) sorted -> sorted <> [] -> 0 <= percentile <= 100 ->
  let index := percentile / 100 * (ofNat (length sorted) - 1) in
  exists low up r,
    at_index sorted (Qfloor index) = Some low /\
    at_index sorted (Qceiling index) = Some up /\
    calculatePercentile sorted percentile = Some r /\
    r == low * (1 - (index - inject_Z (Qfloor index)))
         + up * (index - inject_Z (Qfloor index)) /\
    low <= r <= up.
Proof.
  intros Hs Hne Hp index.
  destruct (percentile_interpolates sorted percentile Hne Hp) as (low & up & r & Hl & Hu & Hr & He).
  fold index in Hl, Hu, He.
  exists low, up, r. repeat split; auto.
  - pose proof (at_index_sorted sorted _ _ low up Hs (floor_le_ceiling index) Hl Hu) as Hlu.
    destruct (weight_range index) as (Hw0 & Hw1).
    set (w := index - inject_Z (Qfloor index)) in *. clearbody w.
    assert (H : 0 <= (up - low) * w) by (apply Qmult_le_0_compat; qlra).
    rewrite He. assert (Hring : low * (1 - w) + up * w == low + (up - low) * w) by ring. qlra.
  - pose proof (at_index_sorted sorted _ _ low up Hs (floor_le_ceiling index) Hl Hu) as Hlu.
    destruct (weight_range index) as (Hw0 & Hw1).
    set (w := index - inject_Z (Qfloor index)) in *. clearbody w.
    assert (H : 0 <= (up - low) * (1 - w)) by (apply Qmult_le_0_compat; qlra).
    rewrite He. assert (Hring : low * (1 - w) + up * w == up - (up - low) * (1 - w)) by ring.
    qlra.
Qed.

Lemma index_monotone (n : nat) (p p' : Q) :
  (1 <= n)%nat -> p <= p' ->
  p / 100 * (ofNat n - 1) <= p' / 100 * (ofNat n - 1).
Proof.
  intros Hn Hpp.
  assert (Hm : 0 <= ofNat n - 1).
  { pose proof (ofNat_le 1 n Hn) as H. change (ofNat 1) with 1 in H. qlra. }
  apply Qmult_le_compat_r; [|exact Hm].
  apply Qmult_le_compat_r; [exact Hpp|]. discriminate.
Qed.

(** On a sorted array the percentile does not decrease with the rank
    asked for. *)
Lemma percentile_monotone (sorted : list Q) (p p' : Q) :
  sortedBy (fun x => x) sorted -> sorted <> [] -> 0 <= p -> p <= p' -> p' <= 100 ->
  exists r r',
    calculatePercentile sorted p = Some r /\
    calculatePercentile sorted p' = Some r' /\ r <= r'.
Proof.
  intros Hs Hne H0 Hpp H100.
  assert (Hlen : (1 <= length sorted)%nat) by (destruct sorted; simpl; [congruence|lia]).
  destruct (percentile_between sorted p Hs Hne) as (low & up & r & Hl & Hu & Hr & He & Hb);
    [split; qlra|].
  destruct (percentile_between sorted p' Hs Hne) as (low' & up' & r' & Hl' & Hu' & Hr' & He' & Hb');
    [split; qlra|].
  pose proof (index_monotone (length sorted) p p' Hlen Hpp) as Ht.
  set (t := p / 100 * (ofNat (length sorted) - 1)) in *.
  set (t' := p' / 100 * (ofNat (length sorted) - 1)) in *.
  exists r, r'. split; [exact Hr|]. split; [exact Hr'|].
  destruct (Z_le_gt_dec (Qceiling t) (Qfloor t')) as [Hsep|Hsame].
  - pose proof (at_index_sorted sorted _ _ up low' Hs Hsep Hu Hl'). qlra.
  - (* both ranks fall in the same unit interval *)
    pose proof (Qfloor_resp_le _ _ Ht) as Hfl.
    pose proof (Qceiling_resp_le _ _ Ht) as Hcl.
    pose proof (floor_le_ceiling t) as Hfc.
    pose proof (floor_le_ceiling t') as Hfc'.
    assert (Hc1 : (Qceiling t <= Qfloor t + 1)%Z).
    { pose proof (Qceiling_lt t) as H1. pose proof (Qlt_floor t) as H2.
      assert (H : inject_Z (Qceiling t - 1) < inject_Z (Qfloor t + 1))
        by (eapply Qlt_trans; eauto).
      rewrite <- Zlt_Qlt in H. lia. }
    assert (Hc1' : (Qceiling t' <= Qfloor t' + 1)%Z).
    { pose proof (Qceiling_lt t') as H1. pose proof (Qlt_floor t') as H2.
      assert (H : inject_Z (Qceiling t' - 1) < inject_Z (Qfloor t' + 1))
        by (eapply Qlt_trans; eauto).
      rewrite <- Zlt_Qlt in H. lia. }
    assert (Hf : Qfloor t' = Qfloor t) by lia.
    assert (Hc : Qceiling t' = Qceiling t) by lia.
    rewrite Hf in Hl', He'. rewrite Hc in Hu'.
    rewrite Hl in Hl'. injection Hl' as <-. rewrite Hu in Hu'. injection Hu' as <-.
    pose proof (at_index_sorted sorted _ _ low up Hs Hfc Hl Hu) as Hlu.
    assert (H : 0 <= (up - low) * (t' - t)) by (apply Qmult_le_0_compat; qlra).
    rewrite He, He'.
    set (k := inject_Z (Qfloor t)) in *. clearbody k t t'.
    assert (Hring : low * (1 - (t' - k)) + up * (t' - k)
                    == low * (1 - (t - k)) + up * (t - k) + (up - low) * (t' - t)) by ring.
    qlra.
Qed.






End QuartileProofs.


(** * The descriptive statistics of the data validator *)

Module NumericStatsProofs.
Import NumericSummary RankProofs PercentileProofs SumFacts QuartileProofs DataValidator.
Local Open Scope Q_scope.

Lemma fold_total (l : list Q) : forall a, fold_left Qplus l a == a + sumQ l.
Proof.
  induction l as [|x l IH]; intros a; simpl; [ring|].
  rewrite IH. ring.
Qed.

Lemma total_sumQ (l : list Q) : total l == sumQ l.
Proof. unfold total. rewrite fold_total. ring. Qed.

Lemma floor_unique (x : Q) (k : Z) :
  inject_Z k <= x -> x < inject_Z (k + 1) -> Qfloor x = k.
Proof.
  intros H1 H2.
  pose proof (Qfloor_le x) as H3. pose proof (Qlt_floor x) as H4.
  assert (Ha : inject_Z k < inject_Z (Qfloor x + 1)) by (eapply Qle_lt_trans; eauto).
  assert (Hb : inject_Z (Qfloor x) < inject_Z (k + 1)) by (eapply Qle_lt_trans; eauto).
  rewrite <- Zlt_Qlt in Ha, Hb. lia.
Qed.

Lemma ceiling_unique (x : Q) (k : Z) :
  inject_Z (k - 1) < x -> x <= inject_Z k -> Qceiling x = k.
Proof.
  intros H1 H2.
  pose proof (Qle_ceiling x) as H3. pose proof (Qceiling_lt x) as H4.
  assert (Ha : inject_Z (k - 1) < inject_Z (Qceiling x)) by (eapply Qlt_le_trans; eauto).
  assert (Hb : inject_Z (Qceiling x - 1) < inject_Z k) by (eapply Qlt_le_trans; eauto).
  rewrite <- Zlt_Qlt in Ha, Hb. lia.
Qed.

(** The median is the fiftieth percentile. *)
Lemma median_is_percentile_50 (sorted : list Q) :
  sorted <> [] ->
  exists m r, calculateMedian sorted = Some m /\
              calculatePercentile sorted 50 = Some r /\ m == r.
Proof.
  intros Hne.
  assert (Hlen : (1 <= length sorted)%nat) by (destruct sorted; simpl; [congruence|lia]).
  unfold calculateMedian, calculatePercentile.
  set (n := length sorted) in *.
  set (idx := 50 / 100 * (ofNat n - 1)).
  pose proof (Nat.div_mod_eq n 2) as Hdiv.
  pose proof (Nat.mod_upper_bound n 2 ltac:(lia)) as Hmod.
  set (k := (n / 2)%nat) in *.
  destruct (Nat.eqb_spec (n mod 2) 0) as [Heven|Hodd].
  - assert (Hn : n = (2 * k)%nat) by lia.
    assert (Hidx : idx == inject_Z (Z.of_nat k) - (1 # 2)).
    { unfold idx, ofNat. rewrite Hn, Nat2Z.inj_mul, inject_Z_mult. simpl (inject_Z (Z.of_nat 2)).
      change (inject_Z 2) with 2. field. }
    assert (Hfl : Qfloor idx = (Z.of_nat k - 1)%Z).
    { apply floor_unique.
      - rewrite Hidx. unfold Z.sub. rewrite inject_Z_plus, inject_Z_opp. change (inject_Z 1) with 1. qlra.
      - replace (Z.of_nat k - 1 + 1)%Z with (Z.of_nat k) by lia. rewrite Hidx. qlra. }
    assert (Hce : Qceiling idx = Z.of_nat k).
    { apply ceiling_unique.
      - rewrite Hidx. unfold Z.sub. rewrite inject_Z_plus, inject_Z_opp. change (inject_Z 1) with 1. qlra.
      - rewrite Hidx. qlra. }
    rewrite Hfl, Hce.
    destruct (Z.eqb_spec (Z.of_nat k - 1) (Z.of_nat k)) as [E|_]; [lia|].
    assert (Hlow : is_Some (at_index sorted (Z.of_nat k - 1))).
    { replace (Z.of_nat k - 1)%Z with (Z.of_nat (k - 1)) by lia.
      rewrite at_index_nat. apply lookup_lt_is_Some. fold n. lia. }
    assert (Hup : is_Some (at_index sorted (Z.of_nat k))).
    { rewrite at_index_nat. apply lookup_lt_is_Some. fold n. lia. }
    destruct Hlow as (low & ->), Hup as (up & ->). simpl.
    eexists _, _. split; [reflexivity|]. split; [reflexivity|].
    rewrite Hidx. unfold Z.sub. rewrite inject_Z_plus, inject_Z_opp. change (inject_Z 1) with 1.
    field.
  - assert (Hn : n = (2 * k + 1)%nat) by lia.
    assert (Hidx : idx == inject_Z (Z.of_nat k)).
    { unfold idx, ofNat. rewrite Hn, Nat2Z.inj_add, Nat2Z.inj_mul, inject_Z_plus, inject_Z_mult.
      change (inject_Z (Z.of_nat 2)) with 2. change (inject_Z (Z.of_nat 1)) with 1. field. }
    rewrite (Qfloor_comp _ _ Hidx), (Qceiling_comp _ _ Hidx), Qfloor_Z, Qceiling_Z.
    rewrite Z.eqb_refl.
    assert (Hmid : is_Some (at_index sorted (Z.of_nat k))).
    { rewrite at_index_nat. apply lookup_lt_is_Some. fold n. lia. }
    destruct Hmid as (m & ->). exists m, m. repeat split; reflexivity.
Qed.

Lemma sumQ_squares_nonneg (l : list Q) (m : Q) :
  0 <= sumQ (List.map (fun x => (x - m) ^ 2) l).
Proof.
  induction l as [|x l IH]; simpl in *; [qlra|].
  pose proof (Qsquare_nonneg (x - m)) as H. qlra.
Qed.

Lemma sumQ_squares_zero (l : list Q) (m : Q) :
  sumQ (List.map (fun x => (x - m) ^ 2) l) == 0 <-> forall x, In x l -> x == m.
Proof.
  induction l as [|x l IH]; simpl.
  - split; [tauto|reflexivity].
  - pose proof (Qsquare_nonneg (x - m)) as Hx. simpl in Hx.
    pose proof (sumQ_squares_nonneg l m) as Hl. simpl in Hl.
    split.
    + intros H y [<-|Hy].
      * assert (E : (x - m) * (x - m) == 0) by qlra.
        apply Qmult_integral in E. destruct E; qlra.
      * apply IH; [|exact Hy]. simpl. qlra.
    + intros H.
      assert (E1 : x == m) by (apply H; now left).
      assert (E2 : sumQ (List.map (fun x => (x - m) ^ 2) l) == 0)
        by (apply IH; intros y Hy; apply H; now right).
      simpl in E2. rewrite E2, E1. ring.
Qed.

(** X10.  [calculateNumericStats] on a non-empty column: the minimum and
    the maximum are values of the column and bound all of it, the quartiles
    and the median are ordered between them, the median is the fiftieth
    percentile of the sorted copy, the mean is the sum over the count,
    the variance is the mean of the squared deviations from that mean
    and is not negative, the standard deviation is the root of that
    variance, and the inter-quartile range is left [null]. *)
Theorem numeric_stats_are_ordered (Math_sqrt : Q -> Q) (values : list Q) :
  values <> [] ->
  exists stats lo a med b hi m v r,
    calculateNumericStats Math_sqrt values = Some stats /\
    min stats = Some lo /\ q1 stats = Some a /\ median stats = Some med /\
    q3 stats = Some b /\ max stats = Some hi /\ mean stats = Some m /\
    variance stats = Some v /\ stdDev stats = Some (Math_sqrt v) /\ iqr stats = None /\
    In lo values /\ In hi values /\ (forall x, In x values -> lo <= x <= hi) /\
    lo <= a /\ a <= med /\ med <= b /\ b <= hi /\
    calculatePercentile (stable_sort (byValue (fun x => x)) values) 50 = Some r /\ med == r /\
    m == sumQ values / ofNat (length values) /\
    v == sumQ (List.map (fun x => (x - m) ^ 2) values) / ofNat (length values) /\
    0 <= v.
Proof.
  intros Hne0.
  set (sorted := stable_sort (byValue (fun x => x)) values).
  assert (Hs : sortedBy (fun x => x) sorted) by apply stable_sort_sortedBy.
  assert (Hperm : Permutation sorted values) by apply stable_sort_perm.
  assert (Hlen : length sorted = length values) by apply stable_sort_length.
  assert (Hpos : (1 <= length values)%nat) by (destruct values; simpl; [congruence|lia]).
  assert (Hne : sorted <> []) by (intros E; rewrite E in Hlen; simpl in Hlen; lia).
  destruct (percentile_monotone sorted 0 25 Hs Hne) as (lo & a & Hlo & Ha & Hloa); try qlra.
  destruct (percentile_monotone sorted 25 50 Hs Hne) as (a' & r & Ha' & Hr & Har); try qlra.
  destruct (percentile_monotone sorted 50 75 Hs Hne) as (r' & b & Hr' & Hb & Hrb); try qlra.
  destruct (percentile_monotone sorted 75 100 Hs Hne) as (b' & hi & Hb' & Hhi & Hbhi); try qlra.
  rewrite Ha in Ha'. injection Ha' as <-. rewrite Hr in Hr'. injection Hr' as <-.
  rewrite Hb in Hb'. injection Hb' as <-.
  rewrite percentile_0 in Hlo. rewrite (percentile_100 sorted Hne) in Hhi.
  destruct (median_is_percentile_50 sorted Hne) as (med & r' & Hmed & Hr' & Hmr).
  rewrite Hr in Hr'. injection Hr' as <-.
  assert (Hbound : forall x, In x values -> lo <= x <= hi).
  { intros x Hx. apply (Permutation_in _ (Permutation_sym Hperm)) in Hx.
    apply lookup_In in Hx as (i & Hi).
    pose proof (lookup_lt_Some _ _ _ Hi) as Hlt.
    split.
    - apply (Hs 0%nat i lo x); auto. lia.
    - apply (Hs i (length sorted - 1)%nat x hi); auto. lia. }
  assert (Hinlo : In lo values).
  { apply (Permutation_in _ Hperm). apply lookup_In. eauto. }
  assert (Hinhi : In hi values).
  { apply (Permutation_in _ Hperm). apply lookup_In. eauto. }
  set (m := total values / ofNat (length values)).
  assert (Hm : calculateMean values = Some m).
  { unfold calculateMean. destruct (Nat.eqb_spec (length values) 0) as [E|_]; [lia|].
    reflexivity. }
  set (v := total (List.map (fun x => (x - m) ^ 2) values) / ofNat (length values)).
  pose proof (ofNat_le 1 _ Hpos) as Hn. change (ofNat 1) with 1 in Hn.
  assert (Hv : v == sumQ (List.map (fun x => (x - m) ^ 2) values) / ofNat (length values)).
  { unfold v. now rewrite total_sumQ. }
  eexists _, lo, a, med, b, hi, m, v, r.
  split.
  { unfold calculateNumericStats.
    destruct (Nat.eqb_spec (length values) 0) as [E|_]; [lia|]. reflexivity. }
  cbn [min q1 median q3 max mean variance stdDev iqr]. fold sorted.
  split; [exact (eq_trans (at_index_nat sorted 0) Hlo)|].
  split; [exact Ha|]. split; [exact Hmed|]. split; [exact Hb|].
  split.
  { replace (Z.of_nat (length sorted) - 1)%Z with (Z.of_nat (length sorted - 1)) by lia.
    rewrite at_index_nat. exact Hhi. }
  split; [exact Hm|].
  split; [unfold calculateVariance; rewrite Hm; reflexivity|].
  split; [unfold calculateStdDev; rewrite Hm; reflexivity|].
  split; [reflexivity|].
  split; [exact Hinlo|]. split; [exact Hinhi|]. split; [exact Hbound|].
  split; [exact Hloa|]. split; [qlra|]. split; [qlra|]. split; [exact Hbhi|].
  split; [exact Hr|]. split; [exact Hmr|].
  split; [unfold m; now rewrite total_sumQ|].
  split; [exact Hv|].
  pose proof (sumQ_squares_nonneg values m) as Hsq.
  rewrite Hv. apply Qle_shift_div_l; [qlra|]. qlra.
Qed.

Lemma numeric_stats_are_ordered_witness :
  exists stats lo a med b hi m v r,
    calculateNumericStats (fun x => x) [3; 1; 2; 10] = Some stats /\
    min stats = Some lo /\ q1 stats = Some a /\ median stats = Some med /\
    q3 stats = Some b /\ max stats = Some hi /\ mean stats = Some m /\
    variance stats = Some v /\ stdDev stats = Some v /\ iqr stats = None /\
    In lo [3; 1; 2; 10] /\ In hi [3; 1; 2; 10] /\
    (forall x, In x [3; 1; 2; 10] -> lo <= x <= hi) /\
    lo <= a /\ a <= med /\ med <= b /\ b <= hi /\
    calculatePercentile (stable_sort (byValue (fun x => x)) [3; 1; 2; 10]) 50 = Some r /\
    med == r /\
    m == sumQ [3; 1; 2; 10] / ofNat (length [3; 1; 2; 10]) /\
    v == sumQ (List.map (fun x => (x - m) ^ 2) [3; 1; 2; 10]) / ofNat (length [3; 1; 2; 10]) /\
    0 <= v.
Proof.
  apply (numeric_stats_are_ordered (fun x => x) [3; 1; 2; 10]). discriminate.
Defined.

End NumericStatsProofs.


(** * Escaping and sanitising of cell values and column names *)

Module TextProofs.
Import DataValidator.

(** The six characters [escapeHTML] rewrites. *)
Definition isEscaped (c : N) : bool :=
  (c =? ampersand)%N || (c =? lessThan)%N || (c =? greaterThan)%N ||
  (c =? doubleQuote)%N || (c =? singleQuote)%N || (c =? slash)%N.

(** The characters that open or close markup or an attribute value. *)
Definition isMarkup (c : N) : bool :=
  (c =? lessThan)%N || (c =? greaterThan)%N ||
  (c =? doubleQuote)%N || (c =? singleQuote)%N || (c =? slash)%N.

(** The entities as code units. *)
Lemma escapeChar_table (c : N) :
  escapeChar c =
  if (c =? 38)%N then [38; 97; 109; 112; 59]%N
  else if (c =? 60)%N then [38; 108; 116; 59]%N
  else if (c =? 62)%N then [38; 103; 116; 59]%N
  else if (c =? 34)%N then [38; 113; 117; 111; 116; 59]%N
  else if (c =? 39)%N then [38; 35; 120; 50; 55; 59]%N
  else if (c =? 47)%N then [38; 35; 120; 50; 70; 59]%N
  else [c].
Proof.
  unfold escapeChar, ampersand, lessThan, greaterThan, doubleQuote, singleQuote, slash.
  repeat match goal with
         | |- context [N.eqb ?a ?b] => destruct (N.eqb a b)
         end; reflexivity.
Qed.

Ltac cases_of_char :=
  rewrite ?escapeChar_table;
  unfold ampersand, lessThan, greaterThan, doubleQuote, singleQuote, slash;
  repeat match goal with
         | |- context [N.eqb ?a ?b] => destruct (N.eqb_spec a b); subst
         end.

Lemma escapeChar_plain (c : N) : isEscaped c = false -> escapeChar c = [c].
Proof. unfold isEscaped. cases_of_char; simpl; congruence. Qed.

Lemma escapeChar_entity (c : N) :
  isEscaped c = true ->
  exists body, escapeChar c = ampersand :: body /\ (3 <= length body <= 5)%nat /\
               forall x, In x (escapeChar c) -> isMarkup x = false /\ isControl x = false.
Proof.
  unfold isEscaped, isMarkup. cases_of_char; simpl; try discriminate; intros _;
    (eexists; split; [reflexivity|]; split; [simpl; lia|]);
    intros x Hx; simpl in Hx;
    repeat (destruct Hx as [<-|Hx]; [split; reflexivity|]); destruct Hx.
Qed.

Lemma escapeChar_cancel (a b : N) (x y : text) :
  escapeChar a ++ x = escapeChar b ++ y -> a = b /\ x = y.
Proof.
  cases_of_char; simpl; intros H; inversion H; subst; auto; try congruence.
Qed.

Lemma escapeHTML_cons (c : N) (s : text) :
  escapeHTML (c :: s) = escapeChar c ++ escapeHTML s.
Proof. reflexivity. Qed.

Lemma escapeHTML_injective (s : text) : forall t, escapeHTML s = escapeHTML t -> s = t.
Proof.
  induction s as [|a s IH]; intros [|b t] H.
  - reflexivity.
  - rewrite escapeHTML_cons in H. simpl in H.
    destruct (isEscaped b) eqn:Hb.
    + destruct (escapeChar_entity b Hb) as (body & E & _). rewrite E in H. discriminate.
    + rewrite (escapeChar_plain b Hb) in H. discriminate.
  - rewrite escapeHTML_cons in H. simpl in H.
    destruct (isEscaped a) eqn:Ha.
    + destruct (escapeChar_entity a Ha) as (body & E & _). rewrite E in H. discriminate.
    + rewrite (escapeChar_plain a Ha) in H. discriminate.
  - rewrite !escapeHTML_cons in H. apply escapeChar_cancel in H as (-> & H).
    f_equal. now apply IH.
Qed.

Lemma escapeChar_length (c : N) :
  (1 <= length (escapeChar c) <= 6)%nat /\
  (isEscaped c = true -> (4 <= length (escapeChar c))%nat).
Proof.
  destruct (isEscaped c) eqn:Hc.
  - destruct (escapeChar_entity c Hc) as (body & -> & Hlen & _). simpl. split; [lia|]. lia.
  - rewrite (escapeChar_plain c Hc). simpl. split; [lia|discriminate].
Qed.

Lemma escapeHTML_length (s : text) :
  (length s <= length (escapeHTML s) <= 6 * length s)%nat.
Proof.
  induction s as [|c s IH]; [simpl; lia|].
  rewrite escapeHTML_cons, length_app. pose proof (escapeChar_length c) as (H & _).
  simpl length. lia.
Qed.

Lemma escapeHTML_grows (s : text) (c : N) :
  In c s -> isEscaped c = true -> (length s < length (escapeHTML s))%nat.
Proof.
  induction s as [|a s IH]; [intros []|].
  intros [->|Hc] He; rewrite escapeHTML_cons, length_app; simpl length.
  - pose proof (escapeChar_length c) as (_ & H). specialize (H He).
    pose proof (escapeHTML_length s). lia.
  - specialize (IH Hc He). pose proof (escapeChar_length a) as (H & _). lia.
Qed.

Lemma escapeHTML_plain (s : text) :
  (forall c, In c s -> isEscaped c = false) -> escapeHTML s = s.
Proof.
  induction s as [|a s IH]; intros H; [reflexivity|].
  rewrite escapeHTML_cons, (escapeChar_plain a) by (apply H; now left).
  simpl. f_equal. apply IH. intros c Hc. apply H. now right.
Qed.

Lemma escapeHTML_chars (s : text) (x : N) :
  In x (escapeHTML s) ->
  isMarkup x = false /\ (isControl x = true -> In x s).
Proof.
  unfold escapeHTML. rewrite in_flat_map. intros (c & Hc & Hx).
  destruct (isEscaped c) eqn:He.
  - destruct (escapeChar_entity c He) as (_ & _ & _ & H). destruct (H x Hx) as (H1 & H2).
    split; [exact H1|]. congruence.
  - rewrite (escapeChar_plain c He) in Hx. destruct Hx as [<-|[]].
    split; [|auto].
    revert He. unfold isEscaped, isMarkup.
    destruct (c =? ampersand)%N; simpl; [discriminate|auto].
Qed.

(** X11.  [escapeHTML] leaves none of [<], [>], the two quotes and [/] in
    its result, it is injective (the text can be recovered from its escaped
    form), it returns its argument unchanged exactly when the argument has
    none of the six characters it rewrites, and the result is between one
    and six times as long as the argument. *)
Theorem escapeHTML_is_safe_and_injective (s : text) :
  (forall c, In c (escapeHTML s) -> isMarkup c = false) /\
  (forall t, escapeHTML s = escapeHTML t -> s = t) /\
  (escapeHTML s = s <-> forall c, In c s -> isEscaped c = false) /\
  (length s <= length (escapeHTML s) <= 6 * length s)%nat.
Proof.
  split; [intros c Hc; apply (escapeHTML_chars s c Hc)|].
  split; [apply escapeHTML_injective|].
  split; [|apply escapeHTML_length].
  split.
  - intros Hfix c Hc. destruct (isEscaped c) eqn:He; [|reflexivity].
    pose proof (escapeHTML_grows s c Hc He) as Hlt. rewrite Hfix in Hlt. lia.
  - apply escapeHTML_plain.
Qed.

Lemma dropWhile_In (p : N -> bool) (s : text) (c : N) : In c (dropWhile p s) -> In c s.
Proof.
  induction s as [|a s IH]; simpl; [tauto|].
  destruct (p a); [right; auto|trivial].
Qed.

Lemma dropWhile_length (p : N -> bool) (s : text) : (length (dropWhile p s) <= length s)%nat.
Proof.
  induction s as [|a s IH]; simpl; [lia|]. destruct (p a); simpl; lia.
Qed.

Lemma dropWhile_head (p : N -> bool) (s : text) (c : N) :
  head (dropWhile p s) = Some c -> p c = false.
Proof.
  induction s as [|a s IH]; simpl; [discriminate|].
  destruct (p a) eqn:Ha; [exact IH|]. simpl. intros [= <-]. exact Ha.
Qed.

Lemma dropWhile_id (p : N -> bool) (s : text) :
  (forall c, head s = Some c -> p c = false) -> dropWhile p s = s.
Proof.
  destruct s as [|a s]; simpl; [reflexivity|].
  intros H. now rewrite (H a eq_refl).
Qed.

Lemma trim_In (s : text) (c : N) : In c (trim s) -> In c s.
Proof.
  unfold trim. rewrite <- in_rev. intros H. apply dropWhile_In in H.
  rewrite <- in_rev in H. now apply dropWhile_In in H.
Qed.

Lemma trim_length (s : text) : (length (trim s) <= length s)%nat.
Proof.
  unfold trim. rewrite length_rev.
  pose proof (dropWhile_length isWhiteSpace (rev (dropWhile isWhiteSpace s))) as H.
  rewrite length_rev in H. pose proof (dropWhile_length isWhiteSpace s). lia.
Qed.

(** A text that neither starts nor ends with white space is its own
    trimmed form. *)
Lemma trim_id (s : text) :
  (forall c, head s = Some c -> isWhiteSpace c = false) ->
  (forall c, head (rev s) = Some c -> isWhiteSpace c = false) ->
  trim s = s.
Proof.
  intros Hfirst Hlast. unfold trim.
  rewrite (dropWhile_id _ s Hfirst), (dropWhile_id _ (rev s) Hlast). apply rev_involutive.
Qed.

Lemma filter_id {A : Type} (p : A -> bool) (l : list A) :
  (forall x, In x l -> p x = true) -> List.filter p l = l.
Proof.
  induction l as [|a l IH]; intros H; simpl; [reflexivity|].
  rewrite (H a) by now left. f_equal. apply IH. intros x Hx. apply H. now right.
Qed.

Lemma sanitizeCellValue_chars (value : option text) :
  (forall c, In c (sanitizeCellValue value) -> isMarkup c = false /\ isControl c = false) /\
  (forall s, value = Some s -> (length (sanitizeCellValue value) <= 6 * length s)%nat).
Proof.
  split.
  - intros c Hc. destruct value as [s|]; [|destruct Hc]. simpl in Hc.
    destruct (escapeHTML_chars _ c Hc) as (Hm & Hctl). split; [exact Hm|].
    destruct (isControl c) eqn:E; [|reflexivity].
    specialize (Hctl eq_refl). apply filter_In in Hctl as (_ & Hn).
    rewrite E in Hn. discriminate.
  - intros s ->. simpl.
    pose proof (escapeHTML_length
                  (List.filter (fun c => negb (isControl c)) (trim s))) as (_ & H).
    pose proof (List.filter_length_le (fun c => negb (isControl c)) (trim s)).
    pose proof (trim_length s). lia.
Qed.

(** X12.  [sanitizeCellValue] returns the empty string for [null] and
    [undefined]; its result holds no control character of the class it
    strips and none of [<], [>], the two quotes and [/]; it is at most six
    times as long as the cell; and a cell that has no surrounding white
    space, no control character and none of the six escaped characters is
    returned as it is. *)
Theorem sanitizeCellValue_is_safe (value : option text) :
  (forall c, In c (sanitizeCellValue value) -> isMarkup c = false /\ isControl c = false) /\
  (value = None -> sanitizeCellValue value = []) /\
  (forall s, value = Some s ->
             (length (sanitizeCellValue value) <= 6 * length s)%nat /\
             ((forall c, head s = Some c -> isWhiteSpace c = false) ->
              (forall c, head (rev s) = Some c -> isWhiteSpace c = false) ->
              (forall c, In c s -> isControl c = false /\ isEscaped c = false) ->
              sanitizeCellValue value = s)).
Proof.
  destruct (sanitizeCellValue_chars value) as (Hchars & Hlength).
  split; [exact Hchars|]. split; [intros ->; reflexivity|].
  intros s Hs. split; [now apply Hlength|]. subst value.
  intros Hfirst Hlast Hclean. simpl.
  rewrite (trim_id s Hfirst Hlast).
  rewrite filter_id by (intros x Hx; destruct (Hclean x Hx) as (-> & _); reflexivity).
  apply escapeHTML_plain. intros c Hc. apply (Hclean c Hc).
Qed.

(** Two underscores in a row somewhere in the text. *)
Fixpoint hasDoubleUnderscore (s : text) : bool :=
  match s with
  | [] => false
  | a :: rest =>
      match rest with
      | b :: _ => ((a =? underscore)%N && (b =? underscore)%N) || hasDoubleUnderscore rest
      | [] => false
      end
  end.

Lemma replaceRuns_In (p : N -> bool) (s : text) (c : N) : forall inRun,
  In c (replaceRuns p inRun s) -> c = underscore \/ (In c s /\ p c = false).
Proof.
  induction s as [|a s IH]; intros inRun; simpl; [tauto|].
  destruct (p a) eqn:Ha.
  - destruct inRun; simpl.
    + intros H. destruct (IH _ H) as [->|(H1 & H2)]; auto.
    + intros [<-|H]; [now left|]. destruct (IH _ H) as [->|(H1 & H2)]; auto.
  - simpl. intros [<-|H]; [right; auto|].
    destruct (IH _ H) as [->|(H1 & H2)]; auto.
Qed.

Lemma hasDouble_cons (a : N) (s : text) :
  hasDoubleUnderscore s = false ->
  (a = underscore -> head s <> Some underscore) ->
  hasDoubleUnderscore (a :: s) = false.
Proof.
  intros Hs Ha. destruct s as [|b s]; [reflexivity|].
  change (hasDoubleUnderscore (a :: b :: s))
    with (((a =? underscore)%N && (b =? underscore)%N) || hasDoubleUnderscore (b :: s)).
  rewrite Hs, orb_false_r.
  destruct (N.eqb_spec a underscore) as [E|_]; [|reflexivity].
  destruct (N.eqb_spec b underscore) as [E'|_]; [|reflexivity].
  exfalso. apply (Ha E). simpl. now rewrite E'.
Qed.

Lemma squeezed_underscores (s : text) : forall inRun,
  hasDoubleUnderscore (replaceRuns (N.eqb underscore) inRun s) = false /\
  (inRun = true -> head (replaceRuns (N.eqb underscore) inRun s) <> Some underscore).
Proof.
  induction s as [|a s IH]; intros inRun; cbn [replaceRuns];
    [split; [reflexivity|discriminate]|].
  destruct (N.eqb_spec underscore a) as [<-|Hne].
  - destruct (IH true) as (H1 & H2). destruct inRun.
    + split; auto.
    + split; [|discriminate]. apply hasDouble_cons; auto.
  - destruct (IH false) as (H1 & _). split.
    + apply hasDouble_cons; [exact H1|]. intros E. congruence.
    + intros _. simpl. congruence.
Qed.

Lemma hasDouble_take (n : nat) : forall s,
  hasDoubleUnderscore s = false -> hasDoubleUnderscore (take n s) = false.
Proof.
  induction n as [|n IH]; intros s Hs; [reflexivity|].
  destruct s as [|a s]; [reflexivity|].
  destruct s as [|b s]; [destruct n; reflexivity|].
  change (hasDoubleUnderscore (a :: b :: s))
    with (((a =? underscore)%N && (b =? underscore)%N) || hasDoubleUnderscore (b :: s)) in Hs.
  apply orb_false_elim in Hs as (Hab & Hs).
  change (take (S n) (a :: b :: s)) with (a :: take n (b :: s)).
  apply hasDouble_cons; [now apply IH|].
  intros ->. destruct n; simpl; [discriminate|].
  intros [= ->]. rewrite !N.eqb_refl in Hab. discriminate.
Qed.

Lemma startsWithLetter_chars (s : text) :
  startsWithLetter s = true -> s <> [].
Proof. destruct s; [discriminate|congruence]. Qed.

Lemma underscore_starts (s : text) : startsWithLetter (underscore :: s) = true.
Proof. reflexivity. Qed.

Lemma not_letter_not_underscore (s : text) :
  startsWithLetter s = false -> head s <> Some underscore.
Proof.
  destruct s as [|a s]; [discriminate|]. simpl. intros H [= ->]. discriminate.
Qed.

Lemma startsWithLetter_take (n : nat) (s : text) :
  startsWithLetter s = true -> startsWithLetter (take (S n) s) = true.
Proof. destruct s; [discriminate|trivial]. Qed.

(** X13.  [sanitizeColumnName] on a non-empty name returns a non-empty
    name of at most 100 characters that starts with a Latin or Arabic
    letter or an underscore, holds none of the reserved characters and no
    white space, and never two underscores in a row; in particular it is
    never [__proto__], and the fallback name of the last statement is never
    used. *)
Theorem sanitizeColumnName_is_safe (now : nat) (name : text) :
  name <> [] ->
  let sanitized := sanitizeColumnName now name in
  sanitized <> [] /\
  startsWithLetter sanitized = true /\
  (length sanitized <= 100)%nat /\
  (forall c, In c sanitized -> isReserved c = false /\ isWhiteSpace c = false) /\
  hasDoubleUnderscore sanitized = false /\
  sanitized <> codes "__proto__".
Proof.
  intros Hname. unfold sanitizeColumnName.
  destruct name as [|c0 name0]; [congruence|]. set (name := c0 :: name0) in *.
  set (mapped := List.map (fun c => if isReserved c then underscore else c) (trim name)).
  set (spaced := replaceRuns isWhiteSpace false mapped).
  set (squeezed := replaceRuns (N.eqb underscore) false spaced).
  set (prefixed := if startsWithLetter squeezed then squeezed else underscore :: squeezed).
  set (cut := if (maxColumnNameLength <? length prefixed)%nat
              then take maxColumnNameLength prefixed else prefixed).
  assert (Hmapped : forall c, In c mapped -> isReserved c = false).
  { intros c Hc. apply in_map_iff in Hc as (x & <- & _).
    destruct (isReserved x) eqn:E; [reflexivity|exact E]. }
  assert (Hspaced : forall c, In c spaced -> isReserved c = false /\ isWhiteSpace c = false).
  { intros c Hc. apply replaceRuns_In in Hc as [->|(H1 & H2)]; [split; reflexivity|].
    split; auto. }
  assert (Hsqueezed : forall c, In c squeezed ->
                                isReserved c = false /\ isWhiteSpace c = false).
  { intros c Hc. apply replaceRuns_In in Hc as [->|(H1 & H2)]; [split; reflexivity|].
    auto. }
  destruct (squeezed_underscores spaced false) as (Hdouble & _). fold squeezed in Hdouble.
  assert (Hprefixed : startsWithLetter prefixed = true /\
                      hasDoubleUnderscore prefixed = false /\
                      forall c, In c prefixed ->
                                isReserved c = false /\ isWhiteSpace c = false).
  { unfold prefixed. destruct (startsWithLetter squeezed) eqn:E.
    - auto.
    - split; [reflexivity|]. split.
      + apply hasDouble_cons; [exact Hdouble|]. intros _.
        now apply not_letter_not_underscore.
      + intros c [<-|Hc]; [split; reflexivity|auto]. }
  destruct Hprefixed as (Hstart & Hdouble' & Hchars).
  assert (Hcut : startsWithLetter cut = true /\ hasDoubleUnderscore cut = false /\
                 (length cut <= 100)%nat /\
                 forall c, In c cut -> isReserved c = false /\ isWhiteSpace c = false).
  { unfold cut, maxColumnNameLength.
    destruct (Nat.ltb_spec 100 (length prefixed)) as [Hlong|Hshort].
    - split; [now apply (startsWithLetter_take 99)|].
      split; [now apply hasDouble_take|].
      split; [rewrite length_take; lia|].
      intros c Hc. apply Hchars. rewrite <- (take_drop 100 prefixed).
      apply in_or_app. now left.
    - auto. }
  destruct Hcut as (Hstart' & Hdouble'' & Hlen & Hchars').
  pose proof (startsWithLetter_chars cut Hstart') as Hne.
  fold name mapped spaced squeezed prefixed cut. cbv zeta.
  destruct cut as [|c1 cut1] eqn:Ecut; [congruence|].
  split; [discriminate|]. split; [exact Hstart'|]. split; [exact Hlen|].
  split; [exact Hchars'|]. split; [exact Hdouble''|].
  intros E. rewrite E in Hdouble''. vm_compute in Hdouble''. discriminate.
Qed.

Lemma sanitizeColumnName_is_safe_witness :
  let sanitized := sanitizeColumnName 0 (codes " __proto__  score<1>") in
  sanitized <> [] /\
  startsWithLetter sanitized = true /\
  (length sanitized <= 100)%nat /\
  (forall c, In c sanitized -> isReserved c = false /\ isWhiteSpace c = false) /\
  hasDoubleUnderscore sanitized = false /\
  sanitized <> codes "__proto__".
Proof.
  apply (sanitizeColumnName_is_safe 0 (codes " __proto__  score<1>")).
  vm_compute. discriminate.
Defined.

End TextProofs.


(** * Reading one line of a CSV file *)

Module CsvLineProofs.
Import DataValidator TextProofs.

(** How a field is written on the line: as it is, or between two double
    or two single quotes. *)
Inductive Quoting := Bare | Double | Single.

Definition written (field : Quoting * text) : text :=
  match fst field with
  | Bare => snd field
  | Double => doubleQuote :: snd field ++ [doubleQuote]
  | Single => singleQuote :: snd field ++ [singleQuote]
  end.

(** [fields.join(',')] *)
Fixpoint joined (fields : list text) : text :=
  match fields with
  | [] => []
  | field :: rest =>
      match rest with
      | [] => field
      | _ :: _ => field ++ comma :: joined rest
      end
  end.

(** A field that can be written in the given way and read back: it holds
    no quote, and no comma unless it is quoted. *)
Definition readable (field : Quoting * text) : Prop :=
  (forall c, In c (snd field) -> isQuote c = false) /\
  (fst field = Bare -> ~ In comma (snd field)).

Lemma scan_bare (f : text) :
  (forall c, In c f -> isQuote c = false) -> ~ In comma f ->
  forall rest values current quoteChar,
    scanLine (f ++ rest) values current false quoteChar
    = scanLine rest values (current ++ f) false quoteChar.
Proof.
  induction f as [|c f IH]; intros Hq Hc rest values current quoteChar.
  - simpl. now rewrite app_nil_r.
  - cbn [app scanLine]. rewrite (Hq c) by now left.
    destruct (N.eqb_spec c comma) as [->|_]; [exfalso; apply Hc; now left|].
    cbn [negb andb]. rewrite IH.
    + now rewrite <- app_assoc.
    + intros x Hx. apply Hq. now right.
    + intros Hx. apply Hc. now right.
Qed.

Lemma scan_inside (q : N) (f : text) :
  ~ In q f ->
  forall rest values current,
    scanLine (f ++ rest) values current true (Some q)
    = scanLine rest values (current ++ f) true (Some q).
Proof.
  induction f as [|c f IH]; intros Hq rest values current.
  - simpl. now rewrite app_nil_r.
  - cbn [app scanLine sameChar negb andb].
    destruct (N.eqb_spec c q) as [->|_]; [exfalso; apply Hq; now left|].
    cbn [andb]. rewrite IH.
    + now rewrite <- app_assoc.
    + intros Hx. apply Hq. now right.
Qed.

Lemma scan_close (q : N) (rest : text) (values : list text) (current : text) :
  head rest <> Some q ->
  scanLine (q :: rest) values current true (Some q)
  = scanLine rest values current false (Some q).
Proof.
  intros Hrest. cbn [scanLine sameChar negb andb]. rewrite N.eqb_refl. cbn [andb].
  destruct (head rest) as [c|] eqn:E; cbn [sameChar]; [|reflexivity].
  destruct (N.eqb_spec c q) as [->|_]; [congruence|reflexivity].
Qed.

Lemma scan_open (q : N) (rest : text) (values : list text) (current : text) quoteChar :
  isQuote q = true ->
  scanLine (q :: rest) values current false quoteChar
  = scanLine rest values current true (Some q).
Proof. intros Hq. cbn [scanLine negb andb]. now rewrite Hq. Qed.

Lemma scan_comma (rest : text) (values : list text) (current : text) quoteChar :
  scanLine (comma :: rest) values current false quoteChar
  = scanLine rest (values ++ [current]) [] false quoteChar.
Proof. reflexivity. Qed.

(** Reading one written field up to the comma or the end that follows
    it. *)
Lemma scan_field (field : Quoting * text) (rest : text) (values : list text) quoteChar :
  readable field -> head rest <> Some doubleQuote -> head rest <> Some singleQuote ->
  exists quoteChar',
    scanLine (written field ++ rest) values [] false quoteChar
    = scanLine rest values (snd field) false quoteChar'.
Proof.
  intros (Hq & Hc) Hd Hs. destruct field as ([| |] & f); unfold written; simpl fst in *;
    simpl snd in *.
  - exists quoteChar. rewrite scan_bare; auto.
  - exists (Some doubleQuote).
    cbn [app]. rewrite scan_open by reflexivity.
    rewrite <- app_assoc, scan_inside.
    + cbn [app]. now rewrite scan_close.
    + intros H. specialize (Hq _ H). discriminate.
  - exists (Some singleQuote).
    cbn [app]. rewrite scan_open by reflexivity.
    rewrite <- app_assoc, scan_inside.
    + cbn [app]. now rewrite scan_close.
    + intros H. specialize (Hq _ H). discriminate.
Qed.

Lemma scan_fields (fields : list (Quoting * text)) :
  fields <> [] -> Forall readable fields ->
  forall values quoteChar,
    scanLine (joined (List.map written fields)) values [] false quoteChar
    = values ++ List.map snd fields.
Proof.
  induction fields as [|field fields IH]; [congruence|].
  intros _ Hall values quoteChar.
  apply Forall_cons_iff in Hall as (Hfield & Hall).
  destruct fields as [|next fields].
  - simpl joined.
    destruct (scan_field field [] values quoteChar Hfield) as (q' & E);
      [discriminate|discriminate|].
    rewrite app_nil_r in E. rewrite E. reflexivity.
  - change (joined (List.map written (field :: next :: fields)))
      with (written field ++ comma :: joined (List.map written (next :: fields))).
    destruct (scan_field field (comma :: joined (List.map written (next :: fields)))
                values quoteChar Hfield) as (q' & E); [discriminate|discriminate|].
    rewrite E, scan_comma, IH by (auto; discriminate).
    rewrite <- app_assoc. reflexivity.
Qed.

Lemma replacePairs_absent (q : N) (value : text) :
  ~ In q value -> replacePairs q value = value.
Proof.
  induction value as [|a value IH]; intros Hq; [reflexivity|].
  cbn [replacePairs]. destruct value as [|b value]; [reflexivity|].
  destruct (N.eqb_spec a q) as [->|_]; [exfalso; apply Hq; now left|].
  cbn [andb]. f_equal. apply IH. intros H. apply Hq. now right.
Qed.

Lemma cleanValue_plain (value : text) :
  (forall c, In c value -> isQuote c = false) -> cleanValue value = trim value.
Proof.
  intros Hq. unfold cleanValue.
  assert (Hd : ~ In doubleQuote value) by (intros H; specialize (Hq _ H); discriminate).
  assert (Hs : ~ In singleQuote value) by (intros H; specialize (Hq _ H); discriminate).
  assert (Hstart : forall q, ~ In q value -> startsWith q value = false).
  { intros q H. destruct value as [|c value]; [reflexivity|]. simpl.
    destruct (N.eqb_spec c q) as [->|_]; [exfalso; apply H; now left|reflexivity]. }
  rewrite (Hstart _ Hd), (Hstart _ Hs). cbn [andb orb].
  now rewrite (replacePairs_absent _ _ Hd), (replacePairs_absent _ _ Hs).
Qed.

(** X14.  [parseCSVLine] reads back the fields of a line: when fields
    that hold no quote are joined by commas, each written bare (then
    without a comma inside) or between two double or two single quotes
    (then with any commas inside), the result has one value per field, in
    order, each the field with its surrounding white space trimmed. *)
Theorem parseCSVLine_reads_fields (fields : list (Quoting * text)) :
  fields <> [] -> Forall readable fields ->
  parseCSVLine (joined (List.map written fields))
  = List.map (fun field => trim (snd field)) fields.
Proof.
  intros Hne Hall. unfold parseCSVLine.
  rewrite (scan_fields fields Hne Hall). cbn [app].
  rewrite List.map_map. apply List.map_ext_in.
  intros field Hfield. apply cleanValue_plain.
  rewrite Forall_forall in Hall. apply (Hall field Hfield).
Qed.

Lemma parseCSVLine_reads_fields_witness :
  let fields := [(Bare, codes "age "); (Double, codes "Doe, Jane"); (Single, codes " 1,5")] in
  parseCSVLine (joined (List.map written fields))
  = List.map (fun field => trim (snd field)) fields.
Proof.
  intros fields. apply (parseCSVLine_reads_fields fields); [discriminate|].
  assert (Hquotes : forall f : text,
             forallb (fun c => negb (isQuote c)) f = true ->
             forall c, In c f -> isQuote c = false).
  { intros f Hf c Hc. rewrite forallb_forall in Hf. specialize (Hf c Hc).
    now destruct (isQuote c). }
  repeat apply Forall_cons; [| | |apply Forall_nil]; split; cbn [fst snd].
  - now apply Hquotes.
  - intros _ Hc. vm_compute in Hc.
    repeat (destruct Hc as [Hc|Hc]; [discriminate|]). destruct Hc.
  - now apply Hquotes.
  - discriminate.
  - now apply Hquotes.
  - discriminate.
Defined.

End CsvLineProofs.


(** * Reading the content of a CSV file *)

Module CsvContentProofs.
Import DataValidator TextProofs.

(** A cell as [parseCSVContent] stores it. *)
Definition storedCell (value : text) : Prop :=
  (N.of_nat (length value) <= maxCellLength)%N /\
  forall c, In c value -> isMarkup c = false /\ isControl c = false.

Lemma exceeds_false {A : Type} (l : list A) (limit : N) :
  exceeds l limit = false <-> (N.of_nat (length l) <= limit)%N.
Proof. unfold exceeds. rewrite N.ltb_ge. reflexivity. Qed.

Lemma empty_row (key : text) : (∅ : Row) !! key = None.
Proof. apply lookup_empty. Qed.

Lemma fillRow_spec (i : nat) (values : list text) (headers : list text) :
  forall j row hasData row' hasData',
    fillRow i values headers j row hasData = Returned (row', hasData') ->
    (forall key, ~ In key headers -> row' !! key = row !! key) /\
    (forall key, In key headers -> exists value, row' !! key = Some value /\ storedCell value) /\
    (hasData' = true -> NoDup headers ->
     hasData = true \/
     exists key value, In key headers /\ row' !! key = Some value /\ value <> []).
Proof.
  induction headers as [|header rest IH]; intros j row hasData row' hasData' H.
  - simpl in H. injection H as <- <-. split; [reflexivity|]. split; [intros key []|].
    intros Hd _. now left.
  - cbn [fillRow] in H.
    set (value := sanitizeCellValue (values !! j)) in *.
    destruct (exceeds value maxCellLength) eqn:Hlong; [discriminate|].
    apply exceeds_false in Hlong.
    assert (Hcell : storedCell value).
    { split; [exact Hlong|]. intros c Hc.
      apply (proj1 (sanitizeCellValue_chars (values !! j)) c Hc). }
    specialize (IH _ _ _ _ _ H) as (Hother & Hkeys & Hdata).
    split; [|split].
    + intros key Hkey. rewrite Hother by (intros Hin; apply Hkey; now right).
      apply lookup_insert_ne. intros ->. apply Hkey. now left.
    + intros key [E|Hkey]; [subst key|now apply Hkeys].
      destruct (in_dec (list_eq_dec N.eq_dec) header rest) as [Hin|Hout].
      * now apply Hkeys.
      * exists value. split; [|exact Hcell].
        etransitivity; [apply (Hother _ Hout)|apply lookup_insert_eq].
    + intros Hd Hnodup. apply NoDup_cons_iff in Hnodup as (Hout & Hnodup).
      destruct (Hdata Hd Hnodup) as [Hprev|(key & v & Hkey & Hv & Hne)].
      * destruct (Nat.eqb_spec (length value) 0) as [_|Hlen]; [now left|].
        right. exists header, value. split; [now left|].
        split; [etransitivity; [apply (Hother _ Hout)|apply lookup_insert_eq]|].
        intros E. rewrite E in Hlen. now apply Hlen.
      * right. exists key, v. split; [now right|]. split; assumption.
Qed.

(** What holds of a row built from the headers. *)
Definition rowOf (headers : list text) (row : Row) : Prop :=
  (forall key, is_Some (row !! key) <-> In key headers) /\
  (forall key value, row !! key = Some value -> storedCell value) /\
  (NoDup headers -> exists key value, row !! key = Some value /\ value <> []).

Lemma readRows_spec (headers : list text) (lines : list text) :
  forall i data data',
    readRows lines i headers data = Returned data' ->
    (length data' <= length data + length lines)%nat /\
    (forall row, In row data' -> In row data \/ rowOf headers row) /\
    (forall line, In line lines -> trim line <> [] ->
                  length (parseCSVLine line) = length headers).
Proof.
  induction lines as [|line rest IH]; intros i data data' H.
  - simpl in H. injection H as <-. split; [simpl; lia|]. split; [auto|intros line []].
  - cbn [readRows] in H.
    destruct (Nat.eqb_spec (length (trim line)) 0) as [Hblank|Hfull].
    + specialize (IH _ _ _ H) as (Hlen & Hrows & Hfields).
      split; [simpl; lia|]. split; [exact Hrows|].
      intros l [<-|Hl] Hne; [|now apply Hfields].
      destruct (trim line); [congruence|discriminate].
    + destruct (Nat.eqb_spec (length (parseCSVLine line)) (length headers)) as [Hcount|_];
        [|discriminate].
      cbn [negb] in H.
      destruct (fillRow i (parseCSVLine line) headers 0 ∅ false) as [[row hasData]|e] eqn:Hfill;
        [|discriminate].
      cbn [andThen] in H.
      specialize (IH _ _ _ H) as (Hlen & Hrows & Hfields).
      destruct (fillRow_spec _ _ _ _ _ _ _ _ Hfill) as (Hother & Hkeys & Hdata).
      split; [|split].
      * destruct hasData; [rewrite length_app in Hlen|]; simpl in *; lia.
      * intros r Hr. destruct (Hrows r Hr) as [Hold|Hnew]; [|now right].
        destruct hasData; [|now left].
        apply in_app_or in Hold as [Hold|[<-|[]]]; [now left|].
        right. split; [|split].
        -- intros key. split.
           ++ intros Hsome.
              destruct (in_dec (list_eq_dec N.eq_dec) key headers) as [Hin|Hout]; [exact Hin|].
              rewrite (Hother _ Hout), empty_row in Hsome. now destruct Hsome.
           ++ intros Hin. destruct (Hkeys _ Hin) as (v & -> & _). eauto.
        -- intros key value Hv.
           destruct (in_dec (list_eq_dec N.eq_dec) key headers) as [Hin|Hout].
           ++ destruct (Hkeys _ Hin) as (v & Hv' & Hcell). congruence.
           ++ rewrite (Hother _ Hout), empty_row in Hv. discriminate.
        -- intros Hnodup. destruct (Hdata eq_refl Hnodup) as [?|(key & v & _ & Hv & Hne)];
             [discriminate|eauto].
      * intros l [<-|Hl] Hne; [exact Hcount|now apply Hfields].
Qed.

Lemma length_imap_headers (clock : nat -> nat) (names : list text) :
  length (imap (fun j header => sanitizeColumnName (clock j) header) names) = length names.
Proof. apply length_imap. Qed.

(** X15.  When [parseCSVContent] returns, the file has between one and a
    hundred columns and at least one row; there are fewer rows than lines;
    every line after the first that is not blank has as many fields as
    there are headers; every row has exactly the headers as keys, each of
    its cells is at most 10000 characters long and holds no control
    character and none of [<], [>], the two quotes and [/]; and, when no
    two headers coincide, every row has a cell that is not empty. *)
Theorem parsed_rows_are_sanitised (clock : nat -> nat) (content : text) (data : list Row) :
  parseCSVContent clock content = Returned data ->
  let lines := split 10 (replaceCR (replaceCRLF (trim content))) in
  let headers := imap (fun j header => sanitizeColumnName (clock j) header)
                      (parseCSVLine (default [] (head lines))) in
  (1 <= length headers <= 100)%nat /\
  (1 <= length data < length lines)%nat /\
  (forall line, In line (tail lines) -> trim line <> [] ->
                length (parseCSVLine line) = length headers) /\
  forall row, In row data ->
    (forall key, is_Some (row !! key) <-> In key headers) /\
    (forall key value, row !! key = Some value ->
       (N.of_nat (length value) <= 10000)%N /\
       forall c, In c value -> isMarkup c = false /\ isControl c = false) /\
    (NoDup headers -> exists key value, row !! key = Some value /\ value <> []).
Proof.
  intros H lines headers. unfold parseCSVContent in H. fold lines in H.
  destruct (exceeds _ maxFileSize); [discriminate|].
  destruct (Nat.eqb_spec (length lines) 0) as [_|Hlines]; [discriminate|].
  destruct (exceeds lines maxRows); [discriminate|].
  fold headers in H.
  destruct (validateHeaders headers) as [checked|e] eqn:Hheaders; [|discriminate].
  cbn [andThen] in H.
  destruct (readRows (tail lines) 1 headers []) as [rows|e] eqn:Hrows; [|discriminate].
  cbn [andThen] in H.
  destruct (validateDataStructure rows headers) as [[]|e] eqn:Hcheck; [|discriminate].
  cbn [andThen] in H. injection H as <-.
  destruct (readRows_spec _ _ _ _ _ Hrows) as (Hlen & Hrow & Hfields).
  split; [|split; [|split]].
  - unfold validateHeaders in Hheaders.
    destruct (Nat.eqb_spec (length headers) 0) as [_|Hn]; [discriminate|].
    destruct (exceeds headers maxColumns) eqn:Hmany; [discriminate|].
    apply exceeds_false in Hmany. unfold maxColumns in Hmany. lia.
  - unfold validateDataStructure in Hcheck.
    destruct (Nat.eqb_spec (length rows) 0) as [_|Hn]; [discriminate|].
    simpl in Hlen. destruct lines as [|first others]; [simpl in Hlines; congruence|].
    simpl in *. lia.
  - exact Hfields.
  - intros row Hin. destruct (Hrow row Hin) as [[]|(Hkeys & Hcells & Hdata)].
    split; [exact Hkeys|]. split; [|exact Hdata].
    intros key value Hv. destruct (Hcells key value Hv) as (Hshort & Hsafe).
    split; [exact Hshort|exact Hsafe].
Qed.

Lemma parsed_rows_are_sanitised_witness :
  let content := codes "group,score" ++ [13; 10]%N ++ codes "A, <b>1</b>" ++ [10; 10]%N
                 ++ codes "'B, C',2" in
  exists data,
    parseCSVContent (fun _ => 0) content = Returned data /\
    (1 <= length data < length (split 10 (replaceCR (replaceCRLF (trim content)))))%nat.
Proof.
  intros content.
  destruct (parseCSVContent (fun _ => 0) content) as [data|e] eqn:E.
  - exists data. split; [reflexivity|].
    destruct (parsed_rows_are_sanitised (fun _ => 0) content data E) as (_ & Hrows & _).
    exact Hrows.
  - assert (H : match parseCSVContent (fun _ => 0) content with
                | Returned _ => true
                | Thrown _ => false
                end = true) by (vm_compute; reflexivity).
    rewrite E in H. discriminate.
Defined.

End CsvContentProofs.


(** * Numbering of duplicate headers *)

Module HeaderProofs.
Import DataValidator.
Import RankProofs (lookup_In).

(** How often [header] occurs in [headers]. *)
Definition occurrences (header : text) (headers : list text) : nat :=
  length (List.filter (sameText header) headers).

(** The name the [k]-th occurrence of a header gets. *)
Definition renamed (header : text) (k : nat) : text :=
  if isInherited header then header
  else if (1 <? k)%nat
       then header ++ underscore :: codes (NilEmpty.string_of_uint (Nat.to_uint k))
       else header.

Lemma sameText_spec (a b : text) : sameText a b = true <-> a = b.
Proof. unfold sameText. apply bool_decide_eq_true. Qed.

Lemma sameText_refl (a : text) : sameText a a = true.
Proof. now apply sameText_spec. Qed.

Lemma sameText_ne (a b : text) : a <> b -> sameText a b = false.
Proof.
  intros H. destruct (sameText a b) eqn:E; [|reflexivity].
  apply sameText_spec in E. contradiction.
Qed.

Lemma existsb_sameText (a : text) (l : list text) :
  existsb (sameText a) l = true <-> In a l.
Proof.
  rewrite existsb_exists. split.
  - intros (x & Hx & E). apply sameText_spec in E. now subst.
  - intros H. exists a. split; [exact H|apply sameText_refl].
Qed.

Lemma numbered_lookup (headers : list text) :
  forall counts i header,
    headers !! i = Some header ->
    numbered headers counts !! i
    = Some (renamed header (default 0 (counts !! header)
                            + occurrences header (take (S i) headers))).
Proof.
  induction headers as [|first rest IH]; intros counts i header Hi; [discriminate|].
  cbn [numbered]. destruct i as [|i].
  - injection Hi as ->. unfold renamed, occurrences.
    change (take 1 (header :: rest)) with [header]. cbn [List.filter].
    rewrite sameText_refl. cbn [length].
    destruct (isInherited header); reflexivity.
  - change ((first :: rest) !! S i) with (rest !! i) in Hi.
    change (take (S (S i)) (first :: rest)) with (first :: take (S i) rest).
    unfold occurrences. cbn [List.filter].
    destruct (isInherited first) eqn:Hfirst.
    + change ((first :: numbered rest counts) !! S i) with (numbered rest counts !! i).
      rewrite (IH counts i header Hi). unfold renamed.
      destruct (isInherited header) eqn:Hheader; [reflexivity|].
      rewrite sameText_ne by (intros ->; congruence). reflexivity.
    + match goal with
      | |- (?x :: ?l) !! S i = _ => change ((x :: l) !! S i) with (l !! i)
      end.
      rewrite (IH _ i header Hi). f_equal. f_equal.
      destruct (list_eq_dec N.eq_dec header first) as [->|Hne].
      * rewrite lookup_insert_eq, sameText_refl. unfold occurrences. simpl. lia.
      * rewrite lookup_insert_ne by congruence. rewrite sameText_ne by exact Hne.
        reflexivity.
Qed.

Lemma numbered_length (headers : list text) :
  forall counts, length (numbered headers counts) = length headers.
Proof.
  induction headers as [|first rest IH]; intros counts; [reflexivity|].
  cbn [numbered]. destruct (isInherited first); simpl; now rewrite IH.
Qed.

Lemma no_duplicates (headers : list text) :
  forall index seen,
    duplicatesOf headers index seen = [] ->
    forall header, In header headers ->
                   ~ In header seen /\ occurrences header headers = 1.
Proof.
  induction headers as [|first rest IH]; intros index seen H header Hin; [destruct Hin|].
  cbn [duplicatesOf] in H.
  destruct (existsb (sameText first) seen) eqn:Hseen; [discriminate|].
  assert (Hfirst : ~ In first seen).
  { intros Hf. apply existsb_sameText in Hf. congruence. }
  unfold occurrences. cbn [List.filter].
  destruct Hin as [->|Hin].
  - rewrite sameText_refl. split; [exact Hfirst|].
    cbn [length]. f_equal.
    destruct (List.filter (sameText header) rest) as [|x l] eqn:E; [reflexivity|].
    assert (Hx : In x (List.filter (sameText header) rest)) by (rewrite E; now left).
    apply filter_In in Hx as (Hx & Hsame). apply sameText_spec in Hsame. subst x.
    destruct (IH _ _ H header Hx) as (Hnot & _). exfalso. apply Hnot.
    apply in_or_app. right. now left.
  - destruct (IH _ _ H header Hin) as (Hnot & Hocc).
    split; [intros Hs; apply Hnot; apply in_or_app; now left|].
    rewrite sameText_ne; [exact Hocc|].
    intros ->. apply Hnot. apply in_or_app. right. now left.
Qed.

Lemma occurrences_take (header : text) (headers : list text) (i : nat) :
  headers !! i = Some header ->
  (1 <= occurrences header (take (S i) headers) <= occurrences header headers)%nat.
Proof.
  intros Hi. unfold occurrences.
  rewrite <- (take_drop (S i) headers) at 3. rewrite List.filter_app, length_app.
  split; [|lia].
  rewrite (take_S_r _ _ _ Hi), List.filter_app, length_app. simpl.
  rewrite sameText_refl. simpl. lia.
Qed.

(** X16.  [validateHeaders] throws for no header and for more than a
    hundred; otherwise it returns as many names as it was given, the name
    at each position being the header there when that is its first
    occurrence (or a name every object inherits), and the header followed
    by an underscore and [k] when it is its [k]-th occurrence, [k > 1].
    Headers that are all different come back unchanged. *)
Theorem validateHeaders_numbers_duplicates (headers : list text) :
  (headers = [] -> validateHeaders headers = Thrown NoColumns) /\
  ((100 < length headers)%nat -> validateHeaders headers = Thrown TooManyColumns) /\
  ((1 <= length headers <= 100)%nat ->
   exists result,
     validateHeaders headers = Returned result /\
     length result = length headers /\
     (forall i header, headers !! i = Some header ->
        result !! i = Some (renamed header (occurrences header (take (S i) headers)))) /\
     (NoDup headers -> result = headers)).
Proof.
  split; [intros ->; reflexivity|]. split.
  - intros Hlong. unfold validateHeaders.
    destruct (Nat.eqb_spec (length headers) 0) as [E|_]; [lia|].
    unfold exceeds, maxColumns. destruct (N.ltb_spec 100 (N.of_nat (length headers))); [reflexivity|lia].
  - intros Hlen. unfold validateHeaders.
    destruct (Nat.eqb_spec (length headers) 0) as [E|_]; [lia|].
    unfold exceeds, maxColumns.
    destruct (N.ltb_spec 100 (N.of_nat (length headers))) as [Hmany|_]; [lia|].
    destruct (Nat.ltb_spec 0 (length (duplicatesOf headers 0 []))) as [Hdup|Hnone].
    + eexists. split; [reflexivity|]. split; [apply numbered_length|]. split.
      * intros i header Hi. rewrite (numbered_lookup headers ∅ i header Hi).
        now rewrite lookup_empty.
      * intros Hnodup. apply list_eq. intros i.
        destruct (headers !! i) as [header|] eqn:Hi.
        -- rewrite (numbered_lookup headers ∅ i header Hi), lookup_empty. f_equal.
           pose proof (occurrences_take header headers i Hi) as Hocc.
           assert (Hone : occurrences header headers = 1).
           { unfold occurrences.
             assert (Hin : In header headers) by (apply lookup_In; eauto).
             pose proof (List.NoDup_count_occ (list_eq_dec N.eq_dec) headers) as (Hcount & _).
             specialize (Hcount Hnodup header).
             assert (Hc : count_occ (list_eq_dec N.eq_dec) headers header
                          = length (List.filter (sameText header) headers)).
             { clear. induction headers as [|x l IH]; [reflexivity|]. simpl.
               destruct (list_eq_dec N.eq_dec x header) as [->|Hne].
               - rewrite sameText_refl. simpl. now rewrite IH.
               - rewrite sameText_ne by congruence. exact IH. }
             rewrite <- Hc.
             apply (count_occ_In (list_eq_dec N.eq_dec)) in Hin. lia. }
           unfold renamed. simpl default.
           replace (0 + occurrences header (take (S i) headers))%nat with 1%nat by lia.
           destruct (isInherited header); reflexivity.
        -- apply lookup_ge_None. rewrite numbered_length. now apply lookup_ge_None.
    + assert (Hnil : duplicatesOf headers 0 [] = []).
      { destruct (duplicatesOf headers 0 []); [reflexivity|simpl in Hnone; lia]. }
      exists headers. split; [reflexivity|]. split; [reflexivity|]. split; [|reflexivity].
      intros i header Hi.
      assert (Hin : In header headers) by (apply lookup_In; eauto).
      destruct (no_duplicates headers 0 [] Hnil header Hin) as (_ & Hone).
      pose proof (occurrences_take header headers i Hi) as Hocc.
      rewrite Hi. f_equal. unfold renamed.
      replace (occurrences header (take (S i) headers)) with 1%nat by lia.
      destruct (isInherited header); reflexivity.
Qed.

End HeaderProofs.


(** * The paired t-test *)

Module PairedProofs.
Import TTest TTestProofs ParametricTests RankTests GroupFacts PairedTTest.
Local Open Scope string_scope.
Local Open Scope R_scope.

(** The differences of the pairs formed by position. *)
Definition pairDifferences (values : list R) (groups : list label) (a b : label) : list R :=
  Worker.differencesOf (groupValues values groups a) (groupValues values groups b).

Lemma entries_values (values : list R) : forall (groups : list label) g offset,
  List.map Direct.value
    (groupValues (imap (fun i value => {| Direct.value := value;
                                          Direct.index := (offset + i)%nat |}) values)
                 groups g)
  = groupValues values groups g.
Proof.
  induction values as [|v values IH]; intros groups g offset; [reflexivity|].
  destruct groups as [|g' groups]; [reflexivity|].
  cbn [imap groupValues].
  assert (Hshift : imap ((fun i value => {| Direct.value := value;
                                            Direct.index := (offset + i)%nat |}) ∘ S) values
                   = imap (fun i value => {| Direct.value := value;
                                             Direct.index := (S offset + i)%nat |}) values).
  { apply imap_ext. intros i x _. simpl. f_equal. lia. }
  rewrite Hshift. destruct (String.eqb g' g); cbn [List.map]; now rewrite IH.
Qed.

Lemma entries_groupValues (values : list R) (groups : list label) (g : label) :
  List.map Direct.value
    (groupValues (imap (fun i value => {| Direct.value := value; Direct.index := i |}) values)
                 groups g)
  = groupValues values groups g.
Proof. exact (entries_values values groups g 0). Qed.

Lemma direct_differences (a b : list Direct.Entry) :
  Direct.differencesOf a b
  = Worker.differencesOf (List.map Direct.value a) (List.map Direct.value b).
Proof.
  revert b. induction a as [|x a IH]; intros [|y b]; simpl; try reflexivity.
  now rewrite IH.
Qed.

Lemma differences_length (a : list R) : forall b,
  length (Worker.differencesOf a b) = Nat.min (length a) (length b).
Proof.
  induction a as [|x a IH]; intros [|y b]; simpl; try reflexivity. now rewrite IH.
Qed.


Lemma differences_swap (a : list R) : forall b,
  Worker.differencesOf b a = List.map Ropp (Worker.differencesOf a b).
Proof.
  induction a as [|x a IH]; intros [|y b]; simpl; try reflexivity.
  rewrite IH. f_equal. ring.
Qed.

Lemma sumR_opp (x : list R) : sumR (List.map Ropp x) = - sumR x.
Proof.
  induction x as [|v x IH]; [simpl; ring|].
  change (sumR (List.map Ropp (v :: x))) with (- v + sumR (List.map Ropp x)).
  change (sumR (v :: x)) with (v + sumR x). rewrite IH. ring.
Qed.

Lemma variance_opp (x : list R) : variance (List.map Ropp x) = variance x.
Proof.
  unfold variance, lengthR. rewrite sumR_opp, !length_map, List.map_map.
  f_equal. f_equal. apply List.map_ext. intros v. unfold Rdiv. ring.
Qed.

(** What both paths read from [groupMap]. *)
Lemma paired_groups {A : Type} (values : list A) (groups : list label) (a b : label) :
  uniqueGroups groups = [a; b] -> length values = length groups ->
  JSObject.isInherited a = false -> JSObject.isInherited b = false ->
  exists groupMap,
    groupMapOf values groups = Ok groupMap /\
    groupMap !! a = Some (groupValues values groups a) /\
    groupMap !! b = Some (groupValues values groups b) /\
    groupValues values groups a <> [] /\ groupValues values groups b <> [].
Proof.
  intros Hu Hlen Howna Hownb.
  assert (Ha : In a groups) by (apply uniqueGroups_In; rewrite Hu; now left).
  assert (Hb : In b groups) by (apply uniqueGroups_In; rewrite Hu; right; now left).
  pose proof (groupValues_nonempty values groups a Hlen Ha) as Hna.
  pose proof (groupValues_nonempty values groups b Hlen Hb) as Hnb.
  destruct (groupMapOf_lookup values groups Hlen) as (groupMap & Hmap & Hlookup).
  { intros g Hg. apply (proj2 (uniqueGroups_In groups g)) in Hg. rewrite Hu in Hg.
    destruct Hg as [<-|[<-|[]]]; assumption. }
  exists groupMap. split; [exact Hmap|]. rewrite !Hlookup.
  destruct (groupValues values groups a); [congruence|].
  destruct (groupValues values groups b); [congruence|].
  repeat split; discriminate.
Qed.


Lemma direct_paired studentt_cdf studentt_inv
  (values : list R) (groups : list label) (a b : label) :
  uniqueGroups groups = [a; b] -> length values = length groups ->
  JSObject.isInherited a = false -> JSObject.isInherited b = false ->
  let d := pairDifferences values groups a b in
  let n := length d in
  let meanDiff := sumR d / lengthR d in
  let stdDiff := sqrt (variance d) in
  let seDiff := stdDiff / sqrt (INR n) in
  let tCritical := studentt_inv 0.975 (Z.of_nat n - 1)%Z in
  d <> [] /\
  n = Nat.min (length (groupValues values groups a)) (length (groupValues values groups b)) /\
  Direct.runPairedTTest studentt_cdf studentt_inv values groups
  = Ok {| test := "Paired Samples t-test";
          t := meanDiff / seDiff; df := (Z.of_nat n - 1)%Z;
          pValue := 2 * (1 - studentt_cdf (Rabs (meanDiff / seDiff)) (Z.of_nat n - 1)%Z);
          meanDifference := meanDiff; stdDifference := stdDiff; nPairs := n;
          cohensD := Some (meanDiff / stdDiff);
          confidenceInterval := Some (meanDiff - tCritical * seDiff,
                                      meanDiff + tCritical * seDiff);
          containsZero := Some (Rleb (meanDiff - tCritical * seDiff) 0 &&
                                Rleb 0 (meanDiff + tCritical * seDiff)) |}.
Proof.
  intros Hu Hlen Howna Hownb d n meanDiff stdDiff seDiff tCritical.
  set (entries := imap (fun i value => {| Direct.value := value; Direct.index := i |}) values).
  assert (Hlen' : length entries = length groups) by (unfold entries; now rewrite length_imap).
  destruct (paired_groups entries groups a b Hu Hlen' Howna Hownb)
    as (groupMap & Hmap & Ha & Hb & _ & _).
  destruct (paired_groups values groups a b Hu Hlen Howna Hownb)
    as (_ & _ & _ & _ & Hna & Hnb).
  assert (Hd : Direct.differencesOf (groupValues entries groups a) (groupValues entries groups b)
               = d).
  { rewrite direct_differences. unfold entries.
    rewrite (entries_groupValues values groups a), (entries_groupValues values groups b).
    reflexivity. }
  assert (Hn : n = Nat.min (length (groupValues values groups a))
                           (length (groupValues values groups b))).
  { unfold n, d, pairDifferences. apply differences_length. }
  assert (Hne : d <> []).
  { intros E. unfold n in Hn. rewrite E in Hn. simpl in Hn.
    destruct (groupValues values groups a); [congruence|].
    destruct (groupValues values groups b); [congruence|]. simpl in Hn. lia. }
  split; [exact Hne|]. split; [exact Hn|].
  unfold Direct.runPairedTTest. rewrite Hu. fold entries. rewrite Hmap. cbn [bind].
  rewrite Ha, Hb, Hd.
  rewrite (ss_mean_nonempty d Hne), (ss_standardDeviation_nonempty d Hne). cbn [bind].
  assert (Hmin : Nat.min (length (groupValues entries groups a))
                         (length (groupValues entries groups b)) = n).
  { rewrite Hn. unfold entries.
    rewrite <- (entries_groupValues values groups a), <- (entries_groupValues values groups b).
    now rewrite !length_map. }
  rewrite Hmin. reflexivity.
Qed.




Lemma example_differences :
  pairDifferences exampleValues exampleGroups "A" "B" = [1 - 4; 2 - 6].
Proof. reflexivity. Qed.

Lemma example_variance : variance [1 - 4; 2 - 6] = 1 / 4.
Proof. unfold variance, sumR, lengthR. simpl. field. Qed.

(** X18.  When the two groups are listed in the other order, neither
    label being a name that an object inherits and the differences not
    being all equal, the paired t-test returns the opposite [t], mean
    difference and Cohen's [d], the mirrored confidence interval, and
    the same standard deviation of the differences, p-value, number of
    pairs and degrees of freedom. *)
Theorem paired_t_test_swap studentt_cdf studentt_inv
  (values values' : list R) (groups groups' : list label) (a b : label) :
  uniqueGroups groups = [a; b] -> uniqueGroups groups' = [b; a] ->
  length values = length groups -> length values' = length groups' ->
  JSObject.isInherited a = false -> JSObject.isInherited b = false ->
  groupValues values' groups' a = groupValues values groups a ->
  groupValues values' groups' b = groupValues values groups b ->
  variance (pairDifferences values groups a b) <> 0 ->
  exists r r',
    Direct.runPairedTTest studentt_cdf studentt_inv values groups = Ok r /\
    Direct.runPairedTTest studentt_cdf studentt_inv values' groups' = Ok r' /\
    t r' = - t r /\
    meanDifference r' = - meanDifference r /\
    stdDifference r' = stdDifference r /\
    (exists effect, cohensD r = Some effect /\ cohensD r' = Some (- effect)) /\
    (exists lower upper,
       confidenceInterval r = Some (lower, upper) /\
       confidenceInterval r' = Some (- upper, - lower)) /\
    pValue r' = pValue r /\ nPairs r' = nPairs r /\ df r' = df r.
Proof.
  intros Hu Hu' Hlen Hlen' Howna Hownb Ha Hb _.
  destruct (direct_paired studentt_cdf studentt_inv values groups a b Hu Hlen Howna Hownb)
    as (_ & _ & Hr).
  destruct (direct_paired studentt_cdf studentt_inv values' groups' b a Hu' Hlen' Hownb Howna)
    as (_ & _ & Hr').
  cbv zeta in Hr, Hr'.
  assert (Hd : pairDifferences values' groups' b a
               = List.map Ropp (pairDifferences values groups a b)).
  { unfold pairDifferences. rewrite Ha, Hb. apply differences_swap. }
  rewrite Hd in Hr'. rewrite variance_opp, sumR_opp in Hr'.
  unfold lengthR in *. rewrite length_map in Hr'.
  set (d := pairDifferences values groups a b) in *.
  set (m := sumR d / INR (length d)) in *.
  set (s := sqrt (variance d)) in *.
  set (root := sqrt (INR (length d))) in *.
  set (df0 := (Z.of_nat (length d) - 1)%Z) in *.
  replace (- sumR d / INR (length d)) with (- m) in Hr' by (unfold m, Rdiv; ring).
  eexists. eexists. split; [exact Hr|]. split; [exact Hr'|].
  cbn [t meanDifference stdDifference cohensD confidenceInterval pValue nPairs df].
  assert (Ht : - m / (s / root) = - (m / (s / root))) by (unfold Rdiv; ring).
  split; [exact Ht|]. split; [reflexivity|]. split; [reflexivity|].
  split; [eexists; split; [reflexivity|]; f_equal; unfold Rdiv; ring|].
  split; [eexists _, _; split; [reflexivity|]; f_equal; f_equal; ring|].
  split; [now rewrite Ht, Rabs_Ropp|]. split; reflexivity.
Qed.

Lemma paired_t_test_swap_witness :
  JSObject.isInherited "A" = false /\ JSObject.isInherited "B" = false /\
  variance (pairDifferences exampleValues exampleGroups "A" "B") <> 0 /\
  exists r r',
    Direct.runPairedTTest (fun _ _ => 1 / 2) (fun _ _ => 0) exampleValues exampleGroups = Ok r /\
    Direct.runPairedTTest (fun _ _ => 1 / 2) (fun _ _ => 0) swappedValues swappedGroups = Ok r' /\
    t r' = - t r /\
    meanDifference r' = - meanDifference r /\
    stdDifference r' = stdDifference r /\
    (exists effect, cohensD r = Some effect /\ cohensD r' = Some (- effect)) /\
    (exists lower upper,
       confidenceInterval r = Some (lower, upper) /\
       confidenceInterval r' = Some (- upper, - lower)) /\
    pValue r' = pValue r /\ nPairs r' = nPairs r /\ df r' = df r.
Proof.
  assert (Hv : variance (pairDifferences exampleValues exampleGroups "A" "B") <> 0).
  { rewrite example_differences, example_variance. rlra. }
  split; [reflexivity|]. split; [reflexivity|]. split; [exact Hv|].
  apply (paired_t_test_swap (fun _ _ => 1 / 2) (fun _ _ => 0)
           exampleValues swappedValues exampleGroups swappedGroups "A" "B"
           eq_refl eq_refl eq_refl eq_refl eq_refl eq_refl eq_refl eq_refl Hv).
Defined.

End PairedProofs.


(** * The contingency table of the chi-square test *)

Module ChiSquareProofs.
Import NumericSummary RankProofs SumFacts ChiSquare.
Import KruskalWallisProofs (list_sum_map_plus).
Import TextProofs (filter_id).
Local Open Scope string_scope.

(** ** Tables given by their cells *)

Definition table {A : Type} (f : nat -> nat -> A) (r c : nat) : list (list A) :=
  List.map (fun i => List.map (f i) (seq 0 c)) (seq 0 r).

Lemma map_seq_lookup {A : Type} (f : nat -> A) (n k : nat) :
  List.map f (seq 0 n) !! k = if (k <? n)%nat then Some (f k) else None.
Proof.
  rewrite lookup_map. destruct (Nat.ltb_spec k n) as [Hlt|Hge].
  - now rewrite lookup_seq_lt by exact Hlt.
  - now rewrite lookup_seq_ge by exact Hge.
Qed.

Lemma map_seq_ext {A : Type} (f g : nat -> A) (n : nat) :
  (forall k, (k < n)%nat -> f k = g k) -> List.map f (seq 0 n) = List.map g (seq 0 n).
Proof.
  intros H. apply List.map_ext_in. intros k Hk. apply in_seq in Hk. apply H. lia.
Qed.

Lemma table_ext {A : Type} (f g : nat -> nat -> A) (r c : nat) :
  (forall i j, (i < r)%nat -> (j < c)%nat -> f i j = g i j) -> table f r c = table g r c.
Proof.
  intros H. unfold table. apply map_seq_ext. intros i Hi.
  apply map_seq_ext. intros j Hj. now apply H.
Qed.

Lemma zeroes_table (r c : nat) : zeroes r c = table (fun _ _ => 0%nat) r c.
Proof.
  unfold zeroes, table.
  assert (H : forall (A : Type) (x : A) n, replicate n x = List.map (fun _ => x) (seq 0 n)).
  { intros A x n. apply list_eq. intros k. rewrite map_seq_lookup.
    destruct (Nat.ltb_spec k n) as [Hlt|Hge].
    - now apply lookup_replicate_2.
    - apply lookup_ge_None. now rewrite length_replicate. }
  rewrite (H _ (replicate c 0%nat) r). apply List.map_ext. intros _. apply H.
Qed.

Lemma alter_map_seq {A : Type} (g : A -> A) (f : nat -> A) (n k : nat) :
  alter g k (List.map f (seq 0 n))
  = List.map (fun i => if (i =? k)%nat then g (f i) else f i) (seq 0 n).
Proof.
  apply list_eq. intros i. rewrite map_seq_lookup.
  destruct (Nat.eq_dec i k) as [->|Hne].
  - rewrite list_lookup_alter, map_seq_lookup, Nat.eqb_refl.
    rewrite decide_True by reflexivity. now destruct (k <? n)%nat.
  - rewrite list_lookup_alter_ne by congruence. rewrite map_seq_lookup.
    destruct (Nat.eqb_spec i k); [congruence|reflexivity].
Qed.

Lemma increment_table (f : nat -> nat -> nat) (r c i j : nat) :
  increment (table f r c) i j
  = table (fun i' j' => if (i' =? i)%nat && (j' =? j)%nat then S (f i' j') else f i' j') r c.
Proof.
  unfold increment, table. rewrite alter_map_seq. apply List.map_ext. intros i'.
  destruct (Nat.eqb_spec i' i) as [->|_]; [|reflexivity].
  rewrite alter_map_seq. reflexivity.
Qed.

Lemma imap_map_seq {A B : Type} (h : nat -> A -> B) (f : nat -> A) (n : nat) :
  imap h (List.map f (seq 0 n)) = List.map (fun i => h i (f i)) (seq 0 n).
Proof.
  apply list_eq. intros k. rewrite list_lookup_imap, !map_seq_lookup.
  now destruct (k <? n)%nat.
Qed.

Lemma table_cell {A : Type} (f : nat -> nat -> A) (r c i j : nat) (row : list A) (x : A) :
  table f r c !! i = Some row -> row !! j = Some x ->
  (i < r)%nat /\ (j < c)%nat /\ x = f i j.
Proof.
  unfold table. rewrite map_seq_lookup.
  destruct (Nat.ltb_spec i r) as [Hi|_]; [|discriminate].
  intros [= <-]. rewrite map_seq_lookup.
  destruct (Nat.ltb_spec j c) as [Hj|_]; [|discriminate].
  intros [= <-]. auto.
Qed.

Lemma table_row {A : Type} (f : nat -> nat -> A) (r c i : nat) :
  (i < r)%nat -> table f r c !! i = Some (List.map (f i) (seq 0 c)).
Proof.
  intros Hi. unfold table. rewrite map_seq_lookup.
  destruct (Nat.ltb_spec i r); [reflexivity|lia].
Qed.

Lemma table_length {A : Type} (f : nat -> nat -> A) (r c : nat) : length (table f r c) = r.
Proof. unfold table. now rewrite length_map, length_seq. Qed.

(** ** Sums *)

Lemma ss_sum_list_sum (row : list nat) : ss_sum row = list_sum row.
Proof.
  unfold ss_sum.
  assert (H : forall a, fold_left Nat.add row a = (a + list_sum row)%nat).
  { induction row as [|x row IH]; intros a; simpl; [lia|]. rewrite IH. lia. }
  apply H.
Qed.

Lemma indicator_sum_seq (n k : nat) :
  list_sum (List.map (fun j => if (j =? k)%nat then 1 else 0)%nat (seq 0 n))
  = if (k <? n)%nat then 1%nat else 0%nat.
Proof.
  induction n as [|n IH]; [reflexivity|].
  rewrite seq_S, List.map_app, list_sum_app, IH. simpl.
  destruct (Nat.ltb_spec k n), (Nat.eqb_spec n k), (Nat.ltb_spec k (S n)); lia.
Qed.

(** ** Categories *)

Lemma sameCell_spec (a b : cell) : sameCell a b = true <-> a = b.
Proof.
  destruct a as [x|], b as [y|]; simpl; try (split; congruence).
  rewrite String.eqb_eq. split; congruence.
Qed.

Lemma sameCell_refl (a : cell) : sameCell a a = true.
Proof. now apply sameCell_spec. Qed.

Lemma existsb_sameCell (c : cell) (l : list cell) : existsb (sameCell c) l = true <-> In c l.
Proof.
  rewrite existsb_exists. split.
  - intros (x & Hx & E). apply sameCell_spec in E. now subst.
  - intros H. exists c. split; [exact H|apply sameCell_refl].
Qed.

Lemma distinct_spec (cells : list cell) :
  (forall c, In c (distinct cells) <-> In c cells) /\ List.NoDup (distinct cells).
Proof.
  unfold distinct.
  assert (H : forall seen,
             List.NoDup seen ->
             (forall c, In c (fold_left (fun seen c => if existsb (sameCell c) seen then seen
                                                        else (seen ++ [c])%list) cells seen)
                        <-> In c seen \/ In c cells) /\
             List.NoDup (fold_left (fun seen c => if existsb (sameCell c) seen then seen
                                                  else (seen ++ [c])%list) cells seen)).
  { induction cells as [|x cells IH]; intros seen Hseen; simpl.
    - split; [tauto|exact Hseen].
    - destruct (existsb (sameCell x) seen) eqn:E.
      + apply existsb_sameCell in E. destruct (IH seen Hseen) as (H1 & H2).
        split; [|exact H2]. intros c. rewrite H1. intuition (subst; auto).
      + assert (Hx : ~ In x seen) by (intros Hin; apply existsb_sameCell in Hin; congruence).
        assert (Hnd : List.NoDup (seen ++ [x])).
        { apply List.NoDup_app; [exact Hseen|repeat constructor; intros []|].
          intros a Ha [<-|[]]. contradiction. }
        destruct (IH _ Hnd) as (H1 & H2). split; [|exact H2].
        intros c. rewrite H1, in_app_iff. simpl. tauto. }
  destruct (H [] (List.NoDup_nil _)) as (H1 & H2). split; [|exact H2].
  intros c. rewrite H1. simpl. tauto.
Qed.

Lemma indexOf_lookup (categories : list cell) (c : cell) : forall i,
  indexOf categories c = Some i -> categories !! i = Some c.
Proof.
  induction categories as [|first rest IH]; intros i; simpl; [discriminate|].
  destruct (sameCell first c) eqn:E.
  - intros [= <-]. apply sameCell_spec in E. now subst.
  - destruct (indexOf rest c) as [k|]; simpl; [|discriminate].
    intros [= <-]. now apply IH.
Qed.

Lemma indexOf_In (categories : list cell) (c : cell) :
  In c categories -> exists i, indexOf categories c = Some i.
Proof.
  induction categories as [|first rest IH]; intros Hin; [destruct Hin|]. simpl.
  destruct (sameCell first c) eqn:E; [eauto|].
  destruct Hin as [->|Hin]; [rewrite sameCell_refl in E; discriminate|].
  destruct (IH Hin) as (i & ->). simpl. eauto.
Qed.

Lemma indexOf_NoDup (categories : list cell) (c : cell) : forall i,
  List.NoDup categories -> categories !! i = Some c -> indexOf categories c = Some i.
Proof.
  induction categories as [|first rest IH]; intros i Hnd Hi; [discriminate|].
  apply NoDup_cons_iff in Hnd as (Hfirst & Hnd). simpl.
  destruct i as [|i].
  - injection Hi as ->. now rewrite sameCell_refl.
  - simpl in Hi. destruct (sameCell first c) eqn:E.
    + apply sameCell_spec in E. subst first. exfalso. apply Hfirst.
      apply lookup_In. eauto.
    + now rewrite (IH i Hnd Hi).
Qed.

(** ** Counting by key *)

(** [o] is the number [j]. *)
Definition isNumber (o : option nat) (j : nat) : bool :=
  match o with
  | Some i => (i =? j)%nat
  | None => false
  end.

Lemma list_sum_zero {A : Type} (l : list A) : list_sum (List.map (fun _ => 0%nat) l) = 0%nat.
Proof. induction l as [|x l IH]; [reflexivity|exact IH]. Qed.

(** Rows sorted by a key that takes one of [n] values: the counts per
    value add up to the count of all. *)
Lemma partition_by_key {A : Type} (p : A -> bool) (k : A -> option nat) (n : nat)
  (rows : list A) :
  (forall row, In row rows -> exists i, k row = Some i /\ (i < n)%nat) ->
  list_sum (List.map (fun j => length (List.filter (fun row => p row && isNumber (k row) j) rows))
                     (seq 0 n))
  = length (List.filter p rows).
Proof.
  induction rows as [|row rows IH]; intros Hk.
  - simpl. apply list_sum_zero.
  - assert (Hrow : exists i, k row = Some i /\ (i < n)%nat) by (apply Hk; now left).
    assert (Hrows : forall r, In r rows -> exists i, k r = Some i /\ (i < n)%nat)
      by (intros r Hr; apply Hk; now right).
    specialize (IH Hrows). destruct Hrow as (i & Hi & Hlt).
    cbn [List.filter].
    transitivity (list_sum (List.map (fun j => ((if p row && (j =? i)%nat then 1 else 0)
                     + length (List.filter (fun row => p row && isNumber (k row) j) rows))%nat)
                    (seq 0 n))).
    { f_equal. apply List.map_ext. intros j. rewrite Hi. cbn [isNumber].
      rewrite (Nat.eqb_sym i j). destruct (p row && (j =? i)%nat); reflexivity. }
    rewrite list_sum_map_plus, IH. destruct (p row); cbn [andb].
    + rewrite indicator_sum_seq. destruct (Nat.ltb_spec i n); [reflexivity|lia].
    + rewrite list_sum_zero. reflexivity.
Qed.

Lemma fold_add {A : Type} (g : A -> nat) (l : list A) : forall a,
  fold_left (fun sum x => (sum + g x)%nat) l a = (a + list_sum (List.map g l))%nat.
Proof.
  induction l as [|x l IH]; intros a; simpl; [lia|]. rewrite IH. lia.
Qed.

Lemma filter_ext_length {A : Type} (p q : A -> bool) (l : list A) :
  (forall x, In x l -> p x = q x) -> length (List.filter p l) = length (List.filter q l).
Proof.
  intros H. rewrite (List.filter_ext_in p q l H). reflexivity.
Qed.

(** ** The observed counts *)

(** The number of rows of the data with a given cell in one column, and
    with given cells in both. *)
Definition rowCount (data : list Row) (var : string) (a : cell) : nat :=
  length (List.filter (fun row : Row => sameCell (row !! var) a) data).

Definition cellCount (data : list Row) (var1 var2 : string) (a b : cell) : nat :=
  length (List.filter (fun row : Row => sameCell (row !! var1) a && sameCell (row !! var2) b)
                      data).

Section Table.
Variable data : list Row.
Variables var1 var2 : string.

Let categories1 := distinct (List.map (fun row : Row => row !! var1) data).
Let categories2 := distinct (List.map (fun row : Row => row !! var2) data).

(** The rows of the data that fall into cell [(i, j)] of the table. *)
Definition fallsIn (i j : nat) (row : Row) : bool :=
  match indexOf categories1 (row !! var1), indexOf categories2 (row !! var2) with
  | Some i', Some j' => (i' =? i)%nat && (j' =? j)%nat
  | _, _ => false
  end.

Definition hits (rows : list Row) (i j : nat) : nat := length (List.filter (fallsIn i j) rows).

Lemma observed_fold (rows : list Row) : forall f r c,
  fold_left (fun observed (row : Row) =>
               match indexOf categories1 (row !! var1), indexOf categories2 (row !! var2) with
               | Some i, Some j => increment observed i j
               | _, _ => observed
               end) rows (table f r c)
  = table (fun i j => (f i j + hits rows i j)%nat) r c.
Proof using All.
  induction rows as [|row rows IH]; intros f r c.
  - simpl. apply table_ext. intros i j _ _. unfold hits. simpl. lia.
  - cbn [fold_left].
    assert (Hhits : forall i j, hits (row :: rows) i j
                                = ((if fallsIn i j row then 1 else 0) + hits rows i j)%nat).
    { intros i j. unfold hits. cbn [List.filter]. destruct (fallsIn i j row); reflexivity. }
    destruct (indexOf categories1 (row !! var1)) as [i0|] eqn:E1;
      [destruct (indexOf categories2 (row !! var2)) as [j0|] eqn:E2|].
    + rewrite increment_table, IH. apply table_ext. intros i j _ _.
      rewrite Hhits. unfold fallsIn. rewrite E1, E2.
      rewrite (Nat.eqb_sym i i0), (Nat.eqb_sym j j0).
      destruct ((i0 =? i)%nat && (j0 =? j)%nat); lia.
    + rewrite IH. apply table_ext. intros i j _ _.
      rewrite Hhits. unfold fallsIn. rewrite E1, E2. reflexivity.
    + rewrite IH. apply table_ext. intros i j _ _.
      rewrite Hhits. unfold fallsIn. rewrite E1. reflexivity.
Qed.

Lemma observed_table :
  observedOf data var1 var2 categories1 categories2
  = table (hits data) (length categories1) (length categories2).
Proof using All.
  unfold observedOf. rewrite zeroes_table, observed_fold. apply table_ext. reflexivity.
Qed.

Let r := length categories1.
Let c := length categories2.

Lemma fallsIn_keys (i j : nat) (row : Row) :
  fallsIn i j row
  = isNumber (indexOf categories1 (row !! var1)) i
    && isNumber (indexOf categories2 (row !! var2)) j.
Proof using All.
  unfold fallsIn.
  destruct (indexOf categories1 (row !! var1)), (indexOf categories2 (row !! var2));
    simpl; try reflexivity. now rewrite andb_false_r.
Qed.

Lemma key1_in_range (row : Row) :
  In row data -> exists i, indexOf categories1 (row !! var1) = Some i /\ (i < r)%nat.
Proof using All.
  intros Hrow.
  assert (Hin : In (row !! var1) categories1).
  { apply (proj1 (distinct_spec _)). apply in_map_iff. eauto. }
  destruct (indexOf_In _ _ Hin) as (i & Hi). exists i. split; [exact Hi|].
  apply indexOf_lookup in Hi. now apply lookup_lt_Some in Hi.
Qed.

Lemma key2_in_range (row : Row) :
  In row data -> exists j, indexOf categories2 (row !! var2) = Some j /\ (j < c)%nat.
Proof using All.
  intros Hrow.
  assert (Hin : In (row !! var2) categories2).
  { apply (proj1 (distinct_spec _)). apply in_map_iff. eauto. }
  destruct (indexOf_In _ _ Hin) as (j & Hj). exists j. split; [exact Hj|].
  apply indexOf_lookup in Hj. now apply lookup_lt_Some in Hj.
Qed.

Lemma key_is_category (categories : list cell) (i : nat) (a x : cell) :
  List.NoDup categories -> categories !! i = Some a ->
  isNumber (indexOf categories x) i = sameCell x a.
Proof using All.
  intros Hnd Hi. destruct (sameCell x a) eqn:E.
  - apply sameCell_spec in E. subst x. rewrite (indexOf_NoDup _ _ _ Hnd Hi). simpl.
    apply Nat.eqb_refl.
  - destruct (indexOf categories x) as [k|] eqn:Hk; [|reflexivity]. simpl.
    destruct (Nat.eqb_spec k i) as [->|_]; [|reflexivity].
    apply indexOf_lookup in Hk. rewrite Hi in Hk. injection Hk as ->.
    rewrite sameCell_refl in E. discriminate.
Qed.

Lemma hits_cellCount (i j : nat) (a b : cell) :
  categories1 !! i = Some a -> categories2 !! j = Some b ->
  hits data i j = cellCount data var1 var2 a b.
Proof using All.
  intros Ha Hb. unfold hits, cellCount. apply filter_ext_length. intros row _.
  rewrite fallsIn_keys.
  rewrite (key_is_category categories1 i a) by (auto; apply distinct_spec).
  rewrite (key_is_category categories2 j b) by (auto; apply distinct_spec).
  reflexivity.
Qed.

Lemma row_total (i : nat) (a : cell) :
  categories1 !! i = Some a ->
  list_sum (List.map (hits data i) (seq 0 c)) = rowCount data var1 a.
Proof using All.
  intros Ha.
  transitivity (list_sum (List.map
     (fun j => length (List.filter
                         (fun row : Row => isNumber (indexOf categories1 (row !! var1)) i
                                           && isNumber (indexOf categories2 (row !! var2)) j)
                         data)) (seq 0 c))).
  { f_equal. apply List.map_ext. intros j. unfold hits. apply filter_ext_length.
    intros row _. apply fallsIn_keys. }
  rewrite (partition_by_key _ (fun row : Row => indexOf categories2 (row !! var2)) c data)
    by (intros row Hrow; now apply key2_in_range).
  unfold rowCount. apply filter_ext_length. intros row _.
  apply key_is_category; [apply distinct_spec|exact Ha].
Qed.

Lemma column_total (j : nat) (b : cell) :
  categories2 !! j = Some b ->
  list_sum (List.map (fun i => hits data i j) (seq 0 r)) = rowCount data var2 b.
Proof using All.
  intros Hb.
  transitivity (list_sum (List.map
     (fun i => length (List.filter
                         (fun row : Row => isNumber (indexOf categories2 (row !! var2)) j
                                           && isNumber (indexOf categories1 (row !! var1)) i)
                         data)) (seq 0 r))).
  { f_equal. apply List.map_ext. intros i. unfold hits. apply filter_ext_length.
    intros row _. rewrite fallsIn_keys. apply andb_comm. }
  rewrite (partition_by_key _ (fun row : Row => indexOf categories1 (row !! var1)) r data)
    by (intros row Hrow; now apply key1_in_range).
  unfold rowCount. apply filter_ext_length. intros row _.
  apply key_is_category; [apply distinct_spec|exact Hb].
Qed.

Lemma rows_total :
  list_sum (List.map (fun i => list_sum (List.map (hits data i) (seq 0 c))) (seq 0 r))
  = length data.
Proof using All.
  transitivity (list_sum (List.map
     (fun i => length (List.filter
                         (fun row : Row => true
                                           && isNumber (indexOf categories1 (row !! var1)) i)
                         data)) (seq 0 r))).
  { f_equal. apply map_seq_ext. intros i Hi.
    destruct (lookup_lt_is_Some_2 categories1 i Hi) as (a & Ha).
    rewrite (row_total i a Ha). unfold rowCount. apply filter_ext_length. intros row _.
    cbn [andb]. symmetry. apply key_is_category; [apply distinct_spec|exact Ha]. }
  rewrite (partition_by_key _ (fun row : Row => indexOf categories1 (row !! var1)) r data)
    by (intros row Hrow; now apply key1_in_range).
  now rewrite filter_id by reflexivity.
Qed.

Lemma category_occurs (i : nat) (a : cell) :
  categories1 !! i = Some a -> (1 <= rowCount data var1 a)%nat.
Proof using All.
  intros Ha.
  assert (Hin : In a (List.map (fun row : Row => row !! var1) data)).
  { apply (proj1 (distinct_spec _)). apply lookup_In. eauto. }
  apply in_map_iff in Hin as (row & <- & Hrow).
  unfold rowCount.
  destruct (List.filter (fun row0 : Row => sameCell (row0 !! var1) (row !! var1)) data)
    as [|x l] eqn:E; [|simpl; lia].
  assert (Hf : In row (List.filter (fun row0 : Row => sameCell (row0 !! var1) (row !! var1)) data))
    by (apply filter_In; split; [exact Hrow|apply sameCell_refl]).
  rewrite E in Hf. destruct Hf.
Qed.

End Table.

Local Open Scope Q_scope.

(** ** The statistic as a sum over the cells *)

(** The contribution of one cell. *)
Definition contribution (cells : nat * Q) : Q :=
  if ltb 0 (snd cells) then (ofNat (fst cells) - snd cells) ^ 2 / snd cells else 0.

Definition cellsOf (observed : list (list nat)) (expected : list (list Q)) : list (nat * Q) :=
  flat_map (fun rows => combine (fst rows) (snd rows)) (combine observed expected).

Lemma inner_fold (l : list (nat * Q)) : forall a,
  fold_left (fun chiSquare cells =>
               let o := ofNat (fst cells) in
               let e := snd cells in
               if ltb 0 e then chiSquare + (o - e) ^ 2 / e else chiSquare) l a
  == a + sumQ (List.map contribution l).
Proof.
  induction l as [|x l IH]; intros a; [simpl; ring|].
  cbn [fold_left List.map sumQ fold_right]. rewrite IH. fold (sumQ (List.map contribution l)).
  unfold contribution at 2. cbv zeta. destruct (ltb 0 (snd x)); ring.
Qed.

Lemma chiSquareOf_sum (observed : list (list nat)) (expected : list (list Q)) :
  chiSquareOf observed expected == sumQ (List.map contribution (cellsOf observed expected)).
Proof.
  unfold chiSquareOf, cellsOf.
  assert (H : forall (l : list (list nat * list Q)) a,
             fold_left (fun chiSquare rows =>
                          fold_left (fun chiSquare cells =>
                                       let o := ofNat (fst cells) in
                                       let e := snd cells in
                                       if ltb 0 e then chiSquare + (o - e) ^ 2 / e
                                       else chiSquare)
                                    (combine (fst rows) (snd rows)) chiSquare) l a
             == a + sumQ (List.map contribution
                            (flat_map (fun rows => combine (fst rows) (snd rows)) l))).
  { induction l as [|x l IH]; intros a; [simpl; ring|].
    cbn [fold_left flat_map]. rewrite IH, inner_fold, List.map_app, sumQ_app. ring. }
  rewrite H. ring.
Qed.

Lemma contribution_nonneg (cells : nat * Q) : 0 <= contribution cells.
Proof.
  unfold contribution. destruct (ltb 0 (snd cells)) eqn:E; [|qlra].
  apply ltb_lt in E. apply Qle_shift_div_l; [exact E|].
  pose proof (Qsquare_nonneg (ofNat (fst cells) - snd cells)) as H. simpl. qlra.
Qed.

Lemma contribution_zero (o : nat) (e : Q) :
  0 < e -> (contribution (o, e) == 0 <-> ofNat o == e).
Proof.
  intros He. unfold contribution. cbn [fst snd].
  assert (E : ltb 0 e = true) by now apply ltb_lt.
  rewrite E. split.
  - intros H.
    assert (Hsq : (ofNat o - e) * (ofNat o - e) == 0).
    { assert (Hm : (ofNat o - e) * (ofNat o - e) == (ofNat o - e) ^ 2 / e * e)
        by (simpl; field; qlra).
      rewrite Hm, H. ring. }
    assert (Hz : ofNat o - e == 0) by (apply Qsquare_zero; qlra). qlra.
  - intros H. rewrite H. field. qlra.
Qed.

Lemma sumQ_nonneg_zero {A : Type} (f : A -> Q) (l : list A) :
  (forall x, In x l -> 0 <= f x) ->
  0 <= sumQ (List.map f l) /\
  (sumQ (List.map f l) == 0 <-> forall x, In x l -> f x == 0).
Proof.
  induction l as [|x l IH]; intros H.
  - simpl. split; [qlra|]. split; [intros _ y []|reflexivity].
  - assert (Hx : 0 <= f x) by (apply H; now left).
    assert (Hl : forall y, In y l -> 0 <= f y) by (intros y Hy; apply H; now right).
    destruct (IH Hl) as (Hs & Hz). cbn [List.map sumQ fold_right].
    fold (sumQ (List.map f l)). split; [qlra|]. split.
    + intros E y [<-|Hy]; [qlra|]. apply Hz; [qlra|exact Hy].
    + intros E. assert (E1 : f x == 0) by (apply E; now left).
      assert (E2 : sumQ (List.map f l) == 0) by (apply Hz; intros y Hy; apply E; now right).
      qlra.
Qed.

Lemma lookup_combine_Some {A B : Type} (l : list A) : forall (m : list B) i a b,
  combine l m !! i = Some (a, b) <-> l !! i = Some a /\ m !! i = Some b.
Proof.
  induction l as [|x l IH]; intros [|y m] [|i] a b; simpl;
    try (split; [discriminate|intros (H1 & H2); discriminate]).
  - split; [intros [= <- <-]; auto|intros ([= <-] & [= <-]); reflexivity].
  - apply IH.
Qed.

Lemma cells_of_tables (f : nat -> nat -> nat) (g : nat -> nat -> Q) (r c : nat) (cells : nat * Q) :
  In cells (cellsOf (table f r c) (table g r c)) <->
  exists i j, (i < r)%nat /\ (j < c)%nat /\ cells = (f i j, g i j).
Proof.
  unfold cellsOf, table. rewrite in_flat_map. split.
  - intros (rows & Hrows & Hcells).
    apply lookup_In in Hrows as (i & Hi).
    apply lookup_In in Hcells as (j & Hj).
    pose proof (lookup_lt_Some _ _ _ Hi) as Hlt. rewrite length_combine in Hlt.
    rewrite !length_map, !length_seq in Hlt.
    assert (Hrow : rows = (List.map (f i) (seq 0 c), List.map (g i) (seq 0 c))).
    { destruct rows as (os & es).
      apply lookup_combine_Some in Hi as (H1 & H2).
      rewrite map_seq_lookup in H1. rewrite map_seq_lookup in H2.
      destruct (Nat.ltb_spec i r); [|lia]. congruence. }
    subst rows. cbn [fst snd] in Hj.
    destruct cells as (o & e). apply lookup_combine_Some in Hj as (H1 & H2).
    rewrite map_seq_lookup in H1. rewrite map_seq_lookup in H2.
    destruct (Nat.ltb_spec j c) as [Hj|_]; [|discriminate].
    exists i, j. split; [lia|]. split; [exact Hj|]. congruence.
  - intros (i & j & Hi & Hj & ->).
    exists (List.map (f i) (seq 0 c), List.map (g i) (seq 0 c)). split.
    + apply lookup_In. exists i. apply lookup_combine_Some. rewrite !map_seq_lookup.
      destruct (Nat.ltb_spec i r); [auto|lia].
    + cbn [fst snd]. apply lookup_In. exists j. apply lookup_combine_Some.
      rewrite !map_seq_lookup. destruct (Nat.ltb_spec j c); [auto|lia].
Qed.

(** ** The result in closed form *)

Section ClosedForm.
Variable data : list Row.
Variables var1 var2 : string.

Let categories1 := distinct (List.map (fun row : Row => row !! var1) data).
Let categories2 := distinct (List.map (fun row : Row => row !! var2) data).
Let r := length categories1.
Let c := length categories2.
Let cellTotal := hits data var1 var2 data.
Let rowTotal (i : nat) : nat := list_sum (List.map (cellTotal i) (seq 0 c)).
Let colTotal (j : nat) : nat := list_sum (List.map (fun i => cellTotal i j) (seq 0 r)).
Let expectedCell (i j : nat) : Q :=
  ofNat (rowTotal i) * ofNat (colTotal j) / ofNat (length data).

Lemma rowTotals_table : List.map ss_sum (table cellTotal r c) = List.map rowTotal (seq 0 r).
Proof using All.
  unfold table. rewrite List.map_map. apply List.map_ext. intros i. apply ss_sum_list_sum.
Qed.

Lemma colTotals_table : colTotalsOf (table cellTotal r c) c = List.map colTotal (seq 0 c).
Proof using All.
  unfold colTotalsOf. apply map_seq_ext. intros j Hj.
  rewrite fold_add. simpl. unfold colTotal, table. rewrite List.map_map. f_equal.
  apply List.map_ext. intros i. rewrite map_seq_lookup.
  destruct (Nat.ltb_spec j c); [reflexivity|lia].
Qed.

Lemma total_rows : ss_sum (List.map rowTotal (seq 0 r)) = length data.
Proof using All. rewrite ss_sum_list_sum. apply rows_total. Qed.

Lemma expected_table :
  expectedOf (table cellTotal r c) (List.map rowTotal (seq 0 r)) (List.map colTotal (seq 0 c))
             (length data)
  = table expectedCell r c.
Proof using All.
  unfold expectedOf, table. rewrite imap_map_seq. apply map_seq_ext. intros i Hi.
  rewrite imap_map_seq. apply map_seq_ext. intros j Hj.
  rewrite !map_seq_lookup.
  destruct (Nat.ltb_spec i r); [|lia]. destruct (Nat.ltb_spec j c); [|lia]. reflexivity.
Qed.

Lemma run_closed_form (Math_sqrt : Q -> Q) (chisquare_cdf : Q -> Z -> Q) :
  let result := runChiSquareTest Math_sqrt chisquare_cdf data var1 var2 in
  rows result = categories1 /\ columns result = categories2 /\
  observed result = table cellTotal r c /\
  expected result = table expectedCell r c /\
  n result = length data /\
  chiSquare result = chiSquareOf (table cellTotal r c) (table expectedCell r c) /\
  assumptionCheck result
  = checkChiSquareAssumptions (table cellTotal r c) (table expectedCell r c).
Proof using All.
  intros result. unfold result, runChiSquareTest. cbv zeta.
  rewrite (observed_table data var1 var2). fold categories1 categories2 r c cellTotal.
  rewrite rowTotals_table, colTotals_table, total_rows, expected_table.
  cbn [rows columns observed expected n chiSquare assumptionCheck]. repeat split.
Qed.

Lemma expectedCell_positive (i j : nat) : (i < r)%nat -> (j < c)%nat -> 0 < expectedCell i j.
Proof using All.
  intros Hi Hj.
  destruct (lookup_lt_is_Some_2 categories1 i Hi) as (a & Ha).
  destruct (lookup_lt_is_Some_2 categories2 j Hj) as (b & Hb).
  pose proof (row_total data var1 var2 i a Ha) as HR.
  pose proof (column_total data var1 var2 j b Hb) as HC.
  pose proof (category_occurs data var1 var2 i a Ha) as HRpos.
  pose proof (category_occurs data var2 var1 j b Hb) as HCpos.
  pose proof (rows_total data var1 var2) as HN.
  fold categories1 categories2 r c cellTotal in HR, HC, HN. fold (rowTotal i) in HR.
  fold (colTotal j) in HC.
  assert (Hdata : (1 <= length data)%nat).
  { pose proof (List.filter_length_le (fun row : Row => sameCell (row !! var1) a) data) as Hle.
    unfold rowCount in HRpos. lia. }
  unfold expectedCell. rewrite HR, HC.
  pose proof (ofNat_le 1 _ HRpos) as H1. pose proof (ofNat_le 1 _ HCpos) as H2.
  pose proof (ofNat_le 1 _ Hdata) as H3. change (ofNat 1) with 1 in H1, H2, H3.
  apply Qlt_shift_div_l; [qlra|].
  assert (Hp : 0 < ofNat (rowCount data var1 a) * ofNat (rowCount data var2 b))
    by (apply Qmult_lt_0_compat; qlra).
  qlra.
Qed.

End ClosedForm.

Lemma table_concat_In {A : Type} (g : nat -> nat -> A) (r c : nat) (x : A) :
  In x (concat (table g r c)) -> exists i j, (i < r)%nat /\ (j < c)%nat /\ x = g i j.
Proof.
  rewrite in_concat. intros (row & Hrow & Hx).
  apply lookup_In in Hrow as (i & Hi). apply lookup_In in Hx as (j & Hj).
  destruct (table_cell g r c i j row x Hi Hj) as (H1 & H2 & H3). eauto.
Qed.

Lemma sumQ_scale {A : Type} (k : Q) (f : A -> Q) (l : list A) :
  sumQ (List.map (fun x => k * f x) l) == k * sumQ (List.map f l).
Proof.
  induction l as [|x l IH]; simpl; [ring|]. rewrite IH. ring.
Qed.

(** X19.  [runChiSquareTest] on a non-empty data set: the rows and the
    columns of the contingency table are the distinct cells of the two
    variables; the observed count of a cell is the number of data rows with
    that pair of values; every row of the table adds up to the number of
    data rows with its category, which is at least one; the expected
    counts are (row total x column total) / n, are all positive, and add up
    along a row to the row total; n is the number of data rows; the
    statistic is never negative and vanishes exactly when every observed
    count equals its expected count; the degrees of freedom are
    (rows - 1)(columns - 1); and the zero-expectation and the independence
    entries of the assumption check always pass, so that the check as a
    whole passes exactly when the low-expectation entry does. *)
Theorem chi_square_table_adds_up (Math_sqrt : Q -> Q) (chisquare_cdf : Q -> Z -> Q)
  (data : list Row) (var1 var2 : string) :
  data <> [] ->
  let result := runChiSquareTest Math_sqrt chisquare_cdf data var1 var2 in
  (forall a, In a (rows result) <-> exists row, In row data /\ row !! var1 = a) /\
  (forall b, In b (columns result) <-> exists row, In row data /\ row !! var2 = b) /\
  List.NoDup (rows result) /\ List.NoDup (columns result) /\
  n result = length data /\
  df result = ((Z.of_nat (length (rows result)) - 1)
               * (Z.of_nat (length (columns result)) - 1))%Z /\
  (forall i a, rows result !! i = Some a ->
     exists os es,
       observed result !! i = Some os /\ expected result !! i = Some es /\
       list_sum os = rowCount data var1 a /\ (1 <= rowCount data var1 a)%nat /\
       sumQ es == ofNat (rowCount data var1 a) /\
       forall j b, columns result !! j = Some b ->
         os !! j = Some (cellCount data var1 var2 a b) /\
         exists e, es !! j = Some e /\ 0 < e /\
                   e == ofNat (rowCount data var1 a) * ofNat (rowCount data var2 b)
                        / ofNat (length data)) /\
  0 <= chiSquare result /\
  (chiSquare result == 0 <->
   forall i j a b, rows result !! i = Some a -> columns result !! j = Some b ->
     ofNat (cellCount data var1 var2 a b) * ofNat (length data)
     == ofNat (rowCount data var1 a) * ofNat (rowCount data var2 b)) /\
  exists lowExpectedPasses,
    List.map passed (assumptions (assumptionCheck result)) = [lowExpectedPasses; true; true] /\
    allPassed (assumptionCheck result) = lowExpectedPasses.
Proof.
  intros Hdata result.
  destruct (run_closed_form data var1 var2 Math_sqrt chisquare_cdf)
    as (Hrows & Hcols & Hobs & Hexp & Hn & Hchi & Hcheck).
  fold result in Hrows, Hcols, Hobs, Hexp, Hn, Hchi, Hcheck.
  set (categories1 := distinct (List.map (fun row : Row => row !! var1) data)) in *.
  set (categories2 := distinct (List.map (fun row : Row => row !! var2) data)) in *.
  set (r := length categories1) in *. set (c := length categories2) in *.
  set (cellTotal := hits data var1 var2 data) in *.
  set (rowTotal := fun i => list_sum (List.map (cellTotal i) (seq 0 c))) in *.
  set (colTotal := fun j => list_sum (List.map (fun i => cellTotal i j) (seq 0 r))) in *.
  set (expectedCell := fun i j => ofNat (rowTotal i) * ofNat (colTotal j)
                                  / ofNat (length data)) in *.
  assert (Hlen : (1 <= length data)%nat) by (destruct data; [congruence|simpl; lia]).
  pose proof (ofNat_le 1 _ Hlen) as HN. change (ofNat 1) with 1 in HN.
  assert (HR : forall i a, categories1 !! i = Some a -> rowTotal i = rowCount data var1 a)
    by (intros i a Ha; apply (row_total data var1 var2 i a Ha)).
  assert (HC : forall j b, categories2 !! j = Some b -> colTotal j = rowCount data var2 b)
    by (intros j b Hb; apply (column_total data var1 var2 j b Hb)).
  assert (Hcell : forall i j a b, categories1 !! i = Some a -> categories2 !! j = Some b ->
                                  cellTotal i j = cellCount data var1 var2 a b)
    by (intros i j a b Ha Hb; apply (hits_cellCount data var1 var2 i j a b Ha Hb)).
  assert (Hpos : forall i j, (i < r)%nat -> (j < c)%nat -> 0 < expectedCell i j)
    by (intros i j; apply (expectedCell_positive data var1 var2 i j)).
  assert (Hcolsum : list_sum (List.map colTotal (seq 0 c)) = length data).
  { rewrite <- (rows_total data var2 var1). fold categories1 categories2 r c.
    f_equal. apply map_seq_ext. intros j Hj.
    destruct (lookup_lt_is_Some_2 categories2 j Hj) as (b & Hb).
    rewrite (HC j b Hb). symmetry. apply (row_total data var2 var1 j b Hb). }
  rewrite Hrows, Hcols, Hobs, Hexp, Hn, Hchi, Hcheck.
  split; [|split; [|split; [|split; [|split; [|split; [|split; [|split; [|split]]]]]]]].
  - intros a. unfold categories1. rewrite (proj1 (distinct_spec _)), in_map_iff.
    split; intros (row & H1 & H2); exists row; auto.
  - intros b. unfold categories2. rewrite (proj1 (distinct_spec _)), in_map_iff.
    split; intros (row & H1 & H2); exists row; auto.
  - apply distinct_spec.
  - apply distinct_spec.
  - reflexivity.
  - reflexivity.
  - intros i a Ha. pose proof (lookup_lt_Some _ _ _ Ha) as Hi. fold r in Hi.
    exists (List.map (cellTotal i) (seq 0 c)), (List.map (expectedCell i) (seq 0 c)).
    split; [now apply table_row|]. split; [now apply table_row|].
    split; [apply (HR i a Ha)|].
    split; [apply (category_occurs data var1 var2 i a Ha)|].
    split.
    + unfold expectedCell.
      transitivity (sumQ (List.map (fun j => ofNat (rowTotal i) / ofNat (length data)
                                             * ofNat (colTotal j)) (seq 0 c))).
      { apply sumQ_map_ext. intros j _. field. qlra. }
      rewrite sumQ_scale, <- ofNat_list_sum, Hcolsum, (HR i a Ha). field. qlra.
    + intros j b Hb. pose proof (lookup_lt_Some _ _ _ Hb) as Hj. fold c in Hj.
      rewrite !map_seq_lookup. destruct (Nat.ltb_spec j c); [|lia].
      split; [f_equal; now apply Hcell|].
      exists (expectedCell i j). split; [reflexivity|]. split; [now apply Hpos|].
      unfold expectedCell. now rewrite (HR i a Ha), (HC j b Hb).
  - rewrite chiSquareOf_sum. apply sumQ_nonneg_zero. intros x _. apply contribution_nonneg.
  - rewrite chiSquareOf_sum.
    rewrite (proj2 (sumQ_nonneg_zero contribution _
                      (fun x _ => contribution_nonneg x))).
    split.
    + intros Hzero i j a b Ha Hb.
      pose proof (lookup_lt_Some _ _ _ Ha) as Hi. pose proof (lookup_lt_Some _ _ _ Hb) as Hj.
      fold r in Hi. fold c in Hj.
      assert (Hin : In (cellTotal i j, expectedCell i j)
                       (cellsOf (table cellTotal r c) (table expectedCell r c)))
        by (apply cells_of_tables; eauto).
      apply Hzero in Hin. apply contribution_zero in Hin; [|now apply Hpos].
      rewrite (Hcell i j a b Ha Hb) in Hin. rewrite Hin.
      unfold expectedCell. rewrite (HR i a Ha), (HC j b Hb). field. qlra.
    + intros Hind cells Hin. apply cells_of_tables in Hin as (i & j & Hi & Hj & ->).
      apply contribution_zero; [now apply Hpos|].
      destruct (lookup_lt_is_Some_2 categories1 i Hi) as (a & Ha).
      destruct (lookup_lt_is_Some_2 categories2 j Hj) as (b & Hb).
      specialize (Hind i j a b Ha Hb).
      rewrite (Hcell i j a b Ha Hb). fold (rowTotal i). fold (colTotal j).
      rewrite (HR i a Ha), (HC j b Hb).
      set (N := ofNat (length data)) in *.
      assert (E : ofNat (rowCount data var1 a) * ofNat (rowCount data var2 b) / N
                  == ofNat (cellCount data var1 var2 a b) * N / N) by now rewrite Hind.
      rewrite E. field. qlra.
  - unfold checkChiSquareAssumptions. cbv zeta.
    match goal with
    | |- context [existsb ?p ?l] => assert (Hzero : existsb p l = false)
    end.
    { destruct (existsb _ _) eqn:E; [|reflexivity].
      apply existsb_exists in E as (e & He & Hz).
      apply table_concat_In in He as (i & j & Hi & Hj & He).
      apply Qeq_bool_iff in Hz. pose proof (Hpos i j Hi Hj) as Hp.
      change (expectedCell i j) with
        (ofNat (list_sum (List.map (cellTotal i) (seq 0 c)))
         * ofNat (list_sum (List.map (fun i0 => cellTotal i0 j) (seq 0 r)))
         / ofNat (length data)) in Hp.
      rewrite <- He in Hp. qlra. }
    rewrite Hzero. cbn [assumptions allPassed passed List.map negb].
    eexists. split; [reflexivity|]. now rewrite andb_true_r.
Qed.

(** Three answers to two questions. *)
Definition exampleAnswers : list Row :=
  [ {[ "smoker" := "yes"; "sport" := "no" ]};
    {[ "smoker" := "no"; "sport" := "yes" ]};
    {[ "smoker" := "no"; "sport" := "no" ]} ].

Lemma chi_square_table_adds_up_witness :
  let result := runChiSquareTest (fun x => x) (fun _ _ => 0) exampleAnswers "smoker" "sport" in
  n result = length exampleAnswers /\
  0 <= chiSquare result /\
  df result = ((Z.of_nat (length (rows result)) - 1)
               * (Z.of_nat (length (columns result)) - 1))%Z.
Proof.
  destruct (chi_square_table_adds_up (fun x => x) (fun _ _ => 0) exampleAnswers
              "smoker" "sport" ltac:(discriminate))
    as (_ & _ & _ & _ & Hn & Hdf & _ & Hchi & _).
  repeat split; assumption.
Defined.

End ChiSquareProofs.


(** * The Spearman coefficient of data without ties *)

Module SpearmanProofs.
Import NumericSummary RankProofs TieProofs SumFacts RankTests Spearman.
Import ChiSquareProofs (sumQ_nonneg_zero, lookup_combine_Some).
Local Open Scope Q_scope.

(** ** The ranks of distinct values are the numbers 1 to n *)

Lemma distinct_rank (values : list Q) (v : Q) :
  allDistinct values -> In v values -> midrank values v == ofNat (countBelow values v) + 1.
Proof.
  intros Hd Hv. unfold midrank.
  rewrite (proj1 (allDistinct_counts values) Hd v Hv). change (ofNat 1) with 1. field.
Qed.

Lemma sorted_position (values : list Q) (k : nat) (x : Q) :
  allDistinct values ->
  stable_sort (byValue (fun x => x)) values !! k = Some x -> countBelow values x = k.
Proof.
  intros Hd Hk.
  assert (Hin : In x values).
  { apply (Permutation_in _ (stable_sort_perm (byValue (fun x => x)) values)). apply lookup_In. eauto. }
  pose proof (proj1 (tied_positions_range values x k x Hk) (Qeq_refl x)) as Hrange.
  rewrite (proj1 (allDistinct_counts values) Hd x Hin) in Hrange. lia.
Qed.

(** A sum over the values of a function of their rank is the sum over
    the ranks. *)
Lemma sum_over_ranks (values : list Q) (g : nat -> Q) :
  allDistinct values ->
  sumQ (List.map (fun v => g (countBelow values v)) values)
  == sumQ (List.map g (seq 0 (length values))).
Proof.
  intros Hd.
  set (s := stable_sort (byValue (fun x => x)) values).
  assert (Hperm : Permutation s values) by apply stable_sort_perm.
  rewrite <- (sumQ_perm _ _ (Permutation_map (fun v => g (countBelow values v)) Hperm)).
  apply sumQ_pointwise.
  - rewrite !length_map, length_seq. apply Permutation_length, Hperm.
  - intros i a b Ha Hb. rewrite lookup_map in Ha. rewrite lookup_map in Hb.
    destruct (s !! i) as [x|] eqn:Hx; [|discriminate]. injection Ha as <-.
    rewrite (sorted_position values i x Hd Hx).
    destruct (seq 0 (length values) !! i) as [k|] eqn:Hk; [|discriminate].
    injection Hb as <-. apply lookup_seq in Hk as (-> & _). reflexivity.
Qed.

Lemma sum_first_numbers (n : nat) :
  sumQ (List.map (fun k => ofNat k + 1) (seq 0 n)) == ofNat n * (ofNat n + 1) / 2 /\
  sumQ (List.map (fun k => (ofNat k + 1) * (ofNat k + 1)) (seq 0 n))
  == ofNat n * (ofNat n + 1) * (2 * ofNat n + 1) / 6.
Proof.
  induction n as [|n (IH1 & IH2)].
  - simpl. change (ofNat 0) with 0. split; field.
  - rewrite seq_S, !List.map_app, !sumQ_app, IH1, IH2, !ofNat_S. simpl. split; field.
Qed.

(** The ranks of a column of distinct values, as a list of numbers. *)
Lemma distinct_ranks (values : list Q) :
  allDistinct values ->
  exists ranks : list Q,
    calculateRanks values = List.map Some ranks /\
    length ranks = length values /\
    sumQ ranks == ofNat (length values) * (ofNat (length values) + 1) / 2 /\
    sumQ (List.map (fun x => x * x) ranks)
    == ofNat (length values) * (ofNat (length values) + 1) * (2 * ofNat (length values) + 1) / 6.
Proof.
  intros Hd.
  destruct (calculateRanks_total values) as (ranks & Hranks & Hlen & Hmid & Hsum).
  exists ranks. split; [exact Hranks|]. split; [exact Hlen|]. split; [exact Hsum|].
  rewrite <- (proj2 (sum_first_numbers (length values))).
  rewrite <- (sum_over_ranks values (fun k => (ofNat k + 1) * (ofNat k + 1)) Hd).
  apply sumQ_pointwise.
  - now rewrite !length_map.
  - intros i a b Ha Hb. rewrite lookup_map in Ha. rewrite lookup_map in Hb.
    destruct (ranks !! i) as [x|] eqn:Hx; [|discriminate]. injection Ha as <-.
    destruct (values !! i) as [v|] eqn:Hv; [|discriminate]. injection Hb as <-.
    destruct (Hmid i v Hv) as (x' & Hx' & Heq). rewrite Hx in Hx'. injection Hx' as <-.
    rewrite Heq, (distinct_rank values v Hd) by (apply lookup_In; eauto). reflexivity.
Qed.

(** ** Sums over pairs *)

Section Pairs.
Variable l : list (Q * Q).

Let sumX := sumQ (List.map fst l).
Let sumY := sumQ (List.map snd l).
Let sumXX := sumQ (List.map (fun p => fst p * fst p) l).
Let sumYY := sumQ (List.map (fun p => snd p * snd p) l).
Let sumXY := sumQ (List.map (fun p => fst p * snd p) l).

Lemma sum_square_difference :
  sumQ (List.map (fun p => (fst p - snd p) * (fst p - snd p)) l)
  == sumXX + sumYY - 2 * sumXY.
Proof using All.
  unfold sumXX, sumYY, sumXY. clear. induction l as [|p t IH]; simpl; [ring|].
  rewrite IH. ring.
Qed.

Lemma sum_square_sum (k : Q) :
  sumQ (List.map (fun p => (fst p + snd p - k) * (fst p + snd p - k)) l)
  == sumXX + sumYY + 2 * sumXY - 2 * k * (sumX + sumY) + ofNat (length l) * k * k.
Proof using All.
  unfold sumX, sumY, sumXX, sumYY, sumXY. clear. induction l as [|p t IH].
  - simpl. change (ofNat 0) with 0. ring.
  - cbn [List.map sumQ fold_right length]. rewrite ofNat_S.
    fold (sumQ (List.map (fun p => (fst p + snd p - k) * (fst p + snd p - k)) t)).
    rewrite IH. unfold sumQ. ring.
Qed.

Lemma sum_centered_products (m : Q) :
  sumQ (List.map (fun p => (fst p - m) * (snd p - m)) l)
  == sumXY - m * (sumX + sumY) + ofNat (length l) * m * m.
Proof using All.
  unfold sumX, sumY, sumXY. clear. induction l as [|p t IH].
  - simpl. change (ofNat 0) with 0. ring.
  - cbn [List.map sumQ fold_right length]. rewrite ofNat_S.
    fold (sumQ (List.map (fun p => (fst p - m) * (snd p - m)) t)).
    rewrite IH. unfold sumQ. ring.
Qed.

End Pairs.

Lemma map_fst_combine {A B : Type} (a : list A) : forall b : list B,
  length a = length b -> List.map fst (combine a b) = a /\ List.map snd (combine a b) = b.
Proof.
  induction a as [|x a IH]; intros [|y b] Hlen; simpl in *; try discriminate; [auto|].
  destruct (IH b ltac:(lia)) as (-> & ->). auto.
Qed.

Lemma sum_centered_squares (a : list Q) (m : Q) :
  sumQ (List.map (fun x => (x - m) * (x - m)) a)
  == sumQ (List.map (fun x => x * x) a) - 2 * m * sumQ a + ofNat (length a) * m * m.
Proof.
  induction a as [|x a IH].
  - simpl. change (ofNat 0) with 0. ring.
  - cbn [List.map sumQ fold_right length]. rewrite ofNat_S.
    fold (sumQ (List.map (fun x => (x - m) * (x - m)) a)). rewrite IH. unfold sumQ. ring.
Qed.

(** ** The loop that adds the squared differences *)

Lemma rankAt_Some (ranks : list Q) (i : nat) : rankAt (List.map Some ranks) i = ranks !! i.
Proof. unfold rankAt. rewrite lookup_map. now destruct (ranks !! i). Qed.

Lemma sumDSquared_spec (a b : list Q) :
  length a = length b ->
  exists d, sumDSquaredOf (List.map Some a) (List.map Some b) (length a) = Some d /\
            d == sumQ (List.map (fun p => (fst p - snd p) * (fst p - snd p)) (combine a b)).
Proof.
  intros Hlen. unfold sumDSquaredOf.
  assert (H : forall n, (n <= length a)%nat ->
             exists d, fold_left (fun sumDSquared i =>
                          match rankAt (List.map Some a) i, rankAt (List.map Some b) i with
                          | Some x, Some y => plus sumDSquared (Some ((x - y) * (x - y)))
                          | _, _ => None
                          end) (seq 0 n) (Some 0) = Some d /\
                       d == sumQ (List.map (fun p => (fst p - snd p) * (fst p - snd p))
                                           (take n (combine a b)))).
  { intros k. induction k as [|k IH]; intros Hk.
    - exists 0. split; reflexivity.
    - destruct (IH ltac:(lia)) as (d & Hd & Heq).
      destruct (lookup_lt_is_Some_2 a k ltac:(lia)) as (x & Hx).
      destruct (lookup_lt_is_Some_2 b k ltac:(lia)) as (y & Hy).
      rewrite seq_S, fold_left_app, Hd. cbn [fold_left Nat.add].
      rewrite !rankAt_Some, Hx, Hy. cbn [plus].
      eexists. split; [reflexivity|].
      rewrite (take_S_r (combine a b) k (x, y))
        by (apply lookup_combine_Some; auto).
      rewrite List.map_app, sumQ_app, <- Heq. simpl. ring. }
  destruct (H (length a) (Nat.le_refl _)) as (d & Hd & Heq). exists d. split; [exact Hd|].
  rewrite Heq, firstn_all2; [reflexivity|]. rewrite length_combine. lia.
Qed.

Lemma distinct_tieCorrection (values : list Q) :
  allDistinct values -> Qeq_bool (calculateTieCorrection values) 0 = true.
Proof.
  intros Hd. apply Qeq_bool_iff. rewrite calculateTieCorrection_spec.
  unfold tieCorrectionSpec. destruct (length values <? 2)%nat; [reflexivity|].
  rewrite (proj2 (tieSum_zero values) Hd). unfold Qdiv. ring.
Qed.

Lemma pairs_lookup (a b : list Q) (x y : Q) :
  In (x, y) (combine a b) <-> exists i, a !! i = Some x /\ b !! i = Some y.
Proof.
  rewrite lookup_In. split; intros (i & Hi); exists i; now apply lookup_combine_Some.
Qed.

(** X20.  [runSpearmanCorrelation] on two columns of the same length,
    at least two values each and no value twice in either column: both
    tie corrections vanish, so rho is computed from the squared rank
    differences, [rho = 1 - 6 * sumDSquared / (n (n^2 - 1))]; it lies
    between -1 and 1; it is the sum of the products of the centred ranks
    over the sum of the squares of the centred ranks, that is, the Pearson
    correlation of the ranks; it is 1 exactly when both columns rank the
    rows alike, and -1 exactly when one column ranks them in the reverse
    order of the other. *)
Theorem spearman_without_ties
  (Math_sqrt : quotient -> quotient) (studentt_cdf : quotient -> Z -> quotient)
  (ss_sampleCorrelation : list (option Q) -> list (option Q) -> outcome quotient)
  (values numericGroups : list Q) :
  allDistinct values -> allDistinct numericGroups ->
  length values = length numericGroups -> (2 <= length values)%nat ->
  let size := ofNat (length values) in
  let centre := (size + 1) / 2 in
  exists result ranks1 ranks2 d r,
    runSpearmanCorrelation Math_sqrt studentt_cdf ss_sampleCorrelation values numericGroups
    = Ok result /\
    calculateRanks values = List.map Some ranks1 /\
    calculateRanks numericGroups = List.map Some ranks2 /\
    n result = length values /\
    sumDSquared result = Some d /\
    d == sumQ (List.map (fun p => (fst p - snd p) * (fst p - snd p)) (combine ranks1 ranks2)) /\
    rho result = Finite r /\
    r == 1 - 6 * d / (size * (size * size - 1)) /\
    -1 <= r <= 1 /\
    r * sumQ (List.map (fun x => (x - centre) * (x - centre)) ranks1)
    == sumQ (List.map (fun p => (fst p - centre) * (snd p - centre)) (combine ranks1 ranks2)) /\
    0 < sumQ (List.map (fun x => (x - centre) * (x - centre)) ranks1) /\
    (r == 1 <-> forall i a b, ranks1 !! i = Some a -> ranks2 !! i = Some b -> a == b) /\
    (r == -1 <-> forall i a b, ranks1 !! i = Some a -> ranks2 !! i = Some b ->
                               a + b == size + 1).
Proof.
  intros Hd1 Hd2 Hlen Hn size centre.
  destruct (distinct_ranks values Hd1) as (ranks1 & Hr1 & Hl1 & Hs1 & Hq1).
  destruct (distinct_ranks numericGroups Hd2) as (ranks2 & Hr2 & Hl2 & Hs2 & Hq2).
  rewrite <- Hlen in Hs2, Hq2. fold size in Hs1, Hq1, Hs2, Hq2.
  assert (Hll : length ranks1 = length ranks2) by lia.
  destruct (sumDSquared_spec ranks1 ranks2 Hll) as (d & Hd & Hdeq).
  rewrite Hl1 in Hd.
  pose proof (ofNat_le 2 _ Hn) as Hsize. change (ofNat 2) with 2 in Hsize. fold size in Hsize.
  set (denominator := size * (size * size - 1)).
  assert (Hden : 0 < denominator).
  { unfold denominator. apply Qmult_lt_0_compat; [qlra|].
    assert (H : 0 < (size - 1) * (size + 1)) by (apply Qmult_lt_0_compat; qlra).
    assert (E : size * size - 1 == (size - 1) * (size + 1)) by ring. qlra. }
  set (pairs := combine ranks1 ranks2) in *.
  destruct (map_fst_combine ranks1 ranks2 Hll) as (Hfst & Hsnd). fold pairs in Hfst, Hsnd.
  assert (Hpl : length pairs = length values).
  { unfold pairs. rewrite length_combine. lia. }
  assert (HXX : sumQ (List.map (fun p => fst p * fst p) pairs)
                == size * (size + 1) * (2 * size + 1) / 6).
  { rewrite <- Hq1.
    transitivity (sumQ (List.map (fun x => x * x) (List.map fst pairs)));
      [now rewrite List.map_map|now rewrite Hfst]. }
  assert (HYY : sumQ (List.map (fun p => snd p * snd p) pairs)
                == size * (size + 1) * (2 * size + 1) / 6).
  { rewrite <- Hq2.
    transitivity (sumQ (List.map (fun x => x * x) (List.map snd pairs)));
      [now rewrite List.map_map|now rewrite Hsnd]. }
  pose proof (sum_square_difference pairs) as HD.
  pose proof (sum_square_sum pairs (size + 1)) as HE.
  pose proof (sum_centered_products pairs centre) as HC.
  pose proof (sum_centered_squares ranks1 centre) as HV.
  rewrite Hfst, Hsnd, Hs1, Hs2, HXX, HYY, Hpl in HE. fold size in HE.
  rewrite Hfst, Hsnd, Hs1, Hs2, Hpl in HC. fold size in HC.
  rewrite HXX, HYY in HD. rewrite Hq1, Hs1, Hl1 in HV. fold size in HV.
  set (D := sumQ (List.map (fun p => (fst p - snd p) * (fst p - snd p)) pairs)) in *.
  set (E := sumQ (List.map (fun p => (fst p + snd p - (size + 1))
                                     * (fst p + snd p - (size + 1))) pairs)) in *.
  set (C := sumQ (List.map (fun p => (fst p - centre) * (snd p - centre)) pairs)) in *.
  set (V := sumQ (List.map (fun x => (x - centre) * (x - centre)) ranks1)) in *.
  set (XY := sumQ (List.map (fun p => fst p * snd p) pairs)) in *.
  assert (HDnn : 0 <= D /\ (D == 0 <-> forall p, In p pairs ->
                                       (fst p - snd p) * (fst p - snd p) == 0)).
  { apply sumQ_nonneg_zero. intros p _. apply Qsquare_nonneg. }
  assert (HEnn : 0 <= E /\ (E == 0 <-> forall p, In p pairs ->
                    (fst p + snd p - (size + 1)) * (fst p + snd p - (size + 1)) == 0)).
  { apply sumQ_nonneg_zero. intros p _. apply Qsquare_nonneg. }
  destruct HDnn as (HD0 & HDz), HEnn as (HE0 & HEz).
  assert (HVval : V == denominator / 12).
  { rewrite HV. unfold denominator, centre. field. }
  assert (HDE : D + E == denominator * (1 # 3)).
  { rewrite HD, HE. unfold denominator. field. }
  assert (HCD : C == V - D / 2).
  { rewrite HC, HVval, HD. unfold denominator, centre. field. }
  set (r := 1 - 6 * d / denominator).
  assert (Hr : r == 1 - 6 * D / denominator) by (unfold r; now rewrite Hdeq).
  assert (Hscaled : r * denominator == denominator - 6 * D).
  { rewrite Hr. field. qlra. }
  exists {| test := "Spearman Rank Correlation"; rho := Finite r;
            pValue := if (10 <? length values)%nat
                      then times 2 (oneMinus (studentt_cdf
                                      (absolute (tStatistic Math_sqrt (Finite r)
                                                            (length values)))
                                      (Z.of_nat (length values) - 2)%Z))
                      else Finite (estimateSpearmanPValue (Finite r) (length values));
            n := length values; sumDSquared := Some d |}, ranks1, ranks2, d, r.
  split.
  { unfold runSpearmanCorrelation. rewrite Hr1, Hr2, Hd.
    rewrite (distinct_tieCorrection values Hd1), (distinct_tieCorrection numericGroups Hd2).
    cbn [andb option_map bind]. unfold divide.
    destruct (Qeq_bool_iff (ofNat (length values)
                            * (ofNat (length values) * ofNat (length values) - 1)) 0)
      as (Hz & _).
    destruct (Qeq_bool _ 0) eqn:Ez.
    - specialize (Hz eq_refl). fold size in Hz. fold denominator in Hz. qlra.
    - cbn [oneMinus bind]. reflexivity. }
  cbn [n sumDSquared rho].
  split; [exact Hr1|]. split; [exact Hr2|]. split; [reflexivity|]. split; [reflexivity|].
  split; [exact Hdeq|]. split; [reflexivity|]. split; [reflexivity|].
  change (sumQ (List.map (fun x => (x - centre) * (x - centre)) ranks1)) with V.
  change (sumQ (List.map (fun p => (fst p - centre) * (snd p - centre))
                         (combine ranks1 ranks2))) with C.
  clearbody r D E C V XY.
  assert (Hbounds : -1 <= r <= 1).
  { assert (H1 : (1 - r) * denominator == 6 * D) by (rewrite Hr; field; qlra).
    assert (H2 : (r + 1) * denominator == 6 * E)
      by (rewrite Hr; setoid_replace E with (denominator * (1 # 3) - D) using relation Qeq by qlra;
          field; qlra).
    split.
    - destruct (Qlt_le_dec r (-1)) as [Hlt|Hge]; [|exact Hge]. exfalso.
      assert (Hneg : 0 < (- (r + 1)) * denominator) by (apply Qmult_lt_0_compat; qlra).
      assert (Eneg : (- (r + 1)) * denominator == - ((r + 1) * denominator)) by ring. qlra.
    - destruct (Qlt_le_dec 1 r) as [Hlt|Hge]; [|exact Hge]. exfalso.
      assert (Hneg : 0 < (r - 1) * denominator) by (apply Qmult_lt_0_compat; qlra).
      assert (Eneg : (r - 1) * denominator == - ((1 - r) * denominator)) by ring. qlra. }
  split; [exact Hbounds|].
  split.
  { assert (E1 : r * V == r * denominator / 12) by (rewrite HVval; field).
    rewrite E1, Hscaled, HCD, HVval. field. }
  split; [rewrite HVval; apply Qlt_shift_div_l; qlra|].
  split.
  - assert (Hiff : r == 1 <-> D == 0).
    { split; intros H.
      - assert (H6 : 6 * D == 0) by (rewrite H in Hscaled; qlra). qlra.
      - rewrite Hr, H. field. qlra. }
    rewrite Hiff, HDz. split.
    + intros H i a b Ha Hb.
      assert (Hin : In (a, b) pairs) by (apply pairs_lookup; eauto).
      specialize (H _ Hin). cbn [fst snd] in H.
      assert (Hz : a - b == 0) by (apply Qsquare_zero; qlra). qlra.
    + intros H (a & b) Hin. apply pairs_lookup in Hin as (i & Ha & Hb).
      cbn [fst snd]. rewrite (H i a b Ha Hb). ring.
  - assert (Hiff : r == -1 <-> E == 0).
    { split; intros H.
      - assert (H6 : 6 * D == 2 * denominator) by (rewrite H in Hscaled; qlra). qlra.
      - assert (HDv : D == denominator * (1 # 3)) by qlra. rewrite Hr, HDv. field. qlra. }
    rewrite Hiff, HEz. split.
    + intros H i a b Ha Hb.
      assert (Hin : In (a, b) pairs) by (apply pairs_lookup; eauto).
      specialize (H _ Hin). cbn [fst snd] in H.
      assert (Hz : a + b - (size + 1) == 0) by (apply Qsquare_zero; qlra). qlra.
    + intros H (a & b) Hin. apply pairs_lookup in Hin as (i & Ha & Hb).
      cbn [fst snd]. rewrite (H i a b Ha Hb). ring.
Qed.

Lemma spearman_without_ties_witness :
  exists result r,
    runSpearmanCorrelation (fun x => x) (fun x _ => x) (fun _ _ => Ok NaN)
                           [3; 1; 2; 7] [10; 30; 20; 40] = Ok result /\
    rho result = Finite r /\ -1 <= r <= 1.
Proof.
  assert (Hd1 : allDistinct [3; 1; 2; 7]).
  { apply allDistinct_counts. intros v Hv. simpl in Hv.
    repeat (destruct Hv as [<-|Hv]; [reflexivity|]). destruct Hv. }
  assert (Hd2 : allDistinct [10; 30; 20; 40]).
  { apply allDistinct_counts. intros v Hv. simpl in Hv.
    repeat (destruct Hv as [<-|Hv]; [reflexivity|]). destruct Hv. }
  destruct (spearman_without_ties (fun x => x) (fun x _ => x) (fun _ _ => Ok NaN)
              [3; 1; 2; 7] [10; 30; 20; 40] Hd1 Hd2 eq_refl ltac:(simpl; lia))
    as (result & _ & _ & _ & r & Hrun & _ & _ & _ & _ & _ & Hrho & _ & Hbounds & _).
  exists result, r. auto.
Defined.

End SpearmanProofs.


(** * The worker's outlier detection and the main thread's quartiles *)

Module WorkerOutlierProofs.
Import NumericSummary RankProofs PercentileProofs SumFacts QuartileProofs NumericStatsProofs.
Import WorkerChecks.
Local Open Scope Q_scope.








End WorkerOutlierProofs.

(** * The worker's test requests *)

Module WorkerRequestProofs.
Import NumericSummary ParametricTests WorkerRequests.

Definition isNumber {A : Type} (val : option A) : bool :=
  match val with
  | Some _ => true
  | None => false
  end.

Lemma omap_step {A B : Type} (f : A -> option B) (x : A) (l : list A) :
  omap f (x :: l) = match f x with
                    | Some y => y :: omap f l
                    | None => omap f l
                    end.
Proof. reflexivity. Qed.

(** The entries picked at the valid indices are the entries that stand
    beside a number, in order. *)
Lemma pick_from {A B : Type} (values : list (option A)) :
  forall (before array : list B),
    length array = length values ->
    omap (at_index (before ++ array))
         (List.filter (fun idx => negb (idx =? -1)%Z)
            (imap (fun idx val => match val with
                                  | Some _ => Z.of_nat (length before + idx)
                                  | None => (-1)%Z
                                  end) values))
    = List.map fst (List.filter (fun entry => isNumber (snd entry)) (combine array values)).
Proof.
  induction values as [|val values IH]; intros before array Hlen.
  - destruct array; reflexivity.
  - destruct array as [|b array]; [discriminate|].
    injection Hlen as Hlen.
    assert (Hrest :
      imap ((fun idx (val : option A) => match val with
                                         | Some _ => Z.of_nat (length before + idx)
                                         | None => (-1)%Z
                                         end) ∘ S) values
      = imap (fun idx val => match val with
                             | Some _ => Z.of_nat (length (before ++ [b]) + idx)
                             | None => (-1)%Z
                             end) values).
    { apply imap_ext. intros i x _. simpl. rewrite length_app. simpl.
      destruct x; [f_equal; lia|reflexivity]. }
    assert (Harray : before ++ b :: array = (before ++ [b]) ++ array)
      by (rewrite <- app_assoc; reflexivity).
    change (imap ?f (val :: values)) with (f 0%nat val :: imap (f ∘ S) values).
    rewrite Hrest. destruct val as [a|]; cbn [List.filter combine snd isNumber].
    + destruct (Z.eqb_spec (Z.of_nat (length before + 0)) (-1)) as [E|_]; [lia|].
      cbn [negb]. rewrite omap_step.
      assert (Hb : at_index (before ++ b :: array) (Z.of_nat (length before + 0)) = Some b).
      { unfold at_index. destruct (Z.ltb_spec (Z.of_nat (length before + 0)) 0); [lia|].
        rewrite Nat2Z.id, Nat.add_0_r. apply list_lookup_middle. reflexivity. }
      rewrite Hb, Harray, (IH (before ++ [b]) array Hlen). reflexivity.
    + cbn [negb Z.eqb]. rewrite Harray. apply (IH (before ++ [b]) array Hlen).
Qed.

Lemma pick_valid {A B : Type} (array : list B) (values : list (option A)) :
  length array = length values ->
  pick array (validIndicesOf values)
  = List.map fst (List.filter (fun entry => isNumber (snd entry)) (combine array values)).
Proof.
  intros Hlen. exact (pick_from values [] array Hlen).
Qed.

Local Open Scope string_scope.

Section Parsing.
Variable parseFloat : string -> option R.

Definition parsed (row : Row) : option R := parseFloat (measure row).

Lemma valid_values (dataset : list Row) :
  omap (fun val : option R => val)
       (pick (List.map parsed dataset) (validIndicesOf (List.map parsed dataset)))
  = omap parsed dataset.
Proof.
  rewrite pick_valid by reflexivity.
  induction dataset as [|row dataset IH]; [reflexivity|].
  cbn [List.map combine List.filter snd]. rewrite (omap_step parsed).
  destruct (parsed row) as [v|]; cbn [isNumber].
  - cbn [List.map fst]. rewrite omap_step. f_equal. exact IH.
  - exact IH.
Qed.

Lemma numericRows_step (row : Row) (dataset : list Row) :
  numericRows parseFloat (row :: dataset)
  = match parsed row with
    | Some _ => row :: numericRows parseFloat dataset
    | None => numericRows parseFloat dataset
    end.
Proof.
  unfold numericRows, parsed. cbn [List.filter].
  destruct (parseFloat (measure row)); reflexivity.
Qed.

Lemma valid_groups (dataset : list Row) :
  pick (List.map category dataset) (validIndicesOf (List.map parsed dataset))
  = List.map category (numericRows parseFloat dataset).
Proof.
  rewrite pick_valid by (rewrite !length_map; reflexivity).
  induction dataset as [|row dataset IH]; [reflexivity|].
  cbn [List.map combine List.filter snd]. rewrite numericRows_step.
  destruct (parsed row) as [v|]; cbn [isNumber].
  - cbn [List.map fst]. f_equal. exact IH.
  - exact IH.
Qed.

Lemma handleTestRequest_spec (testId : string) (dataset : list Row) :
  handleTestRequest parseFloat testId dataset
  = match dispatch parseFloat testId (omap parsed dataset)
            (List.map category (numericRows parseFloat dataset)) with
    | Ok results => testComplete results
    | Err message => error (testFailed message)
    end.
Proof.
  unfold handleTestRequest. cbv zeta.
  change (List.map (fun row => parseFloat (measure row)) dataset) with (List.map parsed dataset).
  rewrite valid_values, valid_groups. reflexivity.
Qed.

Lemma numericRows_idem (dataset : list Row) :
  numericRows parseFloat (numericRows parseFloat dataset) = numericRows parseFloat dataset.
Proof.
  induction dataset as [|row dataset IH]; [reflexivity|].
  rewrite numericRows_step. destruct (parsed row) as [v|] eqn:E; [|exact IH].
  rewrite numericRows_step, E. f_equal. exact IH.
Qed.

Lemma numericRows_values (dataset : list Row) :
  omap parsed (numericRows parseFloat dataset) = omap parsed dataset.
Proof.
  induction dataset as [|row dataset IH]; [reflexivity|].
  rewrite numericRows_step, (omap_step parsed row dataset).
  destruct (parsed row) as [v|] eqn:E; [|exact IH].
  rewrite omap_step, E. f_equal. exact IH.
Qed.

Lemma aligned (dataset : list Row) :
  combine (omap parsed dataset) (List.map category (numericRows parseFloat dataset))
  = omap (fun row => option_map (fun v => (v, category row)) (parsed row)) dataset.
Proof.
  induction dataset as [|row dataset IH]; [reflexivity|].
  rewrite numericRows_step, !omap_step.
  destruct (parsed row) as [v|]; [|exact IH].
  cbn [List.map combine option_map]. f_equal. exact IH.
Qed.

Lemma same_length (dataset : list Row) :
  length (omap parsed dataset) = length (List.map category (numericRows parseFloat dataset)).
Proof.
  induction dataset as [|row dataset IH]; [reflexivity|].
  rewrite numericRows_step, omap_step.
  destruct (parsed row) as [v|]; [|exact IH].
  cbn [List.map length]. f_equal. exact IH.
Qed.

Lemma unknown_dispatch (testId : string) (validValues : list R) (validGroups : list label) :
  ~ In testId workerTests ->
  dispatch parseFloat testId validValues validGroups = Err (unknownTest testId).
Proof.
  intros Hout. unfold dispatch.
  repeat match goal with
         | |- context [String.eqb testId ?s] =>
             destruct (String.eqb_spec testId s) as [E|_];
             [exfalso; apply Hout; rewrite E; simpl; tauto|]
         end.
  reflexivity.
Qed.

Lemma known_dispatch (testId : string) (validValues : list R) (validGroups : list label)
  (results : Results) :
  dispatch parseFloat testId validValues validGroups = Ok results ->
  In testId workerTests.
Proof.
  intros Hrun. destruct (in_dec string_dec testId workerTests) as [Hin|Hout]; [exact Hin|].
  rewrite (unknown_dispatch _ _ _ Hout) in Hrun. discriminate.
Qed.

End Parsing.

(** X22. The worker runs a test on the rows whose numeric cell parses,
    and on these only: the values and the group labels handed to the
    runner come from the same rows, in order, and the rows whose cell is
    not a number change nothing in the reply.  It answers
    [testComplete] for four test identifiers only; every other
    identifier, among them six of the ten tests of the catalogue, is
    answered with the error of an unknown test, whatever the data.  The
    independent t-test is answered with [testComplete] exactly when the
    rows with a number carry two distinct group labels. *)
Theorem worker_runs_four_tests_on_numeric_rows
  (parseFloat : string -> option R) (testId : string) (dataset : list Row) :
  let validValues := omap (fun row => parseFloat (measure row)) dataset in
  let validGroups := List.map category (numericRows parseFloat dataset) in
  handleTestRequest parseFloat testId dataset
  = match dispatch parseFloat testId validValues validGroups with
    | Ok results => testComplete results
    | Err message => error (testFailed message)
    end /\
  combine validValues validGroups
  = omap (fun row => option_map (fun v => (v, category row)) (parseFloat (measure row))) dataset /\
  length validValues = length validGroups /\
  handleTestRequest parseFloat testId dataset
  = handleTestRequest parseFloat testId (numericRows parseFloat dataset) /\
  (~ In testId workerTests ->
   handleTestRequest parseFloat testId dataset = error (testFailed (unknownTest testId))) /\
  (forall results,
     handleTestRequest parseFloat testId dataset = testComplete results ->
     In testId workerTests) /\
  (forall test,
     In test Recommender.testsDatabase ->
     In (Recommender.id test) workerTests \/
     handleTestRequest parseFloat (Recommender.id test) dataset
     = error (testFailed (unknownTest (Recommender.id test)))) /\
  length (List.filter (fun test => existsb (String.eqb (Recommender.id test)) workerTests)
                      Recommender.testsDatabase) = 4%nat /\
  ((exists results,
      handleTestRequest parseFloat "independent-t-test" dataset = testComplete results) <->
   length (uniqueGroups validGroups) = 2%nat).
Proof.
  intros validValues validGroups.
  assert (Hspec := handleTestRequest_spec parseFloat).
  assert (Halign := aligned parseFloat dataset).
  change (omap (parsed parseFloat) dataset) with validValues in Halign.
  fold validGroups in Halign.
  split; [apply Hspec|].
  split; [exact Halign|].
  split; [apply (same_length parseFloat)|].
  split.
  { rewrite (Hspec testId dataset), (Hspec testId (numericRows parseFloat dataset)).
    rewrite numericRows_idem, numericRows_values. reflexivity. }
  split.
  { intros Hout. rewrite Hspec, (unknown_dispatch parseFloat _ _ _ Hout). reflexivity. }
  split.
  { intros results Hrun. rewrite Hspec in Hrun.
    destruct (dispatch parseFloat testId (omap (parsed parseFloat) dataset)
                (List.map category (numericRows parseFloat dataset))) as [r|m] eqn:E;
      [|discriminate].
    apply (known_dispatch parseFloat _ _ _ _ E). }
  split.
  { intros test Hin.
    destruct (in_dec string_dec (Recommender.id test) workerTests) as [Hknown|Hout];
      [left; exact Hknown|right].
    rewrite Hspec, (unknown_dispatch parseFloat _ _ _ Hout). reflexivity. }
  split; [reflexivity|].
  rewrite Hspec. fold validGroups. change (omap (parsed parseFloat) dataset) with validValues.
  unfold dispatch. cbn [String.eqb Ascii.eqb Bool.eqb].
  unfold TTest.Worker.runIndependentTTest.
  destruct (uniqueGroups validGroups) as [|first [|second [|third rest]]]; cbn [bind length].
  - split; [intros (r & Hr); discriminate|discriminate].
  - split; [intros (r & Hr); discriminate|discriminate].
  - split; [reflexivity|intros _; eexists; reflexivity].
  - split; [intros (r & Hr); discriminate|discriminate].
Qed.

End WorkerRequestProofs.

(** * The application state *)

Module AppStateProofs.
Import JSObject AppState.
Local Open Scope string_scope.

Definition analyzeColumnMissing : string := "DataValidator.analyzeColumn is not a function".
Definition sanitizeInputMissing : string := "DataValidator.sanitizeInput is not a function".

Lemma analyzeColumns_throws rows column columns columnTypes columnStats :
  analyzeColumns rows (column :: columns) columnTypes columnStats = Err analyzeColumnMissing.
Proof. reflexivity. Qed.

Lemma validateRows_plain rows :
  forall i, validateRows i rows = Ok tt -> forallb isPlainObject rows = true.
Proof.
  induction rows as [|element rows IH]; intros i Hrows; [reflexivity|].
  destruct element as [|keys|row]; cbn [validateRows] in Hrows; try discriminate.
  cbn [forallb isPlainObject]. destruct (plain row); [|discriminate].
  apply (IH _ Hrows).
Qed.

Lemma plain_validateRows rows :
  forall i, forallb isPlainObject rows = true -> validateRows i rows = Ok tt.
Proof.
  induction rows as [|element rows IH]; intros i Hrows; [reflexivity|].
  cbn [forallb] in Hrows. apply andb_true_iff in Hrows. destruct Hrows as (Hrow & Hrows).
  destruct element as [|keys|row]; cbn [isPlainObject] in Hrow; try discriminate.
  cbn [validateRows]. rewrite Hrow. apply (IH _ Hrows).
Qed.

(** What the checks of the setter accept. *)
Lemma validateData_accepts rows :
  validateData rows = Ok tt ->
  (N.of_nat (length rows) <= maxRows)%N /\ forallb isPlainObject rows = true.
Proof.
  unfold validateData, exceeds. intros Hrows.
  destruct (N.ltb_spec maxRows (N.of_nat (length rows))) as [|Hle]; [discriminate|].
  split; [exact Hle|].
  destruct rows as [|firstRow rest]; [reflexivity|].
  destruct (keysOf firstRow) as [columns|message]; cbn [bind] in Hrows; [|discriminate].
  destruct (maxColumns <? N.of_nat (length columns))%N; [discriminate|].
  apply (validateRows_plain _ _ Hrows).
Qed.

Definition storedData (s : State) : Prop :=
  match data s with
  | None => True
  | Some rows => (N.of_nat (length rows) <= maxRows)%N /\ forallb isPlainObject rows = true
  end.

Definition storedMetadata (s : State) : Prop :=
  match metadata s with
  | None => True
  | Some m =>
      columns m = [] /\ columnCount m = 0%nat /\ columnTypes m = [] /\ columnStats m = [] /\
      hasNumericData m = false /\ hasCategoricalData m = false /\ (0 < rowCount m)%nat
  end.

Definition noStrings (properties : list (string * Value)) : bool :=
  forallb (fun property => negb (isString (snd property))) properties.

Definition storedResults (s : State) : Prop :=
  match results s with
  | None => True
  | Some properties => noStrings properties = true
  end.

(** The setter of [data] on an array that passes its checks. *)
Lemma setData_accepted now rows s :
  validateData rows = Ok tt ->
  setData now (Some rows) s
  = match rows with
    | [] => ({| data := Some []; metadata := None; results := results s |}, Ok tt)
    | firstRow :: _ =>
        match keysOf firstRow with
        | Ok [] =>
            ({| data := Some rows;
                metadata := Some {| rowCount := length rows; columnCount := 0;
                                    columns := []; columnTypes := []; columnStats := [];
                                    hasNumericData := false; hasCategoricalData := false;
                                    lastUpdated := now |};
                results := results s |}, Ok tt)
        | Ok (_ :: _) =>
            ({| data := Some rows; metadata := metadata s; results := results s |},
             Err analyzeColumnMissing)
        | Err message =>
            ({| data := Some rows; metadata := metadata s; results := results s |}, Err message)
        end
    end.
Proof.
  intros Hrows. unfold setData. rewrite Hrows. unfold updateMetadata. cbn [data results].
  destruct rows as [|firstRow rest]; [reflexivity|].
  destruct (keysOf firstRow) as [[|column columns]|message]; reflexivity.
Qed.

Lemma setData_keeps now newData s :
  storedData s -> storedMetadata s ->
  storedData (fst (setData now newData s)) /\ storedMetadata (fst (setData now newData s)) /\
  results (fst (setData now newData s)) = results s.
Proof.
  intros Hdata Hmeta. destruct newData as [rows|]; [|cbn; auto].
  destruct (validateData rows) as [[]|message] eqn:Hrows;
    [|unfold setData; rewrite Hrows; cbn; auto].
  rewrite (setData_accepted now rows s Hrows).
  pose proof (validateData_accepts rows Hrows) as Hok.
  destruct rows as [|firstRow rest]; [cbn; auto|].
  destruct (keysOf firstRow) as [[|column columns]|message]; cbn [fst];
    (split; [exact Hok|split; [|reflexivity]]); try exact Hmeta.
  unfold storedMetadata. cbn. repeat split. lia.
Qed.

Lemma update_noStrings properties key value :
  noStrings properties = true -> isString value = false ->
  noStrings (update properties key value) = true.
Proof.
  intros Hproperties Hvalue. induction properties as [|[k v] rest IH].
  - cbn. rewrite Hvalue. reflexivity.
  - cbn [noStrings forallb snd] in Hproperties. apply andb_true_iff in Hproperties.
    destruct Hproperties as (Hv & Hrest). cbn [update].
    destruct (String.eqb k key); cbn [noStrings forallb snd].
    + rewrite Hvalue. exact Hrest.
    + rewrite Hv. exact (IH Hrest).
Qed.

Lemma assign_noStrings properties key value :
  noStrings properties = true -> isString value = false ->
  noStrings (assign properties key value) = true.
Proof.
  intros Hproperties Hvalue. unfold assign.
  destruct (String.eqb key "__proto__"); [exact Hproperties|].
  apply update_noStrings; assumption.
Qed.

Lemma sanitizeProperties_noStrings properties :
  forall sanitized stored,
    noStrings sanitized = true ->
    sanitizeProperties properties sanitized = Ok stored ->
    noStrings properties = true /\ noStrings stored = true.
Proof.
  induction properties as [|[key value] rest IH]; intros sanitized stored Hs Hrun.
  - cbn in Hrun. injection Hrun as <-. auto.
  - destruct value as [text|x|]; cbn [sanitizeProperties] in Hrun; [discriminate| |].
    + destruct (IH _ _ (assign_noStrings sanitized key (Num x) Hs eq_refl) Hrun) as (H1 & H2).
      auto.
    + destruct (IH _ _ (assign_noStrings sanitized key Composite Hs eq_refl) Hrun) as (H1 & H2).
      auto.
Qed.

Lemma sanitizeProperties_throws properties :
  forall sanitized,
    noStrings properties = false ->
    sanitizeProperties properties sanitized = Err sanitizeInputMissing.
Proof.
  induction properties as [|[key value] rest IH]; intros sanitized Hstring; [discriminate|].
  destruct value as [text|x|]; cbn [sanitizeProperties]; [reflexivity| |];
    apply IH; exact Hstring.
Qed.

Lemma update_fresh {A : Type} (object : list (string * A)) key value :
  ~ In key (List.map fst object) -> update object key value = (object ++ [(key, value)])%list.
Proof.
  induction object as [|[k v] rest IH]; intros Hfresh; [reflexivity|].
  cbn [update]. destruct (String.eqb_spec k key) as [E|_].
  - exfalso. apply Hfresh. left. exact E.
  - cbn [app]. f_equal. apply IH. intros Hin. apply Hfresh. right. exact Hin.
Qed.

(** Without a string among the values, with keys that are pairwise
    different and none of them [__proto__], the object is copied. *)
Lemma sanitizeProperties_copies properties :
  forall sanitized,
    noStrings properties = true ->
    NoDup (List.map fst (sanitized ++ properties)%list) ->
    ~ In "__proto__" (List.map fst properties) ->
    sanitizeProperties properties sanitized = Ok (sanitized ++ properties)%list.
Proof.
  induction properties as [|[key value] rest IH]; intros sanitized Hvalues Hkeys Hproto.
  - cbn. rewrite app_nil_r. reflexivity.
  - cbn [noStrings forallb snd] in Hvalues. apply andb_true_iff in Hvalues.
    destruct Hvalues as (Hvalue & Hrest).
    assert (Hassign : assign sanitized key value = (sanitized ++ [(key, value)])%list).
    { unfold assign. destruct (String.eqb_spec key "__proto__") as [E|_].
      - exfalso. apply Hproto. left. exact E.
      - apply update_fresh. rewrite map_app in Hkeys. cbn [List.map fst] in Hkeys.
        apply NoDup_remove_2 in Hkeys. intros Hin. apply Hkeys.
        apply in_or_app. left. exact Hin. }
    assert (Hnext : sanitizeProperties rest (assign sanitized key value)
                    = Ok (sanitized ++ (key, value) :: rest)%list).
    { rewrite Hassign.
      replace (sanitized ++ (key, value) :: rest)%list
        with ((sanitized ++ [(key, value)]) ++ rest)%list
        by (rewrite <- app_assoc; reflexivity).
      apply IH; [exact Hrest| |].
      - rewrite <- app_assoc. exact Hkeys.
      - intros Hin. apply Hproto. right. exact Hin. }
    destruct value as [text|x|]; [discriminate| |]; exact Hnext.
Qed.

Lemma setResults_keeps newResults s :
  storedResults s ->
  storedResults (fst (setResults newResults s)) /\
  data (fst (setResults newResults s)) = data s /\
  metadata (fst (setResults newResults s)) = metadata s.
Proof.
  intros Hresults. destruct newResults as [properties|]; [|cbn; auto].
  unfold setResults.
  destruct (sanitizeProperties properties []) as [stored|message] eqn:Hrun; [|cbn; auto].
  cbn [fst data metadata]. split; [|auto].
  unfold storedResults. cbn [results].
  apply (sanitizeProperties_noStrings properties [] stored eq_refl Hrun).
Qed.

Lemma run_keeps calls :
  forall s, storedData s -> storedMetadata s -> storedResults s ->
            storedData (run calls s) /\ storedMetadata (run calls s) /\
            storedResults (run calls s).
Proof.
  induction calls as [|c calls IH]; intros s Hdata Hmeta Hresults; [cbn; auto|].
  change (run (c :: calls) s) with (run calls (call s c)).
  destruct c as [now newData|newResults|]; cbn [call].
  - destruct (setData_keeps now newData s Hdata Hmeta) as (H1 & H2 & H3).
    apply IH; [exact H1|exact H2|]. unfold storedResults. rewrite H3. exact Hresults.
  - destruct (setResults_keeps newResults s Hresults) as (H1 & H2 & H3).
    apply IH; [| |exact H1].
    + unfold storedData. rewrite H2. exact Hdata.
    + unfold storedMetadata. rewrite H3. exact Hmeta.
  - apply IH; exact I.
Qed.

(** X23. The setter of [data] stores an array of at most 100000 plain
    objects, and only such an array.  When the first row has a column,
    the array is stored and then the setter throws the [TypeError] of the
    missing [DataValidator.analyzeColumn], leaving the metadata of the
    data stored before.  It returns normally only for an empty array,
    which clears the metadata, and for rows whose first has no column.
    So, whatever calls are made on a fresh state, the metadata is [null]
    or describes data without a column: it never reports a numeric or a
    categorical column. *)
Theorem data_setter_never_describes_columns (calls : list Call) :
  (match data (run calls initial) with
   | None => True
   | Some rows => (N.of_nat (length rows) <= 100000)%N /\ forallb isPlainObject rows = true
   end) /\
  (match metadata (run calls initial) with
   | None => True
   | Some m =>
       columns m = [] /\ columnCount m = 0%nat /\ columnTypes m = [] /\ columnStats m = [] /\
       hasNumericData m = false /\ hasCategoricalData m = false /\ (0 < rowCount m)%nat
   end) /\
  (forall now s firstRow rest column others,
     validateData (firstRow :: rest) = Ok tt ->
     keysOf firstRow = Ok (column :: others) ->
     setData now (Some (firstRow :: rest)) s
     = ({| data := Some (firstRow :: rest); metadata := metadata s; results := results s |},
        Err "DataValidator.analyzeColumn is not a function")) /\
  (forall now s,
     setData now (Some []) s
     = ({| data := Some []; metadata := None; results := results s |}, Ok tt)) /\
  (forall now rows s s',
     setData now (Some rows) s = (s', Ok tt) ->
     data s' = Some rows /\
     (rows = [] \/ exists firstRow rest, rows = firstRow :: rest /\ keysOf firstRow = Ok [])) /\
  (forall now rows s,
     (100000 < N.of_nat (length rows))%N \/ forallb isPlainObject rows = false ->
     exists message, setData now (Some rows) s = (s, Err message)).
Proof.
  destruct (run_keeps calls initial I I I) as (Hdata & Hmeta & _).
  split; [exact Hdata|]. split; [exact Hmeta|].
  split.
  { intros now s firstRow rest column others Hrows Hkeys.
    rewrite (setData_accepted now _ s Hrows), Hkeys. reflexivity. }
  split; [reflexivity|].
  split.
  { intros now rows s s' Hset.
    destruct (validateData rows) as [[]|message] eqn:Hrows;
      [|unfold setData in Hset; rewrite Hrows in Hset; discriminate].
    rewrite (setData_accepted now rows s Hrows) in Hset.
    destruct rows as [|firstRow rest].
    - injection Hset as <-. auto.
    - destruct (keysOf firstRow) as [[|column columns]|message] eqn:Hkeys;
        [|discriminate|discriminate].
      injection Hset as <-. split; [reflexivity|]. right. eauto. }
  intros now rows s Hbad. unfold setData.
  destruct (validateData rows) as [[]|message] eqn:Hrows; [|eauto].
  exfalso. destruct (validateData_accepts rows Hrows) as (Hlen & Hplain).
  destruct Hbad as [Hlong|Hodd]; [unfold maxRows in Hlen; lia|congruence].
Qed.

(** X24. The setter of [results] throws the [TypeError] of the missing
    [DataValidator.sanitizeInput], and stores nothing, as soon as an own
    property of the new results is a string, as the [test] property of
    the result of every runner is.  Without a string property it stores
    a copy: the same properties when their keys are pairwise different
    and none is [__proto__].  So, whatever calls are made on a fresh
    state, the stored results have no string property. *)
Theorem results_setter_stores_no_string (calls : list Call) :
  (match results (run calls initial) with
   | None => True
   | Some properties => noStrings properties = true
   end) /\
  (forall s properties,
     noStrings properties = false ->
     setResults (Some properties) s
     = (s, Err "DataValidator.sanitizeInput is not a function")) /\
  (forall s properties,
     noStrings properties = true ->
     NoDup (List.map fst properties) ->
     ~ In "__proto__" (List.map fst properties) ->
     setResults (Some properties) s
     = ({| data := data s; metadata := metadata s; results := Some properties |}, Ok tt)) /\
  (forall s properties s',
     setResults (Some properties) s = (s', Ok tt) -> noStrings properties = true) /\
  (forall s, setResults None s = (s, Err notAnObject)).
Proof.
  destruct (run_keeps calls initial I I I) as (_ & _ & Hresults).
  split; [exact Hresults|].
  split.
  { intros s properties Hstring. unfold setResults.
    rewrite (sanitizeProperties_throws properties [] Hstring). reflexivity. }
  split.
  { intros s properties Hvalues Hkeys Hproto. unfold setResults.
    rewrite (sanitizeProperties_copies properties [] Hvalues Hkeys Hproto). reflexivity. }
  split; [|reflexivity].
  intros s properties s' Hset. unfold setResults in Hset.
  destruct (sanitizeProperties properties []) as [stored|message] eqn:Hrun; [|discriminate].
  apply (sanitizeProperties_noStrings properties [] stored eq_refl Hrun).
Qed.

End AppStateProofs.

(** * Validation of the data for a test *)

Module TestValidationProofs.
Import NumericSummary Recommender ChiSquare JSObject TestValidation.

(** The positions of the numbers of an array, counted from [k]. *)
Fixpoint positions {A : Type} (k : nat) (values : list (option A)) : list nat :=
  match values with
  | [] => []
  | Some _ :: rest => k :: positions (S k) rest
  | None :: rest => positions (S k) rest
  end.

Lemma validIndices_from {A : Type} (values : list (option A)) :
  forall k,
    List.filter (fun i => negb (i =? -1)%Z)
      (imap (fun i v => match v with
                        | Some _ => Z.of_nat (k + i)
                        | None => (-1)%Z
                        end) values)
    = List.map Z.of_nat (positions k values).
Proof.
  induction values as [|v values IH]; intros k; [reflexivity|].
  change (imap ?f (v :: values)) with (f 0%nat v :: imap (f ∘ S) values).
  assert (Hrest :
    imap ((fun i (v : option A) => match v with
                                   | Some _ => Z.of_nat (k + i)
                                   | None => (-1)%Z
                                   end) ∘ S) values
    = imap (fun i v => match v with
                       | Some _ => Z.of_nat (S k + i)
                       | None => (-1)%Z
                       end) values).
  { apply imap_ext. intros i x _. simpl. destruct x; [f_equal; lia|reflexivity]. }
  rewrite Hrest. destruct v as [a|]; cbn [List.filter positions List.map].
  - destruct (Z.eqb_spec (Z.of_nat (k + 0)) (-1)) as [E|_]; [lia|].
    cbn [negb]. rewrite Nat.add_0_r, IH. reflexivity.
  - cbn [negb Z.eqb]. apply IH.
Qed.

Lemma validIndices_positions {A : Type} (values : list (option A)) :
  List.filter (fun i => negb (i =? -1)%Z)
    (imap (fun i v => match v with
                      | Some _ => Z.of_nat i
                      | None => (-1)%Z
                      end) values)
  = List.map Z.of_nat (positions 0 values).
Proof. exact (validIndices_from values 0). Qed.

Lemma positions_length {A : Type} (values : list (option A)) :
  forall k, length (positions k values) = length (omap (fun v : option A => v) values).
Proof.
  induction values as [|v values IH]; intros k; [reflexivity|].
  destruct v as [a|]; cbn [positions]; [|apply IH].
  change (omap ?f (Some a :: values)) with (a :: omap f values).
  cbn [length]. f_equal. apply IH.
Qed.

Section Parsing.
Variable Number : Type.
Variable parseFloat : string -> option Number.

Definition parsed (column : string) (row : Row) : option Number :=
  numberOf Number parseFloat (row !! column).

Lemma validation_rows_step column (row : Row) (data : list Row) :
  numericRows Number parseFloat (row :: data) column
  = match parsed column row with
    | Some _ => row :: numericRows Number parseFloat data column
    | None => numericRows Number parseFloat data column
    end.
Proof.
  unfold numericRows, parsed. cbn [List.filter].
  destruct (numberOf Number parseFloat (row !! column)); reflexivity.
Qed.

(** The valid values are the numbers of the rows that have one. *)
Lemma validValues_length column (data : list Row) :
  length (omap (fun v : option Number => v) (List.map (parsed column) data))
  = length (numericRows Number parseFloat data column).
Proof.
  induction data as [|row data IH]; [reflexivity|].
  rewrite validation_rows_step. cbn [List.map].
  destruct (parsed column row) as [v|].
  - change (omap ?f (Some v :: ?l)) with (v :: omap f l). cbn [length]. f_equal. exact IH.
  - exact IH.
Qed.

Lemma validValues_rows column (data : list Row) :
  omap (fun v : option Number => v) (List.map (parsed column) data)
  = omap (parsed column) data.
Proof.
  induction data as [|row data IH]; [reflexivity|].
  cbn [List.map].
  change (omap (parsed column) (row :: data))
    with (match parsed column row with
          | Some v => v :: omap (parsed column) data
          | None => omap (parsed column) data
          end).
  destruct (parsed column row) as [v|].
  - change (omap ?f (Some v :: ?l)) with (v :: omap f l). f_equal. exact IH.
  - exact IH.
Qed.

Lemma validValues_size column (data : list Row) :
  length (omap (parsed column) data) = length (numericRows Number parseFloat data column).
Proof.
  rewrite <- validValues_rows. apply validValues_length.
Qed.

(** The groups read at the valid positions are the groups of the rows
    that have a number. *)
Lemma groups_at_positions column (group : Row -> cell) (data : list Row) :
  forall before : list cell,
    List.map (fun i => match at_index (before ++ List.map group data) i with
                       | Some g => g
                       | None => None
                       end)
             (List.map Z.of_nat (positions (length before) (List.map (parsed column) data)))
    = List.map group (numericRows Number parseFloat data column).
Proof.
  induction data as [|row data IH]; intros before; [reflexivity|].
  rewrite validation_rows_step. cbn [List.map positions].
  assert (Hnext : before ++ group row :: List.map group data
                  = (before ++ [group row]) ++ List.map group data)
    by (rewrite <- app_assoc; reflexivity).
  assert (Hlen : S (length before) = length (before ++ [group row]))
    by (rewrite length_app; simpl; lia).
  destruct (parsed column row) as [v|].
  - cbn [List.map]. f_equal.
    + unfold at_index. destruct (Z.ltb_spec (Z.of_nat (length before)) 0); [lia|].
      rewrite Nat2Z.id, list_lookup_middle by reflexivity. reflexivity.
    + rewrite Hnext, Hlen. apply IH.
  - rewrite Hnext, Hlen. apply IH.
Qed.

Lemma no_groups_at_positions (indices : list nat) :
  List.map (fun i => match at_index (@nil cell) i with
                     | Some g => g
                     | None => None
                     end) (List.map Z.of_nat indices)
  = replicate (length indices) None.
Proof.
  induction indices as [|i indices IH]; [reflexivity|].
  cbn [List.map length replicate]. f_equal; [|exact IH].
  unfold at_index. destruct (Z.of_nat i <? 0)%Z; [reflexivity|].
  rewrite lookup_nil. reflexivity.
Qed.

(** The groups that the routine keeps, for a test with or without
    groups. *)
Definition keptGroups (grouped : bool) (data : list Row)
  (categoricalColumn numericalColumn : string) : list cell :=
  if grouped
  then List.map (fun row : Row => row !! categoricalColumn)
                (numericRows Number parseFloat data numericalColumn)
  else replicate (length (numericRows Number parseFloat data numericalColumn)) None.

Lemma validGroups_rows (grouped : bool) (data : list Row) categoricalColumn numericalColumn :
  List.map (fun i => match at_index (if grouped
                                     then List.map (fun row : Row => row !! categoricalColumn) data
                                     else []) i with
                     | Some g => g
                     | None => None
                     end)
           (validIndicesOf Number
              (List.map (fun row : Row => numberOf Number parseFloat (row !! numericalColumn))
                        data))
  = keptGroups grouped data categoricalColumn numericalColumn.
Proof.
  unfold validIndicesOf, keptGroups.
  change (List.map (fun row : Row => numberOf Number parseFloat (row !! numericalColumn)) data)
    with (List.map (parsed numericalColumn) data).
  rewrite (validIndices_positions (List.map (parsed numericalColumn) data)).
  destruct grouped.
  - apply (groups_at_positions numericalColumn
             (fun row : Row => row !! categoricalColumn) data []).
  - rewrite no_groups_at_positions, positions_length, validValues_length. reflexivity.
Qed.

Lemma keptGroups_length grouped data categoricalColumn numericalColumn :
  length (keptGroups grouped data categoricalColumn numericalColumn)
  = length (numericRows Number parseFloat data numericalColumn).
Proof.
  unfold keptGroups. destruct grouped; [apply length_map|apply length_replicate].
Qed.

(** The routine on a known test and rows whose first has the columns
    that the test needs. *)
Lemma validate_accepted testId test (firstRow : Row) rest categoricalColumn numericalColumn :
  getTestById testId = Some test ->
  (negb (hasColumn firstRow categoricalColumn) && (0 <? minGroups test)%Z = false) ->
  hasColumn firstRow numericalColumn = true ->
  let data := firstRow :: rest in
  let r := validateDataForTest Number parseFloat testId data categoricalColumn numericalColumn in
  let rows := numericRows Number parseFloat data numericalColumn in
  let groups := keptGroups (0 <? minGroups test)%Z data categoricalColumn numericalColumn in
  validValues r = Some (omap (parsed numericalColumn) data) /\
  validGroups r = Some groups /\
  (valid r = true <->
   (minSampleSize test <= Z.of_nat (length rows))%Z /\
   ((0 < minGroups test)%Z -> (minGroups test <= Z.of_nat (length (distinct groups)))%Z)).
Proof.
  intros Htest Hcat Hnum data r rows groups.
  unfold r, validateDataForTest, data. rewrite Htest. cbv beta iota.
  rewrite Hcat, Hnum. cbn [negb app length Nat.ltb Nat.leb]. cbv zeta.
  fold data.
  rewrite (validGroups_rows (0 <? minGroups test)%Z data categoricalColumn numericalColumn).
  fold groups.
  change (List.map (fun row : Row => numberOf Number parseFloat (row !! numericalColumn)) data)
    with (List.map (parsed numericalColumn) data).
  rewrite validValues_rows.
  assert (Hsize : length (omap (parsed numericalColumn) data) = length rows).
  { apply validValues_size. }
  rewrite Hsize. cbn [validValues validGroups valid].
  split; [reflexivity|]. split; [reflexivity|].
  destruct (Z.ltb_spec (Z.of_nat (length rows)) (minSampleSize test)) as [Hsmall|Hlarge];
    destruct (Z.ltb_spec 0 (minGroups test)) as [Hgrouped|Hfree]; cbn [app fst].
  - destruct (Z.of_nat (length (distinct groups)) <? minGroups test)%Z;
      cbn [app length Nat.eqb];
      (split; [discriminate|intros (H & _); lia]).
  - cbn [app length Nat.eqb]. split; [discriminate|intros (H & _); lia].
  - destruct (Z.ltb_spec (Z.of_nat (length (distinct groups))) (minGroups test)) as [Hfew|Hmany];
      cbn [app length Nat.eqb].
    + split; [discriminate|intros (_ & H); specialize (H Hgrouped); lia].
    + split; [intros _; split; [exact Hlarge|intros _; exact Hmany]|reflexivity].
  - cbn [app length Nat.eqb].
    split; [intros _; split; [exact Hlarge|intros H; lia]|reflexivity].
Qed.

Lemma validate_rejected testId test (firstRow : Row) rest categoricalColumn numericalColumn :
  getTestById testId = Some test ->
  (negb (hasColumn firstRow categoricalColumn) && (0 <? minGroups test)%Z = true) \/
  hasColumn firstRow numericalColumn = false ->
  let r := validateDataForTest Number parseFloat testId (firstRow :: rest)
             categoricalColumn numericalColumn in
  valid r = false /\ validValues r = None /\ validGroups r = None.
Proof.
  intros Htest Hmissing r. unfold r, validateDataForTest. rewrite Htest.
  destruct (negb (hasColumn firstRow categoricalColumn) && (0 <? minGroups test)%Z);
    destruct (hasColumn firstRow numericalColumn); cbn; auto.
  destruct Hmissing; discriminate.
Qed.

End Parsing.

(** X25. [validateDataForTest] accepts the data exactly when the test is
    in the catalogue, there is a row, the first row has the numeric
    column and, for a test on groups, the categorical column, the rows
    whose numeric cell parses are at least [minSampleSize], and for a
    test on groups their group labels are at least [minGroups]: the rows
    without a number count for nothing, and neither the sizes of the
    groups nor [maxGroups] can make it reject.  When it returns the valid
    values and groups, the values are the numbers of these rows in order,
    and the groups are their labels, one for each value (for a test
    without groups, [undefined] for each value). *)
Theorem validateDataForTest_counts_numeric_rows
  (Number : Type) (parseFloat : string -> option Number)
  (testId : string) (data : list Row) (categoricalColumn numericalColumn : string) :
  let r := validateDataForTest Number parseFloat testId data categoricalColumn numericalColumn in
  let rows := numericRows Number parseFloat data numericalColumn in
  (valid r = true <->
   exists test firstRow rest,
     getTestById testId = Some test /\ data = firstRow :: rest /\
     ((0 < minGroups test)%Z -> hasColumn firstRow categoricalColumn = true) /\
     hasColumn firstRow numericalColumn = true /\
     (minSampleSize test <= Z.of_nat (length rows))%Z /\
     ((0 < minGroups test)%Z ->
      (minGroups test
       <= Z.of_nat (length (distinct (List.map (fun row : Row => row !! categoricalColumn)
                                               rows))))%Z)) /\
  (valid r = true -> errors r = []) /\
  (forall values groups,
     validValues r = Some values -> validGroups r = Some groups ->
     values = omap (fun row : Row => numberOf Number parseFloat (row !! numericalColumn)) data /\
     length values = length rows /\ length groups = length rows /\
     exists test,
       getTestById testId = Some test /\
       groups = if (0 <? minGroups test)%Z
                then List.map (fun row : Row => row !! categoricalColumn) rows
                else replicate (length rows) None).
Proof.
  intros r rows.
  destruct (getTestById testId) as [test|] eqn:Htest.
  2: { unfold r, validateDataForTest. rewrite Htest. cbn.
       split; [split; [discriminate|intros (t & _ & _ & H & _); discriminate]|].
       split; [discriminate|intros values groups H; discriminate]. }
  destruct data as [|firstRow rest].
  { unfold r, validateDataForTest. rewrite Htest. cbn.
    split; [split; [discriminate|intros (t & f & l & _ & H & _); discriminate]|].
    split; [discriminate|intros values groups H; discriminate]. }
  destruct (negb (hasColumn firstRow categoricalColumn) && (0 <? minGroups test)%Z) eqn:Hcat.
  { destruct (validate_rejected Number parseFloat testId test firstRow rest categoricalColumn
                numericalColumn Htest (or_introl Hcat)) as (Hv & Hvalues & Hgroups).
    fold r in Hv, Hvalues, Hgroups.
    split; [split|].
    - rewrite Hv. discriminate.
    - intros (t & f & l & Ht & Hd & Hc & _). exfalso.
      injection Hd as <- <-. assert (t = test) by congruence. subst t.
      apply andb_true_iff in Hcat. destruct Hcat as (Hno & Hgrouped).
      apply Z.ltb_lt in Hgrouped. rewrite (Hc Hgrouped) in Hno. discriminate.
    - split; [rewrite Hv; discriminate|intros values groups H; congruence]. }
  destruct (hasColumn firstRow numericalColumn) eqn:Hnum.
  2: { destruct (validate_rejected Number parseFloat testId test firstRow rest categoricalColumn
                   numericalColumn Htest (or_intror Hnum)) as (Hv & Hvalues & Hgroups).
       fold r in Hv, Hvalues, Hgroups.
       split; [split|].
       - rewrite Hv. discriminate.
       - intros (t & f & l & _ & Hd & _ & Hn & _). exfalso.
         injection Hd as <- <-. congruence.
       - split; [rewrite Hv; discriminate|intros values groups H; congruence]. }
  destruct (validate_accepted Number parseFloat testId test firstRow rest categoricalColumn
              numericalColumn Htest Hcat Hnum) as (Hvalues & Hgroups & Hvalid).
  fold r rows in Hvalues, Hgroups, Hvalid.
  assert (Hkept : forall Hgrouped : (0 < minGroups test)%Z,
            keptGroups Number parseFloat (0 <? minGroups test)%Z (firstRow :: rest)
                       categoricalColumn numericalColumn
            = List.map (fun row : Row => row !! categoricalColumn) rows).
  { intros Hgrouped. unfold keptGroups.
    destruct (Z.ltb_spec 0 (minGroups test)); [reflexivity|lia]. }
  split; [split|].
  - intros Hv. apply Hvalid in Hv. destruct Hv as (Hsize & Hcount).
    exists test, firstRow, rest. split; [reflexivity|]. split; [reflexivity|].
    split.
    { intros Hgrouped. apply Z.ltb_lt in Hgrouped. rewrite Hgrouped, andb_true_r in Hcat.
      destruct (hasColumn firstRow categoricalColumn); [reflexivity|discriminate]. }
    split; [exact Hnum|]. split; [exact Hsize|].
    intros Hgrouped. rewrite <- (Hkept Hgrouped). apply (Hcount Hgrouped).
  - intros (t & f & l & Ht & Hd & _ & _ & Hsize & Hcount).
    assert (t = test) by congruence. subst t.
    apply Hvalid. split; [exact Hsize|].
    intros Hgrouped. rewrite (Hkept Hgrouped). apply (Hcount Hgrouped).
  - split.
    + unfold r, validateDataForTest. rewrite Htest, Hcat, Hnum.
      cbn [negb app length Nat.ltb Nat.leb]. cbv zeta. cbn [valid errors].
      intros Hv. apply Nat.eqb_eq in Hv. apply length_zero_iff_nil. exact Hv.
    + intros values groups Hv Hg. rewrite Hvalues in Hv. rewrite Hgroups in Hg.
      injection Hv as <-. injection Hg as <-.
      split; [reflexivity|].
      split.
      { exact (validValues_size Number parseFloat numericalColumn (firstRow :: rest)). }
      split.
      { exact (keptGroups_length Number parseFloat (0 <? minGroups test)%Z (firstRow :: rest)
                 categoricalColumn numericalColumn). }
      exists test. split; [reflexivity|reflexivity].
Qed.

End TestValidationProofs.

(** * The worker's assumption checks *)

Module WorkerAssumptionProofs.
Import NumericSummary RankTests RankProofs SumFacts GroupFacts NumericStatsProofs.
Import WorkerChecks WorkerAssumptions.
Local Open Scope Q_scope.

(** ** Normality *)

Lemma shapiroWilk_p_value (W : Q) (n : nat) :
  0.9 <= W ->
  let p := calculateShapiroWilkPValue W n in
  (p = 0.9 \/ p = 0.5 \/ p = 0.1) /\ 0.05 < p.
Proof.
  intros Hlow. unfold calculateShapiroWilkPValue.
  destruct (ltb 0.95 W) eqn:E1; [split; [auto|reflexivity]|].
  destruct (ltb 0.9 W) eqn:E2; [split; [auto|reflexivity]|].
  destruct (ltb 0.85 W) eqn:E3; [split; [auto|reflexivity]|].
  exfalso. assert (H : 0.85 < W) by qlra.
  apply ltb_lt in H. congruence.
Qed.

(** ** The variance of a group *)

Definition average (group : list Q) : Q := sumQ group / ofNat (length group).

Definition spread (group : list Q) : Q :=
  sumQ (List.map (fun val => (val - average group) ^ 2) group) / ofNat (length group).

Lemma fold_squares (m : Q) (l : list Q) :
  forall a, fold_left (fun sum val => sum + (val - m) ^ 2) l a
            == a + sumQ (List.map (fun val => (val - m) ^ 2) l).
Proof.
  induction l as [|x l IH]; intros a; cbn [fold_left List.map].
  - change (sumQ []) with 0. ring.
  - rewrite IH. change (sumQ (?y :: ?t)) with (y + sumQ t). ring.
Qed.

Lemma fold_squares_compat (m m' : Q) (l : list Q) :
  m == m' ->
  sumQ (List.map (fun val => (val - m) ^ 2) l) == sumQ (List.map (fun val => (val - m') ^ 2) l).
Proof.
  intros E. apply sumQ_map_ext. intros x _. rewrite E. reflexivity.
Qed.

Lemma size_positive {A : Type} (l : list A) : l <> [] -> 0 < ofNat (length l).
Proof.
  intros Hne. destruct l as [|x l]; [congruence|].
  cbn [length]. rewrite ofNat_S.
  assert (H : 0 <= ofNat (length l)) by (apply (ofNat_le 0); lia). qlra.
Qed.

Lemma varianceOf_spec (group : list Q) :
  group <> [] -> exists v, varianceOf group = Some v /\ v == spread group.
Proof.
  intros Hne. unfold varianceOf, mean. destruct group as [|x rest] eqn:E; [congruence|].
  rewrite <- E in *. eexists. split; [reflexivity|].
  pose proof (size_positive group Hne) as Hn.
  assert (Hmean : fold_left (fun sum val => sum + val) group 0 / ofNat (length group)
                  == average group).
  { unfold average. rewrite (fold_total group 0). apply Qdiv_comp; [ring|reflexivity]. }
  unfold spread. rewrite fold_squares.
  rewrite (fold_squares_compat _ _ group Hmean).
  apply Qdiv_comp; [ring|reflexivity].
Qed.

Lemma varianceOf_empty : varianceOf [] = None.
Proof. reflexivity. Qed.

Lemma varianceOf_defined (group : list Q) (v : Q) :
  varianceOf group = Some v -> group <> [] /\ v == spread group.
Proof.
  intros Hv. destruct group as [|x rest]; [discriminate|].
  split; [discriminate|].
  destruct (varianceOf_spec (x :: rest) ltac:(discriminate)) as (w & Hw & E).
  congruence.
Qed.

Lemma spread_nonneg (group : list Q) : group <> [] -> 0 <= spread group.
Proof.
  intros Hne. unfold spread. pose proof (size_positive group Hne) as Hn.
  pose proof (sumQ_squares_nonneg group (average group)) as Hs.
  apply Qle_shift_div_l; [exact Hn|]. qlra.
Qed.

Lemma spread_constant (group : list Q) (c : Q) :
  group <> [] -> (forall x, In x group -> x == c) -> spread group == 0.
Proof.
  intros Hne Hall. pose proof (size_positive group Hne) as Hn.
  assert (Hsum : sumQ group == ofNat (length group) * c).
  { clear Hne Hn. induction group as [|x l IH].
    - change (sumQ []) with 0. change (ofNat (length (@nil Q))) with 0. ring.
    - change (sumQ (x :: l)) with (x + sumQ l). cbn [length]. rewrite ofNat_S.
      rewrite (Hall x) by (left; reflexivity).
      rewrite IH by (intros y Hy; apply Hall; right; exact Hy). ring. }
  assert (Hmean : average group == c).
  { unfold average. rewrite Hsum. field. qlra. }
  assert (Hzero : sumQ (List.map (fun val => (val - average group) ^ 2) group) == 0).
  { apply sumQ_squares_zero. intros x Hx. rewrite Hmean. apply Hall. exact Hx. }
  unfold spread. rewrite Hzero. field. qlra.
Qed.

(** ** The largest and the smallest variance *)

Lemma larger_spec (a b : Q) :
  (larger a b = a \/ larger a b = b) /\ a <= larger a b /\ b <= larger a b.
Proof.
  unfold larger. destruct (ltb a b) eqn:E.
  - apply ltb_lt in E. split; [auto|split; qlra].
  - assert (H : ~ a < b) by (rewrite <- ltb_lt; congruence). split; [auto|split; qlra].
Qed.

Lemma smaller_spec (a b : Q) :
  (smaller a b = a \/ smaller a b = b) /\ smaller a b <= a /\ smaller a b <= b.
Proof.
  unfold smaller. destruct (ltb b a) eqn:E.
  - apply ltb_lt in E. split; [auto|split; qlra].
  - assert (H : ~ b < a) by (rewrite <- ltb_lt; congruence). split; [auto|split; qlra].
Qed.

Lemma largest_spec (rest : list Q) :
  forall x, In (fold_left larger rest x) (x :: rest) /\
            forall y, In y (x :: rest) -> y <= fold_left larger rest x.
Proof.
  induction rest as [|z rest IH]; intros x; cbn [fold_left].
  - split; [left; reflexivity|]. intros y [<-|[]]. qlra.
  - destruct (IH (larger x z)) as (Hin & Hmax).
    destruct (larger_spec x z) as (Hcase & Hx & Hz).
    split.
    + destruct Hin as [E|Hin]; [|right; right; exact Hin].
      rewrite <- E. destruct Hcase as [-> | ->]; [left|right; left]; reflexivity.
    + intros y [<-|[<-|Hy]].
      * apply (Qle_trans _ _ _ Hx). apply Hmax. left. reflexivity.
      * apply (Qle_trans _ _ _ Hz). apply Hmax. left. reflexivity.
      * apply Hmax. right. exact Hy.
Qed.

Lemma smallest_spec (rest : list Q) :
  forall x, In (fold_left smaller rest x) (x :: rest) /\
            forall y, In y (x :: rest) -> fold_left smaller rest x <= y.
Proof.
  induction rest as [|z rest IH]; intros x; cbn [fold_left].
  - split; [left; reflexivity|]. intros y [<-|[]]. qlra.
  - destruct (IH (smaller x z)) as (Hin & Hmin).
    destruct (smaller_spec x z) as (Hcase & Hx & Hz).
    split.
    + destruct Hin as [E|Hin]; [|right; right; exact Hin].
      rewrite <- E. destruct Hcase as [-> | ->]; [left|right; left]; reflexivity.
    + intros y [<-|[<-|Hy]].
      * apply (Qle_trans _ _ _ (Hmin _ (or_introl eq_refl)) Hx).
      * apply (Qle_trans _ _ _ (Hmin _ (or_introl eq_refl)) Hz).
      * apply Hmin. right. exact Hy.
Qed.

Lemma numbersOf_Some {A : Type} (f : A -> option Q) (l : list A) (numbers : list Q) :
  numbersOf (List.map f l) = Some numbers ->
  (forall x, In x l -> exists v, f x = Some v /\ In v numbers) /\
  (forall v, In v numbers -> exists x, In x l /\ f x = Some v).
Proof.
  revert numbers. induction l as [|x l IH]; intros numbers Hrun; cbn [List.map numbersOf] in Hrun.
  - injection Hrun as <-. split; [intros x []|intros v []].
  - destruct (f x) as [v|] eqn:Ex; [|discriminate].
    destruct (numbersOf (List.map f l)) as [rest|] eqn:El; [|discriminate].
    injection Hrun as <-. destruct (IH rest eq_refl) as (H1 & H2).
    split.
    + intros y [<-|Hy].
      * exists v. split; [exact Ex|left; reflexivity].
      * destruct (H1 y Hy) as (w & Hw & Hin). exists w. split; [exact Hw|right; exact Hin].
    + intros w [<-|Hw].
      * exists x. split; [left; reflexivity|exact Ex].
      * destruct (H2 w Hw) as (y & Hy & Ey). exists y. split; [right; exact Hy|exact Ey].
Qed.

Lemma numbersOf_None {A : Type} (f : A -> option Q) (l : list A) :
  numbersOf (List.map f l) = None -> exists x, In x l /\ f x = None.
Proof.
  induction l as [|x l IH]; intros Hrun; cbn [List.map numbersOf] in Hrun; [discriminate|].
  destruct (f x) as [v|] eqn:Ex; [|exists x; split; [left; reflexivity|exact Ex]].
  destruct (numbersOf (List.map f l)) as [rest|] eqn:El; [discriminate|].
  destruct (IH eq_refl) as (y & Hy & Ey). exists y. split; [right; exact Hy|exact Ey].
Qed.

Section Homogeneity.
Variable values : list Q.
Variable groups : list label.

Definition varianceIn (group : label) : option Q :=
  varianceOf (groupValues values groups group).

(** No group is without a variance or constant, and no variance reaches
    four times another. *)
Definition comparable : Prop :=
  forall g h, In g groups -> In h groups ->
    exists a b, varianceIn g = Some a /\ varianceIn h = Some b /\ 0 < b /\ a < 4 * b.

Lemma passed_comparable :
  groups <> [] ->
  (passed (homogeneityOf values groups) = true <-> comparable).
Proof using Type.
  intros Hne. unfold homogeneityOf. cbv zeta. cbn [passed].
  rewrite map_map. fold varianceIn.
  change (List.map (fun x => varianceOf (groupValues values groups x)) (uniqueGroups groups))
    with (List.map varianceIn (uniqueGroups groups)).
  assert (Hsome : exists g, In g (uniqueGroups groups)).
  { destruct groups as [|g gs]; [congruence|]. exists g. apply uniqueGroups_In. left. reflexivity. }
  unfold Math_max, Math_min.
  destruct (numbersOf (List.map varianceIn (uniqueGroups groups))) as [numbers|] eqn:Hnum.
  2: { destruct (numbersOf_None _ _ Hnum) as (g & Hg & Eg).
       cbn [ratioOf below]. split; [discriminate|].
       intros Hall. apply (proj1 (uniqueGroups_In _ _)) in Hg.
       destruct (Hall g g Hg Hg) as (a & b & Ha & _). congruence. }
  destruct (numbersOf_Some _ _ _ Hnum) as (Hto & Hfrom).
  destruct numbers as [|x rest].
  { destruct Hsome as (g & Hg). destruct (Hto g Hg) as (v & _ & []). }
  destruct (largest_spec rest x) as (Hmax_in & Hmax).
  destruct (smallest_spec rest x) as (Hmin_in & Hmin).
  set (largest := fold_left larger rest x) in *.
  set (smallest := fold_left smaller rest x) in *.
  assert (Hpos : forall v, In v (x :: rest) -> 0 <= v).
  { intros v Hv. destruct (Hfrom v Hv) as (g & _ & Eg).
    destruct (varianceOf_defined _ _ Eg) as (Hgroup & E).
    rewrite E. apply spread_nonneg. exact Hgroup. }
  pose proof (Hpos _ Hmin_in) as Hsmall.
  pose proof (Hpos _ Hmax_in) as Hlarge.
  cbn [ratioOf]. unfold divide.
  destruct (Qeq_bool smallest 0) eqn:Ezero.
  - apply Qeq_bool_iff in Ezero.
    assert (Hfalse : below (if ltb 0 largest then PlusInfinity
                            else if ltb largest 0 then MinusInfinity else NaN) 4 = false).
    { destruct (ltb 0 largest) eqn:E1; [reflexivity|].
      destruct (ltb largest 0) eqn:E2; [|reflexivity].
      apply ltb_lt in E2. qlra. }
    rewrite Hfalse. split; [discriminate|].
    intros Hall. exfalso.
    destruct (Hfrom _ Hmin_in) as (h & Hh & Eh). apply (proj1 (uniqueGroups_In _ _)) in Hh.
    destruct (Hall h h Hh Hh) as (a & b & _ & Hb & Hb0 & _).
    assert (b = smallest) by congruence. subst b. qlra.
  - assert (Hnz : ~ smallest == 0) by (rewrite <- Qeq_bool_iff; congruence).
    assert (Hs : 0 < smallest) by qlra.
    cbn [below]. rewrite ltb_lt.
    split.
    + intros Hratio g h Hg Hh.
      apply (proj2 (uniqueGroups_In _ _)) in Hg. apply (proj2 (uniqueGroups_In _ _)) in Hh.
      destruct (Hto g Hg) as (a & Ea & Ha). destruct (Hto h Hh) as (b & Eb & Hb).
      exists a, b. split; [exact Ea|]. split; [exact Eb|].
      pose proof (Hmax a Ha) as H1. pose proof (Hmin b Hb) as H2.
      assert (E : largest / smallest * smallest == largest) by (field; exact Hnz).
      pose proof (Qmult_lt_compat_r _ _ _ Hs Hratio) as H3. rewrite E in H3.
      split; qlra.
    + intros Hall.
      destruct (Hfrom _ Hmax_in) as (g & Hg & Eg). apply (proj1 (uniqueGroups_In _ _)) in Hg.
      destruct (Hfrom _ Hmin_in) as (h & Hh & Eh). apply (proj1 (uniqueGroups_In _ _)) in Hh.
      destruct (Hall g h Hg Hh) as (a & b & Ea & Eb & _ & Hab).
      assert (a = largest) by congruence. assert (b = smallest) by congruence. subst a b.
      apply Qlt_shift_div_r; [exact Hs|exact Hab].
Qed.

End Homogeneity.

(** A group with one observation has no spread. *)
Lemma spread_single (x : Q) : spread [x] == 0.
Proof.
  apply (spread_constant [x] x); [discriminate|].
  intros y [<-|[]]. reflexivity.
Qed.

(** X26. The worker's assumption checks.  Its normality check, for 3 to
    5000 values, returns as statistic the number it has drawn between
    0.9 and 1 and a p-value of 0.9, 0.5 or 0.1, always above 0.05: the
    result does not depend on the values; outside this range of sizes
    it returns [null].  Its homogeneity check passes when the ratio of
    the largest to the smallest group variance is a number below 4; it
    fails as soon as a group has a single observation, so that it
    passes only when every group has at least two.  Each of the three
    results is there exactly when its check is asked for, the
    homogeneity check also needing a group label. *)
Theorem worker_assumption_checks
  (drawn : Q) (values : list Q) (groups : list label) (checks : Checks) :
  ((3 <= length values <= 5000)%nat -> 0.9 <= drawn -> drawn <= 1 ->
   exists result,
     shapiroWilk drawn values = Some result /\
     statistic result = drawn /\
     (pValue result = 0.9 \/ pValue result = 0.5 \/ pValue result = 0.1) /\
     0.05 < pValue result /\
     forall others, (3 <= length others <= 5000)%nat ->
                    shapiroWilk drawn others = Some result) /\
  ((length values < 3)%nat \/ (5000 < length values)%nat ->
   shapiroWilk drawn values = None) /\
  passed (homogeneityOf values groups) = below (varianceRatio (homogeneityOf values groups)) 4 /\
  (forall g,
     In g groups -> length (groupValues values groups g) = 1%nat ->
     passed (homogeneityOf values groups) = false) /\
  (passed (homogeneityOf values groups) = true ->
   forall g, In g groups -> (2 <= length (groupValues values groups g))%nat) /\
  handleAssumptionsCheck drawn values (Some groups) checks
  = {| normality := if checkNormality checks then Some (shapiroWilk drawn values) else None;
       homogeneity := if checkHomogeneity checks && negb (length groups =? 0)%nat
                      then Some (homogeneityOf values groups) else None;
       outliers := if checkOutliers checks then Some (detectOutliers values) else None |}.
Proof.
  assert (Htwo : passed (homogeneityOf values groups) = true ->
                 forall g, In g groups -> (2 <= length (groupValues values groups g))%nat).
  { intros Hpassed g Hg.
    assert (Hne : groups <> []) by (intros E; rewrite E in Hg; destruct Hg).
    apply (passed_comparable values groups Hne) in Hpassed.
    destruct (Hpassed g g Hg Hg) as (u & v & _ & Ev & Hv & _). unfold varianceIn in Ev.
    destruct (varianceOf_defined _ _ Ev) as (Hgroup & E).
    destruct (groupValues values groups g) as [|x [|y rest]]; [congruence| |cbn [length]; lia].
    rewrite spread_single in E. qlra. }
  split.
  { intros (Hlow & Hhigh) H0 H1. unfold shapiroWilk.
    destruct (Nat.ltb_spec (length values) 3) as [|_]; [lia|].
    destruct (Nat.ltb_spec 5000 (length values)) as [|_]; [lia|].
    cbn [orb]. eexists. split; [reflexivity|]. cbn [statistic pValue].
    destruct (shapiroWilk_p_value drawn (length values) H0) as (Hp & Hgt).
    split; [reflexivity|]. split; [exact Hp|]. split; [exact Hgt|].
    intros others (Hlow' & Hhigh').
    destruct (Nat.ltb_spec (length others) 3) as [|_]; [lia|].
    destruct (Nat.ltb_spec 5000 (length others)) as [|_]; [lia|].
    reflexivity. }
  split.
  { intros Hout. unfold shapiroWilk.
    destruct (Nat.ltb_spec (length values) 3) as [|H3]; [reflexivity|].
    destruct (Nat.ltb_spec 5000 (length values)) as [|H5]; [reflexivity|]. lia. }
  split; [reflexivity|].
  split.
  { intros g Hg Hone.
    destruct (passed (homogeneityOf values groups)) eqn:Hpassed; [|reflexivity].
    pose proof (Htwo eq_refl g Hg). lia. }
  split; [exact Htwo|].
  unfold handleAssumptionsCheck. destruct groups as [|g gs]; cbn [length Nat.eqb negb].
  - rewrite andb_false_r. reflexivity.
  - rewrite andb_true_r. reflexivity.
Qed.

Lemma worker_assumption_checks_witness :
  (3 <= length [1; 2; 4] <= 5000)%nat /\ 0.9 <= 0.95 /\ 0.95 <= 1 /\
  exists result,
    shapiroWilk 0.95 [1; 2; 4] = Some result /\ statistic result = 0.95 /\
    0.05 < pValue result.
Proof.
  assert (Hsize : (3 <= length [1; 2; 4] <= 5000)%nat) by (cbn; lia).
  assert (Hlow : 0.9 <= 0.95) by (vm_compute; discriminate).
  assert (Hhigh : 0.95 <= 1) by (vm_compute; discriminate).
  split; [exact Hsize|]. split; [exact Hlow|]. split; [exact Hhigh|].
  destruct (proj1 (worker_assumption_checks 0.95 [1; 2; 4] [] {| checkNormality := true;
                                                                 checkHomogeneity := false;
                                                                 checkOutliers := false |})
              Hsize Hlow Hhigh)
    as (result & Hrun & Hstatistic & _ & Hp & _).
  exists result. split; [exact Hrun|]. split; [exact Hstatistic|exact Hp].
Defined.

End WorkerAssumptionProofs.

(** * Column analysis of the data validator *)

Module ColumnAnalysisProofs.
Import NumericSummary RankTests RankProofs JSObject ObjectFacts ColumnAnalysis.
Local Open Scope string_scope.

Section Library.
Variable parseFloat : string -> option Q.
Variable Math_sqrt : Q -> Q.
Variable Math_log2 : Q -> Q.

(** A cell that holds a value which reads as a number, and one that
    holds a value which does not. *)
Definition isNumeric (value : Cell) : bool :=
  negb (isMissing value) && match parseNumber parseFloat value with
                            | Some _ => true
                            | None => false
                            end.

Definition isOther (value : Cell) : bool :=
  negb (isMissing value) && match parseNumber parseFloat value with
                            | Some _ => false
                            | None => true
                            end.

Lemma omap_head {A B : Type} (f : A -> option B) (x : A) (l : list A) :
  omap f (x :: l) = match f x with
                    | Some y => y :: omap f l
                    | None => omap f l
                    end.
Proof. reflexivity. Qed.

Lemma numericValues_length (values : list Cell) :
  length (numericValuesOf parseFloat values) = length (List.filter isNumeric values).
Proof.
  unfold numericValuesOf. induction values as [|value values IH]; [reflexivity|].
  rewrite omap_head. cbn [List.filter]. unfold isNumeric at 1.
  destruct (isMissing value); cbn [negb andb]; [exact IH|].
  destruct (parseNumber parseFloat value); cbn [length]; [f_equal|]; exact IH.
Qed.

Lemma stringValues_length (values : list Cell) :
  length (stringValuesOf parseFloat values) = length (List.filter isOther values).
Proof.
  unfold stringValuesOf. induction values as [|value values IH]; [reflexivity|].
  rewrite omap_head. cbn [List.filter]. unfold isOther at 1.
  destruct value as [|s|x]; cbn [isMissing negb andb parseNumber]; [exact IH| |exact IH].
  destruct (String.eqb s ""); cbn [negb andb]; [exact IH|].
  destruct (parseFloat s) as [num|]; [exact IH|].
  destruct (parseFloat (replaceAll "٫" "." s)) as [num|]; [exact IH|].
  destruct (parseFloat (replaceAll "," "." s)) as [num|]; [exact IH|].
  cbn [length]. f_equal. exact IH.
Qed.

(** Every cell is missing, numeric or other, and one of these only. *)
Lemma cells_split (values : list Cell) :
  (length (List.filter isMissing values) + length (List.filter isNumeric values)
   + length (List.filter isOther values) = length values)%nat.
Proof.
  induction values as [|value values IH]; [reflexivity|].
  cbn [List.filter length]. unfold isNumeric at 1, isOther at 1.
  destruct (isMissing value); cbn [negb andb length]; [lia|].
  destruct (parseNumber parseFloat value); cbn [length]; lia.
Qed.

Lemma filter_nil_iff {A : Type} (p : A -> bool) (l : list A) :
  length (List.filter p l) = 0%nat <-> forall x, In x l -> p x = false.
Proof.
  induction l as [|y l IH]; cbn [List.filter].
  - split; [intros _ x []|reflexivity].
  - destruct (p y) eqn:E; cbn [length].
    + split; [discriminate|]. intros H. specialize (H y (or_introl eq_refl)). congruence.
    + rewrite IH. split.
      * intros H x [<-|Hx]; [exact E|apply H; exact Hx].
      * intros H x Hx. apply H. right. exact Hx.
Qed.

Lemma filter_some_iff {A : Type} (p : A -> bool) (l : list A) :
  (0 < length (List.filter p l))%nat <-> exists x, In x l /\ p x = true.
Proof.
  split.
  - intros Hpos. destruct (List.filter p l) as [|x rest] eqn:E; [simpl in Hpos; lia|].
    assert (Hin : In x (List.filter p l)) by (rewrite E; left; reflexivity).
    apply filter_In in Hin. exists x. exact Hin.
  - intros (x & Hx & Hp).
    assert (Hin : In x (List.filter p l)) by (apply filter_In; auto).
    destruct (List.filter p l); [destruct Hin|simpl; lia].
Qed.

Lemma numericStats_of_none :
  DataValidator.calculateNumericStats Math_sqrt [] = None.
Proof. reflexivity. Qed.

Lemma numericStats_of_some (numbers : list Q) :
  numbers <> [] -> DataValidator.calculateNumericStats Math_sqrt numbers <> None.
Proof.
  intros Hne. unfold DataValidator.calculateNumericStats.
  destruct numbers; [congruence|]. cbn [length Nat.eqb]. discriminate.
Qed.

Lemma categoricalStats_of_some (strings : list string) :
  strings <> [] -> calculateCategoricalStats Math_log2 strings <> None.
Proof.
  intros Hne. unfold calculateCategoricalStats.
  destruct strings; [congruence|]. cbn [length Nat.eqb]. discriminate.
Qed.

(** X27. [analyzeColumn] sorts the cells of a column into the missing
    ones (empty string, [null], [undefined]), those that [parseNumber]
    reads as a number and the others.  The type is 'numeric' exactly when
    no cell is of the third kind, so also for a column whose cells are
    all missing and for an empty column, 'categorical' exactly when there
    is a cell of the third kind and none of the second, and 'mixed'
    exactly when there are cells of both kinds.  The numeric statistics
    are those of the numbers read and the categorical statistics those of
    the other values, each [null] exactly when there is no such cell.  The
    completeness is the share of the cells that are not missing, in
    percent, and is [NaN] for an empty column. *)
Theorem analyzeColumn_classifies_cells (values : list Cell) (columnName : string) :
  let stats := analyzeColumn parseFloat Math_sqrt Math_log2 values columnName in
  let numbers := numericValuesOf parseFloat values in
  let strings := stringValuesOf parseFloat values in
  valueCount stats = length values /\
  missing stats = length (List.filter isMissing values) /\
  length numbers = length (List.filter isNumeric values) /\
  length strings = length (List.filter isOther values) /\
  (missing stats + length numbers + length strings = length values)%nat /\
  (type stats = "numeric" <-> forall value, In value values -> isOther value = false) /\
  (type stats = "categorical" <->
   (forall value, In value values -> isNumeric value = false) /\
   exists value, In value values /\ isOther value = true) /\
  (type stats = "mixed" <->
   (exists value, In value values /\ isNumeric value = true) /\
   exists value, In value values /\ isOther value = true) /\
  numericStats stats = DataValidator.calculateNumericStats Math_sqrt numbers /\
  categoricalStats stats = calculateCategoricalStats Math_log2 strings /\
  (numericStats stats = None <-> forall value, In value values -> isNumeric value = false) /\
  (categoricalStats stats = None <-> forall value, In value values -> isOther value = false) /\
  (values = [] -> completeness stats = NaN) /\
  (values <> [] ->
   exists share,
     completeness stats = Finite share /\
     (share == ofNat (length values - missing stats) / ofNat (length values) * 100)%Q /\
     (0 <= share <= 100)%Q).
Proof.
  intros stats numbers strings.
  pose proof (numericValues_length values) as Hnum.
  pose proof (stringValues_length values) as Hstr.
  pose proof (cells_split values) as Hsplit.
  fold numbers in Hnum. fold strings in Hstr.
  set (absent := length (List.filter isMissing values)) in *.
  set (numeric := length (List.filter isNumeric values)) in *.
  set (other := length (List.filter isOther values)) in *.
  assert (Hother0 : other = 0%nat <-> forall value, In value values -> isOther value = false)
    by apply filter_nil_iff.
  assert (Hnumeric0 : numeric = 0%nat <->
                      forall value, In value values -> isNumeric value = false)
    by apply filter_nil_iff.
  assert (Hother1 : (0 < other)%nat <-> exists value, In value values /\ isOther value = true)
    by apply filter_some_iff.
  assert (Hnumeric1 : (0 < numeric)%nat <->
                      exists value, In value values /\ isNumeric value = true)
    by apply filter_some_iff.
  assert (Hnumbers : numbers = [] <-> numeric = 0%nat)
    by (rewrite <- Hnum; destruct numbers; simpl; split; congruence || lia).
  assert (Hstrings : strings = [] <-> other = 0%nat)
    by (rewrite <- Hstr; destruct strings; simpl; split; congruence || lia).
  assert (Htype :
    type stats = (if (length numbers =? length values - absent)%nat then "numeric"
                  else if (length strings =? length values - absent)%nat then "categorical"
                       else "mixed")).
  { unfold stats, analyzeColumn. cbv zeta. fold numbers strings absent. cbn [type].
    destruct (length numbers =? length values - absent)%nat; [reflexivity|].
    destruct (length strings =? length values - absent)%nat; reflexivity. }
  assert (Hns : numericStats stats = DataValidator.calculateNumericStats Math_sqrt numbers).
  { unfold stats, analyzeColumn. cbv zeta. fold numbers strings absent. cbn [numericStats].
    destruct (Nat.eqb_spec (length numbers) (length values - absent)) as [E|E];
      [reflexivity|].
    destruct (Nat.eqb_spec (length strings) (length values - absent)) as [E'|E'];
      cbn [fst snd].
    - assert (Hn : numbers = []) by (apply Hnumbers; lia). rewrite Hn. reflexivity.
    - destruct (Nat.ltb_spec 0 (length numbers)) as [|Hz]; [reflexivity|].
      assert (Hn : numbers = []) by (apply Hnumbers; lia). rewrite Hn. reflexivity. }
  assert (Hcs : categoricalStats stats = calculateCategoricalStats Math_log2 strings).
  { unfold stats, analyzeColumn. cbv zeta. fold numbers strings absent. cbn [categoricalStats].
    destruct (Nat.eqb_spec (length numbers) (length values - absent)) as [E|E]; cbn [fst snd].
    - assert (Hs : strings = []) by (apply Hstrings; lia). rewrite Hs. reflexivity.
    - destruct (Nat.eqb_spec (length strings) (length values - absent)) as [E'|E'];
        cbn [fst snd]; [reflexivity|].
      destruct (Nat.ltb_spec 0 (length strings)) as [|Hz]; [reflexivity|].
      assert (Hs : strings = []) by (apply Hstrings; lia). rewrite Hs. reflexivity. }
  split; [reflexivity|]. split; [reflexivity|].
  split; [exact Hnum|]. split; [exact Hstr|].
  split; [change (missing stats) with absent; lia|].
  split.
  { rewrite Htype, <- Hother0.
    destruct (Nat.eqb_spec (length numbers) (length values - absent)) as [E|E].
    - split; [intros _; lia|reflexivity].
    - destruct (length strings =? length values - absent)%nat;
        (split; [discriminate|intros H; lia]). }
  split.
  { rewrite Htype, <- Hother1, <- Hnumeric0.
    destruct (Nat.eqb_spec (length numbers) (length values - absent)) as [E|E].
    - split; [discriminate|intros (H1 & H2); lia].
    - destruct (Nat.eqb_spec (length strings) (length values - absent)) as [E'|E'].
      + split; [intros _; lia|reflexivity].
      + split; [discriminate|intros (H1 & H2); lia]. }
  split.
  { rewrite Htype, <- Hother1, <- Hnumeric1.
    destruct (Nat.eqb_spec (length numbers) (length values - absent)) as [E|E].
    - split; [discriminate|intros (H1 & H2); lia].
    - destruct (Nat.eqb_spec (length strings) (length values - absent)) as [E'|E'].
      + split; [discriminate|intros (H1 & H2); lia].
      + split; [intros _; lia|reflexivity]. }
  split; [exact Hns|]. split; [exact Hcs|].
  split.
  { rewrite Hns, <- Hnumeric0, <- Hnumbers. split.
    - intros Hnone. destruct numbers as [|x rest] eqn:E; [reflexivity|].
      exfalso. apply (numericStats_of_some (x :: rest)); [discriminate|exact Hnone].
    - intros ->. reflexivity. }
  split.
  { rewrite Hcs, <- Hother0, <- Hstrings. split.
    - intros Hnone. destruct strings as [|x rest] eqn:E; [reflexivity|].
      exfalso. apply (categoricalStats_of_some (x :: rest)); [discriminate|exact Hnone].
    - intros ->. reflexivity. }
  split.
  { intros ->. reflexivity. }
  intros Hne.
  assert (Hlen : (0 < length values)%nat) by (destruct values; simpl; [congruence|lia]).
  assert (Hpos : (0 < ofNat (length values))%Q).
  { apply (Qlt_le_trans _ (ofNat 1)); [reflexivity|]. apply ofNat_le. lia. }
  unfold stats, analyzeColumn. cbv zeta. fold absent. cbn [completeness missing].
  unfold divide.
  destruct (Qeq_bool (ofNat (length values)) 0) eqn:Ez.
  { apply Qeq_bool_iff in Ez. exfalso. rewrite Ez in Hpos. apply (Qlt_irrefl 0). exact Hpos. }
  eexists. split; [reflexivity|]. split; [reflexivity|].
  assert (H0 : (0 <= ofNat (length values - absent))%Q) by (apply (ofNat_le 0); lia).
  assert (H1 : (ofNat (length values - absent) <= ofNat (length values))%Q)
    by (apply ofNat_le; lia).
  split.
  - apply Qmult_le_0_compat; [|discriminate].
    apply Qle_shift_div_l; [exact Hpos|]. rewrite Qmult_0_l. exact H0.
  - assert (Hshare : (ofNat (length values - absent) / ofNat (length values) <= 1)%Q).
    { apply Qle_shift_div_r; [exact Hpos|]. rewrite Qmult_1_l. exact H1. }
    apply (Qle_trans _ (1 * 100)); [|discriminate].
    apply Qmult_le_compat_r; [exact Hshare|discriminate].
Qed.

(** ** Frequencies *)

(** The number of times a string occurs in an array. *)
Definition timesIn (v : string) (values : list string) : nat :=
  length (List.filter (String.eqb v) values).

Lemma countOf_update (frequencies : list (string * nat)) (key : string) (n : nat) (v : string) :
  countOf (update frequencies key n) v
  = if String.eqb key v then n else countOf frequencies v.
Proof.
  unfold countOf. induction frequencies as [|[k c] rest IH]; cbn [update List.find fst snd].
  - destruct (String.eqb key v); reflexivity.
  - destruct (String.eqb_spec k key) as [->|Hk]; cbn [List.find fst snd].
    + destruct (String.eqb key v); reflexivity.
    + destruct (String.eqb_spec k v) as [->|Hv].
      * destruct (String.eqb_spec key v) as [E|_]; [congruence|reflexivity].
      * exact IH.
Qed.

Lemma keys_update (frequencies : list (string * nat)) (key : string) (n : nat) :
  List.map fst (update frequencies key n)
  = if existsb (String.eqb key) (List.map fst frequencies)
    then List.map fst frequencies
    else (List.map fst frequencies ++ [key])%list.
Proof.
  induction frequencies as [|[k c] rest IH]; cbn [update List.map fst existsb]; [reflexivity|].
  rewrite (String.eqb_sym key k).
  destruct (String.eqb_spec k key) as [->|Hk]; cbn [orb List.map fst]; [reflexivity|].
  rewrite IH. destruct (existsb (String.eqb key) (List.map fst rest)); reflexivity.
Qed.

Lemma total_replace (frequencies : list (string * nat)) (key : string) (n : nat) :
  (list_sum (List.map snd (update frequencies key n)) + countOf frequencies key
   = list_sum (List.map snd frequencies) + n)%nat.
Proof.
  unfold countOf. induction frequencies as [|[k c] rest IH].
  - simpl. lia.
  - cbn [update List.find fst].
    destruct (String.eqb_spec k key) as [->|Hk]; simpl in *; lia.
Qed.

Lemma total_update (frequencies : list (string * nat)) (key : string) :
  list_sum (List.map snd (update frequencies key (countOf frequencies key + 1)))
  = (list_sum (List.map snd frequencies) + 1)%nat.
Proof.
  pose proof (total_replace frequencies key (countOf frequencies key + 1)) as H. lia.
Qed.

Lemma existsb_eqb_In (key : string) (keys : list string) :
  existsb (String.eqb key) keys = true <-> In key keys.
Proof.
  rewrite existsb_exists. split.
  - intros (x & Hx & E). apply String.eqb_eq in E. subst x. exact Hx.
  - intros Hin. exists key. split; [exact Hin|apply String.eqb_refl].
Qed.

Lemma timesIn_app (v : string) (l m : list string) :
  timesIn v (l ++ m) = (timesIn v l + timesIn v m)%nat.
Proof. unfold timesIn. rewrite List.filter_app, length_app. reflexivity. Qed.

(** What the object of frequencies holds after the values [seen]. *)
Record counted (frequencies : list (string * nat)) (seen : list string) : Prop := {
  counted_keys : List.NoDup (List.map fst frequencies);
  counted_times : forall v, countOf frequencies v = timesIn v seen;
  counted_members : forall v, In v (List.map fst frequencies) <-> In v seen;
  counted_total : list_sum (List.map snd frequencies) = length seen
}.

Lemma counted_step (frequencies : list (string * nat)) (seen : list string) (v : string) :
  v <> "__proto__" ->
  counted frequencies seen ->
  counted (assign frequencies v (countOf frequencies v + 1)) (seen ++ [v]).
Proof.
  intros Hv [Hkeys Htimes Hmembers Htotal]. unfold assign.
  destruct (String.eqb_spec v "__proto__") as [E|_]; [congruence|].
  split.
  - rewrite keys_update.
    destruct (existsb (String.eqb v) (List.map fst frequencies)) eqn:E; [exact Hkeys|].
    apply List.NoDup_app; [exact Hkeys|repeat constructor; intros []|].
    intros x Hx [<-|[]].
    apply existsb_eqb_In in Hx. congruence.
  - intros w. rewrite countOf_update, timesIn_app, !Htimes.
    assert (Hone : timesIn w [v] = if String.eqb v w then 1%nat else 0%nat).
    { unfold timesIn. cbn [List.filter]. rewrite (String.eqb_sym w v).
      destruct (String.eqb v w); reflexivity. }
    rewrite Hone. destruct (String.eqb_spec v w) as [->|Hne]; lia.
  - intros w. rewrite keys_update, in_app_iff.
    destruct (existsb (String.eqb v) (List.map fst frequencies)) eqn:E.
    + apply existsb_eqb_In in E. rewrite Hmembers. split; [auto|].
      intros [Hw|[<-|[]]]; [exact Hw|apply Hmembers; exact E].
    + rewrite in_app_iff, Hmembers. reflexivity.
  - rewrite total_update, length_app, Htotal. reflexivity.
Qed.

Lemma counted_fold (values : list string) :
  forall frequencies seen,
    ~ In "__proto__" values ->
    counted frequencies seen ->
    counted (fold_left (fun frequencies value =>
                          assign frequencies value (countOf frequencies value + 1)%nat)
                       values frequencies)
            (seen ++ values).
Proof.
  induction values as [|v values IH]; intros frequencies seen Hproto Hc.
  - rewrite app_nil_r. exact Hc.
  - cbn [fold_left].
    replace (seen ++ v :: values)%list with ((seen ++ [v]) ++ values)%list
      by (rewrite <- app_assoc; reflexivity).
    apply IH.
    + intros Hin. apply Hproto. right. exact Hin.
    + apply counted_step; [|exact Hc]. intros E. apply Hproto. left. exact E.
Qed.

Lemma frequenciesOf_counted (values : list string) :
  ~ In "__proto__" values -> counted (frequenciesOf values) values.
Proof.
  intros Hproto. apply (counted_fold values [] [] Hproto).
  split; [constructor|reflexivity|intros v; split; intros []|reflexivity].
Qed.

Lemma counted_entry (frequencies : list (string * nat)) (seen : list string) (k : string)
  (c : nat) :
  counted frequencies seen -> In (k, c) frequencies -> c = timesIn k seen /\ (1 <= c)%nat.
Proof.
  intros [Hkeys Htimes Hmembers _] Hin.
  assert (Hc : countOf frequencies k = c).
  { clear Htimes Hmembers. unfold countOf.
    induction frequencies as [|[k' c'] rest IH]; [destruct Hin|].
    cbn [List.find fst]. cbn [List.map fst] in Hkeys. inversion Hkeys as [|? ? Hout Hrest]; subst.
    destruct Hin as [E|Hin].
    - injection E as -> ->. rewrite String.eqb_refl. reflexivity.
    - destruct (String.eqb_spec k' k) as [->|_].
      + exfalso. apply Hout. apply in_map_iff. exists (k, c). auto.
      + apply IH; assumption. }
  rewrite Htimes in Hc. split; [congruence|].
  assert (Hseen : In k seen).
  { apply Hmembers. apply in_map_iff. exists (k, c). auto. }
  rewrite <- Hc. unfold timesIn.
  assert (Hf : In k (List.filter (String.eqb k) seen))
    by (apply filter_In; split; [exact Hseen|apply String.eqb_refl]).
  destruct (List.filter (String.eqb k) seen); [destruct Hf|simpl; lia].
Qed.

Lemma list_sum_perm (l m : list nat) : Permutation l m -> list_sum l = list_sum m.
Proof.
  induction 1; simpl in *; lia.
Qed.

Lemma byCountDescending_total (a b : string * nat) :
  byCountDescending a b = true \/ byCountDescending b a = true.
Proof.
  unfold byCountDescending.
  destruct (Nat.leb_spec (snd b) (snd a)); [left; reflexivity|right].
  apply Nat.leb_le. lia.
Qed.

Lemma byCountDescending_trans (a b c : string * nat) :
  byCountDescending a b = true -> byCountDescending b c = true ->
  byCountDescending a c = true.
Proof.
  unfold byCountDescending. rewrite !Nat.leb_le. lia.
Qed.

(** X28. [calculateCategoricalStats] on a non-empty array of strings,
    none of them a name that an object inherits ([constructor],
    [toString], [__proto__], ...): the frequency table lists every distinct
    string once with the number of its occurrences and that number in
    percent of the length, the counts add up to the length, the table is
    in descending order of count, and the mode is a string that occurs
    most often, [modeCount] times. *)
Theorem categorical_stats_count_occurrences (values : list string) :
  values <> [] -> (forall v, In v values -> isInherited v = false) ->
  exists stats,
    calculateCategoricalStats Math_log2 values = Some stats /\
    List.NoDup (List.map value (frequencies stats)) /\
    (forall v, In v values <-> In v (List.map value (frequencies stats))) /\
    (forall entry, In entry (frequencies stats) ->
       count entry = timesIn (value entry) values /\ (1 <= count entry)%nat /\
       percentage entry = (ofNat (count entry) / ofNat (length values) * 100)%Q) /\
    list_sum (List.map count (frequencies stats)) = length values /\
    uniqueCount stats = length (frequencies stats) /\
    StronglySorted (fun a b => (count b <= count a)%nat) (frequencies stats) /\
    (forall v, (timesIn v values <= modeCount stats)%nat) /\
    exists most,
      In most values /\ timesIn most values = modeCount stats /\
      mode stats = (if String.eqb most "" then None else Some most) /\
      modePercentage stats = (ofNat (modeCount stats) / ofNat (length values) * 100)%Q.
Proof.
  intros Hne Hown.
  assert (Hproto : ~ In "__proto__" values).
  { intros Hin. specialize (Hown "__proto__" Hin). discriminate. }
  pose proof (frequenciesOf_counted values Hproto) as Hc.
  unfold calculateCategoricalStats.
  destruct (Nat.eqb_spec (length values) 0) as [E|_];
    [destruct values; [congruence|discriminate]|].
  cbv zeta.
  set (table := stable_sort byCountDescending (entries (frequenciesOf values))).
  set (row := fun entry : string * nat =>
                {| value := fst entry; count := snd entry;
                   percentage := (ofNat (snd entry) / ofNat (length values) * 100)%Q |}).
  assert (Hperm : Permutation table (frequenciesOf values)).
  { unfold table. rewrite stable_sort_perm. apply entries_perm. }
  assert (Hsorted : StronglySorted (fun a b => byCountDescending a b = true) table).
  { apply stable_sort_sorted; [apply byCountDescending_total|apply byCountDescending_trans]. }
  assert (Hvalues : List.map value (List.map row table) = List.map fst table)
    by (rewrite map_map; reflexivity).
  assert (Hcounts : List.map count (List.map row table) = List.map snd table)
    by (rewrite map_map; reflexivity).
  assert (Hkeys : Permutation (List.map fst table) (List.map fst (frequenciesOf values)))
    by (apply Permutation_map; exact Hperm).
  eexists. split; [reflexivity|]. cbn [frequencies uniqueCount mode modeCount modePercentage].
  split.
  { rewrite Hvalues. apply (Permutation_NoDup (Permutation_sym Hkeys)).
    apply (counted_keys _ _ Hc). }
  split.
  { intros v. rewrite Hvalues, <- (counted_members _ _ Hc v). split; intros Hin.
    - apply (Permutation_in _ (Permutation_sym Hkeys)). exact Hin.
    - apply (Permutation_in _ Hkeys). exact Hin. }
  assert (Hentry : forall entry, In entry table ->
            snd entry = timesIn (fst entry) values /\ (1 <= snd entry)%nat).
  { intros [k c] Hin. apply (Permutation_in _ Hperm) in Hin.
    apply (counted_entry _ _ k c Hc Hin). }
  split.
  { intros entry Hin. apply in_map_iff in Hin. destruct Hin as (e & <- & He).
    destruct (Hentry e He) as (H1 & H2). cbn [count value percentage row].
    split; [exact H1|]. split; [exact H2|reflexivity]. }
  split.
  { rewrite Hcounts, <- (counted_total _ _ Hc).
    assert (Hsum : Permutation (List.map snd table) (List.map snd (frequenciesOf values)))
      by (apply Permutation_map; exact Hperm).
    apply (list_sum_perm _ _ Hsum). }
  split; [reflexivity|].
  split.
  { clear -Hsorted. induction Hsorted as [|a l Hl IH Ha]; cbn [List.map]; constructor.
    - exact IH.
    - rewrite Forall_forall in *. intros f Hf. apply in_map_iff in Hf.
      destruct Hf as (e & <- & He). specialize (Ha e He).
      unfold byCountDescending in Ha. apply Nat.leb_le in Ha. exact Ha. }
  assert (Hsome : exists v, In v values)
    by (destruct values as [|v l]; [congruence|exists v; left; reflexivity]).
  destruct table as [|[k c] rest] eqn:Etable.
  { exfalso. destruct Hsome as (v & Hv).
    apply (counted_members _ _ Hc) in Hv.
    apply (Permutation_in _ (Permutation_sym Hkeys)) in Hv. destruct Hv. }
  cbn [List.map row value count percentage fst snd].
  destruct (Hentry (k, c) (or_introl eq_refl)) as (Hck & Hc1). cbn [fst snd] in Hck.
  assert (Hhead : forall entry, In entry rest -> (snd entry <= c)%nat).
  { inversion Hsorted as [|? ? _ Hall]; subst. rewrite Forall_forall in Hall.
    intros entry Hin. specialize (Hall entry Hin).
    unfold byCountDescending in Hall. apply Nat.leb_le in Hall. exact Hall. }
  assert (Hmax : forall v, (timesIn v values <= c)%nat).
  { intros v. destruct (in_dec string_dec v values) as [Hin|Hout].
    - apply (counted_members _ _ Hc) in Hin.
      apply (Permutation_in _ (Permutation_sym Hkeys)) in Hin.
      apply in_map_iff in Hin. destruct Hin as ([k' c'] & Ek & Hin). cbn [fst] in Ek. subst k'.
      destruct (Hentry (v, c') Hin) as (Hcv & _). cbn [fst snd] in Hcv. rewrite <- Hcv.
      destruct Hin as [E|Hin]; [injection E as E1 E2; lia|].
      apply (Hhead (v, c') Hin).
    - unfold timesIn.
      assert (E : List.filter (String.eqb v) values = []).
      { destruct (List.filter (String.eqb v) values) as [|x l] eqn:Ef; [reflexivity|].
        exfalso. assert (Hx : In x (List.filter (String.eqb v) values))
          by (rewrite Ef; left; reflexivity).
        apply filter_In in Hx. destruct Hx as (Hx & Ex). apply String.eqb_eq in Ex.
        subst x. contradiction. }
      rewrite E. simpl. lia. }
  split; [exact Hmax|].
  exists k. split.
  { apply (counted_members _ _ Hc). apply (Permutation_in _ Hkeys). left. reflexivity. }
  split; [symmetry; exact Hck|]. split; reflexivity.
Qed.

End Library.

(** A frequency table on an example. *)
Lemma categorical_stats_count_occurrences_witness :
  (forall v, In v ["b"; "a"; "b"] -> isInherited v = false) /\
  exists stats,
    calculateCategoricalStats (fun x => x) ["b"; "a"; "b"] = Some stats /\
    forall v, (timesIn v ["b"; "a"; "b"] <= modeCount stats)%nat.
Proof.
  assert (Hne : ["b"; "a"; "b"] <> []) by discriminate.
  assert (Hown : forall v, In v ["b"; "a"; "b"] -> isInherited v = false)
    by (intros v [<-|[<-|[<-|[]]]]; reflexivity).
  split; [exact Hown|].
  destruct (categorical_stats_count_occurrences (fun x => x) ["b"; "a"; "b"] Hne Hown)
    as (stats & Hrun & _ & _ & _ & _ & _ & _ & Hmax & _).
  exists stats. split; assumption.
Defined.

(** ** Validation of two columns *)

Section Analysis.
Variable parseFloat : string -> option Q.
Variable showNumber : Q -> string.
Variable categoricalColumn numericalColumn : string.

Definition groupOf (row : Row) : Cell := read row categoricalColumn.
Definition valueOf (row : Row) : Cell := read row numericalColumn.

(** The group labels and the numbers that the routine keeps, and the rows
    whose numeric cell holds something that is not a number. *)
Definition keptGroups (data : list Row) : list Cell :=
  List.filter (fun group => negb (isMissing group)) (List.map groupOf data).

Definition keptValues (data : list Row) : list Q :=
  omap (fun row => if isMissing (valueOf row) then None
                   else parseNumber parseFloat (valueOf row)) data.

Definition isInvalid (row : Row) : bool :=
  negb (isMissing (valueOf row)) && match parseNumber parseFloat (valueOf row) with
                                    | Some _ => false
                                    | None => true
                                    end.

Definition lacksGroup (row : Row) : bool := isMissing (groupOf row).
Definition lacksValue (row : Row) : bool := isMissing (valueOf row).

Lemma collect_step (state : Collected) (index : nat) (row : Row) :
  let next := collect parseFloat showNumber categoricalColumn numericalColumn state (index, row) in
  groupsSoFar next = (groupsSoFar state ++ keptGroups [row])%list /\
  valuesSoFar next = (valuesSoFar state ++ keptValues [row])%list /\
  length (errorsSoFar next)
  = (length (errorsSoFar state) + length (List.filter isInvalid [row]))%nat /\
  (forall message, In message (errorsSoFar state) -> In message (errorsSoFar next)).
Proof.
  unfold collect, keptGroups, keptValues, isInvalid. cbn [fst snd List.map List.filter].
  fold (groupOf row) (valueOf row). rewrite omap_head.
  destruct (isMissing (groupOf row)); destruct (isMissing (valueOf row));
    cbn [negb andb List.filter omap groupsSoFar valuesSoFar errorsSoFar length];
    try destruct (parseNumber parseFloat (valueOf row));
    cbn [groupsSoFar valuesSoFar errorsSoFar List.filter length omap];
    rewrite ?app_nil_r, ?length_app; cbn [length];
    (split; [reflexivity|split; [reflexivity|split; [lia|]]]);
    intros message Hin; try exact Hin; apply in_or_app; left; exact Hin.
Qed.

Lemma keptGroups_app (l m : list Row) : keptGroups (l ++ m) = (keptGroups l ++ keptGroups m)%list.
Proof. unfold keptGroups. rewrite List.map_app, List.filter_app. reflexivity. Qed.

Lemma keptValues_cons (row : Row) (data : list Row) :
  keptValues (row :: data) = (keptValues [row] ++ keptValues data)%list.
Proof.
  unfold keptValues. rewrite !omap_head.
  destruct (isMissing (valueOf row)); [reflexivity|].
  destruct (parseNumber parseFloat (valueOf row)); reflexivity.
Qed.

Lemma collect_fold (entries : list (nat * Row)) :
  forall state,
    let final := fold_left (collect parseFloat showNumber categoricalColumn numericalColumn)
                           entries state in
    groupsSoFar final = (groupsSoFar state ++ keptGroups (List.map snd entries))%list /\
    valuesSoFar final = (valuesSoFar state ++ keptValues (List.map snd entries))%list /\
    length (errorsSoFar final)
    = (length (errorsSoFar state) + length (List.filter isInvalid (List.map snd entries)))%nat.
Proof.
  induction entries as [|[index row] entries IH]; intros state.
  - cbn. rewrite !app_nil_r. auto.
  - cbn [fold_left List.map snd].
    destruct (collect_step state index row) as (Hg & Hv & He & _).
    destruct (IH (collect parseFloat showNumber categoricalColumn numericalColumn state
                    (index, row))) as (Hg' & Hv' & He').
    cbv zeta. rewrite Hg', Hv', He', Hg, Hv, He.
    rewrite (keptValues_cons row (List.map snd entries)).
    change (row :: List.map snd entries) with ([row] ++ List.map snd entries)%list.
    rewrite keptGroups_app, List.filter_app, length_app, <- !app_assoc.
    split; [reflexivity|]. split; [reflexivity|]. lia.
Qed.

Lemma rows_of_entries (data : list Row) :
  forall k, List.map snd (imap (fun index row => (k + index, row)%nat) data) = data.
Proof.
  induction data as [|row data IH]; intros k; [reflexivity|].
  change (imap ?f (row :: data)) with (f 0%nat row :: imap (f ∘ S) data).
  cbn [List.map snd]. f_equal.
  rewrite <- (IH (S k)) at 2. f_equal. apply imap_ext. intros i x _. simpl. f_equal. lia.
Qed.

Lemma rows_of_indexed (data : list Row) :
  List.map snd (imap (fun index row => (index, row)) data) = data.
Proof. exact (rows_of_entries data 0). Qed.

Lemma row_split (row : Row) :
  (length (keptGroups [row]) + length (List.filter lacksGroup [row]) = 1)%nat /\
  (length (keptValues [row]) + length (List.filter lacksValue [row])
   + length (List.filter isInvalid [row]) = 1)%nat.
Proof.
  unfold keptGroups, keptValues, lacksGroup, lacksValue, isInvalid.
  cbn [List.map List.filter]. rewrite omap_head.
  split.
  - destruct (isMissing (groupOf row)); reflexivity.
  - destruct (isMissing (valueOf row)); [reflexivity|].
    destruct (parseNumber parseFloat (valueOf row)); reflexivity.
Qed.

Lemma rows_split (data : list Row) :
  (length (keptGroups data) + length (List.filter lacksGroup data) = length data)%nat /\
  (length (keptValues data) + length (List.filter lacksValue data)
   + length (List.filter isInvalid data) = length data)%nat.
Proof.
  induction data as [|row data (IHg & IHv)]; [split; reflexivity|].
  destruct (row_split row) as (Hg & Hv).
  rewrite keptValues_cons.
  change (row :: data) with ([row] ++ data)%list.
  rewrite keptGroups_app, !List.filter_app, !length_app. cbn [length]. split; lia.
Qed.

(** X29. [validateDataForAnalysis] accepts the data exactly when there
    is a row, the first row has both columns, every numeric cell that is
    not missing reads as a number, and at least three cells do.  The
    groups it returns are the group cells that are not missing and the
    values the numbers read, each in the order of the rows and each kept
    or dropped on its own: a row that lacks its group still gives its
    value, and a row that lacks its value still gives its group. *)
Theorem validateDataForAnalysis_filters_columns (data : list Row) :
  let r := validateDataForAnalysis parseFloat showNumber data categoricalColumn
             numericalColumn in
  (valid r = true <->
   exists firstRow rest,
     data = firstRow :: rest /\
     hasColumn firstRow categoricalColumn = true /\
     hasColumn firstRow numericalColumn = true /\
     (forall row, In row data -> isInvalid row = false) /\
     (3 <= length (keptValues data))%nat) /\
  (valid r = true -> errors r = []) /\
  (forall gs vs,
     groups r = Some gs -> values r = Some vs ->
     gs = keptGroups data /\ vs = keptValues data /\
     (length gs + length (List.filter lacksGroup data) = length data)%nat /\
     (length vs + length (List.filter lacksValue data) + length (List.filter isInvalid data)
      = length data)%nat) /\
  (groups r = None <-> values r = None).
Proof.
  intros r. destruct data as [|firstRow rest] eqn:Edata.
  { cbn. split; [split; [discriminate|intros (f & l & H & _); discriminate]|].
    split; [discriminate|]. split; [intros gs vs H; discriminate|tauto]. }
  rewrite <- Edata in *.
  assert (Hrows := rows_split data).
  destruct (hasColumn firstRow categoricalColumn) eqn:Hcat;
    destruct (hasColumn firstRow numericalColumn) eqn:Hnum.
  2,3,4: unfold r, validateDataForAnalysis; rewrite Edata, Hcat, Hnum; cbn;
    (split; [split; [discriminate|
                     intros (f & l & Hd & Hc & Hn & _); injection Hd as <- <-; congruence]|]);
    (split; [discriminate|]); (split; [intros gs vs H; discriminate|tauto]).
  assert (Hrun : exists collected,
            collected = fold_left (collect parseFloat showNumber categoricalColumn
                                           numericalColumn)
                                  (imap (fun index row => (index, row)) data)
                                  {| groupsSoFar := []; valuesSoFar := []; errorsSoFar := [];
                                     warningsSoFar := [] |} /\
            valid r = (length (errorsSoFar collected
                               ++ (if (length (valuesSoFar collected) <? 3)%nat
                                   then [tooFewObservations] else []))%list =? 0)%nat /\
            errors r = (errorsSoFar collected
                        ++ (if (length (valuesSoFar collected) <? 3)%nat
                            then [tooFewObservations] else []))%list /\
            groups r = Some (groupsSoFar collected) /\
            values r = Some (valuesSoFar collected)).
  { eexists. split; [reflexivity|].
    unfold r, validateDataForAnalysis. rewrite Edata, Hcat, Hnum.
    cbn [negb app length Nat.ltb Nat.leb]. cbv zeta. cbn [valid errors groups values].
    rewrite <- Edata. repeat split; reflexivity. }
  destruct Hrun as (collected & Hcollected & Hvalid & Herrors & Hgroups & Hvalues).
  pose proof (collect_fold (imap (fun index row => (index, row)) data)
                {| groupsSoFar := []; valuesSoFar := []; errorsSoFar := [];
                   warningsSoFar := [] |}) as Hfold.
  cbv zeta in Hfold. rewrite <- Hcollected in Hfold.
  rewrite (rows_of_indexed data) in Hfold. cbn [groupsSoFar valuesSoFar errorsSoFar] in Hfold.
  destruct Hfold as (Hg & Hv & He). cbn [app length Nat.add] in Hg, Hv, He.
  assert (Hinvalid : length (List.filter isInvalid data) = 0%nat <->
                     forall row, In row data -> isInvalid row = false)
    by apply filter_nil_iff.
  split.
  { rewrite Hvalid, length_app, He, Hv, Nat.eqb_eq.
    destruct (Nat.ltb_spec (length (keptValues data)) 3) as [Hfew|Hmany]; cbn [length].
    - split; [lia|]. intros (f & l & _ & _ & _ & _ & H). lia.
    - split.
      + intros Hzero. exists firstRow, rest. split; [exact Edata|].
        split; [exact Hcat|]. split; [exact Hnum|].
        split; [apply Hinvalid; lia|exact Hmany].
      + intros (f & l & _ & _ & _ & Hall & _). apply Hinvalid in Hall. lia. }
  split.
  { rewrite Hvalid, Herrors, Nat.eqb_eq. apply length_zero_iff_nil. }
  split.
  { intros gs vs Hgs Hvs. rewrite Hgroups in Hgs. rewrite Hvalues in Hvs.
    injection Hgs as <-. injection Hvs as <-. rewrite Hg, Hv.
    split; [reflexivity|]. split; [reflexivity|]. exact Hrows. }
  rewrite Hgroups, Hvalues. split; discriminate.
Qed.

End Analysis.

End ColumnAnalysisProofs.

(** * Error reporting of the application *)

Module ErrorMessageProofs.
Import DataValidator ErrorMessages.

(** A string in which a pattern does not occur. *)
Definition free (pattern s : text) : Prop :=
  forall i, hasPrefix pattern (drop i s) = false.

(** A pattern of ordinary characters: not empty, without a line
    terminator. *)
Definition ordinary (pattern : text) : Prop :=
  pattern <> [] /\ forall c, In c pattern -> isLineTerminator c = false.

Lemma hasPrefix_eq (pattern : text) : forall s,
  hasPrefix pattern s = true -> take (length pattern) s = pattern.
Proof.
  induction pattern as [|p pattern IH]; intros s H; [reflexivity|].
  destruct s as [|c s]; [discriminate|]. cbn [hasPrefix] in H.
  apply andb_true_iff in H. destruct H as (Hc & Hs). apply N.eqb_eq in Hc. subst c.
  cbn [length take]. f_equal. apply IH. exact Hs.
Qed.

(** In a rest of line nothing is kept up to the next line terminator. *)
Lemma inMatch_prefix (q p : text) (s : text) :
  (forall c, In c p -> isLineTerminator c = false) ->
  hasPrefix p (removeToEndOfLine q true s) = true -> p = [].
Proof.
  intros Hp. induction s as [|c s IH]; cbn [removeToEndOfLine].
  - destruct p; [reflexivity|discriminate].
  - destruct (isLineTerminator c) eqn:Ec; [|exact IH].
    destruct p as [|x p]; [reflexivity|]. cbn [hasPrefix]. intros H.
    apply andb_true_iff in H. destruct H as (Hx & _). apply N.eqb_eq in Hx. subst x.
    rewrite (Hp c (or_introl eq_refl)) in Ec. discriminate.
Qed.

(** Outside a rest of line, what is kept next to each other stood next to
    each other. *)
Lemma kept_prefix (q : text) (s : text) : forall p,
  (forall c, In c p -> isLineTerminator c = false) ->
  hasPrefix p (removeToEndOfLine q false s) = true -> hasPrefix p s = true.
Proof.
  induction s as [|c s IH]; intros p Hp; cbn [removeToEndOfLine].
  - destruct p; [reflexivity|discriminate].
  - destruct (hasPrefix q (c :: s)) eqn:Eq.
    + intros H. apply (inMatch_prefix q p s Hp) in H. subst p. reflexivity.
    + destruct p as [|x p]; [reflexivity|]. cbn [hasPrefix]. intros H.
      apply andb_true_iff in H. destruct H as (Hx & Hrest).
      rewrite Hx. cbn [andb]. apply IH; [|exact Hrest].
      intros d Hd. apply Hp. right. exact Hd.
Qed.

(** Every rest of the result is the result of a rest. *)
Lemma drop_removed (q : text) (s : text) : forall inMatch i,
  exists inMatch' j,
    drop i (removeToEndOfLine q inMatch s) = removeToEndOfLine q inMatch' (drop j s).
Proof.
  induction s as [|c s IH]; intros inMatch i.
  - exists inMatch, 0%nat. cbn [removeToEndOfLine]. rewrite drop_nil. reflexivity.
  - destruct i as [|i]; [exists inMatch, 0%nat; reflexivity|].
    cbn [removeToEndOfLine].
    assert (Hkeep : forall mode,
              exists inMatch' j,
                drop (S i) (c :: removeToEndOfLine q mode s)
                = removeToEndOfLine q inMatch' (drop j (c :: s))).
    { intros mode. destruct (IH mode i) as (m & j & E). exists m, (S j). exact E. }
    assert (Hskip : forall mode,
              exists inMatch' j,
                drop (S i) (removeToEndOfLine q mode s)
                = removeToEndOfLine q inMatch' (drop j (c :: s))).
    { intros mode. destruct (IH mode (S i)) as (m & j & E). exists m, (S j). exact E. }
    destruct inMatch.
    + destruct (isLineTerminator c); [apply Hkeep|apply Hskip].
    + destruct (hasPrefix q (c :: s)); [apply Hskip|apply Hkeep].
Qed.

(** Removing a pattern brings in no pattern that was not there. *)
Lemma removed_keeps_free (q p : text) (s : text) (inMatch : bool) :
  ordinary p -> free p s -> free p (removeToEndOfLine q inMatch s).
Proof.
  intros (Hne & Hp) Hfree i.
  destruct (drop_removed q s inMatch i) as (m & j & E). rewrite E.
  destruct (hasPrefix p (removeToEndOfLine q m (drop j s))) eqn:H; [|reflexivity].
  exfalso. destruct m.
  - apply (inMatch_prefix q p _ Hp) in H. contradiction.
  - apply (kept_prefix q _ p Hp) in H. rewrite (Hfree j) in H. discriminate.
Qed.

(** The pattern removed does not occur in the result. *)
Lemma removed_is_free (q : text) (s : text) (inMatch : bool) :
  ordinary q -> free q (removeToEndOfLine q inMatch s).
Proof.
  intros (Hne & Hq) i.
  destruct (drop_removed q s inMatch i) as (m & j & E). rewrite E.
  destruct (hasPrefix q (removeToEndOfLine q m (drop j s))) eqn:H; [|reflexivity].
  exfalso. destruct m.
  - apply (inMatch_prefix q q _ Hq) in H. contradiction.
  - destruct (drop j s) as [|c rest] eqn:Es.
    + cbn [removeToEndOfLine] in H. destruct q; [contradiction|discriminate].
    + cbn [removeToEndOfLine] in H. destruct (hasPrefix q (c :: rest)) eqn:Eq.
      * apply (inMatch_prefix q q _ Hq) in H. contradiction.
      * assert (H' : hasPrefix q (removeToEndOfLine q false (c :: rest)) = true).
        { cbn [removeToEndOfLine]. rewrite Eq. exact H. }
        apply (kept_prefix q _ q Hq) in H'. congruence.
Qed.

(** Nothing is removed from a string without the pattern. *)
Lemma removed_nothing (q : text) (s : text) :
  free q s -> removeToEndOfLine q false s = s.
Proof.
  induction s as [|c s IH]; intros Hfree; [reflexivity|].
  cbn [removeToEndOfLine]. rewrite (Hfree 0%nat : hasPrefix q (c :: s) = false).
  f_equal. apply IH. intros i. exact (Hfree (S i)).
Qed.

Lemma removed_length (q : text) (s : text) : forall inMatch,
  (length (removeToEndOfLine q inMatch s) <= length s)%nat.
Proof.
  induction s as [|c s IH]; intros inMatch; [reflexivity|].
  cbn [removeToEndOfLine]. pose proof (IH true) as Ht. pose proof (IH false) as Hf.
  destruct inMatch; [destruct (isLineTerminator c)|destruct (hasPrefix q (c :: s))];
    cbn [length]; lia.
Qed.

Lemma ordinary_at : ordinary (codes "at ").
Proof.
  split; [discriminate|]. intros c [<-|[<-|[<-|[]]]]; reflexivity.
Qed.

Lemma ordinary_in : ordinary (codes "in ").
Proof.
  split; [discriminate|]. intros c [<-|[<-|[<-|[]]]]; reflexivity.
Qed.

(** The message before the context is put in front of it. *)
Definition cleaned (message : option text) : text :=
  removeToEndOfLine (codes "in ") false
    (removeToEndOfLine (codes "at ") false
       match message with
       | Some (c :: rest) => c :: rest
       | _ => unknownError
       end).

(** [`خطأ في ${context}: ${message}`] when there is a context *)
Definition introduced (context message : text) : text :=
  match context with
  | [] => message
  | _ => errorIn ++ context ++ codes ": " ++ message
  end.

(** X30. The message that [handleError] shows has at most 200 code
    units: it is the cleaned message behind its context, cut to 197 units
    and three dots when that is longer than 200.  In the cleaned message
    neither [at ] nor [in ] occurs, since from each of them on the line is
    dropped; a message in which they do not occur, as the Arabic messages
    of the application, is kept as it is, and an empty or absent message
    is replaced by the message of an unknown error.  The error log that
    [logError] writes has the new entry first and, once it has at most 50
    entries, never more than 50. *)
Theorem shown_error_is_short_and_clean (message : option text) (context : text) :
  let shown := sanitizeErrorMessage message context in
  let full := introduced context (cleaned message) in
  (length shown <= 200)%nat /\
  shown = (if (200 <? length full)%nat then firstn 197 full ++ codes "..." else full) /\
  free (codes "at ") (cleaned message) /\
  free (codes "in ") (cleaned message) /\
  (forall text,
     message = Some text -> text <> [] ->
     free (codes "at ") text -> free (codes "in ") text ->
     cleaned message = text) /\
  (message = None \/ message = Some [] -> cleaned message = unknownError) /\
  (forall (A : Type) (logs : list A) (errorLog : A),
     hd_error (logError logs errorLog) = Some errorLog /\
     ((length logs <= 50)%nat -> (length (logError logs errorLog) <= 50)%nat) /\
     (length (logError logs errorLog) <= length logs + 1)%nat /\
     exists dropped, (errorLog :: logs = logError logs errorLog ++ dropped)%list /\
                     (length dropped <= 1)%nat).
Proof.
  intros shown full.
  assert (Hshown : shown = (if (200 <? length full)%nat then firstn 197 full ++ codes "..."
                            else full)).
  { unfold shown, sanitizeErrorMessage, full, introduced, cleaned. cbv zeta.
    destruct context; reflexivity. }
  split.
  { rewrite Hshown. destruct (Nat.ltb_spec 200 (length full)) as [Hlong|Hshort]; [|exact Hshort].
    rewrite length_app, length_firstn. cbn [codes length List.map list_ascii_of_string]. lia. }
  split; [exact Hshown|].
  split.
  { unfold cleaned. apply removed_keeps_free; [exact ordinary_at|].
    apply removed_is_free. exact ordinary_at. }
  split.
  { unfold cleaned. apply removed_is_free. exact ordinary_in. }
  split.
  { intros text -> Hne Hat Hin. unfold cleaned. destruct text as [|c rest]; [congruence|].
    rewrite (removed_nothing _ _ Hat). apply (removed_nothing _ _ Hin). }
  split.
  { intros [-> | ->]; vm_compute; reflexivity. }
  intros A logs errorLog. unfold logError. cbv zeta.
  destruct (Nat.ltb_spec 50 (length (errorLog :: logs))) as [Hlong|Hshort].
  - cbn [length] in Hlong.
    destruct logs as [|entry logs]; [cbn [length] in Hlong; lia|].
    split; [reflexivity|].
    assert (Hlen : length (removelast (errorLog :: entry :: logs)) = length (entry :: logs)).
    { pose proof (app_removelast_last errorLog (l := errorLog :: entry :: logs)
                    ltac:(discriminate)) as E.
      apply (f_equal (@length A)) in E. rewrite length_app in E. cbn [length] in E.
      cbn [length]. lia. }
    split; [intros Hle; rewrite Hlen; exact Hle|].
    split; [rewrite Hlen; lia|].
    exists [last (errorLog :: entry :: logs) errorLog].
    split; [apply app_removelast_last; discriminate|cbn [length]; lia].
  - split; [reflexivity|]. split; [intros _; exact Hshort|].
    split; [cbn [length]; lia|]. exists []. rewrite app_nil_r. split; [reflexivity|cbn; lia].
Qed.

End ErrorMessageProofs.
